(* ===== verification/_CoqProject ===== *)
-Q . S2P
Prelude.v
GoStrings.v
GoStringsFacts.v
GoValues.v
GoValuesFacts.v
Logging.v
GobRegistry.v
GobFacts.v
Predicate.v
PredicateFacts.v
QueryMatch.v
QueryMatchFacts.v
SqlSemantics.v
CacheIndex.v
CacheIndexFacts.v
Metadata.v
LocalCache.v
CacheClient.v
LocalCacheFacts.v
RedisCache.v
RedisFacts.v
Invalidate.v
InvalidateFacts.v
Locker.v
LockerFacts.v
Config.v
ModelTypes.v
MetadataFacts.v
Freshness.v
SqlBuilder.v
Hooks.v
Crud.v
CrudFacts.v
WriteFacts.v
Query.v
QueryFacts.v
FetchFacts.v
LocalQuery.v
Coherence.v
CoherenceFacts.v
CoherenceBatch.v
CoherenceRuns.v
Overlap.v
SaveRaces.v
Relations.v
RelationsFacts.v
QueryPreload.v
FieldSelector.v
FieldSelectorFacts.v
Schema.v
SchemaFacts.v
Drivers.v
DriversFacts.v
Introspect.v
IntrospectFacts.v
Adapters.v
TableOps.v
Demos.v
DemoFacts.v
Witnesses.v
Examples.v
CrudExamples.v
QueryExamples.v
RelationsExamples.v
SelectorExamples.v
RedisExamples.v
SchemaExamples.v
DriversExamples.v
LockerExamples.v
IntrospectExamples.v
GobExamples.v
CoherenceExamples.v
PreloadExamples.v
RaceExamples.v
AdapterExamples.v
DemoExamples.v
