(* ===== verification/Prelude.v ===== *)
(** * Verification of the Thing ORM

    Thing is a Go ORM with a cache in front of the database: records are cached
    by primary key, the answers of list and count queries are cached by a key
    computed from the query, and every write invalidates the cached answers it
    may have changed.  This library models that core in Rocq, and proves that
    reads and writes keep the cache in agreement with the table.

    ** The parts of the program and where they are modelled

    - [Prelude]: errors ([common/errors.go]), results (a value, an error or a
      run-time panic) with their monad, the tactics and hints of the library.
    - [GoStrings], [GoStringsFacts], [GoValues], [GoValuesFacts]: what the code uses of the
      [strings], [strconv] and [reflect] packages: strings are byte strings,
      integers keep their width with wrap-around written out, floats are the
      IEEE doubles of [SpecFloat], an [interface{}] is an optional [goval], a
      struct is the list of its fields.  [deep_equal] is a partial equivalence.
    - [Logging]: [internal/logging/logging.go] and [logging.go], the logger, the
      level, and the level a message gets from its text.
    - [GobRegistry], [GobFacts]: [internal/utils/utils.go], the traversal that
      registers a model type and the types it is made of with gob, over a graph
      of type declarations.  It registers all of them, and never returns on a
      type that contains itself without a struct in between.
    - [Predicate], [PredicateFacts]: [internal/cache/query_predicate.go], the
      tokenizer and recursive-descent parser of WHERE clauses, the columns and
      exact values a clause names.  Parsing is total, uses each argument once
      and in order, and inverts a printer.
    - [QueryMatch], [QueryMatchFacts], [SqlSemantics]:
      [internal/cache/query_match.go], the evaluation of a clause on a model
      through reflection.  It depends only on the columns the clause names,
      and refines a reference semantics of SQL conditions.
    - [CacheIndex], [CacheIndexFacts]: [internal/cache/index.go], the registry
      of cached queries, as a record of nine finite maps.  Its invariant holds
      in every reachable state; the candidates of an invalidation contain
      every query that depends on the changed columns.
    - [Metadata], [MetadataFacts]: [internal/schema/metadata.go], the metadata
      of a struct type from its fields and tags.  It describes the values of
      the type.
    - [ModelTypes]: [internal/schema/keepitem.go], the rest of
      [internal/schema/metadata.go] and [NewThingByType]: which methods a type
      declares itself, the indexes its [Indexes] method returns, the table of
      metadata by type.
    - [LocalCache], [LocalCacheFacts]: [cache.go], the in-memory cache with
      expiry, locks and counters.  Round trips, expiry, the cleanup pass,
      mutual exclusion of its locks as an invariant of a step relation.
    - [CacheClient]: [interfaces.go], the cache interface as a class with its
      laws ([CacheLaws]), the local cache as an instance, and [WithLock].
    - [Invalidate], [InvalidateFacts], [Freshness]: [cache.go],
      [invalidateAffectedQueryCaches] and its four phases, written against the
      interface.  Completeness for every lawful client: a query that a write
      affects ([affected]) loses its entry, for clauses and orders on columns
      the code compares, and but for a list that already has the id, a list
      that cannot be read and a restored row ([missed]); then on the local
      cache with the computed metadata.
    - [SqlBuilder]: [internal/sqlbuilder/sqlbuilder.go], the statements, the
      expansion of IN clauses and the placeholders of the dialects.
    - [Hooks]: [hooks.go], the registry of listeners and their dispatch.
    - [Crud], [CrudFacts], [WriteFacts]: [crud.go], [model.go] and
      [internal/utils/diff.go]: reads by id with their batches, [Save],
      [SaveMany], [SoftDelete], [Delete], [DeleteMany].  Reads return the rows
      of the table, batches are atomic, a write leaves no affected entry (with
      the exceptions above), a record just saved is read back.
    - [Query], [QueryFacts], [FetchFacts], [LocalQuery]: [query.go], the cached lists and
      counts with [Fetch], [All], [First], [Count] and [CountPrecise], and the
      cache keys of [cache.go].  [Fetch] returns on every input, and never a
      model that the query must hide, whatever cache and database answer; [Count]
      reads through the local cache, whatever it holds; pages and counts are those
      of the table when the cache agrees with it, which the local cache keeps from
      the empty one on.
    - [Coherence], [CoherenceFacts], [CoherenceBatch], [CoherenceRuns]: the parts
      together.  The abstract specification is a table that answers every read
      itself; the implementation is the world of [Crud] and [Query] on the local
      cache.  One invariant ([coherent]) relates them: what the cache holds is
      what the table answers, and what it holds for a query is registered in the
      index.  Every read, write, batch, clearing and cleanup pass keeps it, so
      that every read of a reached world is the table's
      ([cached_reads_refine_table]).
    - [Overlap]: the two halves of a list read of [query.go], with whole
      operations of other goroutines in between: the cache stays coherent exactly
      when they did not change the list.
    - [SaveRaces]: two saves of one record whose statements and finalizations
      come in different orders: reads return the one finalized last.
    - [TableOps]: over a database that executes the statements of the ORM,
      [Save] and [Delete] are the insertion, replacement and removal of a row of
      the table, and return without error; the columns an update writes are those
      that changed.
    - [Locker], [LockerFacts]: [internal/cache/locker.go], the sharded mutexes,
      and the writers of phase 4 of an invalidation as a step relation that
      interleaves them.  No deadlock, mutual exclusion, termination; one writer
      alone is the sequential phase.
    - [Config]: [config.go] and [thing.go], the package variables, [Configure],
      [Use], [New] and [WithContext], and the logging a configuration chooses.
      What a reachable configuration has.
    - [Relations], [RelationsFacts]: [relationships.go], tags, [Load] and the
      preloading of belongsTo, hasMany and manyToMany.  Owners get the rows
      their keys name; a cached list of ids, which nothing invalidates, limits
      those of a hasMany, and a manyToMany loses them when its join lists are
      cached.
    - [QueryPreload]: [Fetch] of [query.go] with the relations a query names:
      the page of the plain query, each model with its related row.
    - [FieldSelector], [FieldSelectorFacts]: [json.go] and
      [internal/utils/orderedmap.go], the options, the parser of field lists,
      the serialisation of a value.  Options are shared by pointer, so they
      live in a store.  The parser inverts a printer, up to a description of
      the options that does not use it.
    - [RedisCache], [RedisFacts]: [drivers/cache/redis/client.go], over a server
      ([RedisServer], [RedisLaws]) and a codec ([GobCodec]); an instance of the
      cache interface with its laws, so that what is proved of every lawful
      client holds of Redis.
    - [Schema], [SchemaFacts]: [internal/schema/generate.go], [auto.go] and
      [migrate.go], the statements of a schema and of a migration.  Migrating
      keeps columns, and converges when the statements are executed, up to
      types that a database reports by another name.
    - [Drivers], [DriversFacts]: [internal/dbscan/scan.go] and the SQLite, MySQL
      and PostgreSQL adapters, over [database/sql] ([SqlConn]).  Scanned rows
      agree with the metadata.
    - [Introspect], [IntrospectFacts]: the introspectors of the three drivers.
      The SQLite one reports a table as it is, types as they were written.
    - [Adapters]: the dialect, builder and connections of the three adapters, and
      the introspectors that the driver packages register when they are loaded.
      The migration of a configured adapter uses those of its own driver.
    - [Demos], [DemoFacts]: the programs under [examples/], in a monad of programs
      that print and may end early.  What each does from its first line to its
      last: the first stops at its migration, because it configures no database.
    - [Witnesses] and the files named [...Examples]: concrete models, caches,
      servers and databases on which the hypotheses of the theorems hold.

    ** How state and effects are modelled

    The program's state is a [world]: the cache client, the index of queries
    and the database.  An operation takes a world and returns the new one with
    a result; a model passed by pointer and changed in place is returned too.
    The database is a parameter ([DBAdapter]): what an adapter answers to a
    statement; what [database/sql] documents about transactions is the class
    [TxLaws].  Also parameters are what Go leaves to the platform
    ([GoPlatform]), what gob does to the values the model keeps opaque
    ([Gob]), the methods of the model type ([ModelOps]), and, for the local
    cache, the clock and the choices of [select] ([env_step]).  A map that Go
    ranges over in an unspecified order is read in the order of its elements.

    Recursion that is not structural has fuel: the tokenizer and the parser get
    the length of their input, and [where_parser_total] shows that it is
    enough; the batches of a read get the number of missing ids, each batch
    consuming at least one ([fetch_batches_spec]); the loop of [Fetch] gets the
    number of offsets left, and [Fetch_returns] shows that it is enough.  The
    scan of [CountPrecise] takes its fuel as an argument, since nothing in the
    code bounds it; [countByFullScan_correct] says how much is enough when the
    database answers pages of one list.  The parser of field lists does not end
    on some inputs: [None] is a run that has not returned, fuel above the length
    of the text is enough for the texts that are printed selections
    ([ParseFieldsDSL_print]), and none is enough for a stray brace.  The
    serialisation gets the size of its value ([ToJSON_returns]), the scan of a
    Redis prefix the number of pages of the server ([redis_DeleteByPrefix_spec]).
    The traversal of types gets [traversal_fuel], the nesting depth for every
    type not yet processed ([gob_registration]); [None] is again a run that has
    not returned, and no fuel is enough on a type that contains itself
    ([gob_registration_diverges]).

    ** What is not modelled

    The text [encoding/json] gives to plain values, and the text a logger
    writes; the method sets of a type and the source files the Go runtime
    reports for them, which are parameters of [ModelTypes]; functions that
    nothing calls ([IsZero], [NewPtr] and [ToPtr] of [utils.go], the zero
    checkers of [metadata.go], the first key locker of [cache.go]). [All] and
    [First] are modelled without relations. Nil models and a nil cache are
    excluded: [New] refuses them. The models of a batch are distinct objects. A
    model embeds [BaseModel] directly. The invariant of [Coherence] is for
    models with the default [KeepItem], and its steps are whole operations:
    operations of several goroutines are interleaved only in [Overlap], in
    [SaveRaces], in [Locker] and in the locks of the two caches. Left open:
    coherence for models with their own [KeepItem], for several models behind
    one cache, and on Redis. *)

From stdpp Require Export base tactics option list gmap strings sets.
From Stdlib Require Export ZArith Ascii.

(** ** Errors (common/errors.go and the [errors]/[fmt] packages)

    The sentinels the ORM compares with [errors.Is] are constructors.  Every
    other error is [ErrMsg] with the constant part of its message; an error
    made by [fmt.Errorf("...: %w", e)] is [ErrWrap]. *)
Inductive goerr : Type :=
  | ErrNotFound
  | ErrLockNotAcquired
  | ErrCacheNoneResult
  | ErrQueryCacheNoneResult
  | ErrMsg (msg : string)
  | ErrWrap (msg : string) (e : goerr).

#[export] Instance goerr_eq_dec : EqDecision goerr.
Proof. solve_decision. Defined.

(** [errors.Is]: equality with the target at some level of wrapping. *)
Fixpoint errors_Is (e target : goerr) : bool :=
  bool_decide (e = target) ||
  match e with
  | ErrWrap _ e' => errors_Is e' target
  | _ => false
  end.

(** [common.NoneResult], the marker of a known-missing record. *)
Definition NoneResult : string := "__thing_none__".

(** ** Results: a value, an error, or a run-time panic *)
Inductive result (A : Type) : Type :=
  | Ok (a : A)
  | Err (e : goerr)
  | Panic (msg : string).
Arguments Ok {A} a.
Arguments Err {A} e.
Arguments Panic {A} msg.

#[export] Instance result_ret : MRet result := λ A a, Ok a.
#[export] Instance result_bind : MBind result := λ A B f r,
  match r with Ok a => f a | Err e => Err e | Panic m => Panic m end.
#[export] Instance result_fmap : FMap result := λ A B f r,
  match r with Ok a => Ok (f a) | Err e => Err e | Panic m => Panic m end.

Definition is_Ok {A} (r : result A) : bool :=
  match r with Ok _ => true | _ => false end.

(** ** Proof automation of the development *)

Create HintDb thing.

(** Break one [match]/[if] of the goal or of a hypothesis and clean up. *)
Ltac break_step :=
  match goal with
  | H : context [ match ?x with _ => _ end ] |- _ =>
      lazymatch x with context [ match _ with _ => _ end ] => fail | _ => destruct x eqn:? end
  | |- context [ match ?x with _ => _ end ] =>
      lazymatch x with context [ match _ with _ => _ end ] => fail | _ => destruct x eqn:? end
  end.

Ltac break := repeat (break_step; simplify_eq/=).

(** Turn boolean tests of hypotheses into propositions. *)
Ltac bools :=
  repeat match goal with
  | H : bool_decide _ = true |- _ => apply bool_decide_eq_true in H
  | H : bool_decide _ = false |- _ => apply bool_decide_eq_false in H
  | H : (_ && _) = true |- _ => apply andb_true_iff in H as [? ?]
  | H : (_ || _) = false |- _ => apply orb_false_iff in H as [? ?]
  | H : negb _ = true |- _ => apply negb_true_iff in H
  | H : negb _ = false |- _ => apply negb_false_iff in H
  | H : (_ =? _)%string = true |- _ => apply String.eqb_eq in H
  | H : (_ =? _)%string = false |- _ => apply String.eqb_neq in H
  | H : (_ =? _)%Z = true |- _ => apply Z.eqb_eq in H
  | H : (_ =? _)%Z = false |- _ => apply Z.eqb_neq in H
  | H : (_ <=? _)%Z = true |- _ => apply Z.leb_le in H
  | H : (_ <=? _)%Z = false |- _ => apply Z.leb_gt in H
  | H : (_ <? _)%Z = true |- _ => apply Z.ltb_lt in H
  | H : (_ <? _)%Z = false |- _ => apply Z.ltb_ge in H
  | H : (_ <=? _)%nat = true |- _ => apply Nat.leb_le in H
  | H : (_ <=? _)%nat = false |- _ => apply Nat.leb_gt in H
  | H : (_ <? _)%nat = true |- _ => apply Nat.ltb_lt in H
  | H : (_ <? _)%nat = false |- _ => apply Nat.ltb_ge in H
  end.

(** ** Lemmas the components share *)

Lemma errors_Is_refl e : errors_Is e e = true.
Proof. destruct e; unfold errors_Is; by rewrite bool_decide_true. Qed.
#[export] Hint Resolve errors_Is_refl : thing.

Lemma result_bind_Ok {A B} (f : A → result B) (r : result A) b :
  r ≫= f = Ok b ↔ ∃ a, r = Ok a ∧ f a = Ok b.
Proof.
  destruct r; simpl; split; try done; eauto.
  - by intros (?&[= ->]&?).
  - by intros (?&?&?).
  - by intros (?&?&?).
Qed.

Lemma NoDup_fmap_inj_on {A B} (g : A → B) l x y : NoDup (g <$> l) → x ∈ l → y ∈ l → g x = g y → x = y.
Proof.
  induction l as [|a l IH]; intros Hnd Hx Hy Hg; [by apply elem_of_nil in Hx|].
  apply NoDup_cons in Hnd as [Ha Hnd].
  assert (∀ z, z ∈ l → g a ≠ g z) as Hne by (intros z Hz E; apply Ha; rewrite E; by apply list_elem_of_fmap_2).
  apply elem_of_cons in Hx as [->|Hx]; apply elem_of_cons in Hy as [->|Hy];
    [done|by destruct (Hne y)|by destruct (Hne x)|by apply IH].
Qed.
