(* ===== verification/GoStrings.v ===== *)
(** * Go strings: the parts of [strings] and [strconv] the ORM calls

    A Go string is a sequence of bytes; here it is Rocq's [string], whose
    characters are bytes.  [TrimSpace], [Fields], [ToUpper], [ToLower] and
    [EqualFold] follow Go on ASCII bytes and leave bytes from 128 on alone
    (Go decodes them as UTF-8 first, so the two agree on ASCII text).  An
    index [i] into a string that a loop advances is represented by the suffix
    [s[i:]].  [ParseInt], [FormatInt] and [ParseFloat] follow [strconv]; the
    value of a float literal is the correctly rounded binary64 number, as a
    [spec_float]. *)

From Stdlib Require Import SpecFloat.
From S2P Require Import Prelude.

Open Scope string_scope.

(** ** Bytes *)

Definition byte_in (c : ascii) (s : string) : bool :=
  bool_decide (c ∈ String.list_ascii_of_string s).

Definition code (c : ascii) : Z := Z.of_N (N_of_ascii c).

(** The ASCII bytes for which [unicode.IsSpace] holds. *)
Definition is_space (c : ascii) : bool :=
  let n := code c in ((9 <=? n) && (n <=? 13) || (n =? 32))%Z.

Definition is_digit (c : ascii) : bool :=
  let n := code c in ((48 <=? n) && (n <=? 57))%Z.
Definition is_upper (c : ascii) : bool :=
  let n := code c in ((65 <=? n) && (n <=? 90))%Z.
Definition is_lower (c : ascii) : bool :=
  let n := code c in ((97 <=? n) && (n <=? 122))%Z.

Definition to_upper (c : ascii) : ascii :=
  if is_lower c then ascii_of_N (N_of_ascii c - 32) else c.
Definition to_lower (c : ascii) : ascii :=
  if is_upper c then ascii_of_N (N_of_ascii c + 32) else c.

Fixpoint string_map (f : ascii → ascii) (s : string) : string :=
  match s with
  | "" => ""
  | String c s' => String (f c) (string_map f s')
  end.

Definition ToUpper (s : string) : string := string_map to_upper s.
Definition ToLower (s : string) : string := string_map to_lower s.
Definition EqualFold (s t : string) : bool := ToLower s =? ToLower t.

(** ** Prefixes, suffixes, substrings *)

Definition HasPrefix (s p : string) : bool := String.prefix p s.

Fixpoint HasSuffix (s p : string) : bool :=
  (s =? p) || match s with "" => false | String _ s' => HasSuffix s' p end.

Fixpoint Contains (s sub : string) : bool :=
  HasPrefix s sub || match s with "" => false | String _ s' => Contains s' sub end.

Fixpoint ContainsAny (s chars : string) : bool :=
  match s with
  | "" => false
  | String c s' => byte_in c chars || ContainsAny s' chars
  end.

Fixpoint drop_str (n : nat) (s : string) : string :=
  match n, s with
  | S n', String _ s' => drop_str n' s'
  | _, _ => s
  end.

Fixpoint take_str (n : nat) (s : string) : string :=
  match n, s with
  | S n', String c s' => String c (take_str n' s')
  | _, _ => ""
  end.

Definition TrimPrefix (s p : string) : string :=
  if HasPrefix s p then drop_str (String.length p) s else s.

Definition TrimSuffix (s p : string) : string :=
  if HasSuffix s p then take_str (String.length s - String.length p) s else s.

(** [strings.TrimLeftFunc], [TrimRightFunc] and [TrimFunc] *)
Fixpoint trim_left (f : ascii → bool) (s : string) : string :=
  match s with
  | String c s' => if f c then trim_left f s' else s
  | "" => ""
  end.

Fixpoint trim_right (f : ascii → bool) (s : string) : string :=
  match s with
  | "" => ""
  | String c s' =>
      let r := trim_right f s' in
      if f c && (r =? "") then "" else String c r
  end.

Definition trim_func (f : ascii → bool) (s : string) : string :=
  trim_right f (trim_left f s).

Definition TrimSpace (s : string) : string := trim_func is_space s.
Definition Trim (s cutset : string) : string := trim_func (λ c, byte_in c cutset) s.

(** ** Splitting and joining *)

(** [strings.Split(s, string(sep))] for a one-byte separator. *)
Fixpoint Split (s : string) (sep : ascii) : list string :=
  match s with
  | "" => [""]
  | String c s' =>
      if bool_decide (c = sep) then "" :: Split s' sep
      else match Split s' sep with
           | [] => [String c ""]
           | w :: ws => String c w :: ws
           end
  end.

(** The words of [s] between runs of bytes satisfying [f], empty words
    dropped; [cur] is the word being read. *)
Fixpoint words (f : ascii → bool) (cur s : string) : list string :=
  match s with
  | "" => if cur =? "" then [] else [cur]
  | String c s' =>
      if f c then (if cur =? "" then words f "" s' else cur :: words f "" s')
      else words f (cur +:+ String c "") s'
  end.

Definition Fields (s : string) : list string := words is_space "" s.

Fixpoint Join (l : list string) (sep : string) : string :=
  match l with
  | [] => ""
  | [x] => x
  | x :: l' => x +:+ sep +:+ Join l' sep
  end.

(** ** Integers: [strconv.FormatInt(z, 10)] and [strconv.ParseInt(s, 10, 64)] *)

Definition min_int64 : Z := (- 2 ^ 63)%Z.
Definition max_int64 : Z := (2 ^ 63 - 1)%Z.
Definition max_uint64 : Z := (2 ^ 64 - 1)%Z.

Definition int64_range (z : Z) : bool := ((min_int64 <=? z) && (z <=? max_int64))%Z.

Definition digit_char (n : N) : ascii := ascii_of_N (48 + n).

Fixpoint format_pos_fuel (fuel : nat) (n : N) (acc : string) : string :=
  match fuel with
  | O => acc
  | S f =>
      let acc' := String (digit_char (n mod 10)) acc in
      if (n / 10 =? 0)%N then acc' else format_pos_fuel f (n / 10) acc'
  end.

Definition FormatUint (n : N) : string :=
  format_pos_fuel (S (N.size_nat n)) n "".

Definition FormatInt (z : Z) : string :=
  match z with
  | Zneg p => String "-" (FormatUint (Npos p))
  | _ => FormatUint (Z.to_N z)
  end.

(** All bytes are digits: the value, most significant digit first. *)
Fixpoint digits_value (acc : Z) (s : string) : option Z :=
  match s with
  | "" => Some acc
  | String c s' =>
      if is_digit c then digits_value (10 * acc + (code c - 48)) s' else None
  end.

Definition parse_digits (s : string) : option Z :=
  if s =? "" then None else digits_value 0 s.

Definition ParseInt (s : string) : option Z :=
  let '(neg, body) :=
    match s with
    | String "+" s' => (false, s')
    | String "-" s' => (true, s')
    | _ => (false, s)
    end in
  match parse_digits body with
  | Some v =>
      let z := if neg : bool then (- v)%Z else v in
      if int64_range z then Some z else None
  | None => None
  end.

(** ** Floats: [strconv.ParseFloat(s, 64)] *)

Definition float64 := spec_float.

(** The binary64 number nearest to [± num / den] (ties to even). *)
Definition float_of_ratio (neg : bool) (num den : Z) : float64 :=
  if (num =? 0)%Z then S754_zero neg
  else let '(q, e, loc) := SFdiv_core_binary 53 1024 num 0 den 0 in
       binary_round_aux 53 1024 neg q e loc.

Definition ascii_eq (a b : ascii) : bool := Ascii.eqb a b.
Definition hex_value (c : ascii) : option Z :=
  let l := to_lower c in
  if is_digit c then Some (code c - 48)%Z
  else if ((97 <=? code l) && (code l <=? 102))%Z then Some (code l - 87)%Z
  else None.

(** What [readFloat] accumulates over the mantissa. *)
Record mantissa := Mantissa {
  mant : Z;            (** all digits read, as a number *)
  frac_digits : Z;     (** how many of them follow the dot *)
  sawdot : bool; sawdigits : bool; underscores : bool
}.

(** The mantissa loop of [readFloat]: digits, underscores and one dot. *)
Fixpoint scan_mantissa (hex : bool) (a : mantissa) (s : string) : mantissa * string :=
  match s with
  | "" => (a, s)
  | String c s' =>
      if ascii_eq c "_" then
        scan_mantissa hex (Mantissa (mant a) (frac_digits a) (sawdot a) (sawdigits a) true) s'
      else if ascii_eq c "." then
        if sawdot a then (a, s)
        else scan_mantissa hex (Mantissa (mant a) (frac_digits a) true (sawdigits a) (underscores a)) s'
      else match (if hex then hex_value c else if is_digit c then Some (code c - 48)%Z else None) with
           | Some d =>
               scan_mantissa hex
                 (Mantissa ((if hex then 16 else 10) * mant a + d)%Z
                    (if sawdot a then frac_digits a + 1 else frac_digits a)%Z
                    (sawdot a) true (underscores a)) s'
           | None => (a, s)
           end
  end.

(** The exponent loop: digits and underscores, the value capped as in Go. *)
Fixpoint scan_exponent (e : Z) (us : bool) (s : string) : Z * bool * string :=
  match s with
  | String c s' =>
      if is_digit c then
        scan_exponent (if (e <? 10000)%Z then e * 10 + (code c - 48) else e)%Z us s'
      else if ascii_eq c "_" then scan_exponent e true s'
      else (e, us, s)
  | "" => (e, us, s)
  end.

(** [underscoreOK]: underscores only between digits (the base prefix counts
    as a digit).  [prev] is the class of the previous byte. *)
Inductive uclass := UBegin | UDigit | UUnder | UOther.
Fixpoint underscore_scan (hex : bool) (prev : uclass) (s : string) : bool :=
  match s with
  | "" => match prev with UUnder => false | _ => true end
  | String c s' =>
      if is_digit c || (hex && bool_decide (is_Some (hex_value c))) then
        underscore_scan hex UDigit s'
      else if ascii_eq c "_" then
        match prev with UDigit => underscore_scan hex UUnder s' | _ => false end
      else match prev with UUnder => false | _ => underscore_scan hex UOther s' end
  end.
Definition strip_sign (s : string) : bool * string :=
  match s with
  | String "-" s' => (true, s')
  | String "+" s' => (false, s')
  | _ => (false, s)
  end.
Definition underscoreOK (s : string) : bool :=
  let s := (strip_sign s).2 in
  match s with
  | String "0" (String b s') =>
      let l := to_lower b in
      if ascii_eq l "b" || ascii_eq l "o" || ascii_eq l "x"
      then underscore_scan (ascii_eq l "x") UDigit s'
      else underscore_scan false UBegin s
  | _ => underscore_scan false UBegin s
  end.

(** The exponent part: [None] is a syntax error. *)
Definition read_exponent (hex : bool) (us : bool) (s : string) : option (Z * bool * string) :=
  match s with
  | String c s' =>
      if ascii_eq (to_lower c) (if hex then "p" else "e") then
        let '(eneg, s2) := strip_sign s' in
        match s2 with
        | String d _ =>
            if is_digit d then
              let '(e, us', rest) := scan_exponent 0 us s2 in
              Some ((if eneg then - e else e)%Z, us', rest)
            else None
        | "" => None
        end
      else if hex then None else Some (0%Z, us, s)
  | "" => if hex then None else Some (0%Z, us, s)
  end.

(** [readFloat] on the whole string: the number it denotes, before the
    range check.  A byte that is left over is a syntax error. *)
Definition read_number (s : string) : option float64 :=
  let '(neg, s0) := strip_sign s in
  let '(hex, body) :=
    match s0 with
    | String "0" (String x (String _ _ as s1)) =>
        if ascii_eq (to_lower x) "x" then (true, s1) else (false, s0)
    | _ => (false, s0)
    end in
  let '(m, r1) := scan_mantissa hex (Mantissa 0 0 false false false) body in
  if negb (sawdigits m) then None
  else match read_exponent hex (underscores m) r1 with
       | Some (e, us, "") =>
           if us && negb (underscoreOK s) then None
           else let p := (if hex then e - 4 * frac_digits m else e - frac_digits m)%Z in
                let base := (if hex then 2 else 10)%Z in
                Some (if (0 <=? p)%Z then float_of_ratio neg (mant m * base ^ p) 1
                      else float_of_ratio neg (mant m) (base ^ (- p)))
       | _ => None
       end.

(** The special values: [inf], [infinity] (signed or not) and [nan]. *)
Definition special_float (s : string) : option float64 :=
  let '(neg, b) := strip_sign s in
  if EqualFold b "inf" || EqualFold b "infinity" then Some (S754_infinity neg)
  else if EqualFold s "nan" then Some S754_nan
  else None.

Definition ParseFloat (s : string) : option float64 :=
  match special_float s with
  | Some f => Some f
  | None => match read_number s with
            | Some (S754_infinity _) => None (* ErrRange *)
            | r => r
            end
  end.
