(* ===== verification/GoStringsFacts.v ===== *)
(** * Printing and parsing integers

    [strconv.ParseInt] inverts [strconv.FormatInt] on 64-bit integers, so that
    printing is injective: what the cache relies on for cached counts and for
    the keys of records. *)

From S2P Require Import Prelude GoStrings.

Open Scope string_scope.

Lemma digit_cases (d : N) : (d < 10)%N → d ∈ [0; 1; 2; 3; 4; 5; 6; 7; 8; 9]%N.
Proof. intros Hd. rewrite !elem_of_cons. lia. Qed.

Ltac digits d Hd :=
  apply digit_cases in Hd; repeat (apply elem_of_cons in Hd as [->|Hd]); [..|by apply elem_of_nil in Hd].

Lemma digit_char_spec d : (d < 10)%N → is_digit (digit_char d) = true ∧ (code (digit_char d) - 48 = Z.of_N d)%Z.
Proof. intros Hd. digits d Hd; done. Qed.

(** The digits of [n] in front of [acc]. *)
Lemma digits_value_format fuel n acc a :
  (n < 10 ^ N.of_nat fuel)%N → (0 < fuel)%nat →
  ∃ k, digits_value a (format_pos_fuel fuel n acc) = digits_value (a * 10 ^ Z.of_nat k + Z.of_N n) acc.
Proof.
  revert n acc. induction fuel as [|fuel IH]; intros n acc Hn Hf; [lia|]. cbn [format_pos_fuel].
  assert (Hmod : (n mod 10 < 10)%N) by (apply N.mod_lt; lia).
  destruct (digit_char_spec _ Hmod) as [Hdig Hval].
  pose proof (N.div_mod n 10 ltac:(lia)) as Hdm.
  destruct (N.eqb_spec (n / 10) 0) as [E|E].
  - exists 1%nat. cbn [digits_value]. rewrite Hdig, Hval. f_equal. lia.
  - destruct fuel as [|fuel']; [exfalso; apply E; apply N.div_small; simpl in Hn; lia|].
    destruct (IH (n / 10)%N (String (digit_char (n mod 10)) acc)) as [k Hk]; [|lia|].
    + apply N.Div0.div_lt_upper_bound. rewrite Nat2N.inj_succ, N.pow_succ_r' in Hn. lia.
    + exists (S k). rewrite Hk. cbn [digits_value]. rewrite Hdig, Hval. f_equal.
      rewrite Nat2Z.inj_succ, Z.pow_succ_r by lia. lia.
Qed.

Lemma size_bound n : (n < 10 ^ N.of_nat (S (N.size_nat n)))%N.
Proof.
  rewrite Nat2N.inj_succ. eapply N.lt_le_trans; [apply N.size_gt|].
  replace (N.size n) with (N.of_nat (N.size_nat n)).
  - etransitivity; [apply (N.pow_le_mono_l 2 10); lia|]. apply N.pow_le_mono_r; lia.
  - destruct n as [|p]; [done|]. simpl. induction p as [p IH|p IH|]; simpl; lia.
Qed.

Lemma format_pos_head fuel n acc :
  (0 < fuel)%nat → ∃ d s, (d < 10)%N ∧ format_pos_fuel fuel n acc = String (digit_char d) s.
Proof.
  revert n acc. induction fuel as [|fuel IH]; intros n acc Hf; [lia|]. cbn [format_pos_fuel].
  assert (Hmod : (n mod 10 < 10)%N) by (apply N.mod_lt; lia).
  destruct (n / 10 =? 0)%N; [by eauto|]. destruct fuel as [|fuel']; [by eauto|]. apply IH. lia.
Qed.

Lemma parse_FormatUint n : parse_digits (FormatUint n) = Some (Z.of_N n).
Proof.
  unfold parse_digits, FormatUint. set (fuel := S (N.size_nat n)).
  destruct (format_pos_head fuel n "") as (d&s&_&Hhead); [lia|].
  destruct (digits_value_format fuel n "" 0 (size_bound n)) as [k Hk]; [lia|].
  rewrite Hk. rewrite Hhead. simpl. done.
Qed.

Lemma ParseInt_FormatInt z : ParseInt (FormatInt z) = if int64_range z then Some z else None.
Proof.
  destruct z as [|p|p]; [done| |].
  - cbn [FormatInt Z.to_N]. unfold ParseInt.
    assert (Hm : match FormatUint (N.pos p) with
                 | String "+" s' => (false, s') | String "-" s' => (true, s') | _ => (false, FormatUint (N.pos p)) end
                 = (false, FormatUint (N.pos p))).
    { unfold FormatUint. destruct (format_pos_head (S (N.size_nat (N.pos p))) (N.pos p) "") as (d&s&Hd&->); [lia|].
      digits d Hd; done. }
    rewrite Hm, parse_FormatUint. done.
  - cbn [FormatInt]. unfold ParseInt. rewrite parse_FormatUint.
    change (- Z.of_N (N.pos p))%Z with (Z.neg p). done.
Qed.

(** Printed integers determine the integer, whatever its size. *)
Lemma FormatInt_inj x y : FormatInt x = FormatInt y → x = y.
Proof.
  assert (Hneg : ∀ n p, FormatUint n ≠ String "-" (FormatUint (N.pos p))).
  { intros n p. unfold FormatUint at 1. destruct (format_pos_head (S (N.size_nat n)) n "") as (d&s&Hd&->); [lia|].
    intros [= Hc _]. digits d Hd; discriminate. }
  assert (Hu : ∀ n m, FormatUint n = FormatUint m → n = m).
  { intros n m E. pose proof (parse_FormatUint n) as Hn. rewrite E, parse_FormatUint in Hn.
    injection Hn. lia. }
  destruct x as [|p|p], y as [|q|q]; cbn [FormatInt Z.to_N]; intros E;
    try (by apply Hneg in E); try (by symmetry in E; apply Hneg in E); try done.
  - apply Hu in E. lia.
  - apply Hu in E. lia.
  - apply Hu in E. lia.
  - injection E as E. apply Hu in E. lia.
Qed.

(** ** Bytes of a string, trimming, splitting *)

Fixpoint no_byte (c : ascii) (s : string) : bool :=
  match s with "" => true | String d s => negb (bool_decide (d = c)) && no_byte c s end.

Lemma Split_no_byte c s : no_byte c s = true → Split s c = [s].
Proof.
  induction s as [|d s IH]; [done|]. cbn [no_byte Split]. intros [Hd Hs]%andb_prop.
  case_bool_decide; [done|]. by rewrite IH.
Qed.

Lemma Split_app_sep c a b : no_byte c a = true → Split (a +:+ String c b) c = a :: Split b c.
Proof.
  induction a as [|d a IH]; intros Ha.
  - change (Split (String c b) c = "" :: Split b c). cbn [Split]. by rewrite bool_decide_true.
  - cbn [no_byte] in Ha. apply andb_prop in Ha as [Hd Ha].
    change (Split (String d (a +:+ String c b)) c = String d a :: Split b c). cbn [Split].
    case_bool_decide; [done|]. by rewrite IH.
Qed.

Lemma Split_Join c l :
  l ≠ [] → Forall (λ s, no_byte c s = true) l → Split (Join l (String c "")) c = l.
Proof.
  intros Hne Hall. induction Hall as [|s l Hs Hl IH]; [done|]. destruct l as [|s' l].
  - by apply Split_no_byte.
  - cbn [Join]. change (Split (s +:+ String c (Join (s' :: l) (String c ""))) c = s :: s' :: l).
    by rewrite Split_app_sep, IH.
Qed.

Fixpoint str_all (f : ascii → bool) (s : string) : bool :=
  match s with "" => true | String c s => f c && str_all f s end.

Lemma str_all_app f a b : str_all f (a +:+ b) = str_all f a && str_all f b.
Proof.
  induction a as [|c a IH]; [done|]. change (f c && str_all f (a +:+ b) = f c && str_all f a && str_all f b).
  by rewrite IH, andb_assoc.
Qed.

Lemma str_all_impl f g s : (∀ c, f c = true → g c = true) → str_all f s = true → str_all g s = true.
Proof. intros Hfg. induction s as [|c s IH]; [done|]. cbn. intros [? ?]%andb_prop. by rewrite Hfg, IH. Qed.

Lemma trim_left_none f s : str_all (λ c, negb (f c)) s = true → trim_left f s = s.
Proof. destruct s as [|c s]; [done|]. cbn. intros [Hc _]%andb_prop. by destruct (f c). Qed.

Lemma trim_right_none f s : str_all (λ c, negb (f c)) s = true → trim_right f s = s.
Proof.
  induction s as [|c s IH]; [done|]. cbn. intros [Hc Hs]%andb_prop. rewrite IH by done.
  destruct (f c); [done|]. by destruct s.
Qed.

Lemma trim_func_none f s : str_all (λ c, negb (f c)) s = true → trim_func f s = s.
Proof. intros Hs. unfold trim_func. by rewrite trim_left_none, trim_right_none. Qed.

Lemma no_byte_all c s : no_byte c s = str_all (λ d, negb (bool_decide (d = c))) s.
Proof. induction s as [|d s IH]; [done|]. cbn [no_byte str_all]. by rewrite IH. Qed.

Lemma HasSuffix_app s p : HasSuffix (s +:+ p) p = true.
Proof.
  induction s as [|c s IH].
  - change (HasSuffix p p = true). destruct p; cbn; by rewrite ?String.eqb_refl, ?Ascii.eqb_refl.
  - change (HasSuffix (String c (s +:+ p)) p = true). cbn [HasSuffix]. rewrite IH. apply orb_true_r.
Qed.

Lemma string_length_app a b : String.length (a +:+ b) = (String.length a + String.length b)%nat.
Proof. induction a as [|c a IH]; [done|]. change (S (String.length (a +:+ b)) = S (String.length a + String.length b)). by rewrite IH. Qed.

Lemma TrimSuffix_app s p : TrimSuffix (s +:+ p) p = s.
Proof.
  unfold TrimSuffix. rewrite HasSuffix_app, string_length_app, Nat.add_sub.
  induction s as [|c s IH]; [by destruct p|].
  change (String c (take_str (String.length s) (s +:+ p)) = String c s). by rewrite IH.
Qed.

(** ** The digits of an integer *)

Lemma digits_all fuel n acc :
  str_all is_digit acc = true → str_all is_digit (format_pos_fuel fuel n acc) = true.
Proof.
  revert n acc. induction fuel as [|fuel IH]; intros n acc Ha; [done|]. cbn [format_pos_fuel].
  assert (Hd : is_digit (digit_char (n mod 10)) = true) by (apply digit_char_spec, N.mod_lt; lia).
  destruct (n / 10 =? 0)%N; [|apply IH]; cbn [str_all]; by rewrite Hd.
Qed.

Lemma FormatUint_digits n : str_all is_digit (FormatUint n) = true.
Proof. by apply digits_all. Qed.

Definition int_byte (c : ascii) : bool := is_digit c || bool_decide (c = "-"%char).

Lemma FormatInt_bytes z : str_all int_byte (FormatInt z) = true.
Proof.
  assert (Hu : ∀ n, str_all int_byte (FormatUint n) = true).
  { intros n. eapply str_all_impl; [|apply FormatUint_digits]. intros c Hc. unfold int_byte. by rewrite Hc. }
  destruct z; [apply Hu|apply Hu|]. cbn [FormatInt str_all]. by rewrite Hu.
Qed.

(** A positive number has no leading zero. *)
Lemma format_head_nonzero fuel n acc :
  (0 < n < 10 ^ N.of_nat fuel)%N → ∃ d s, (0 < d < 10)%N ∧ format_pos_fuel fuel n acc = String (digit_char d) s.
Proof.
  revert n acc. induction fuel as [|fuel IH]; intros n acc [Hpos Hlt]; [simpl in Hlt; lia|].
  cbn [format_pos_fuel]. pose proof (N.div_mod n 10 ltac:(lia)) as Hdm. pose proof (N.mod_lt n 10 ltac:(lia)) as Hm.
  destruct (N.eqb_spec (n / 10) 0) as [Hz|Hnz].
  - exists (n mod 10)%N, acc. split; [lia|done].
  - apply IH. split; [lia|]. rewrite Nat2N.inj_succ, N.pow_succ_r' in Hlt. apply N.Div0.div_lt_upper_bound; lia.
Qed.

Lemma string_app_assoc (a b c : string) : (a +:+ b) +:+ c = a +:+ b +:+ c.
Proof. induction a as [|x a IH]; [done|]. change (String x ((a +:+ b) +:+ c) = String x (a +:+ b +:+ c)). by rewrite IH. Qed.

Lemma drop_str_app a b : drop_str (String.length a) (a +:+ b) = b.
Proof. induction a as [|c a IH]; simpl; [by destruct b|done]. Qed.

Lemma string_app_inj_l (p a b : string) : p +:+ a = p +:+ b → a = b.
Proof.
  induction p as [|c p IH]; [done|]. change (String c (p +:+ a) = String c (p +:+ b) → a = b).
  intros [= ?]. by apply IH.
Qed.
Lemma string_app_inj_r (a b x : string) : a +:+ x = b +:+ x → a = b.
Proof.
  intros Heq. revert b Heq. induction a as [|c a IH]; intros b Heq.
  - destruct b as [|d b]; [done|]. apply (f_equal String.length) in Heq.
    change (String.length x = S (String.length (b +:+ x))) in Heq. rewrite string_length_app in Heq. lia.
  - destruct b as [|d b].
    + apply (f_equal String.length) in Heq. change (S (String.length (a +:+ x)) = String.length x) in Heq.
      rewrite string_length_app in Heq. lia.
    + change (String c (a +:+ x) = String d (b +:+ x)) in Heq. injection Heq as -> ?. f_equal. by apply IH.
Qed.
