(* ===== verification/GoValues.v ===== *)
(** * Go values seen through [interface{}] and [reflect]

    The types and values a model field or a query argument can have, with the
    operations of [reflect] the ORM uses on them: [Kind], [DeepEqual],
    [ConvertibleTo], [Convert], [FieldByName] and [FieldByIndex].

    An [interface{}] is an [option goval]: [None] is the untyped nil.  [int]
    and [uint] are 64 bits wide, distinct from [int64] and [uint64].  A
    [time.Time] is its instant and a tag for its representation (wall clock
    encoding and location), which [DeepEqual] compares and [Before]/[After]/
    [Equal] do not.  Maps, channels, functions and struct types other than
    [time.Time] are opaque.  Conversions between strings and [[]rune], and from
    slices to arrays, are left out of [ConvertibleTo]. *)

From Stdlib Require Import SpecFloat.
From S2P Require Import Prelude GoStrings.

Open Scope string_scope.
Open Scope Z_scope.

(** ** Types and kinds *)

Inductive width := W8 | W16 | W32 | W64 | WInt.
Inductive fwidth := F32 | F64.
Inductive opaque_kind := OMap | OChan | OFunc | OStruct.

Inductive gotype :=
  | TBool
  | TInt (w : width)
  | TUint (w : width)
  | TFloat (w : fwidth)
  | TString
  | TTime
  | TPtr (t : gotype)
  | TSlice (t : gotype)
  | TArray (n : nat) (t : gotype)
  | TIface
  | TNamed (name : string) (t : gotype)
  | TOpaque (k : opaque_kind) (name : string).

#[export] Instance width_eq_dec : EqDecision width.
Proof. solve_decision. Defined.
#[export] Instance fwidth_eq_dec : EqDecision fwidth.
Proof. solve_decision. Defined.
#[export] Instance opaque_kind_eq_dec : EqDecision opaque_kind.
Proof. solve_decision. Defined.
#[export] Instance gotype_eq_dec : EqDecision gotype.
Proof. solve_decision. Defined.

Inductive kind :=
  | KInvalid | KBool | KInt | KUint | KFloat | KString
  | KPointer | KInterface | KMap | KSlice | KArray | KChan | KFunc | KStruct.

#[export] Instance kind_eq_dec : EqDecision kind.
Proof. solve_decision. Defined.

Fixpoint type_kind (t : gotype) : kind :=
  match t with
  | TBool => KBool
  | TInt _ => KInt
  | TUint _ => KUint
  | TFloat _ => KFloat
  | TString => KString
  | TTime => KStruct
  | TPtr _ => KPointer
  | TSlice _ => KSlice
  | TArray _ _ => KArray
  | TIface => KInterface
  | TNamed _ t => type_kind t
  | TOpaque OMap _ => KMap
  | TOpaque OChan _ => KChan
  | TOpaque OFunc _ => KFunc
  | TOpaque OStruct _ => KStruct
  end.

(** ** Values *)

#[warnings="-register-all"] Inductive goval :=
  | VBool (b : bool)
  | VInt (w : width) (z : Z)
  | VUint (w : width) (z : Z)
  | VFloat (w : fwidth) (f : float64)
  | VString (s : string)
  | VTime (inst rep : Z)
  | VPtr (t : gotype) (p : option goval)
  | VSlice (t : gotype) (l : option (list goval))
  | VArray (t : gotype) (l : list goval)
  | VIface (v : option goval)
  | VNamed (name : string) (v : goval)
  | VOpaque (k : opaque_kind) (name : string) (isnil : bool) (id : Z).

Fixpoint typeof (v : goval) : gotype :=
  match v with
  | VBool _ => TBool
  | VInt w _ => TInt w
  | VUint w _ => TUint w
  | VFloat w _ => TFloat w
  | VString _ => TString
  | VTime _ _ => TTime
  | VPtr t _ => TPtr t
  | VSlice t _ => TSlice t
  | VArray t l => TArray (length l) t
  | VIface _ => TIface
  | VNamed n v => TNamed n (typeof v)
  | VOpaque k n _ _ => TOpaque k n
  end.

Definition kindof (v : goval) : kind := type_kind (typeof v).

(** The representation of a value of a named type. *)
Fixpoint under (v : goval) : goval :=
  match v with VNamed _ v => under v | v => v end.

(** [reflect.Value.Interface]: an interface field gives its dynamic value. *)
Definition value_Interface (v : goval) : option goval :=
  match v with VIface o => o | v => Some v end.

(** [reflect.Value.IsNil] (on the kinds that can be nil). *)
Definition value_IsNil (v : goval) : bool :=
  match under v with
  | VPtr _ None | VSlice _ None | VIface None | VOpaque _ _ true _ => true
  | _ => false
  end.

(** [reflect.DeepEqual] on two values: same type and equal contents; [NaN]
    differs from itself and a function is equal only to a nil function. *)
Fixpoint deep_equal (a b : goval) {struct a} : bool :=
  let deep_list :=
    fix go (l1 l2 : list goval) : bool :=
      match l1, l2 with
      | [], [] => true
      | x :: l1, y :: l2 => deep_equal x y && go l1 l2
      | _, _ => false
      end in
  match a, b with
  | VBool x, VBool y => Bool.eqb x y
  | VInt w x, VInt w' y | VUint w x, VUint w' y => bool_decide (w = w') && (x =? y)
  | VFloat w x, VFloat w' y => bool_decide (w = w') && SFeqb x y
  | VString x, VString y => (x =? y)%string
  | VTime i r, VTime i' r' => (i =? i') && (r =? r')
  | VPtr t p, VPtr t' p' =>
      bool_decide (t = t') &&
      match p, p' with
      | None, None => true
      | Some x, Some y => deep_equal x y
      | _, _ => false
      end
  | VSlice t l, VSlice t' l' =>
      bool_decide (t = t') &&
      match l, l' with
      | None, None => true
      | Some l, Some l' => deep_list l l'
      | _, _ => false
      end
  | VArray t l, VArray t' l' => bool_decide (t = t') && deep_list l l'
  | VIface o, VIface o' =>
      match o, o' with
      | None, None => true
      | Some x, Some y => deep_equal x y
      | _, _ => false
      end
  | VNamed n x, VNamed n' y => (n =? n')%string && deep_equal x y
  | VOpaque k n i d, VOpaque k' n' i' d' =>
      bool_decide (k = k') && (n =? n')%string &&
      match k with
      | OFunc => i && i'
      | _ => Bool.eqb i i' && (d =? d')
      end
  | _, _ => false
  end.

(** [reflect.DeepEqual] on two interfaces. *)
Definition DeepEqual (a b : option goval) : bool :=
  match a, b with
  | None, None => true
  | Some x, Some y => deep_equal x y
  | _, _ => false
  end.

(** ** What the language leaves to the platform, and formatting

    The result of converting a float outside the range of the integer type is
    implementation defined, and [fmt]'s [%g] and [%v] verbs format floats and
    composite values: the model takes them as they are. *)
Class GoPlatform := {
  oor_int64 : float64 → Z;
  oor_uint64 : float64 → Z;
  fmt_g : float64 → string;
  fmt_v : goval → string
}.

(** ** Machine integers and floats *)

Definition bits (w : width) : Z :=
  match w with W8 => 8 | W16 => 16 | W32 => 32 | W64 | WInt => 64 end.

Definition wrap_uint (w : width) (z : Z) : Z := z mod 2 ^ bits w.
Definition wrap_int (w : width) (z : Z) : Z :=
  let m := z mod 2 ^ bits w in
  if m <? 2 ^ (bits w - 1) then m else m - 2 ^ bits w.

(** The integer part of a float, toward zero; [None] for NaN and infinities. *)
Definition float_trunc (f : float64) : option Z :=
  match f with
  | S754_zero _ => Some 0
  | S754_finite s m e =>
      let a := if 0 <=? e then Zpos m * 2 ^ e else Zpos m / 2 ^ (- e) in
      Some (if s : bool then - a else a)
  | _ => None
  end.

Definition float_to_int64 `{GoPlatform} (f : float64) : Z :=
  match float_trunc f with
  | Some z => if int64_range z then z else oor_int64 f
  | None => oor_int64 f
  end.

Definition float_to_uint64 `{GoPlatform} (f : float64) : Z :=
  match float_trunc f with
  | Some z => if (0 <=? z) && (z <=? max_uint64) then z else oor_uint64 f
  | None => oor_uint64 f
  end.

Definition float_of_Z (z : Z) : float64 := binary_normalize 53 1024 z 0 false.

(** [float32(x)], kept as the [float64] of the same value. *)
Definition round32 (f : float64) : float64 :=
  match f with
  | S754_finite s m e => binary_normalize 24 128 (if s : bool then Zneg m else Zpos m) e s
  | f => f
  end.
Definition float_at (w : fwidth) (f : float64) : float64 :=
  match w with F32 => round32 f | F64 => f end.

(** ** Conversions *)

Fixpoint under_type (t : gotype) : gotype :=
  match t with TNamed _ t => under_type t | t => t end.

(** [Type.ConvertibleTo]. *)
Definition ConvertibleTo (src dst : gotype) : bool :=
  let basic :=
    match type_kind src, type_kind dst with
    | KInt, (KInt | KUint | KFloat | KString)
    | KUint, (KInt | KUint | KFloat | KString)
    | KFloat, (KInt | KUint | KFloat) => true
    | _, _ => false
    end in
  let bytes :=
    match under_type src, under_type dst with
    | TString, TSlice (TUint W8) | TSlice (TUint W8), TString => true
    | _, _ => false
    end in
  let same_underlying := bool_decide (under_type src = under_type dst) in
  let pointers :=
    match src, dst with
    | TPtr a, TPtr b => bool_decide (under_type a = under_type b)
    | _, _ => false
    end in
  basic || bytes || same_underlying || pointers || bool_decide (dst = TIface).

(** The UTF-8 encoding of a code point ([string(rune(x))]). *)
Definition utf8_byte (n : Z) : ascii := ascii_of_N (Z.to_N n).
Definition rune_error : string :=
  String (utf8_byte 239) (String (utf8_byte 191) (String (utf8_byte 189) "")).
Definition encode_rune (x : Z) : string :=
  if (x <? 0) || (1114111 <? x) || ((55296 <=? x) && (x <=? 57343)) then rune_error
  else if x <? 128 then String (utf8_byte x) ""
  else if x <? 2048 then
    String (utf8_byte (192 + x / 64)) (String (utf8_byte (128 + x mod 64)) "")
  else if x <? 65536 then
    String (utf8_byte (224 + x / 4096))
      (String (utf8_byte (128 + x / 64 mod 64)) (String (utf8_byte (128 + x mod 64)) ""))
  else
    String (utf8_byte (240 + x / 262144))
      (String (utf8_byte (128 + x / 4096 mod 64))
        (String (utf8_byte (128 + x / 64 mod 64)) (String (utf8_byte (128 + x mod 64)) ""))).

Definition byte_vals (s : string) : list goval :=
  (λ c, VUint W8 (code c)) <$> String.list_ascii_of_string s.
Definition vals_bytes (l : list goval) : string :=
  String.string_of_list_ascii
    ((λ v, match v with VUint _ z => utf8_byte z | _ => "000"%char end) <$> l).

(** Rebuild a value of type [t] around the representation [v]. *)
Fixpoint rename (t : gotype) (v : goval) : goval :=
  match t with TNamed n t => VNamed n (rename t v) | _ => v end.

(** [Value.Convert(t)]: [None] is a panic. *)
Definition Convert `{GoPlatform} (v : goval) (t : gotype) : option goval :=
  if negb (ConvertibleTo (typeof v) t) then None
  else match t with
  | TIface => Some (VIface (value_Interface v))
  | _ =>
    match under v, under_type t with
    | VInt _ z, TInt w => Some (rename t (VInt w (wrap_int w z)))
    | VInt _ z, TUint w => Some (rename t (VUint w (wrap_uint w z)))
    | VUint _ z, TInt w => Some (rename t (VInt w (wrap_int w z)))
    | VUint _ z, TUint w => Some (rename t (VUint w (wrap_uint w z)))
    | (VInt _ z | VUint _ z), TFloat w => Some (rename t (VFloat w (float_at w (float_of_Z z))))
    | (VInt _ z | VUint _ z), TString => Some (rename t (VString (encode_rune z)))
    | VFloat _ f, TInt w => Some (rename t (VInt w (wrap_int w (float_to_int64 f))))
    | VFloat _ f, TUint w => Some (rename t (VUint w (wrap_uint w (float_to_uint64 f))))
    | VFloat _ f, TFloat w => Some (rename t (VFloat w (float_at w f)))
    | VString s, TSlice (TUint W8) => Some (rename t (VSlice (TUint W8) (Some (byte_vals s))))
    | VSlice _ l, TString => Some (rename t (VString (vals_bytes (default [] l))))
    | VPtr _ p, TPtr e => Some (rename t (VPtr e (rename e ∘ under <$> p)))
    | u, _ => Some (rename t u)
    end
  end.

(** ** Structs *)

(** A struct is the list of its fields; an embedded struct keeps its own. *)
#[warnings="-register-all"] Inductive gofield :=
  | FVal (name : string) (v : goval)
  | FEmbed (name : string) (fs : list gofield).

Abbreviation gostruct := (list gofield).

Fixpoint field_depth (f : gofield) : nat :=
  match f with
  | FVal _ _ => 0
  | FEmbed _ fs => S (foldr Nat.max 0%nat (map field_depth fs))
  end.
Definition struct_depth (s : gostruct) : nat := foldr Nat.max 0%nat (map field_depth s).

(** The fields named [name] at embedding depth exactly [d]. *)
Fixpoint fields_at (d : nat) (s : gostruct) (name : string) : list goval :=
  match d with
  | O => flat_map (λ f, match f with
           | FVal n v => if (n =? name)%string then [v] else []
           | FEmbed n fs => if (n =? name)%string then [VOpaque OStruct n false 0] else []
           end) s
  | S d => flat_map (λ f, match f with
             | FVal _ _ => []
             | FEmbed _ fs => fields_at d fs name
             end) s
  end.

(** [Value.FieldByName]: the shallowest depth at which the name occurs; it
    must occur once there. *)
Fixpoint field_search (ds : list nat) (s : gostruct) (name : string) : option goval :=
  match ds with
  | [] => None
  | d :: ds => match fields_at d s name with
               | [] => field_search ds s name
               | [v] => Some v
               | _ => None
               end
  end.
Definition FieldByName (s : gostruct) (name : string) : option goval :=
  field_search (seq 0 (S (struct_depth s))) s name.

(** [Value.FieldByIndex] ([None] is a panic). *)
Fixpoint FieldByIndex (s : gostruct) (index : list nat) : option goval :=
  match index with
  | [] => None
  | i :: rest =>
      match s !! i with
      | Some (FVal _ v) => match rest with [] => Some v | _ => None end
      | Some (FEmbed n fs) =>
          match rest with
          | [] => Some (VOpaque OStruct n false 0)
          | _ => FieldByIndex fs rest
          end
      | None => None
      end
  end.
