(* ===== verification/GoValuesFacts.v ===== *)
(** * [reflect.DeepEqual] is a partial equivalence that keeps types

    The facts about Go values the other components use: an induction principle
    for nested values, [DeepEqual] is symmetric and transitive (not reflexive:
    NaN and non-nil functions differ from themselves), and values it relates
    have the same type, kind, nil-ness and pointer structure. *)

From Stdlib Require Import SpecFloat.
From S2P Require Import Prelude GoStrings GoValues.

Open Scope string_scope.
Open Scope Z_scope.

(** ** Induction over values *)

Definition opt_all {A} (P : A → Prop) (o : option A) : Prop :=
  match o with Some x => P x | None => True end.

Lemma goval_rect' (P : goval → Prop) :
  (∀ b, P (VBool b)) → (∀ w z, P (VInt w z)) → (∀ w z, P (VUint w z)) →
  (∀ w f, P (VFloat w f)) → (∀ s, P (VString s)) → (∀ i r, P (VTime i r)) →
  (∀ t p, opt_all P p → P (VPtr t p)) →
  (∀ t l, opt_all (Forall P) l → P (VSlice t l)) →
  (∀ t l, Forall P l → P (VArray t l)) →
  (∀ o, opt_all P o → P (VIface o)) →
  (∀ n v, P v → P (VNamed n v)) →
  (∀ k n i d, P (VOpaque k n i d)) →
  ∀ v, P v.
Proof.
  intros Hb Hi Hu Hf Hs Ht Hp Hsl Ha Hif Hn Ho.
  fix IH 1. intros [b|w z|w z|w f|s|i r|t p|t l|t l|o|n v|k n i d].
  1-6,12: clear IH; auto.
  - apply Hp. destruct p as [p|]; [exact (IH p)|exact I].
  - apply Hsl. destruct l as [l|]; [|exact I]. simpl. induction l; constructor; auto.
  - apply Ha. induction l; constructor; auto.
  - apply Hif. destruct o as [o|]; [exact (IH o)|exact I].
  - apply Hn, IH.
Qed.

(** ** Lists *)

Definition deep_list : list goval → list goval → bool :=
  fix go l1 l2 :=
    match l1, l2 with
    | [], [] => true
    | x :: l1, y :: l2 => deep_equal x y && go l1 l2
    | _, _ => false
    end.

Lemma SFeqb_finite s m e s' m' e' :
  SFeqb (S754_finite s m e) (S754_finite s' m' e') = true ↔ s = s' ∧ m = m' ∧ e = e'.
Proof.
  assert (Hc : ∀ a b, Pos.compare_cont Eq a b = (a ?= b)%positive) by done.
  unfold SFeqb, SFcompare. split.
  - destruct s, s'; simpl; try done; rewrite Hc;
      destruct (Z.compare_spec e e'), (Pos.compare_spec m m'); simpl; intros; simplify_eq; done.
  - intros (->&->&->). rewrite Hc, Z.compare_refl, Pos.compare_refl. by destruct s'.
Qed.

Lemma SFeqb_sym x y : SFeqb x y = SFeqb y x.
Proof.
  apply eq_iff_eq_true.
  destruct x as [s|s| |s m e], y as [s'|s'| |s' m' e'];
    try (by (destruct s || idtac); (destruct s' || idtac)); rewrite !SFeqb_finite; naive_solver.
Qed.

Lemma SFeqb_trans x y z : SFeqb x y = true → SFeqb y z = true → SFeqb x z = true.
Proof.
  destruct x as [s|s| |s m e], y as [s'|s'| |s' m' e'], z as [s''|s''| |s'' m'' e''];
    try (by (destruct s || idtac); (destruct s' || idtac); (destruct s'' || idtac));
    rewrite ?SFeqb_finite; naive_solver.
Qed.

(** ** Partial equivalence *)

Lemma bool_decide_refl {A} `{EqDecision A} (x : A) : bool_decide (x = x) = true.
Proof. by apply bool_decide_true. Qed.

Ltac deep_refl :=
  rewrite ?bool_decide_refl, ?Z.eqb_refl, ?String.eqb_refl, ?Bool.eqb_reflx; simpl.

Ltac deep_cases b := destruct b; simpl in *; try done; bools; subst; deep_refl.

Lemma deep_list_sym l : Forall (λ x, ∀ y, deep_equal x y = true → deep_equal y x = true) l →
  ∀ l', deep_list l l' = true → deep_list l' l = true.
Proof.
  induction 1 as [|x l Hx _ IH]; intros [|y l']; simpl; try done.
  intros [? ?]%andb_true_iff. by rewrite Hx, IH.
Qed.

Lemma deep_equal_sym a b : deep_equal a b = true → deep_equal b a = true.
Proof.
  revert b. induction a using goval_rect'; intros y Hy; deep_cases y.
  - by destruct b, b0.
  - done.
  - done.
  - by rewrite SFeqb_sym.
  - done.
  - done.
  - destruct p, p0; simpl in *; auto.
  - destruct l, l0; try done. by apply deep_list_sym.
  - by apply deep_list_sym.
  - destruct o, v; simpl in *; auto.
  - auto.
  - destruct k0; bools; repeat (match goal with H : Bool.eqb _ _ = true |- _ => apply Bool.eqb_prop in H end; subst);
      deep_refl; try done. by apply andb_true_iff.
Qed.

Lemma deep_list_trans l :
  Forall (λ x, ∀ y z, deep_equal x y = true → deep_equal y z = true → deep_equal x z = true) l →
  ∀ l' l'', deep_list l l' = true → deep_list l' l'' = true → deep_list l l'' = true.
Proof.
  induction 1 as [|x l Hx _ IH]; intros [|y l'] [|z l'']; simpl; try done.
  rewrite !andb_true_iff. naive_solver.
Qed.

Lemma deep_equal_trans a b c :
  deep_equal a b = true → deep_equal b c = true → deep_equal a c = true.
Proof.
  revert b c. induction a using goval_rect'; intros va vb Hy Hz; deep_cases va; deep_cases vb.
  - by destruct b, b0, b1.
  - eauto using SFeqb_trans.
  - destruct p, p0, p1; simpl in *; try done; eauto.
  - destruct l, l0, l1; try done. by eapply deep_list_trans.
  - by eapply deep_list_trans.
  - destruct o, v, v0; simpl in *; try done; eauto.
  - eauto.
  - destruct k; bools; repeat (match goal with H : Bool.eqb _ _ = true |- _ => apply Bool.eqb_prop in H end; subst);
      deep_refl; try done. by apply andb_true_iff.
Qed.

#[export] Instance deep_equal_per : RelationClasses.PER (λ a b : goval, deep_equal a b = true).
Proof. split; [intros ??; apply deep_equal_sym|intros ???; apply deep_equal_trans]. Qed.

(** [DeepEqual] cannot tell related values apart. *)
Lemma deep_equal_l a b c : deep_equal a b = true → deep_equal a c = deep_equal b c.
Proof.
  intros Hab. apply eq_iff_eq_true. split; intros.
  - eauto using deep_equal_trans, deep_equal_sym.
  - eauto using deep_equal_trans.
Qed.

Lemma DeepEqual_l (a b c : option goval) : DeepEqual a b = true → DeepEqual a c = DeepEqual b c.
Proof. destruct a, b, c; simpl; try done. apply deep_equal_l. Qed.

(** ** Types *)

Lemma deep_list_length l l' : deep_list l l' = true → length l = length l'.
Proof.
  revert l'. induction l as [|x l IH]; intros [|y l']; simpl; try done.
  intros [_ ?]%andb_true_iff. f_equal. auto.
Qed.

Lemma deep_equal_typeof a b : deep_equal a b = true → typeof a = typeof b.
Proof.
  revert b. induction a using goval_rect'; intros y Hy; deep_cases y; try done.
  - f_equal. by apply deep_list_length.
  - f_equal. auto.
Qed.

Lemma deep_equal_kindof a b : deep_equal a b = true → kindof a = kindof b.
Proof. intros Hab. unfold kindof. by rewrite (deep_equal_typeof a b). Qed.

Lemma deep_equal_under a b : deep_equal a b = true → deep_equal (under a) (under b) = true.
Proof.
  revert b. induction a using goval_rect'; intros y Hy;
    try (destruct y; simpl in *; done).
  deep_cases y. auto.
Qed.

Lemma deep_equal_Interface a b :
  deep_equal a b = true → DeepEqual (value_Interface a) (value_Interface b) = true.
Proof. destruct a, b; try done. Qed.

Lemma deep_equal_IsNil a b : deep_equal a b = true → value_IsNil a = value_IsNil b.
Proof.
  intros Hab%deep_equal_under. unfold value_IsNil.
  destruct (under a), (under b); simpl in *; try done; break; bools; subst; break; try done;
    repeat match goal with H : Bool.eqb _ _ = true |- _ => apply Bool.eqb_prop in H end; by subst.
Qed.

Lemma deep_equal_pointer a b t p :
  deep_equal a b = true → under a = VPtr t p →
  ∃ p', under b = VPtr t p' ∧ DeepEqual p p' = true.
Proof.
  intros Hab%deep_equal_under Ha. rewrite Ha in Hab.
  destruct (under b); try done. simpl in Hab. bools. subst. eauto.
Qed.
