(* ===== verification/Logging.v ===== *)
(** * Logging

    [internal/logging/logging.go] and the aliases of [logging.go]: the logger and
    the level of the package, and the level a message gets from its text.

    A [Level] is an [int]: any value can be set.  A [Logger] is a logger of the
    application or the standard one over a writer; its [Printf] is the record of
    the call, with the arguments left uninterpreted. *)

From S2P Require Import Prelude GoStrings GoStringsFacts GoValues.

Open Scope string_scope.
Local Open Scope Z_scope.

Abbreviation Level := Z.
Definition Default : Level := 0.
Definition Silent : Level := 1.
Definition Error : Level := 2.
Definition Warn : Level := 3.
Definition Info : Level := 4.
Definition Debug : Level := 5.

Inductive Logger :=
  | UserLogger (id : Z)
  | StdLogger (writer : Z).

(** One call of [Logger.Printf]. *)
Record printed := Printed {
  p_logger : Logger;
  p_format : string;
  p_args : list (option goval)
}.

Record log_state := LogState {
  ls_logger : option Logger;
  ls_level : Level;
  ls_out : list printed
}.

Definition stderr : Z := 2.
Definition initial : log_state := LogState (Some (StdLogger stderr)) Default [].

(** ** Configuration *)

Definition SetLogger (st : log_state) (logger : option Logger) : log_state :=
  LogState logger (ls_level st) (ls_out st).

Definition SetOutput (st : log_state) (w : option Z) : log_state :=
  match w with
  | None => SetLogger st None
  | Some w => SetLogger st (Some (StdLogger w))
  end.

Definition SetLevel (st : log_state) (level : Level) : log_state :=
  LogState (ls_logger st) level (ls_out st).

(** The names under which package [thing] exports them. *)
Definition LogDefault : Level := Default.
Definition LogSilent : Level := Silent.
Definition LogError : Level := Error.
Definition LogWarn : Level := Warn.
Definition LogInfo : Level := Info.
Definition LogDebug : Level := Debug.
Definition SetLogOutput : log_state → option Z → log_state := SetOutput.
Definition SetLogLevel : log_state → Level → log_state := SetLevel.

(** ** Messages *)

Definition enabled (configuredLevel messageLevel : Level) : bool :=
  let configuredLevel := if configuredLevel =? Default then Warn else configuredLevel in
  if configuredLevel =? Silent then false else messageLevel <=? configuredLevel.

Definition levelForMessage (message : string) : Level :=
  let trimmed := TrimSpace message in
  let upper := ToUpper trimmed in
  if HasPrefix upper "WARN" || HasPrefix upper "[WARN]" || HasPrefix upper "WARNING" then Warn
  else if HasPrefix upper "ERROR" || HasPrefix upper "[ERROR]" then Error
  else if HasPrefix upper "INFO" then Info
  else if HasPrefix upper "DEBUG" || HasPrefix upper "[DEBUG]" then Debug
  else if HasPrefix upper "DB " || HasPrefix upper "CACHE " || Contains upper " SQL" then Debug
  else Info.

Definition logf (st : log_state) (level : Level) (format : string) (args : list (option goval)) : log_state :=
  match ls_logger st with
  | None => st
  | Some logger =>
      if negb (enabled (ls_level st) level) then st
      else LogState (ls_logger st) (ls_level st) (ls_out st ++ [Printed logger format args])
  end.

Definition Debugf st format args := logf st Debug format args.
Definition Infof st format args := logf st Info format args.
Definition Warnf st format args := logf st Warn format args.
Definition Errorf st format args := logf st Error format args.

Definition Printf (st : log_state) (format : string) (args : list (option goval)) : log_state :=
  logf st (levelForMessage format) format args.

(** [strings.Repeat]. *)
Fixpoint Repeat (s : string) (n : nat) : string :=
  match n with O => "" | S n => s ++ Repeat s n end.

Definition Println (st : log_state) (args : list (option goval)) : log_state :=
  Printf st (TrimSpace (Repeat "%v " (length args))) args.

(** ** Facts *)

(** The level that is in effect: the default is [Warn]. *)
Definition effective (level : Level) : Level := if level =? Default then Warn else level.

Lemma enabled_spec configured level :
  enabled configured level = true ↔ effective configured ≠ Silent ∧ level ≤ effective configured.
Proof.
  unfold enabled, effective. cbn zeta. destruct (_ =? Silent) eqn:S; bools; [split; [done|tauto]|].
  rewrite Z.leb_le. tauto.
Qed.

(** The lines one message adds. *)
Definition lines_of (st : log_state) (level : Level) (format : string) (args : list (option goval)) : list printed :=
  match ls_logger st with
  | Some l => if enabled (ls_level st) level then [Printed l format args] else []
  | None => []
  end.

Lemma logf_spec st level format args :
  logf st level format args = LogState (ls_logger st) (ls_level st) (ls_out st ++ lines_of st level format args)%list.
Proof.
  unfold logf, lines_of. destruct st as [[l|] lv out]; simpl; [|by rewrite app_nil_r].
  destruct (enabled _ _); simpl; [done|]. by rewrite app_nil_r.
Qed.

(** A run of messages prints those whose level is enabled, in order, and changes
    neither the logger nor the level. *)
Lemma Printf_run st ms :
  foldl (λ st m, Printf st m.1 m.2) st ms =
  LogState (ls_logger st) (ls_level st)
    (ls_out st ++ m ← ms; lines_of st (levelForMessage m.1) m.1 m.2)%list.
Proof.
  revert st. induction ms as [|m ms IH]; intros st; [destruct st; simpl; by rewrite app_nil_r|].
  simpl. rewrite IH. unfold Printf. rewrite logf_spec. simpl. rewrite <- app_assoc. done.
Qed.

(** A text over some bytes has prefixes and parts over these bytes. *)
Lemma str_all_prefix f s p : str_all f s = true → HasPrefix s p = true → str_all f p = true.
Proof.
  revert s. induction p as [|c p IH]; intros s; [done|]. destruct s as [|d s]; [done|].
  unfold HasPrefix in *. simpl. destruct (Ascii.ascii_dec c d) as [->|]; [|done].
  intros [-> A]%andb_prop P. by apply (IH s).
Qed.

Lemma str_all_Contains f s p : str_all f s = true → Contains s p = true → str_all f p = true.
Proof.
  induction s as [|c s IH]; intros A; cbn [Contains]; intros [P|C]%orb_prop; try done;
    try by eapply str_all_prefix. apply andb_prop in A as [_ A]. by apply IH.
Qed.

Lemma str_all_trim f g s : str_all f s = true → str_all f (trim_func g s) = true.
Proof.
  intros A. unfold trim_func. assert (str_all f (trim_left g s) = true) as A'.
  { induction s as [|c s IH]; [done|]. simpl. destruct (g c); [|done]. apply andb_prop in A as [_ A]. auto. }
  revert A'. generalize (trim_left g s). clear A. intros t. induction t as [|c t IH]; [done|].
  simpl. intros [F A]%andb_prop. destruct (_ && _); [done|]. simpl. by rewrite F, IH.
Qed.

(** The bytes of the format that [Println] builds, in upper case. *)
Definition println_byte (c : ascii) : bool := byte_in c "%V ".

Lemma println_bytes n : str_all println_byte (ToUpper (Repeat "%v " n)) = true.
Proof.
  induction n as [|n IH]; [done|].
  change (str_all println_byte ("%V " ++ ToUpper (Repeat "%v " n)) = true).
  by rewrite (str_all_app println_byte "%V "), IH.
Qed.

Lemma ToUpper_trim g s : (∀ c, g (to_upper c) = g c) → ToUpper (trim_func g s) = trim_func g (ToUpper s).
Proof.
  intros G. unfold trim_func, ToUpper. assert (string_map to_upper (trim_left g s) = trim_left g (string_map to_upper s)) as <-.
  { induction s as [|c s IH]; [done|]. simpl. rewrite G. by destruct (g c). }
  generalize (trim_left g s). intros t. induction t as [|c t IH]; [done|]. simpl. rewrite G, <- IH.
  destruct (trim_right g t) as [|d r]; simpl; destruct (g c); done.
Qed.

Lemma is_space_upper c : is_space (to_upper c) = is_space c.
Proof. by destruct c as [[] [] [] [] [] [] [] []]. Qed.

(** The level of a [Println] does not depend on what it prints. *)
Lemma println_level n : levelForMessage (TrimSpace (Repeat "%v " n)) = Info.
Proof.
  unfold levelForMessage. cbn zeta. set (u := ToUpper _).
  assert (str_all println_byte u = true) as A.
  { unfold u, TrimSpace. rewrite !ToUpper_trim by apply is_space_upper. do 2 apply str_all_trim.
    apply println_bytes. }
  assert (∀ p, str_all println_byte p = false → HasPrefix u p = false ∧ Contains u p = false) as F.
  { intros p E. split; apply not_true_iff_false; intros P.
    - apply (str_all_prefix println_byte) in P; [congruence|done].
    - apply (str_all_Contains println_byte) in P; [congruence|done]. }
  rewrite !(λ p E, proj1 (F p E)), (λ p E, proj2 (F p E)) by done. done.
Qed.

(** What a run of messages prints: with a logger and a level that is not silent, exactly the
    messages whose level the text gives is at most the configured one (warnings when none is
    set), in order, and nothing without a logger. Println gives its own format to the
    classification, so that its messages are always of level Info. *)
Theorem log_output (st : log_state) (ms : list (string * list (option goval))) (args : list (option goval)) :
  let st' := foldl (λ st m, Printf st m.1 m.2) st ms in
  ls_logger st' = ls_logger st ∧ ls_level st' = ls_level st ∧
  (∃ lines, ls_out st' = (ls_out st ++ lines)%list ∧
     (∀ l, ls_logger st = Some l →
        lines = (λ m, Printed l m.1 m.2) <$>
          filter (λ m, effective (ls_level st) ≠ Silent ∧ levelForMessage m.1 ≤ effective (ls_level st)) ms) ∧
     (ls_logger st = None → lines = [])) ∧
  Println st args = logf st Info (TrimSpace (Repeat "%v " (length args))) args.
Proof.
  cbn zeta. rewrite Printf_run. split; [done|]. split; [done|]. split.
  - eexists. split; [done|]. unfold lines_of. split.
    + intros l ->. induction ms as [|m ms IH]; [done|]. rewrite bind_cons, IH, filter_cons.
      destruct (enabled _ _) eqn:E; destruct (decide _) as [D|D]; simpl; try done; exfalso.
      * by apply D, enabled_spec.
      * apply enabled_spec in D. congruence.
    + intros ->. induction ms as [|m ms IH]; [done|]. by rewrite bind_cons.
  - unfold Println, Printf. by rewrite println_level.
Qed.

(** The default level shows warnings and errors and hides the text of SQL
    statements; a panic of [processFields] is hidden as well. *)
Example default_messages :
  ls_out (foldl (λ st m, Printf st m []) initial
    ["WARN: cache miss"; "DB Exec: UPDATE users"; "Error: no connection"; "[PANIC] processFields: %v"]) =
  [Printed (StdLogger stderr) "WARN: cache miss" []; Printed (StdLogger stderr) "Error: no connection" []].
Proof. by vm_compute. Qed.
