(* ===== verification/GobRegistry.v ===== *)
(** * Registration of types with gob

    [internal/utils/utils.go]: [registerNamedType], [registerFieldTypeRecursive]
    and [RegisterTypeRecursive], which [New] calls on the model type, so that gob
    can encode the records put in the cache.

    A [reflect.Type] is a node of the graph of the types of the program: a
    defined type is a name that [decls] maps to its package, its name and its
    underlying type, and every other type is a literal.  A program declares
    finitely many types, and two of them are different even when they share
    package and name (types declared in function bodies).  The state is the
    table [registeredTypeNames] and the trace of the calls of [gob.Register],
    each with the dynamic type of its argument ([None] for a nil interface); what
    gob does with them, and the panics the code recovers from, are its own.

    The traversal of a type need not end: [None] is a run that has not returned
    within its fuel. *)

From S2P Require Import Prelude GoValues.

Open Scope string_scope.

(** ** The graph of types *)

Inductive rtype :=
  | RNamed (d : positive)
  | RLit (l : literal)
with literal :=
  | LBasic (k : kind) (name : string)
  | LPtr (t : rtype)
  | LSlice (t : rtype)
  | LArray (n : nat) (t : rtype)
  | LMap (key elem : rtype)
  | LStruct (fields : list rtype).

Record typedecl := TypeDecl { td_pkg : string; td_name : string; td_under : literal }.

Class TypeGraph := decls : gmap positive typedecl.

Section types.
Context `{TypeGraph}.

(** The methods of [reflect.Type] the code calls. *)
Definition underlying (t : rtype) : literal :=
  match t with
  | RNamed d => match decls !! d with Some td => td_under td | None => LBasic KInvalid "" end
  | RLit l => l
  end.

Definition PkgPath (t : rtype) : string :=
  match t with
  | RNamed d => match decls !! d with Some td => td_pkg td | None => "" end
  | RLit _ => ""
  end.

Definition Name (t : rtype) : string :=
  match t with
  | RNamed d => match decls !! d with Some td => td_name td | None => "" end
  | RLit (LBasic _ n) => n
  | RLit _ => ""
  end.

Definition Kind (t : rtype) : kind :=
  match underlying t with
  | LBasic k _ => k
  | LPtr _ => KPointer
  | LSlice _ => KSlice
  | LArray _ _ => KArray
  | LMap _ _ => KMap
  | LStruct _ => KStruct
  end.

Definition typeKey (t : rtype) : string := PkgPath t ++ "." ++ Name t.
Definition processedKey (t : rtype) : string := typeKey t ++ "_processed".

(** ** The registry *)

Record gob_state := GobState {
  registeredTypeNames : gset string;
  gob_calls : list (option rtype)
}.

Definition LoadOrStore (st : gob_state) (key : string) : gob_state * bool :=
  (GobState ({[key]} ∪ registeredTypeNames st) (gob_calls st),
   bool_decide (key ∈ registeredTypeNames st)).

(** [safeGobRegister(val)], with the dynamic type of [val]. *)
Definition safeGobRegister (st : gob_state) (val : option rtype) : gob_state :=
  GobState (registeredTypeNames st) (gob_calls st ++ [val]).

(** The dynamic type of [reflect.New(t).Elem().Interface()]: the zero value of
    an interface type is nil. *)
Definition zero_Interface (t : rtype) : option rtype :=
  if bool_decide (Kind t = KInterface) then None else Some t.

Definition registerNamedType (st : gob_state) (t : option rtype) : gob_state :=
  match t with
  | None => st
  | Some t =>
      if (PkgPath t =? "")%string || (Name t =? "")%string then st
      else if (typeKey t =? ".")%string then st
      else
        let '(st, loaded) := LoadOrStore st (typeKey t) in
        if loaded then st
        else
          let st := safeGobRegister st (zero_Interface t) in
          if bool_decide (Kind t = KPointer) then st
          else safeGobRegister st (Some (RLit (LPtr t)))
  end.

(** ** The traversal *)

(** The loops over pointers, with and without registration. *)
Fixpoint deref_register (fuel : nat) (st : gob_state) (ft : rtype) : option (gob_state * rtype) :=
  match underlying ft with
  | LPtr e =>
      match fuel with
      | O => None
      | S fuel => deref_register fuel (registerNamedType st (Some e)) e
      end
  | _ => Some (st, ft)
  end.

Fixpoint deref (fuel : nat) (t : rtype) : option rtype :=
  match underlying t with
  | LPtr e => match fuel with O => None | S fuel => deref fuel e end
  | _ => Some t
  end.

Fixpoint registerFieldTypeRecursive (fuel : nat) (st : gob_state) (ft : option rtype) : option gob_state :=
  match fuel with
  | O => None
  | S fuel =>
      match ft with
      | None => Some st
      | Some ft =>
          '(st, ft) ← deref_register fuel (registerNamedType st (Some ft)) ft;
          match underlying ft with
          | LSlice e | LArray _ e => registerFieldTypeRecursive fuel st (Some e)
          | LMap k e =>
              st ← registerFieldTypeRecursive fuel st (Some k);
              registerFieldTypeRecursive fuel st (Some e)
          | LStruct _ =>
              if negb (PkgPath ft =? "")%string && negb (Name ft =? "Time")%string
              then RegisterTypeRecursive fuel st (Some ft)
              else Some st
          | _ => Some st
          end
      end
  end
with RegisterTypeRecursive (fuel : nat) (st : gob_state) (t : option rtype) : option gob_state :=
  match fuel with
  | O => None
  | S fuel =>
      match t with
      | None => Some st
      | Some t =>
          let st := registerNamedType st (Some t) in
          t ← deref fuel t;
          match underlying t with
          | LStruct fields =>
              if (typeKey t =? ".")%string then Some st
              else
                let '(st, loaded) := LoadOrStore st (processedKey t) in
                if loaded then Some st
                else
                  let st := safeGobRegister st (zero_Interface t) in
                  let st := safeGobRegister st (Some (RLit (LPtr t))) in
                  foldl (λ acc ft, st ← acc; registerFieldTypeRecursive fuel st (Some ft))
                    (Some st) fields
          | _ => Some st
          end
      end
  end.

(** The loop over the fields, on its own. *)
Definition register_fields (fuel : nat) (st : gob_state) (fields : list rtype) : option gob_state :=
  foldl (λ acc ft, st ← acc; registerFieldTypeRecursive fuel st (Some ft)) (Some st) fields.

(** ** The types a type is made of *)

(** One level inside a pointer, slice, array or map. *)
Inductive inner (t : rtype) : rtype → Prop :=
  | inner_ptr e : underlying t = LPtr e → inner t e
  | inner_slice e : underlying t = LSlice e → inner t e
  | inner_array n e : underlying t = LArray n e → inner t e
  | inner_key k e : underlying t = LMap k e → inner t k
  | inner_elem k e : underlying t = LMap k e → inner t e.

(** The structs whose fields a traversal of fields enters. *)
Definition entered (t : rtype) (fields : list rtype) : Prop :=
  underlying t = LStruct fields ∧ PkgPath t ≠ "" ∧ Name t ≠ "Time".

Inductive made_of (t : rtype) : rtype → Prop :=
  | made_inner t' : inner t t' → made_of t t'
  | made_field fields t' : entered t fields → t' ∈ fields → made_of t t'.

(** How deep pointers, slices, arrays and maps nest in a type, up to [n]
    levels; structs are not entered. *)
Fixpoint nests (n : nat) (t : rtype) : bool :=
  match n with
  | O => false
  | S n =>
      match underlying t with
      | LPtr e | LSlice e | LArray _ e => nests n e
      | LMap k e => nests n k && nests n e
      | LBasic _ _ | LStruct _ => true
      end
  end.

Definition struct_fields (t : rtype) : list rtype :=
  match underlying t with LStruct fields => fields | _ => [] end.

End types.

#[global] Arguments Kind {_} _.
