(* ===== verification/GobFacts.v ===== *)
(** * Facts about the registration of types with gob

    The traversal registers every defined type a model is made of, under the
    names the program gives its types ([graph_ok]); it returns when no defined
    type contains itself through pointers, slices, arrays and maps alone, with
    as much fuel as the declared types need, and never returns otherwise. *)

From S2P Require Import Prelude GoStrings GoStringsFacts GoValues GobRegistry.

Section facts.
Context `{TypeGraph}.

(** Defined types have a package and a name, no two share their key, and none is
    called as another with the suffix that marks processed structs. *)
Record graph_ok : Prop := {
  go_named d td : decls !! d = Some td → td_pkg td ≠ "" ∧ td_name td ≠ "";
  go_keys d d' : is_Some (decls !! d) → is_Some (decls !! d') →
    typeKey (RNamed d) = typeKey (RNamed d') → d = d';
  go_suffix d d' : is_Some (decls !! d) → is_Some (decls !! d') →
    typeKey (RNamed d) ≠ processedKey (RNamed d')
}.
Hypothesis OK : graph_ok.

Implicit Types st : gob_state.

(** ** Names and keys *)

Lemma PkgPath_named t : PkgPath t ≠ "" → ∃ d, t = RNamed d ∧ is_Some (decls !! d).
Proof.
  destruct t as [d|l]; [|done]. simpl. destruct (decls !! d) eqn:E; [|done].
  intros _. exists d. eauto.
Qed.

Lemma declared_named d : is_Some (decls !! d) → PkgPath (RNamed d) ≠ "" ∧ Name (RNamed d) ≠ "".
Proof. intros [td E]. simpl. rewrite E. by eapply go_named. Qed.

Lemma typeKey_dot t : PkgPath t ≠ "" → typeKey t ≠ ".".
Proof.
  unfold typeKey. destruct (PkgPath t) as [|c p]; [done|]. intros _ [= -> E]. by destruct p.
Qed.

Lemma processedKey_inj d d' : is_Some (decls !! d) → is_Some (decls !! d') →
  processedKey (RNamed d) = processedKey (RNamed d') → d = d'.
Proof. intros ? ? E. apply (go_keys OK); [done..|]. by eapply string_app_inj_r. Qed.

(** ** What a part of the traversal leaves *)

(** The type [t] and the types inside it are registered, and the structs among
    them are marked. *)
Definition covered_at st t : Prop :=
  (PkgPath t ≠ "" → typeKey t ∈ registeredTypeNames st) ∧
  (∀ fields, entered t fields → processedKey t ∈ registeredTypeNames st).
Definition covered st t : Prop := ∀ u, rtc inner t u → covered_at st u.

(** The fields of the structs marked between two states are covered. *)
Definition closed_since st st' : Prop := ∀ d fields,
  underlying (RNamed d) = LStruct fields → is_Some (decls !! d) →
  processedKey (RNamed d) ∉ registeredTypeNames st →
  processedKey (RNamed d) ∈ registeredTypeNames st' → Forall (covered st') fields.

(** Both versions of a type were passed to gob. *)
Definition called st d : Prop :=
  zero_Interface (RNamed d) ∈ gob_calls st ∧
  (Kind (RNamed d) ≠ KPointer → Some (RLit (LPtr (RNamed d))) ∈ gob_calls st).
Definition calls_ok st : Prop := ∀ d, is_Some (decls !! d) →
  typeKey (RNamed d) ∈ registeredTypeNames st ∨ processedKey (RNamed d) ∈ registeredTypeNames st →
  called st d.

Record post st st' : Prop := {
  post_sub : registeredTypeNames st ⊆ registeredTypeNames st';
  post_calls : gob_calls st ⊆ gob_calls st';
  post_closed : closed_since st st';
  post_ok : calls_ok st → calls_ok st'
}.

Lemma covered_mono st st' t :
  registeredTypeNames st ⊆ registeredTypeNames st' → covered st t → covered st' t.
Proof. intros S C u R. destruct (C u R). split; eauto. Qed.

Lemma covered_intro st t : covered_at st t → (∀ e, inner t e → covered st e) → covered st t.
Proof. intros A I u R. destruct (rtc_inv _ _ R) as [<-|(e&Ie&Re)]; [done|]. by apply (I e). Qed.

#[local] Instance post_refl : Reflexive post.
Proof. intros st. split; [done|done| |done]. by intros d fields _ _ ?. Qed.

#[local] Instance post_trans : Transitive post.
Proof.
  intros st st1 st2 [S1 C1 K1 O1] [S2 C2 K2 O2]. split; [set_solver|set_solver| |auto].
  intros d fields U D N P. destruct (decide (processedKey (RNamed d) ∈ registeredTypeNames st1)).
  - eapply Forall_impl; [by eapply K1|]. intros. by eapply covered_mono.
  - by eapply K2.
Qed.

Lemma called_mono st st' d : gob_calls st ⊆ gob_calls st' → called st d → called st' d.
Proof. intros S [A B]. split; auto. Qed.

(** Storing the key of a type that is passed to gob. *)
Lemma store_key_post st st' d : is_Some (decls !! d) →
  registeredTypeNames st' = {[typeKey (RNamed d)]} ∪ registeredTypeNames st →
  gob_calls st ⊆ gob_calls st' → (calls_ok st → called st' d) → post st st'.
Proof.
  intros D R C K. split; [set_solver|done| |].
  - intros d' fields _ D' N P. rewrite R in P. apply elem_of_union in P as [P|?]; [|done].
    apply elem_of_singleton in P. by destruct (go_suffix OK d d').
  - intros O d' D' P. destruct (decide (d' = d)) as [->|Ne]; [auto|].
    eapply called_mono; [done|]. apply O; [done|]. rewrite R in P.
    destruct P as [[P%elem_of_singleton|?]%elem_of_union|[P%elem_of_singleton|?]%elem_of_union]; auto.
    + destruct Ne. by apply (go_keys OK).
    + by destruct (go_suffix OK d d').
Qed.

Lemma registerNamedType_post st t : post st (registerNamedType st (Some t)).
Proof.
  unfold registerNamedType. destruct (_ || _) eqn:E; [reflexivity|]. bools.
  destruct (PkgPath_named t) as (d&->&D); [done|].
  rewrite (proj2 (String.eqb_neq _ _)) by by apply typeKey_dot.
  unfold LoadOrStore, safeGobRegister. case_bool_decide as L; [|case_bool_decide as P].
  - apply (store_key_post _ _ d); try done. intros O. destruct (O d D); [by left|]. by split.
  - apply (store_key_post _ _ d); simpl; try done; [set_solver|]. intros _. split; [set_solver|done].
  - apply (store_key_post _ _ d); simpl; try done; [set_solver|]. intros _. split; set_solver.
Qed.

Lemma registerNamedType_key st t :
  PkgPath t ≠ "" → typeKey t ∈ registeredTypeNames (registerNamedType st (Some t)).
Proof.
  intros P. destruct (PkgPath_named t P) as (d&->&D). destruct (declared_named d D) as [_ N].
  unfold registerNamedType. rewrite !(proj2 (String.eqb_neq _ _)) by (try done; by apply typeKey_dot).
  unfold LoadOrStore. simpl. repeat case_bool_decide; simpl; set_solver.
Qed.

(** ** The loops over pointers *)

Lemma inner_of t e : inner t e →
  match underlying t with
  | LPtr e' | LSlice e' | LArray _ e' => e = e'
  | LMap k e' => e = k ∨ e = e'
  | _ => False
  end.
Proof. by intros [e' ->|e' ->|n e' ->|k e' ->|k e' ->]; auto. Qed.

Lemma not_entered t fields : (∀ fs, underlying t ≠ LStruct fs) → ¬ entered t fields.
Proof. intros N [E _]. by destruct (N fields). Qed.

Lemma deref_register_spec fuel st t st' t' :
  (PkgPath t ≠ "" → typeKey t ∈ registeredTypeNames st) →
  deref_register fuel st t = Some (st', t') →
  post st st' ∧ (PkgPath t' ≠ "" → typeKey t' ∈ registeredTypeNames st') ∧
  (∀ e, underlying t' ≠ LPtr e) ∧
  (∀ st'', registeredTypeNames st' ⊆ registeredTypeNames st'' → covered st'' t' → covered st'' t).
Proof.
  revert st t. induction fuel as [|fuel IH]; intros st t K; cbn [deref_register];
    destruct (underlying t) eqn:U; intros E; simplify_eq; try (split_and!; [reflexivity|done|intros; congruence|by auto]).
  apply IH in E as (P&K'&N&C); [|intros; by apply registerNamedType_key].
  split_and!; [exact (post_trans _ _ _ (registerNamedType_post _ _) P)|done|done|].
  intros st'' S Ct. apply covered_intro.
  - split; [|intros fields []%not_entered; congruence].
    intros Q. apply S, (post_sub _ _ P), (post_sub _ _ (registerNamedType_post _ _)), K, Q.
  - intros e I%inner_of. rewrite U in I. subst. by apply C.
Qed.

Lemma deref_struct fuel t : (∀ e, underlying t ≠ LPtr e) → deref fuel t = Some t.
Proof. intros N. destruct fuel; simpl; destruct (underlying t) eqn:U; try done; by destruct (N t0). Qed.

(** ** The traversal *)

Lemma RegisterTypeRecursive_unfold fuel st t :
  RegisterTypeRecursive (S fuel) st (Some t) =
    (t' ← deref fuel t;
     let st := registerNamedType st (Some t) in
     match underlying t' with
     | LStruct fields =>
         if (typeKey t' =? ".")%string then Some st
         else
           let '(st1, loaded) := LoadOrStore st (processedKey t') in
           if loaded then Some st1
           else register_fields fuel (safeGobRegister (safeGobRegister st1 (zero_Interface t'))
                                        (Some (RLit (LPtr t')))) fields
     | _ => Some st
     end).
Proof. done. Qed.

(** Marking a struct and passing it to gob, before its fields. *)
Lemma mark_struct st st' d : is_Some (decls !! d) → calls_ok st →
  registeredTypeNames st' = {[processedKey (RNamed d)]} ∪ registeredTypeNames st →
  gob_calls st' = (gob_calls st ++ [zero_Interface (RNamed d)] ++ [Some (RLit (LPtr (RNamed d)))])%list →
  calls_ok st'.
Proof.
  intros D O R C d' D' P. destruct (decide (d' = d)) as [->|Ne].
  { unfold called. rewrite C. split; [set_solver|intros _; set_solver]. }
  eapply (called_mono st); [rewrite C; set_solver|]. apply O; [done|]. rewrite R in P.
  destruct P as [[P%elem_of_singleton|?]%elem_of_union|[P%elem_of_singleton|?]%elem_of_union]; auto.
  - by destruct (go_suffix OK d' d).
  - destruct Ne. by apply processedKey_inj.
Qed.

(** A struct is marked, then its fields are covered: the traversal is closed
    since before the mark. *)
Lemma close_struct st st1 st' d fields :
  is_Some (decls !! d) → underlying (RNamed d) = LStruct fields →
  registeredTypeNames st1 = {[processedKey (RNamed d)]} ∪ registeredTypeNames st →
  gob_calls st1 = (gob_calls st ++ [zero_Interface (RNamed d)] ++ [Some (RLit (LPtr (RNamed d)))])%list →
  post st1 st' → Forall (covered st') fields → post st st'.
Proof.
  intros D U R C [S1 C1 K1 O1] F. split; [set_solver|rewrite C in C1; set_solver| |].
  - intros d' fs U' D' N P. destruct (decide (d' = d)) as [->|Ne]; [congruence|].
    eapply K1; [done..| |done]. rewrite R. intros [Q%elem_of_singleton|?]%elem_of_union; [|done].
    destruct Ne. by apply processedKey_inj.
  - intros O. apply O1. by eapply mark_struct.
Qed.

Lemma register_fields_None fuel fields :
  foldl (λ acc ft, st ← acc; registerFieldTypeRecursive fuel st (Some ft)) None fields = None.
Proof. induction fields; done. Qed.

Lemma register_fields_cons fuel st f fields :
  register_fields fuel st (f :: fields) =
    (st1 ← registerFieldTypeRecursive fuel st (Some f); register_fields fuel st1 fields).
Proof.
  unfold register_fields. simpl. destruct (registerFieldTypeRecursive _ _ _); [done|].
  apply register_fields_None.
Qed.

Lemma store_loaded st key :
  key ∈ registeredTypeNames st → GobState ({[key]} ∪ registeredTypeNames st) (gob_calls st) = st.
Proof. destruct st. simpl. intros. f_equal. set_solver. Qed.

(** What one call of each function leaves. *)
Definition field_spec (fuel : nat) : Prop := ∀ st t st',
  registerFieldTypeRecursive fuel st (Some t) = Some st' → post st st' ∧ covered st' t.
Definition type_spec (fuel : nat) : Prop := ∀ st t st',
  RegisterTypeRecursive fuel st (Some t) = Some st' →
  post st st' ∧ (∀ fields, entered t fields → processedKey t ∈ registeredTypeNames st').

Lemma register_fields_spec fuel st fields st' : field_spec fuel →
  register_fields fuel st fields = Some st' → post st st' ∧ Forall (covered st') fields.
Proof.
  intros IH. revert st. induction fields as [|f fields IHf]; intros st.
  { intros [= <-]. split; [reflexivity|constructor]. }
  rewrite register_fields_cons. intros (st1&E1&E2)%bind_Some.
  destruct (IH _ _ _ E1) as [P1 C1], (IHf _ E2) as [P2 C2].
  split; [by etrans|]. constructor; [|done]. eapply covered_mono; [apply (post_sub _ _ P2)|done].
Qed.

Lemma type_spec_S fuel : field_spec fuel → type_spec (S fuel).
Proof.
  intros IH st t st'. rewrite RegisterTypeRecursive_unfold. intros (t'&D&E)%bind_Some.
  pose proof (registerNamedType_post st t) as P0. set (st0 := registerNamedType st (Some t)) in *.
  assert (∀ fields, entered t fields → t' = t) as Ht.
  { intros fields [U _]. rewrite deref_struct in D by congruence. congruence. }
  cbn zeta in E. destruct (underlying t') eqn:U; simplify_eq;
    try (split; [done|]; intros fs Ent; pose proof (Ht _ Ent); destruct Ent as [? _]; congruence).
  destruct (String.eqb_spec (typeKey t') ".") as [K|K]; simplify_eq.
  { split; [done|]. intros fs Ent. rewrite (Ht _ Ent) in K. destruct Ent as (_&Pk&_).
    by destruct (typeKey_dot t). }
  destruct t' as [d|l]; [|simpl in U; subst; done].
  destruct (decls !! d) as [td|] eqn:Ed; [|simpl in U; by rewrite Ed in U].
  unfold LoadOrStore in E. case_bool_decide as L; simplify_eq.
  { rewrite store_loaded by done. split; [done|]. intros fs Ent. by rewrite <- (Ht _ Ent). }
  apply register_fields_spec in E as [P F]; [|done].
  split.
  - apply (post_trans _ st0); [done|]. refine (close_struct _ _ _ d _ _ U _ _ P F); [by eauto|done|].
    simpl. by rewrite <- app_assoc.
  - intros fs Ent. rewrite <- (Ht _ Ent). apply (post_sub _ _ P). simpl. set_solver.
Qed.

Lemma field_spec_S fuel : field_spec fuel → type_spec fuel → field_spec (S fuel).
Proof.
  intros IH IHt st t st' E. cbn [registerFieldTypeRecursive] in E.
  apply bind_Some in E as ([st1 t']&D&E).
  apply deref_register_spec in D as (P1&K1&N1&C1); [|intros; by apply registerNamedType_key].
  assert (post st st1) as P01 by exact (post_trans _ _ _ (registerNamedType_post _ _) P1).
  cut (post st1 st' ∧ covered st' t').
  { intros [P C]. split; [by etrans|]. apply C1; [apply P|done]. }
  assert (∀ st2, post st1 st2 → (∀ fields, entered t' fields → processedKey t' ∈ registeredTypeNames st2) →
    (∀ e, inner t' e → covered st2 e) → post st1 st2 ∧ covered st2 t') as F.
  { intros st2 P Q I. split; [done|]. apply covered_intro; [|done]. split; [|done].
    intros Pk. by apply (post_sub _ _ P), K1. }
  destruct (underlying t') as [k n|e|e|n e|k e|fields] eqn:U.
  - simplify_eq. apply F; [reflexivity|by intros ? [? _]; congruence|].
    intros e I%inner_of. by rewrite U in I.
  - by destruct (N1 e).
  - apply IH in E as [P C]. apply F; [done|by intros ? [? _]; congruence|].
    intros e' I%inner_of. rewrite U in I. by subst.
  - apply IH in E as [P C]. apply F; [done|by intros ? [? _]; congruence|].
    intros e' I%inner_of. rewrite U in I. by subst.
  - apply bind_Some in E as (st2&E1&E2). apply IH in E1 as [P2 C2], E2 as [P3 C3].
    apply F; [by apply (post_trans _ st2)|by intros ? [? _]; congruence|].
    assert (covered st' k) by by eapply covered_mono; [apply P3|].
    intros e' I%inner_of. rewrite U in I. by destruct I as [->| ->].
  - destruct (_ && _) eqn:G.
    + apply IHt in E as [P Q]. apply F; [done|done|]. intros e I%inner_of. by rewrite U in I.
    + simplify_eq. apply F; [reflexivity| |intros e I%inner_of; by rewrite U in I].
      intros fs (_&Pk&Tm). apply String.eqb_neq in Pk, Tm. by rewrite Pk, Tm in G.
Qed.

Lemma traversal_spec fuel : field_spec fuel ∧ type_spec fuel.
Proof.
  induction fuel as [|fuel [IHf IHt]]; [by split|].
  split; [by apply field_spec_S|by apply type_spec_S].
Qed.

(** ** Everything a model is made of is registered *)

(** What holds of the registry between two calls from outside. *)
Record registry_ok st : Prop := {
  ro_closed d fields : underlying (RNamed d) = LStruct fields → is_Some (decls !! d) →
    processedKey (RNamed d) ∈ registeredTypeNames st → Forall (covered st) fields;
  ro_calls : calls_ok st
}.

Lemma registry_ok_empty : registry_ok (GobState ∅ []).
Proof. split; [set_solver|]. intros d _ [?|?]; set_solver. Qed.

Lemma post_registry_ok st st' : registry_ok st → post st st' → registry_ok st'.
Proof.
  intros [C O] P. split; [|by apply P]. intros d fields U D K.
  destruct (decide (processedKey (RNamed d) ∈ registeredTypeNames st)) as [I|I].
  - eapply Forall_impl; [by eapply C|]. intros. eapply covered_mono; [apply P|done].
  - by eapply P.
Qed.

(** The marked structs are closed under [made_of]. *)
Lemma covered_made_of st t u : registry_ok st → covered st t → rtc made_of t u → covered st u.
Proof.
  intros R C M. induction M as [t|t t' u S M IH]; [done|]. apply IH.
  destruct S as [t' I|fields t' Ent T].
  - intros v Rv. apply C. by eapply rtc_l.
  - destruct (PkgPath_named t) as (d&->&D); [apply Ent|].
    pose proof (proj2 (C _ (rtc_refl _ _)) _ Ent) as K.
    eapply (proj1 (Forall_forall _ _) (ro_closed _ R d fields (proj1 Ent) D K)), T.
Qed.

(** The deeper pointers of a model type are not registered, its struct is. *)
Lemma RegisterTypeRecursive_registers fuel st m fields st' :
  registry_ok st → is_Some (decls !! m) → entered (RNamed m) fields →
  RegisterTypeRecursive fuel st (Some (RLit (LPtr (RNamed m)))) = Some st' →
  registry_ok st' ∧
  ∀ d, is_Some (decls !! d) → rtc made_of (RNamed m) (RNamed d) → called st' d.
Proof.
  intros R D Ent E. destruct (traversal_spec fuel) as [_ T]. destruct (T _ _ _ E) as [P _].
  pose proof (post_registry_ok _ _ R P) as R'. split; [done|].
  intros d Dd M. apply (ro_calls _ R'); [done|].
  assert (processedKey (RNamed m) ∈ registeredTypeNames st') as K.
  { destruct fuel as [|fuel]; [done|]. rewrite RegisterTypeRecursive_unfold in E.
    destruct fuel as [|fuel]; [done|]. cbn [deref underlying] in E.
    rewrite deref_struct in E by (destruct Ent; congruence). destruct Ent as (U&Pk&_).
    cbn [mbind option_bind] in E. rewrite U, (proj2 (String.eqb_neq _ _)) in E by by apply typeKey_dot.
    unfold LoadOrStore in E. case_bool_decide as L; [simplify_eq; simpl; set_solver|].
    apply register_fields_spec in E as [P' _]; [|apply traversal_spec].
    apply (post_sub _ _ P'). simpl. set_solver. }
  destruct (rtc_inv _ _ M) as [[= <-]|(t&S&M')]; [by right|].
  destruct S as [t I|fs t Ent' Tf].
  - apply inner_of in I. by rewrite (proj1 Ent) in I.
  - assert (fs = fields) as -> by (destruct Ent, Ent'; congruence).
    assert (covered st' t) as Ct.
    { eapply (proj1 (Forall_forall _ _) (ro_closed _ R' m fields (proj1 Ent) D K)), Tf. }
    left. apply (covered_made_of _ _ _ R' Ct M' _ (rtc_refl _ _)). by apply declared_named.
Qed.

(** ** The traversal returns *)

Local Open Scope nat_scope.

Definition unprocessed st : gset positive :=
  filter (λ d, processedKey (RNamed d) ∉ registeredTypeNames st) (dom decls).

(** Fuel that is enough for a type whose levels nest less than [n], when the
    fields of the declared structs nest less than [N]. *)
Definition traversal_fuel (N n : nat) st : nat := size (unprocessed st) * (N + 2) + n + 1.

Lemma unprocessed_mono st st' :
  registeredTypeNames st ⊆ registeredTypeNames st' → unprocessed st' ⊆ unprocessed st.
Proof. unfold unprocessed. set_solver. Qed.

Lemma traversal_fuel_mono N n st st' :
  registeredTypeNames st ⊆ registeredTypeNames st' → traversal_fuel N n st' ≤ traversal_fuel N n st.
Proof. intros S%unprocessed_mono%subseteq_size. unfold traversal_fuel. nia. Qed.

Lemma unprocessed_mark st st' d : is_Some (decls !! d) →
  processedKey (RNamed d) ∉ registeredTypeNames st →
  registeredTypeNames st ⊆ registeredTypeNames st' →
  processedKey (RNamed d) ∈ registeredTypeNames st' →
  S (size (unprocessed st')) ≤ size (unprocessed st).
Proof.
  intros [td D] N S I. apply subset_size. split; [by apply unprocessed_mono|].
  intros F. assert (d ∈ unprocessed st) as Q.
  { apply elem_of_filter. split; [done|]. by eapply elem_of_dom_2. }
  apply F, elem_of_filter in Q as [Q _]. done.
Qed.

Lemma nests_S n t : nests n t = true → nests (S n) t = true.
Proof.
  revert t. induction n as [|n IH]; intros t Hn; [done|].
  cbn [nests] in Hn. cbn [nests]. destruct (underlying t); try done; try by apply IH.
  bools. apply andb_true_iff. split; by apply IH.
Qed.

Lemma nests_deref_register n t fuel st : nests n t = true → n ≤ fuel →
  ∃ st' t', deref_register fuel st t = Some (st', t') ∧ nests n t' = true.
Proof.
  revert n t st. induction fuel as [|fuel IH]; intros n t st N L.
  { destruct n; [done|lia]. }
  destruct n as [|n]; [done|]. cbn [deref_register]. cbn [nests] in N.
  destruct (underlying t) as [| e | | | |] eqn:U;
    try (eexists _, _; split; [done|]; cbn [nests]; by rewrite U).
  destruct (IH n e (registerNamedType st (Some e)) N ltac:(lia)) as (st'&t'&E&N').
  exists st', t'. split; [done|]. by apply nests_S.
Qed.

Section returns.
Variable N : nat.
Hypothesis flat : ∀ d f, f ∈ struct_fields (RNamed d) → nests N f = true.

Definition field_returns (fuel : nat) : Prop := ∀ st n t,
  nests n t = true → traversal_fuel N n st ≤ fuel →
  is_Some (registerFieldTypeRecursive fuel st (Some t)).
Definition struct_returns (fuel : nat) : Prop := ∀ st t,
  is_Some (deref (pred fuel) t) → traversal_fuel N 0 st ≤ fuel →
  is_Some (RegisterTypeRecursive fuel st (Some t)).

Lemma register_fields_returns fuel st fields : field_returns fuel →
  Forall (λ f, nests N f = true) fields → traversal_fuel N N st ≤ fuel →
  is_Some (register_fields fuel st fields).
Proof.
  intros IH F. revert st. induction F as [|f fields Nf F IHf]; intros st L; [by eexists|].
  rewrite register_fields_cons. destruct (IH st N f Nf L) as [st1 E]. rewrite E. simpl.
  apply IHf. etrans; [apply traversal_fuel_mono|exact L].
  by apply (proj1 (traversal_spec fuel)) in E as [P _]; apply P.
Qed.

Lemma struct_returns_S fuel : field_returns fuel → struct_returns (S fuel).
Proof.
  intros IH st t [t' D] L. rewrite RegisterTypeRecursive_unfold. simpl in D.
  rewrite D. cbn [mbind option_bind]. cbn zeta.
  set (st0 := registerNamedType st (Some t)).
  destruct (underlying t') as [| | | | |fields] eqn:U; try by eexists.
  destruct (String.eqb_spec (typeKey t') "."); [by eexists|].
  destruct t' as [d|l]; [|simpl in U; by subst].
  destruct (decls !! d) as [td|] eqn:Ed; [|simpl in U; by rewrite Ed in U].
  unfold LoadOrStore. case_bool_decide as I; [by eexists|].
  apply register_fields_returns; [done| |].
  - apply Forall_forall. intros f Hf. apply (flat d). unfold struct_fields. by rewrite U.
  - match goal with |- traversal_fuel _ _ ?s ≤ _ => assert (S (size (unprocessed s)) ≤ size (unprocessed st0)) as Q end.
    { apply (unprocessed_mark _ _ d); [by eauto|done|simpl; set_solver|simpl; set_solver]. }
    assert (size (unprocessed st0) ≤ size (unprocessed st)) as Q0.
    { apply subseteq_size, unprocessed_mono, registerNamedType_post. }
    unfold traversal_fuel in *. nia.
Qed.

Lemma field_returns_S fuel : field_returns fuel → struct_returns fuel → field_returns (S fuel).
Proof.
  intros IH IHt st n t Nt L. cbn [registerFieldTypeRecursive].
  assert (∃ m, n = S m) as [m ->] by (destruct n; [done|eauto]).
  destruct (nests_deref_register (S m) t fuel (registerNamedType st (Some t)) Nt) as (st1&t'&D&Nt').
  { unfold traversal_fuel in L. lia. }
  rewrite D. cbn [mbind option_bind].
  assert (registeredTypeNames st ⊆ registeredTypeNames st1) as S1.
  { etrans; [apply registerNamedType_post|]. apply deref_register_spec in D as (P&_); [apply P|].
    intros. by apply registerNamedType_key. }
  pose proof (traversal_fuel_mono N m _ _ S1) as L1.
  assert (traversal_fuel N m st ≤ fuel) as Lm by (unfold traversal_fuel in *; lia).
  cbn [nests] in Nt'. destruct (underlying t') as [| e|e|k e|k e|fields] eqn:U; try by eexists.
  - by apply (IH _ m); [|lia].
  - by apply (IH _ m); [|lia].
  - apply andb_true_iff in Nt' as [Nk Ne]. destruct (IH st1 m k Nk ltac:(lia)) as [st2 E].
    rewrite E. simpl. apply (IH _ m); [done|]. apply (proj1 (traversal_spec fuel)) in E as [P _].
    pose proof (traversal_fuel_mono N m _ _ (post_sub _ _ P)). lia.
  - destruct (_ && _); [|by eexists]. apply IHt; [rewrite deref_struct by congruence; by eexists|].
    pose proof (traversal_fuel_mono N 0 _ _ S1). unfold traversal_fuel in *. lia.
Qed.

Lemma traversal_returns fuel : field_returns fuel ∧ struct_returns fuel.
Proof.
  induction fuel as [|fuel [IHf IHt]].
  - split; intros st; unfold traversal_fuel; intros; lia.
  - split; [by apply field_returns_S|by apply struct_returns_S].
Qed.

End returns.

(** ** A type that contains itself *)

(** A set of types each of which has one of them inside. *)
Lemma recursive_never_returns (X : rtype → Prop) fuel st t :
  (∀ t, X t → ∃ t', inner t t' ∧ X t') → X t →
  registerFieldTypeRecursive fuel st (Some t) = None.
Proof.
  intros HX. assert (∀ f st t st' t', X t → deref_register f st t = Some (st', t') → X t') as Hd.
  { intros f. induction f as [|f IH]; intros s u s' u' Xu; cbn [deref_register];
      destruct (underlying u) eqn:U; intros E; simplify_eq; try done.
    apply IH in E; [done|]. destruct (HX u Xu) as (v&I%inner_of&Xv). rewrite U in I. by subst. }
  revert st t. induction fuel as [|fuel IH]; intros st t Xt; [done|]. cbn [registerFieldTypeRecursive].
  destruct (deref_register _ _ _) as [[st1 t']|] eqn:D; [|done]. cbn [mbind option_bind].
  pose proof (Hd _ _ _ _ _ Xt D) as Xt'. destruct (HX t' Xt') as (v&I%inner_of&Xv).
  destruct (underlying t') as [|e|e|n e|k e|] eqn:U; subst; try done.
  - apply deref_register_spec in D as (_&_&Np&_); [by destruct (Np e)|].
    intros. by apply registerNamedType_key.
  - by apply IH.
  - by apply IH.
  - destruct I as [-> | ->].
    + by rewrite IH.
    + destruct (registerFieldTypeRecursive fuel st1 (Some k)); [|done]. by apply IH.
Qed.

Lemma recursive_model_never_returns (X : rtype → Prop) fuel st m fields f :
  (∀ t, X t → ∃ t', inner t t' ∧ X t') → f ∈ fields → X f →
  is_Some (decls !! m) → underlying (RNamed m) = LStruct fields →
  processedKey (RNamed m) ∉ registeredTypeNames st →
  RegisterTypeRecursive fuel st (Some (RLit (LPtr (RNamed m)))) = None.
Proof.
  intros HX F Xf D U P. destruct fuel as [|fuel]; [done|]. rewrite RegisterTypeRecursive_unfold.
  destruct fuel as [|fuel]; [done|]. cbn [deref underlying]. rewrite deref_struct by congruence.
  cbn [mbind option_bind]. rewrite U.
  rewrite (proj2 (String.eqb_neq _ _)) by by apply typeKey_dot, declared_named.
  unfold LoadOrStore. cbn [registerNamedType PkgPath String.eqb orb].
  rewrite bool_decide_eq_false_2 by done.
  match goal with |- register_fields _ ?s _ = _ => generalize s end.
  clear -OK HX F Xf. intros s. revert s. induction fields as [|g fields IH]; intros s; [by apply elem_of_nil in F|].
  rewrite register_fields_cons. apply elem_of_cons in F as [<-|F].
  - by rewrite (recursive_never_returns X).
  - destruct (registerFieldTypeRecursive _ _ _); [|done]. by apply IH.
Qed.

End facts.

(** [graph_ok] is decided on the declared types. *)
Definition graph_check (decls : TypeGraph) : bool :=
  let ds := (map_to_list (decls : gmap positive typedecl)).*1 in
  forallb (λ d, negb (PkgPath (RNamed d) =? "")%string && negb (Name (RNamed d) =? "")%string &&
    forallb (λ d', (bool_decide (d = d') || negb (typeKey (RNamed d) =? typeKey (RNamed d'))%string) &&
      negb (typeKey (RNamed d) =? processedKey (RNamed d'))%string) ds) ds.

Lemma graph_check_ok (G : TypeGraph) : graph_check G = true → graph_ok.
Proof.
  unfold graph_check. rewrite List.forallb_forall. intros F.
  assert (∀ d, is_Some (decls !! d) → List.In d (map_to_list (G : gmap positive typedecl)).*1) as Dom.
  { intros d [td E]. apply list_elem_of_In, list_elem_of_fmap. exists (d, td).
    split; [done|]. by apply elem_of_map_to_list. }
  assert (∀ d d', is_Some (decls !! d) → is_Some (decls !! d') →
    (d = d' ∨ typeKey (RNamed d) ≠ typeKey (RNamed d')) ∧ typeKey (RNamed d) ≠ processedKey (RNamed d')) as F2.
  { intros d d' D D'. specialize (F d (Dom d D)). apply andb_true_iff in F as [_ F].
    rewrite List.forallb_forall in F. specialize (F d' (Dom d' D')). apply andb_true_iff in F as [B C].
    bools. split; [|done]. apply orb_true_iff in B as [B|B]; bools; auto. }
  split.
  - intros d td E. specialize (F d (Dom d (mk_is_Some _ _ E))). simpl in F. rewrite E in F. by bools.
  - intros d d' D D' K. by destruct (F2 d d' D D') as [[->|?] _].
  - intros d d' D D'. by apply F2.
Qed.


(** The traversal never returns on a model with a field whose type contains itself through
    slices, maps, arrays or pointers alone, such as a map type whose elements are of that type:
    only structs are marked as processed. *)
Theorem gob_registration_diverges `{TypeGraph} t st m fields f fuel :
  graph_ok → tc inner t t → rtc inner f t → f ∈ fields →
  is_Some (decls !! m) → underlying (RNamed m) = LStruct fields →
  processedKey (RNamed m) ∉ registeredTypeNames st →
  RegisterTypeRecursive fuel st (Some (RLit (LPtr (RNamed m)))) = None.
Proof.
  intros OK L R F D U P.
  apply (recursive_model_never_returns OK (λ u, tc inner u t) _ _ _ fields f); try done.
  - intros u Lu. inversion Lu as [? ? I|? v ? I Lv]; subst; eauto.
  - apply rtc_tc in R as [->|?]; [done|]. by etrans.
Qed.
