(* ===== verification/Predicate.v ===== *)
(** * The WHERE-clause predicate (internal/cache/query_predicate.go)

    Tokenizer, recursive-descent parser and abstract syntax of the WHERE
    clauses the query cache understands, with the two analyses the cache index
    uses ([Fields] and [ExactMatches]).  Evaluation is in [QueryMatch].

    The position [pos] of the parser is represented by the tokens from [pos]
    on, and a string index by the suffix it starts.  The loops run on fuel;
    [None] is an exhausted fuel, which the totality theorems below exclude for
    the fuel the entry points use. *)

From S2P Require Import Prelude GoStrings GoValues.

Open Scope string_scope.

(** ** Data *)

(** internal/types [QueryParams] *)
Record QueryParams := MkQueryParams {
  Where : string;
  Args : list (option goval);
  Order : string;
  Preloads : list string;
  IncludeDeleted : bool
}.

Record predicateOperand := MkOperand {
  argIndex : Z;
  value : option goval;
  hasLiteral : bool
}.

Inductive predicateNode :=
  | logicalPredicateNode (op : string) (left right : predicateNode)
  | conditionPredicateNode (field operator : string) (operands : list predicateOperand).

Record queryPredicate := MkQueryPredicate {
  root : option predicateNode;
  qp_args : list (option goval)
}.

Inductive tokenKind :=
  | tokenEOF | tokenIdentifier | tokenOperator | tokenPlaceholder | tokenLiteral
  | tokenAnd | tokenOr | tokenNot | tokenLParen | tokenRParen | tokenComma.

#[export] Instance tokenKind_eq_dec : EqDecision tokenKind.
Proof. solve_decision. Defined.

Record predicateToken := MkToken {
  tkind : tokenKind;
  tvalue : string;
  tliteral : option goval
}.

Definition tok (k : tokenKind) (v : string) : predicateToken := MkToken k v None.

(** ** Tokenizer *)

Definition blank (c : ascii) : bool := byte_in c (String " " (String "009" (String "010" (String "013" "")))).
Definition symbol (c : ascii) : bool := byte_in c "=<>!".
Definition word_end (c : ascii) : bool := blank c || byte_in c "(),?" || symbol c.

(** Each scanner takes the suffix that starts at its index and returns what
    it read with the suffix at the next index. *)
Definition scanSymbolOperator (s : string) : result (string * string) :=
  match s with
  | String a (String b rest) =>
      let op := String a (String b "") in
      if (op =? ">=") || (op =? "<=") || (op =? "!=") || (op =? "<>") then Ok (op, rest)
      else if byte_in a "=><" then Ok (String a "", String b rest)
      else Err (ErrMsg "unsupported operator")
  | String a "" =>
      if byte_in a "=><" then Ok (String a "", "") else Err (ErrMsg "unsupported operator")
  | "" => Err (ErrMsg "unsupported operator")
  end.

(** The bytes up to the first [close] and the suffix after it. *)
Fixpoint until (close : ascii) (s : string) : option (string * string) :=
  match s with
  | "" => None
  | String c s' =>
      if bool_decide (c = close) then Some ("", s')
      else match until close s' with
           | Some (w, rest) => Some (String c w, rest)
           | None => None
           end
  end.

Definition scanQuotedIdentifier (quote : ascii) (s : string) : result (string * string) :=
  let close := if bool_decide (quote = "["%char) then "]"%char else quote in
  match until close s with
  | Some (w, rest) => Ok (String quote (w +:+ String close ""), rest)
  | None => Err (ErrMsg "unterminated quoted identifier in WHERE clause")
  end.

(** The suffix after the opening quote; a doubled quote is one quote. *)
Fixpoint scanStringLiteral (s : string) : result (string * string) :=
  match s with
  | "" => Err (ErrMsg "unterminated string literal in WHERE clause")
  | String "'" (String "'" s') =>
      '(w, rest) ← scanStringLiteral s'; Ok (String "'" w, rest)
  | String "'" s' => Ok ("", s')
  | String c s' => '(w, rest) ← scanStringLiteral s'; Ok (String c w, rest)
  end.

Fixpoint scanWord (s : string) : string * string :=
  match s with
  | "" => ("", "")
  | String c s' =>
      if word_end c then ("", s)
      else let '(w, rest) := scanWord s' in (String c w, rest)
  end.

Definition classifyWordToken (word : string) : predicateToken :=
  let upper := ToUpper word in
  if upper =? "AND" then tok tokenAnd upper
  else if upper =? "OR" then tok tokenOr upper
  else if upper =? "NOT" then tok tokenNot upper
  else if (upper =? "LIKE") || (upper =? "IN") then tok tokenOperator upper
  else if upper =? "TRUE" then MkToken tokenLiteral word (Some (VBool true))
  else if upper =? "FALSE" then MkToken tokenLiteral word (Some (VBool false))
  else if upper =? "NULL" then MkToken tokenLiteral word None
  else match ParseInt word with
       | Some n => MkToken tokenLiteral word (Some (VInt W64 n))
       | None =>
           match ParseFloat word with
           | Some f => MkToken tokenLiteral word (Some (VFloat F64 f))
           | None => tok tokenIdentifier word
           end
       end.

(** One iteration of the loop of [tokenizeWhere] on a non-empty suffix: the
    token read, if any, and the next suffix. *)
Definition tokenize_step (ch : ascii) (rest : string) : result (option predicateToken * string) :=
  let where_ := String ch rest in
  if blank ch then Ok (None, rest)
  else if bool_decide (ch = "("%char) then Ok (Some (tok tokenLParen "("), rest)
  else if bool_decide (ch = ")"%char) then Ok (Some (tok tokenRParen ")"), rest)
  else if bool_decide (ch = ","%char) then Ok (Some (tok tokenComma ","), rest)
  else if bool_decide (ch = "?"%char) then Ok (Some (tok tokenPlaceholder "?"), rest)
  else if symbol ch then
    '(operator, next) ← scanSymbolOperator where_; Ok (Some (tok tokenOperator operator), next)
  else if bool_decide (ch = "'"%char) then
    '(literal, next) ← scanStringLiteral rest;
    Ok (Some (MkToken tokenLiteral literal (Some (VString literal))), next)
  else if byte_in ch (String "`" (String "034" "[")) then
    '(identifier, next) ← scanQuotedIdentifier ch rest;
    Ok (Some (classifyWordToken identifier), next)
  else
    let '(word, next) := scanWord where_ in
    Ok (Some (classifyWordToken word), next).

Fixpoint tokenize_loop (fuel : nat) (s : string) : option (result (list predicateToken)) :=
  match s with
  | "" => Some (Ok [tok tokenEOF ""])
  | String ch rest =>
      match fuel with
      | O => None
      | S f =>
          match tokenize_step ch rest with
          | Err e => Some (Err e)
          | Panic m => Some (Panic m)
          | Ok (t, next) =>
              match tokenize_loop f next with
              | Some (Ok ts) => Some (Ok (option_list t ++ ts)%list)
              | r => r
              end
          end
      end
  end.

Definition out_of_fuel : goerr := ErrMsg "model: out of fuel".

Definition run {A} (o : option (result A)) : result A := default (Err out_of_fuel) o.

Definition tokenizeWhere (where_ : string) : result (list predicateToken) :=
  run (tokenize_loop (String.length where_) where_).

(** ** Identifiers *)

(** The text inside brackets, when there are both. *)
Definition strip_brackets (s : string) : string :=
  if HasPrefix s "[" && HasSuffix s "]" then TrimPrefix (TrimSuffix s "]") "[" else s.

Definition normalizeWhereIdentifier (identifier : string) : string :=
  let identifier := TrimSpace identifier in
  if identifier =? "" then identifier
  else
    let identifier := TrimSpace (default "" (last (Split identifier "."))) in
    let identifier := Trim identifier (String "\" (String "034" (String "`" (String "'" "")))) in
    strip_brackets identifier.

(** ** Parser *)

(** [predicateParser]: [rest] is [tokens[pos:]] and [nargs] is [len(args)]. *)
Record predicateParser := MkParser {
  rest : list predicateToken;
  nargs : Z;
  p_argIndex : Z
}.

Definition current (p : predicateParser) : predicateToken := default (tok tokenEOF "") (head (rest p)).
Definition advance (p : predicateParser) : predicateParser :=
  MkParser (tail (rest p)) (nargs p) (p_argIndex p).

(** [match]: consume the current token when it has the kind. *)
Definition match_tok (k : tokenKind) (p : predicateParser) : option predicateParser :=
  if bool_decide (tkind (current p) = k) then Some (advance p) else None.

Definition parseOperand (p : predicateParser) : result (predicateOperand * predicateParser) :=
  let t := current p in
  match tkind t with
  | tokenPlaceholder =>
      let p := advance p in
      if (nargs p <=? p_argIndex p)%Z then Err (ErrMsg "not enough arguments for WHERE clause")
      else Ok (MkOperand (p_argIndex p) None false,
               MkParser (rest p) (nargs p) (p_argIndex p + 1))
  | tokenLiteral => Ok (MkOperand 0 (tliteral t) true, advance p)
  | _ => Err (ErrMsg "expected placeholder or literal in WHERE clause")
  end.

(** The [for] loop over the operands of IN, up to the token that is no comma. *)
Fixpoint parse_operand_list (fuel : nat) (p : predicateParser) :
    option (result (list predicateOperand * predicateParser)) :=
  match fuel with
  | O => None
  | S f =>
      match parseOperand p with
      | Err e => Some (Err e)
      | Panic m => Some (Panic m)
      | Ok (operand, p) =>
          match match_tok tokenComma p with
          | None => Some (Ok ([operand], p))
          | Some p =>
              match parse_operand_list f p with
              | Some (Ok (l, p)) => Some (Ok (operand :: l, p))
              | r => r
              end
          end
      end
  end.

Definition is_in (operator : string) : bool := (operator =? "IN") || (operator =? "NOT IN").

Definition parseOperands (operator : string) (p : predicateParser) :
    result (list predicateOperand * predicateParser) :=
  if is_in operator then
    match match_tok tokenLParen p with
    | None => Err (ErrMsg "requires operands inside parentheses")
    | Some p =>
        '(operands, p) ← run (parse_operand_list (S (length (rest p))) p);
        if bool_decide (length operands = 0%nat) then Err (ErrMsg "requires at least one operand")
        else match match_tok tokenRParen p with
             | None => Err (ErrMsg "requires closing ')' after operands")
             | Some p => Ok (operands, p)
             end
    end
  else '(operand, p) ← parseOperand p; Ok ([operand], p).

Definition parseOperator (p : predicateParser) : result (string * predicateParser) :=
  let t := current p in
  match tkind t with
  | tokenNot =>
      let p := advance p in
      let next := current p in
      if negb (bool_decide (tkind next = tokenOperator)) ||
         negb (tvalue next =? "LIKE") && negb (tvalue next =? "IN")
      then Err (ErrMsg "NOT must be followed by LIKE or IN in WHERE clause")
      else Ok ("NOT " +:+ tvalue next, advance p)
  | tokenOperator => Ok (tvalue t, advance p)
  | _ => Err (ErrMsg "expected operator in WHERE clause")
  end.

Definition parseCondition (p : predicateParser) : result (predicateNode * predicateParser) :=
  let fieldTok := current p in
  if negb (bool_decide (tkind fieldTok = tokenIdentifier))
  then Err (ErrMsg "expected field name in WHERE clause")
  else
    '(operator, p) ← parseOperator (advance p);
    '(operands, p) ← parseOperands operator p;
    Ok (conditionPredicateNode (normalizeWhereIdentifier (tvalue fieldTok)) operator operands, p).

Definition pres := option (result (predicateNode * predicateParser)).

(** [parseOr], [parseAnd] and [parsePrimary]; the two [for] loops are
    [or_loop] and [and_loop].  [parseExpression] is [parseOr]. *)
Fixpoint parseOr (fuel : nat) (p : predicateParser) : pres :=
  match fuel with
  | O => None
  | S f => match parseAnd f p with
           | Some (Ok (l, p)) => or_loop f l p
           | e => e
           end
  end
with or_loop (fuel : nat) (l : predicateNode) (p : predicateParser) : pres :=
  match fuel with
  | O => None
  | S f => match match_tok tokenOr p with
           | None => Some (Ok (l, p))
           | Some p => match parseAnd f p with
                       | Some (Ok (r, p)) => or_loop f (logicalPredicateNode "OR" l r) p
                       | e => e
                       end
           end
  end
with parseAnd (fuel : nat) (p : predicateParser) : pres :=
  match fuel with
  | O => None
  | S f => match parsePrimary f p with
           | Some (Ok (l, p)) => and_loop f l p
           | e => e
           end
  end
with and_loop (fuel : nat) (l : predicateNode) (p : predicateParser) : pres :=
  match fuel with
  | O => None
  | S f => match match_tok tokenAnd p with
           | None => Some (Ok (l, p))
           | Some p => match parsePrimary f p with
                       | Some (Ok (r, p)) => and_loop f (logicalPredicateNode "AND" l r) p
                       | e => e
                       end
           end
  end
with parsePrimary (fuel : nat) (p : predicateParser) : pres :=
  match fuel with
  | O => None
  | S f => match match_tok tokenLParen p with
           | Some p =>
               match parseOr f p with
               | Some (Ok (node, p)) =>
                   match match_tok tokenRParen p with
                   | Some p => Some (Ok (node, p))
                   | None => Some (Err (ErrMsg "expected ')' in WHERE clause"))
                   end
               | e => e
               end
           | None => Some (parseCondition p)
           end
  end.

(** Enough fuel for the tokens [p] has left (see [parse_total]). *)
Definition parse_fuel (p : predicateParser) : nat := (4 * length (rest p) + 3)%nat.

Definition parseExpression (p : predicateParser) : result (predicateNode * predicateParser) :=
  run (parseOr (parse_fuel p) p).

Definition parseQueryPredicate (params : QueryParams) : result queryPredicate :=
  let where_ := TrimSpace (Where params) in
  if where_ =? "" then Ok (MkQueryPredicate None (Args params))
  else
    tokens ← tokenizeWhere where_;
    '(node, p) ← parseExpression (MkParser tokens (Z.of_nat (length (Args params))) 0);
    if negb (bool_decide (tkind (current p) = tokenEOF))
    then Err (ErrMsg "unsupported WHERE clause structure")
    else if negb (p_argIndex p =? Z.of_nat (length (Args params)))%Z
    then Err (ErrMsg "mismatched number of placeholders ('?') and arguments")
    else Ok (MkQueryPredicate (Some node) (Args params)).

(** ** Operands and analyses *)

Fixpoint resolveOperands (operands : list predicateOperand) (args : list (option goval)) :
    result (list (option goval)) :=
  match operands with
  | [] => Ok []
  | operand :: operands =>
      if hasLiteral operand then
        values ← resolveOperands operands args; Ok (value operand :: values)
      else if ((argIndex operand <? 0) || (Z.of_nat (length args) <=? argIndex operand))%Z
      then Err (ErrMsg "argument index out of bounds")
      else
        values ← resolveOperands operands args;
        Ok (default None (args !! Z.to_nat (argIndex operand)) :: values)
  end.

(** [Fields]: the set the Go map collects. *)
Fixpoint node_Fields (n : predicateNode) (out : gset string) : gset string :=
  match n with
  | logicalPredicateNode _ l r => node_Fields r (node_Fields l out)
  | conditionPredicateNode field _ _ => {[field]} ∪ out
  end.

Definition predicate_Fields (p : queryPredicate) : gset string :=
  match root p with None => ∅ | Some n => node_Fields n ∅ end.

Definition expandExactMatchValues (arg : option goval) : list (option goval) :=
  match arg with
  | None => []
  | Some v => match under v with
              | VSlice _ (Some l) | VArray _ l => value_Interface <$> l
              | _ => []
              end
  end.

Abbreviation exact_map := (gmap string (list (option goval))).

(** [out[field] = append(out[field], vals...)] *)
Definition append_values (field : string) (vals : list (option goval)) (out : exact_map) : exact_map :=
  <[field := (default [] (out !! field) ++ vals)%list]> out.

(** Whether the single operand of IN is a placeholder (its argument is then
    the whole list). *)
Definition single_placeholder (operands : list predicateOperand) : bool :=
  match operands with [o] => negb (hasLiteral o) | _ => false end.

Fixpoint node_ExactMatches (n : predicateNode) (args : list (option goval)) (out : exact_map) : exact_map :=
  match n with
  | logicalPredicateNode _ l r => node_ExactMatches r args (node_ExactMatches l args out)
  | conditionPredicateNode field operator operands =>
      match resolveOperands operands args with
      | Err _ | Panic _ => out
      | Ok values =>
          if operator =? "=" then
            match values with [v] => append_values field [v] out | _ => out end
          else if operator =? "IN" then
            match values with
            | [v] =>
                if single_placeholder operands then
                  match expandExactMatchValues v with
                  | [] => out
                  | vals => append_values field vals out
                  end
                else match expandExactMatchValues v with
                     | [] => append_values field [v] out
                     | vals => append_values field vals out
                     end
            | _ =>
                foldl (λ out v, match expandExactMatchValues v with
                                | [] => append_values field [v] out
                                | vals => append_values field vals out
                                end) out values
            end
          else out
      end
  end.

Definition predicate_ExactMatches (p : queryPredicate) : exact_map :=
  match root p with None => ∅ | Some n => node_ExactMatches n (qp_args p) ∅ end.
