(* ===== verification/PredicateFacts.v ===== *)
(** * Correctness of the WHERE parser

    - the tokenizer and the parser are total: the fuel they run with is enough
      for every input;
    - a parsed predicate is well formed: every condition has the operands its
      operator takes, the placeholders are numbered from left to right without
      gaps, and their arguments exist;
    - parsing inverts printing: AND binds tighter than OR, both associate to
      the left, and parentheses override. *)

From S2P Require Import Prelude GoStrings GoValues Predicate.

Open Scope string_scope.

(** ** The tokenizer is total *)

Lemma scanSymbol_consumes ch r op next :
  scanSymbolOperator (String ch r) = Ok (op, next) → (String.length next <= String.length r)%nat.
Proof.
  destruct r as [|b r]; simpl; intros Hs; repeat case_match; simplify_eq; simpl; lia.
Qed.

Lemma until_consumes close s w next :
  until close s = Some (w, next) → (String.length next < String.length s)%nat.
Proof.
  revert w next. induction s as [|c s IH]; intros w next; simpl; [done|].
  case_match; [intros; simplify_eq; lia|].
  destruct (until close s) as [[w' rest']|]; [|done]. intros; simplify_eq. specialize (IH _ _ eq_refl). lia.
Qed.

Lemma scanString_consumes n s w next :
  (String.length s <= n)%nat → scanStringLiteral s = Ok (w, next) → (String.length next < String.length s)%nat.
Proof.
  revert s w next. induction n as [|n IH]; intros [|c s] w next Hn; simpl in Hn; [done|lia|done|].
  assert (Hrec : ∀ s' w' next', (String.length s' <= n)%nat →
    scanStringLiteral s' = Ok (w', next') → (String.length next' < String.length s')%nat) by eauto.
  assert (Hother : ∀ x y, ('(w, rest) ← scanStringLiteral s; Ok (String c w, rest)) = Ok (x, y) →
    (String.length y < String.length (String c s))%nat).
  { intros x y. destruct (scanStringLiteral s) as [[w' rest']| |] eqn:E; simpl; intros; simplify_eq.
    apply Hrec in E; [lia|lia]. }
  destruct (ascii_dec c "'") as [->|Hc].
  - destruct s as [|d s]; simpl; [intros; simplify_eq; simpl; lia|].
    destruct (ascii_dec d "'") as [->|Hd].
    + simpl in Hn. destruct (scanStringLiteral s) as [[w' rest']| |] eqn:E; simpl; intros; simplify_eq.
      apply Hrec in E; lia.
    + intros Hs. assert (next = String d s) as ->; [|simpl; lia].
      destruct d as [[] [] [] [] [] [] [] []]; try (simpl in Hs; congruence); congruence.
  - intros Hs. eapply Hother.
    rewrite <-Hs. destruct c as [[] [] [] [] [] [] [] []]; try reflexivity; congruence.
Qed.

Lemma scanWord_consumes s : (String.length (scanWord s).2 <= String.length s)%nat.
Proof.
  induction s as [|c s IH]; simpl; [lia|]. destruct (word_end c); simpl; [lia|].
  destruct (scanWord s); simpl in *. lia.
Qed.

Lemma tokenize_step_consumes ch rest_ t next :
  tokenize_step ch rest_ = Ok (t, next) → (String.length next <= String.length rest_)%nat.
Proof.
  unfold tokenize_step. destruct (blank ch) eqn:Eb; [intros; simplify_eq; lia|].
  do 4 (case_bool_decide; [intros; simplify_eq; lia|]).
  destruct (symbol ch) eqn:Es.
  { destruct (scanSymbolOperator _) as [[op n]| |] eqn:E; simpl; intros; simplify_eq.
    by eapply scanSymbol_consumes. }
  case_bool_decide.
  { destruct (scanStringLiteral rest_) as [[w n]| |] eqn:E; simpl; intros; simplify_eq.
    apply (scanString_consumes (String.length rest_)) in E; lia. }
  destruct (byte_in ch _).
  { unfold scanQuotedIdentifier. destruct (until _ rest_) as [[w n]|] eqn:E; simpl; intros; simplify_eq.
    apply until_consumes in E. lia. }
  simpl. assert (word_end ch = false) as ->.
  { unfold word_end. rewrite Eb, Es. simpl. rewrite orb_false_r.
    apply bool_decide_eq_false. simpl. set_solver. }
  destruct (scanWord rest_) as [w n] eqn:E. intros; simplify_eq.
  pose proof (scanWord_consumes rest_). rewrite E in *. done.
Qed.

Lemma tokenize_loop_total fuel s :
  (String.length s <= fuel)%nat → ∃ r, tokenize_loop fuel s = Some r.
Proof.
  revert s. induction fuel as [|fuel IH]; intros [|ch rest_] Hl; simpl in *; [eauto|lia|eauto|].
  destruct (tokenize_step ch rest_) as [[t next]| |] eqn:E; [|eauto..].
  apply tokenize_step_consumes in E. destruct (IH next) as [r ->]; [lia|]. destruct r; eauto.
Qed.

(** ** The parser is total *)

Abbreviation left p := (length (rest p)).

Lemma advance_left p : (left (advance p) <= left p)%nat.
Proof. unfold advance; simpl. destruct (rest p); simpl; lia. Qed.

Lemma kind_advance p k : tkind (current p) = k → k ≠ tokenEOF → (S (left (advance p)) = left p)%nat.
Proof. unfold current, advance. destruct (rest p); simpl; [intros <-; done|done]. Qed.

Lemma match_tok_left k p p' : match_tok k p = Some p' → k ≠ tokenEOF → (S (left p') = left p)%nat.
Proof. unfold match_tok. case_bool_decide as Hk; [|done]. intros [= <-] ?. by eapply kind_advance. Qed.

Lemma parseOperand_left p o p' : parseOperand p = Ok (o, p') → (S (left p') = left p)%nat.
Proof.
  unfold parseOperand. destruct (tkind (current p)) eqn:E; try done.
  - destruct (_ <=? _)%Z; intros; simplify_eq. simpl. by apply (kind_advance p) in E.
  - intros; simplify_eq. by apply (kind_advance p) in E.
Qed.

Lemma operand_list_total fuel p :
  (left p < fuel)%nat →
  ∃ r, parse_operand_list fuel p = Some r ∧ ∀ l p', r = Ok (l, p') → (left p' < left p)%nat ∧ l ≠ [].
Proof.
  revert p. induction fuel as [|fuel IH]; intros p Hl; simpl; [lia|].
  destruct (parseOperand p) as [[o p1]| |] eqn:E; [|eexists; split; [done|done]..].
  apply parseOperand_left in E. destruct (match_tok tokenComma p1) as [p2|] eqn:Em.
  - apply match_tok_left in Em; [|done]. destruct (IH p2) as (r&->&Hr); [lia|].
    destruct r as [[l p3]| |]; (eexists; split; [done|]); intros; simplify_eq.
    destruct (Hr l p') as [? ?]; [done|]. split; [lia|done].
  - eexists. split; [done|]. intros; simplify_eq. split; [lia|done].
Qed.

Lemma parseOperands_left op p l p' :
  parseOperands op p = Ok (l, p') → (left p' <= left p)%nat ∧ l ≠ [] ∧ (is_in op = false → length l = 1%nat).
Proof.
  unfold parseOperands. destruct (is_in op).
  - destruct (match_tok tokenLParen p) as [p1|] eqn:E1; [|done]. apply match_tok_left in E1; [|done].
    destruct (operand_list_total (S (left p1)) p1) as (r&Hr&Hok); [lia|]. rewrite Hr. simpl.
    destruct r as [[l1 p2]| |]; try done. simpl. destruct (Hok l1 p2) as [? ?]; [done|].
    case_bool_decide; [done|]. destruct (match_tok tokenRParen p2) as [p3|] eqn:E3; [|done].
    apply match_tok_left in E3; [|done]. intros; simplify_eq. split; [lia|done].
  - destruct (parseOperand p) as [[o p1]| |] eqn:E; try done. apply parseOperand_left in E.
    intros; simplify_eq/=. split; [lia|done].
Qed.

Lemma parseOperator_left p op p' : parseOperator p = Ok (op, p') → (left p' <= left p)%nat.
Proof.
  unfold parseOperator. pose proof (advance_left p). pose proof (advance_left (advance p)).
  destruct (tkind (current p)); try done; [intros; simplify_eq; lia|].
  destruct (_ || _); intros; simplify_eq. lia.
Qed.

Lemma parseCondition_left p n p' : parseCondition p = Ok (n, p') → (left p' < left p)%nat.
Proof.
  unfold parseCondition. case_bool_decide as Hk; [|done]. simpl. apply kind_advance in Hk; [|done].
  destruct (parseOperator (advance p)) as [[op p1]| |] eqn:E1; try done. simpl.
  destruct (parseOperands op p1) as [[l p2]| |] eqn:E2; try done. simpl. intros; simplify_eq.
  apply parseOperator_left in E1. apply parseOperands_left in E2 as [? _]. lia.
Qed.

(** A call returns, and consumes at least [k] tokens when it succeeds. *)
Definition returns (k : nat) (p : predicateParser) (r : pres) : Prop :=
  ∃ res, r = Some res ∧ ∀ n p', res = Ok (n, p') → (left p' + k <= left p)%nat.

Ltac returned := eexists; split; [done|]; intros; simplify_eq; try done; try lia.

Lemma parse_returns fuel :
  (∀ p, (4 * left p + 3 <= fuel)%nat → returns 1 p (parseOr fuel p)) ∧
  (∀ p, (4 * left p + 1 <= fuel)%nat → ∀ l, returns 0 p (or_loop fuel l p)) ∧
  (∀ p, (4 * left p + 2 <= fuel)%nat → returns 1 p (parseAnd fuel p)) ∧
  (∀ p, (4 * left p + 1 <= fuel)%nat → ∀ l, returns 0 p (and_loop fuel l p)) ∧
  (∀ p, (4 * left p + 1 <= fuel)%nat → returns 1 p (parsePrimary fuel p)).
Proof.
  induction fuel as [|fuel (IHo&IHol&IHa&IHal&IHp)]; [split_and!; intros; lia|].
  assert (Hseq : ∀ p (parse : predicateParser → pres) (loop : predicateNode → predicateParser → pres),
    returns 1 p (parse p) →
    (∀ l p', (left p' + 1 <= left p)%nat → returns 0 p' (loop l p')) →
    returns 1 p (match parse p with Some (Ok (l, p')) => loop l p' | e => e end)).
  { intros p parse loop (r&->&Hr) Hloop. destruct r as [[l p1]| |]; [|returned..].
    specialize (Hr _ _ eq_refl). destruct (Hloop l p1 Hr) as (r&->&Hr'). destruct r as [[l2 p2]| |]; returned.
    specialize (Hr' _ _ eq_refl). lia. }
  assert (Hstep : ∀ p (tk : tokenKind) l (parse : predicateParser → pres) (loop : predicateNode → predicateParser → pres),
    tk ≠ tokenEOF →
    (∀ p', (S (left p') = left p)%nat → returns 1 p' (parse p')) →
    (∀ l p', (left p' + 2 <= left p)%nat → returns 0 p' (loop l p')) →
    returns 0 p (match match_tok tk p with
                 | None => Some (Ok (l, p))
                 | Some p' => match parse p' with Some (Ok (r, p'')) => loop r p'' | e => e end
                 end)).
  { intros p tk l parse loop Htk Hparse Hloop. destruct (match_tok tk p) as [p1|] eqn:Em; [|returned].
    apply match_tok_left in Em; [|done]. destruct (Hparse p1 Em) as (r&->&Hr).
    destruct r as [[n2 p2]| |]; [|returned..]. specialize (Hr _ _ eq_refl).
    destruct (Hloop n2 p2) as (r&->&Hr'); [lia|]. returned. specialize (Hr' _ _ eq_refl). lia. }
  split_and!; intros p Hp; cbn [parseOr or_loop parseAnd and_loop parsePrimary]; intros.
  - apply (Hseq p (parseAnd fuel) (or_loop fuel)); [apply IHa; lia|].
    intros l p' ?. apply IHol. lia.
  - apply (Hstep p tokenOr l (parseAnd fuel) (λ r, or_loop fuel (logicalPredicateNode "OR" l r))); [done| |].
    + intros p' ?. apply IHa. lia.
    + intros l' p' ?. apply IHol. lia.
  - apply (Hseq p (parsePrimary fuel) (and_loop fuel)); [apply IHp; lia|].
    intros l p' ?. apply IHal. lia.
  - apply (Hstep p tokenAnd l (parsePrimary fuel) (λ r, and_loop fuel (logicalPredicateNode "AND" l r))); [done| |].
    + intros p' ?. apply IHp. lia.
    + intros l' p' ?. apply IHal. lia.
  - destruct (match_tok tokenLParen p) as [p1|] eqn:Em.
    + apply match_tok_left in Em; [|done]. destruct (IHo p1) as (r&->&Hr); [lia|].
      destruct r as [[n2 p2]| |]; [|returned..]. specialize (Hr _ _ eq_refl).
      destruct (match_tok tokenRParen p2) as [p3|] eqn:E3; [|returned].
      apply match_tok_left in E3; [|done]. returned.
    + eexists. split; [done|]. intros n' p' Hc. apply parseCondition_left in Hc. lia.
Qed.

(** C34: the tokenizer, the operand-list loop and the recursive-descent parser return on every
    input within the fuel the model gives them (the length of the input), and a successful parse
    consumes input. *)
Theorem where_parser_total :
  (∀ s, is_Some (tokenize_loop (String.length s) s)) ∧
  (∀ p, is_Some (parse_operand_list (S (length (rest p))) p)) ∧
  (∀ p, ∃ r, parseOr (parse_fuel p) p = Some r ∧
             ∀ n p', r = Ok (n, p') → (length (rest p') < length (rest p))%nat).
Proof.
  split_and!.
  - intros s. destruct (tokenize_loop_total (String.length s) s) as [r ->]; eauto.
  - intros p. destruct (operand_list_total (S (left p)) p) as (r&->&_); [lia|eauto].
  - intros p. destruct (parse_returns (parse_fuel p)) as [Ho _]. destruct (Ho p) as (r&Hr&Hl); [done|].
    exists r. split; [done|]. intros n p' ?. specialize (Hl n p' ltac:(done)). lia.
Qed.

(** ** Parsed predicates are well formed *)

Definition known_operators : list string :=
  ["="; "<"; ">"; ">="; "<="; "!="; "<>"; "LIKE"; "IN"; "NOT LIKE"; "NOT IN"].

(** The indices of the placeholders of a list of operands, of a node. *)
Definition operand_places (l : list predicateOperand) : list Z :=
  l ≫= λ o, if hasLiteral o then [] else [argIndex o].

Fixpoint node_conditions (n : predicateNode) : list (string * string * list predicateOperand) :=
  match n with
  | logicalPredicateNode _ l r => (node_conditions l ++ node_conditions r)%list
  | conditionPredicateNode f op operands => [(f, op, operands)]
  end.

Definition node_places (n : predicateNode) : list Z :=
  node_conditions n ≫= λ c, operand_places c.2.

Definition condition_ok (c : string * string * list predicateOperand) : Prop :=
  c.1.2 ∈ known_operators ∧ c.2 ≠ [] ∧ (is_in c.1.2 = false → length c.2 = 1%nat).

Fixpoint node_ops (n : predicateNode) : list string :=
  match n with
  | logicalPredicateNode op l r => (op :: node_ops l ++ node_ops r)%list
  | conditionPredicateNode _ _ _ => []
  end.

Definition node_ok (n : predicateNode) : Prop :=
  Forall condition_ok (node_conditions n) ∧ Forall (λ op, op = "AND" ∨ op = "OR") (node_ops n).

Lemma node_places_logical op l r :
  node_places (logicalPredicateNode op l r) = (node_places l ++ node_places r)%list.
Proof. unfold node_places. simpl. by rewrite bind_app. Qed.

Lemma node_ok_logical op l r :
  op = "AND" ∨ op = "OR" → node_ok l → node_ok r → node_ok (logicalPredicateNode op l r).
Proof.
  intros Hop [Hl1 Hl2] [Hr1 Hr2]. split; simpl; [by apply Forall_app|].
  constructor; [done|by apply Forall_app].
Qed.

(** The operator tokens carry known operators. *)
Definition token_ok (t : predicateToken) : Prop := tkind t = tokenOperator → tvalue t ∈ known_operators.
Definition tokens_ok (ts : list predicateToken) : Prop := Forall token_ok ts.

Lemma scanSymbol_known s op next : scanSymbolOperator s = Ok (op, next) → op ∈ known_operators.
Proof.
  unfold scanSymbolOperator, known_operators. intros Hs.
  destruct s as [|a [|b r]]; [done|..].
  - destruct (byte_in a "=><") eqn:E; simplify_eq. apply bool_decide_eq_true in E. simpl in E. set_solver.
  - destruct (_ || _) eqn:E.
    + simplify_eq. repeat (apply orb_true_iff in E as [E|E]); apply String.eqb_eq in E; rewrite E; set_solver.
    + destruct (byte_in a "=><") eqn:E'; simplify_eq. apply bool_decide_eq_true in E'. simpl in E'. set_solver.
Qed.

Lemma classify_ok w : token_ok (classifyWordToken w).
Proof.
  unfold classifyWordToken, token_ok. repeat case_match; simpl; try done. intros _. bools.
  match goal with H : _ || _ = true |- _ => apply orb_true_iff in H as [H|H] end; bools;
    match goal with H : ToUpper w = _ |- _ => rewrite H end; unfold known_operators; set_solver.
Qed.

Lemma tokenize_step_ok ch s t next : tokenize_step ch s = Ok (Some t, next) → token_ok t.
Proof.
  unfold tokenize_step. destruct (blank ch); [done|].
  do 4 (case_bool_decide; [intros; simplify_eq; done|]).
  destruct (symbol ch).
  { destruct (scanSymbolOperator _) as [[op n]| |] eqn:E; simpl; intros; simplify_eq. intros _. simpl.
    by eapply scanSymbol_known. }
  case_bool_decide. { destruct (scanStringLiteral s) as [[w n]| |]; simpl; intros; simplify_eq. done. }
  destruct (byte_in ch _). { destruct (scanQuotedIdentifier ch s) as [[w n]| |]; simpl; intros; simplify_eq. apply classify_ok. }
  destruct (scanWord _) as [w n]. intros; simplify_eq. apply classify_ok.
Qed.

Lemma tokenize_loop_ok fuel s ts : tokenize_loop fuel s = Some (Ok ts) → tokens_ok ts.
Proof.
  revert s ts. induction fuel as [|fuel IH]; intros [|ch s] ts; simpl; try done;
    try (intros; simplify_eq; by repeat constructor).
  destruct (tokenize_step ch s) as [[t next]| |] eqn:E; try done.
  destruct (tokenize_loop fuel next) as [[ts'| |]|] eqn:El; try done. intros; simplify_eq.
  apply IH in El. destruct t as [t|]; simpl; [|done]. constructor; [by eapply tokenize_step_ok|done].
Qed.

(** What a successful call gives from parser [p] to parser [p']: it has read
    the placeholders numbered from [p_argIndex p] to [p_argIndex p' - 1]. *)
Definition reads (p p' : predicateParser) (places : list Z) : Prop :=
  nargs p' = nargs p ∧ (p_argIndex p <= p_argIndex p')%Z ∧
  ((p_argIndex p <= nargs p)%Z → (p_argIndex p' <= nargs p')%Z) ∧
  places = seqZ (p_argIndex p) (p_argIndex p' - p_argIndex p) ∧
  (tokens_ok (rest p) → tokens_ok (rest p')).

Lemma reads_refl p : reads p p [].
Proof. unfold reads. by rewrite Z.sub_diag. Qed.

Lemma reads_trans p1 p2 p3 l1 l2 : reads p1 p2 l1 → reads p2 p3 l2 → reads p1 p3 (l1 ++ l2)%list.
Proof.
  intros (N1&A1&B1&->&T1) (N2&A2&B2&->&T2). unfold reads.
  split; [congruence|]. split; [lia|]. split; [intros; apply B2; lia|]. split; [|auto].
  replace (p_argIndex p3 - p_argIndex p1)%Z with
    ((p_argIndex p2 - p_argIndex p1) + (p_argIndex p3 - p_argIndex p2))%Z by lia.
  rewrite seqZ_app by lia. f_equal. f_equal; lia.
Qed.

Lemma reads_advance p : reads p (advance p) [].
Proof.
  unfold reads, advance; simpl. rewrite Z.sub_diag. split_and!; try done.
  intros Hok. destruct (rest p); [done|]. simpl. by apply Forall_cons in Hok as [_ ?].
Qed.

Lemma reads_match k p p' : match_tok k p = Some p' → reads p p' [].
Proof. unfold match_tok. case_match; [|done]. intros [= <-]. apply reads_advance. Qed.

Lemma parseOperand_reads p o p' : parseOperand p = Ok (o, p') → reads p p' (operand_places [o]).
Proof.
  unfold parseOperand, operand_places. destruct (tkind (current p)); try done.
  - simpl. destruct (Z.leb_spec (nargs p) (p_argIndex p)); intros; simplify_eq. simpl.
    pose proof (reads_advance p) as (_&_&_&_&Ht). unfold reads; simpl.
    replace (p_argIndex p + 1 - p_argIndex p)%Z with 1%Z by lia.
    split_and!; [done|lia|lia|done|done].
  - intros; simplify_eq. simpl. apply reads_advance.
Qed.

Lemma operand_places_app l1 l2 : operand_places (l1 ++ l2) = (operand_places l1 ++ operand_places l2)%list.
Proof. apply bind_app. Qed.

Lemma operand_list_reads fuel p l p' :
  parse_operand_list fuel p = Some (Ok (l, p')) → reads p p' (operand_places l).
Proof.
  revert p l p'. induction fuel as [|fuel IH]; intros p l p'; simpl; [done|].
  destruct (parseOperand p) as [[o p1]| |] eqn:E; try done. apply parseOperand_reads in E.
  destruct (match_tok tokenComma p1) as [p2|] eqn:Em; [|intros; by simplify_eq].
  apply reads_match in Em. destruct (parse_operand_list fuel p2) as [[[l2 p3]| |]|] eqn:El; try done.
  intros; simplify_eq. apply IH in El. change (o :: l2) with ([o] ++ l2)%list. rewrite operand_places_app.
  eapply reads_trans; [exact E|]. change (operand_places l2) with ([] ++ operand_places l2)%list.
  by eapply reads_trans.
Qed.

Lemma parseOperands_reads op p l p' : parseOperands op p = Ok (l, p') → reads p p' (operand_places l).
Proof.
  unfold parseOperands. destruct (is_in op).
  - destruct (match_tok tokenLParen p) as [p1|] eqn:E1; [|done]. apply reads_match in E1.
    destruct (parse_operand_list (S (left p1)) p1) as [[[l1 p2]| |]|] eqn:El; simpl; try done.
    apply operand_list_reads in El. case_bool_decide; [done|].
    destruct (match_tok tokenRParen p2) as [p3|] eqn:E3; [|done]. apply reads_match in E3.
    intros; simplify_eq. rewrite <-(app_nil_l (operand_places l)), <-(app_nil_r (operand_places l)).
    eauto using reads_trans.
  - destruct (parseOperand p) as [[o p1]| |] eqn:E; try done. apply parseOperand_reads in E.
    simpl. intros; by simplify_eq.
Qed.

Lemma parseOperator_reads p op p' :
  parseOperator p = Ok (op, p') → reads p p' [] ∧ (tokens_ok (rest p) → op ∈ known_operators).
Proof.
  unfold parseOperator. pose proof (reads_advance p) as H1. pose proof (reads_advance (advance p)) as H2.
  destruct (tkind (current p)) eqn:Ek; try done.
  - intros; simplify_eq. split; [done|]. unfold current in *. destruct (rest p) as [|t ts]; [done|].
    intros [Ht _]%Forall_cons. by apply Ht.
  - destruct (_ || _) eqn:Eb; intros; simplify_eq.
    split; [change (@nil Z) with ([] ++ [] : list Z)%list; eauto using reads_trans|].
    intros _. apply orb_false_iff in Eb as [_ Eb]. apply andb_false_iff in Eb as [Eb|Eb];
      apply negb_false_iff, String.eqb_eq in Eb; rewrite Eb; unfold known_operators; simpl; set_solver.
Qed.

Lemma parseCondition_reads p n p' :
  parseCondition p = Ok (n, p') → tokens_ok (rest p) → reads p p' (node_places n) ∧ node_ok n.
Proof.
  unfold parseCondition. case_bool_decide; [|done]. simpl. pose proof (reads_advance p) as H0.
  destruct (parseOperator (advance p)) as [[op p1]| |] eqn:E1; try done. simpl.
  destruct (parseOperands op p1) as [[l p2]| |] eqn:E2; try done. simpl. intros; simplify_eq.
  apply parseOperator_reads in E1 as [R1 Hop]. apply parseOperands_left in E2 as Hl. destruct Hl as (_&Hne&Hlen).
  apply parseOperands_reads in E2. unfold node_places. simpl. rewrite app_nil_r. split.
  - rewrite <-(app_nil_l (operand_places l)), <-(app_nil_l (operand_places l)). eauto using reads_trans.
  - split; simpl; [|done]. constructor; [|done]. split; [apply Hop; by apply H0|done].
Qed.

(** The result of a call on [p], given the places [ls] already read by its
    left operand. *)
Definition good (p : predicateParser) (ls : list Z) (r : pres) : Prop :=
  ∀ n p', r = Some (Ok (n, p')) → tokens_ok (rest p) →
    ∃ more, node_places n = (ls ++ more)%list ∧ reads p p' more ∧ node_ok n.

Lemma good_seq p (parse : predicateParser → pres) (loop : predicateNode → predicateParser → pres) :
  good p [] (parse p) →
  (∀ l p', node_ok l → good p' (node_places l) (loop l p')) →
  good p [] (match parse p with Some (Ok (l, p')) => loop l p' | e => e end).
Proof.
  intros Hp Hloop n p' Hr Hok. destruct (parse p) as [[[l p1]| |]|] eqn:E; try done.
  destruct (Hp l p1 eq_refl Hok) as (more&Hm&Hrd&Hl). simpl in Hm.
  destruct (Hloop l p1 Hl n p' Hr) as (more'&Hm'&Hrd'&Hn); [by apply Hrd|].
  exists (more ++ more')%list. rewrite Hm', Hm. split; [done|]. split; [by eapply reads_trans|done].
Qed.

Lemma good_loop op p l tk (parse : predicateParser → pres) (loop : predicateNode → predicateParser → pres) :
  op = "AND" ∨ op = "OR" → node_ok l → (∀ p, good p [] (parse p)) →
  (∀ l p', node_ok l → good p' (node_places l) (loop l p')) →
  good p (node_places l) (match match_tok tk p with
    | None => Some (Ok (l, p))
    | Some p' => match parse p' with Some (Ok (r, p'')) => loop (logicalPredicateNode op l r) p'' | e => e end
    end).
Proof.
  intros Hop Hl Hp Hloop n p' Hr Hok. destruct (match_tok tk p) as [p1|] eqn:Em.
  - apply reads_match in Em. destruct (parse p1) as [[[r p2]| |]|] eqn:E; try done.
    destruct (Hp p1 r p2 E) as (m1&Hm1&R1&Hr1); [by apply Em|].
    destruct (Hloop (logicalPredicateNode op l r) p2 (node_ok_logical _ _ _ Hop Hl Hr1) n p' Hr) as (m2&Hm2&R2&Hn);
      [by apply R1, Em|].
    exists (m1 ++ m2)%list. simpl in Hm1. rewrite Hm2, node_places_logical, Hm1, app_assoc.
    split; [done|]. split; [|done]. rewrite <-(app_nil_l (m1 ++ m2)%list). eauto using reads_trans.
  - simplify_eq. exists []. rewrite app_nil_r. split; [done|]. split; [apply reads_refl|done].
Qed.

Lemma parse_good fuel :
  (∀ p, good p [] (parseOr fuel p)) ∧ (∀ l p, node_ok l → good p (node_places l) (or_loop fuel l p)) ∧
  (∀ p, good p [] (parseAnd fuel p)) ∧ (∀ l p, node_ok l → good p (node_places l) (and_loop fuel l p)) ∧
  (∀ p, good p [] (parsePrimary fuel p)).
Proof.
  induction fuel as [|fuel (IHo&IHol&IHa&IHal&IHp)]; [by split_and!|].
  split_and!; intros; cbn [parseOr or_loop parseAnd and_loop parsePrimary].
  - by apply good_seq.
  - apply good_loop; auto.
  - by apply good_seq.
  - apply good_loop; auto.
  - intros n p' Hr Hok. destruct (match_tok tokenLParen p) as [p1|] eqn:Em.
    + apply reads_match in Em. destruct (parseOr fuel p1) as [[[n2 p2]| |]|] eqn:E; try done.
      destruct (IHo p1 n2 p2 E) as (m1&Hm1&R1&Hn); [by apply Em|].
      destruct (match_tok tokenRParen p2) as [p3|] eqn:E3; [|done]. simplify_eq. apply reads_match in E3.
      exists m1. split; [done|]. split; [|done]. rewrite <-(app_nil_l m1), <-(app_nil_r m1). eauto using reads_trans.
    + simplify_eq. destruct (parseCondition_reads p n p') as [? ?]; [done..|]. eauto.
Qed.

Lemma resolveOperands_total (operands : list predicateOperand) (args : list (option goval)) :
  (∀ i, i ∈ operand_places operands → (0 <= i < Z.of_nat (length args))%Z) →
  ∃ values, resolveOperands operands args = Ok values ∧ length values = length operands.
Proof.
  induction operands as [|o operands IH]; intros Hin; simpl; [eauto|].
  change (o :: operands) with ([o] ++ operands)%list in Hin. rewrite operand_places_app in Hin.
  destruct IH as (values&Hv&Hlen); [set_solver|]. rewrite Hv.
  unfold operand_places in Hin. simpl in Hin. destruct (hasLiteral o); simpl in *.
  - eexists. split; [done|]. simpl. congruence.
  - destruct (Hin (argIndex o)) as [? ?]; [set_solver|].
    destruct (Z.ltb_spec (argIndex o) 0), (Z.leb_spec (Z.of_nat (length args)) (argIndex o)); simpl; try lia.
    eexists. split; [done|]. simpl. congruence.
Qed.

Lemma parsed_predicate_wf_lemma params q n :
  parseQueryPredicate params = Ok q → root q = Some n →
  qp_args q = Args params ∧ node_ok n ∧ node_places n = seqZ 0 (Z.of_nat (length (Args params))) ∧
  ∀ c, c ∈ node_conditions n →
    ∃ values, resolveOperands c.2 (Args params) = Ok values ∧ length values = length c.2.
Proof.
  unfold parseQueryPredicate. destruct (_ =? ""); [intros; by simplify_eq/=|].
  unfold tokenizeWhere. destruct (tokenize_loop _ _) as [[ts| |]|] eqn:Et; simpl; try done.
  apply tokenize_loop_ok in Et. unfold parseExpression, run.
  destruct (parseOr _ _) as [[[node p]| |]|] eqn:Ep; simpl; try done.
  case_bool_decide; [|done]. simpl. destruct (Z.eqb_spec (p_argIndex p) (Z.of_nat (length (Args params)))) as [Ha|]; [|done].
  intros; simplify_eq/=.
  destruct (parse_good (parse_fuel (MkParser ts (Z.of_nat (length (Args params))) 0))) as [Hg _].
  destruct (Hg _ _ _ Ep Et) as (more&Hm&(_&_&_&->&_)&Hok). simpl in Hm. rewrite Ha, Z.sub_0_r in Hm.
  split; [done|]. split; [done|]. split; [done|]. intros c Hc. apply resolveOperands_total.
  intros i Hi. assert (Hin : i ∈ node_places n) by (unfold node_places; apply list_elem_of_bind; eauto).
  rewrite Hm in Hin. apply elem_of_seqZ in Hin. lia.
Qed.

(** A WHERE clause that parses uses each argument exactly once and in order, has only known
    operators with one operand (or a non-empty list for IN), and the operands of each condition
    resolve. *)
Theorem parsed_predicate_wf params q n :
  parseQueryPredicate params = Ok q → root q = Some n →
  qp_args q = Args params ∧ node_ok n ∧ node_places n = seqZ 0 (Z.of_nat (length (Args params))) ∧
  ∀ c, c ∈ node_conditions n →
    ∃ values, resolveOperands c.2 (Args params) = Ok values ∧ length values = length c.2.
Proof. apply parsed_predicate_wf_lemma. Qed.

(** ** Printing and parsing back *)

Definition operand_token (o : predicateOperand) : predicateToken :=
  if hasLiteral o then MkToken tokenLiteral "" (value o) else tok tokenPlaceholder "?".

Definition operator_tokens (op : string) : list predicateToken :=
  if op =? "NOT LIKE" then [tok tokenNot "NOT"; tok tokenOperator "LIKE"]
  else if op =? "NOT IN" then [tok tokenNot "NOT"; tok tokenOperator "IN"]
  else [tok tokenOperator op].

Fixpoint operand_tokens (l : list predicateOperand) : list predicateToken :=
  match l with
  | [] => []
  | [o] => [operand_token o]
  | o :: l => operand_token o :: tok tokenComma "," :: operand_tokens l
  end.

Definition condition_tokens (f op : string) (l : list predicateOperand) : list predicateToken :=
  (tok tokenIdentifier f :: operator_tokens op ++
   (if is_in op then tok tokenLParen "(" :: operand_tokens l ++ [tok tokenRParen ")"] else operand_tokens l))%list.

Definition parens (body : list predicateToken) : list predicateToken :=
  (tok tokenLParen "(" :: body ++ [tok tokenRParen ")"])%list.

(** Level 0 is a disjunction, 1 a conjunction, 2 a primary. *)
Fixpoint print (level : nat) (n : predicateNode) : list predicateToken :=
  match n with
  | conditionPredicateNode f op l => condition_tokens f op l
  | logicalPredicateNode op l r =>
      if op =? "OR" then
        let body := (print 0 l ++ tok tokenOr "OR" :: print 1 r)%list in
        if (level =? 0)%nat then body else parens body
      else
        let body := (print 1 l ++ tok tokenAnd "AND" :: print 2 r)%list in
        if (level <=? 1)%nat then body else parens body
  end.

(** The operands a parser produces: literals carry no index, placeholders no
    value; fields are normalized. *)
Definition operand_canonical (o : predicateOperand) : Prop :=
  if hasLiteral o then argIndex o = 0%Z else value o = None.
Definition condition_canonical (c : string * string * list predicateOperand) : Prop :=
  normalizeWhereIdentifier c.1.1 = c.1.1 ∧ Forall operand_canonical c.2.
Definition canonical (n : predicateNode) : Prop :=
  node_ok n ∧ Forall condition_canonical (node_conditions n).

Lemma canonical_logical op l r :
  canonical (logicalPredicateNode op l r) → canonical l ∧ canonical r ∧ (op = "AND" ∨ op = "OR").
Proof.
  intros [[H1 H2] H3]. simpl in *. apply Forall_app in H1 as [? ?]. apply Forall_app in H3 as [? ?].
  apply Forall_cons in H2 as [? H2]. apply Forall_app in H2 as [? ?]. unfold canonical, node_ok. auto.
Qed.

Section roundtrip.
Context (N : Z).

(** The parser before and after the tokens of a list of placeholders. *)
Abbreviation at_ ts i := (MkParser ts N i).
Abbreviation count l := (Z.of_nat (length (l : list Z))).

Lemma seqZ_split i (l1 l2 : list Z) :
  (l1 ++ l2)%list = seqZ i (count (l1 ++ l2)%list) → l1 = seqZ i (count l1) ∧ l2 = seqZ (i + count l1) (count l2).
Proof.
  rewrite length_app, Nat2Z.inj_add, seqZ_app by lia. intros Heq.
  apply app_inj_1 in Heq; [done|]. rewrite length_seqZ. lia.
Qed.

Lemma parseOperand_print o ts i :
  operand_canonical o → operand_places [o] = seqZ i (count (operand_places [o])) →
  (i + count (operand_places [o]) <= N)%Z →
  parseOperand (at_ (operand_token o :: ts) i) = Ok (o, at_ ts (i + count (operand_places [o]))).
Proof.
  unfold operand_canonical, operand_places, parseOperand, operand_token. destruct o as [a v []]; simpl.
  - intros -> _ _. unfold advance; simpl. by rewrite Z.add_0_r.
  - intros -> Hp Hle. unfold current, advance; simpl in *.
    destruct (Z.leb_spec N i); [lia|]. injection Hp as ->. done.
Qed.

Lemma operand_list_print l ts i fuel :
  l ≠ [] → Forall operand_canonical l → operand_places l = seqZ i (count (operand_places l)) →
  (i + count (operand_places l) <= N)%Z → (length l <= fuel)%nat →
  (∀ t ts', ts = t :: ts' → tkind t ≠ tokenComma) →
  parse_operand_list fuel (at_ (operand_tokens l ++ ts)%list i) =
  Some (Ok (l, at_ ts (i + count (operand_places l)))).
Proof.
  intros Hne Hc Hp Hle Hf Hts. revert i fuel Hp Hle Hf. induction l as [|o l IH]; [done|]. intros i fuel Hp Hle Hf.
  apply Forall_cons in Hc as [Ho Hc]. change (o :: l) with ([o] ++ l)%list in Hp, Hle.
  rewrite operand_places_app in Hp, Hle. apply seqZ_split in Hp as [Hp1 Hp2].
  rewrite length_app, Nat2Z.inj_add in Hle. destruct fuel as [|fuel]; [simpl in Hf; lia|].
  destruct l as [|o' l].
  - simpl operand_tokens. cbn [app parse_operand_list].
    rewrite parseOperand_print by (done || lia).
    assert (match_tok tokenComma (at_ ts (i + count (operand_places [o]))) = None) as ->; [|done].
    unfold match_tok, current. simpl. destruct ts as [|t ts']; simpl; [done|].
    rewrite bool_decide_false; [done|]. by eapply Hts.
  - change (operand_tokens (o :: o' :: l)) with (operand_token o :: tok tokenComma "," :: operand_tokens (o' :: l)).
    cbn [app parse_operand_list]. rewrite parseOperand_print by (done || lia).
    unfold match_tok at 1, current at 1, advance; simpl hd. cbn [rest head default tkind tok]. 
    rewrite bool_decide_true by done. cbn [rest tail nargs p_argIndex].
    rewrite IH; [|done|done|done|lia|simpl in *; lia].
    change (o :: o' :: l) with ([o] ++ o' :: l)%list. rewrite operand_places_app, length_app, Nat2Z.inj_add, Z.add_assoc. done.
Qed.

Lemma match_tok_here k t ts i : tkind t = k → match_tok k (at_ (t :: ts) i) = Some (at_ ts i).
Proof. intros Ht. unfold match_tok, current. simpl. by rewrite bool_decide_true. Qed.
Lemma match_tok_not k t ts i : tkind t ≠ k → match_tok k (at_ (t :: ts) i) = None.
Proof. intros Ht. unfold match_tok, current. simpl. by rewrite bool_decide_false. Qed.

Lemma parseOperator_print op ts i :
  op ∈ known_operators → parseOperator (at_ (operator_tokens op ++ ts)%list i) = Ok (op, at_ ts i).
Proof.
  unfold known_operators. intros Hop.
  repeat (apply elem_of_cons in Hop as [->|Hop]; [reflexivity|]). by apply elem_of_nil in Hop.
Qed.

Lemma length_operand_tokens l : (length l <= length (operand_tokens l))%nat.
Proof. induction l as [|o [|o' l] IH]; simpl in *; lia. Qed.

Lemma parseOperands_print op l ts i :
  condition_ok ("", op, l) → Forall operand_canonical l →
  operand_places l = seqZ i (count (operand_places l)) → (i + count (operand_places l) <= N)%Z →
  parseOperands op (at_ ((if is_in op then tok tokenLParen "(" :: operand_tokens l ++ [tok tokenRParen ")"]
                          else operand_tokens l) ++ ts)%list i) =
  Ok (l, at_ ts (i + count (operand_places l))).
Proof.
  intros (_&Hne&Hlen) Hc Hp Hle. unfold parseOperands. simpl in Hne, Hlen. destruct (is_in op).
  - cbn [app]. rewrite match_tok_here by done. rewrite <-app_assoc. cbn [rest].
    rewrite (operand_list_print l ([tok tokenRParen ")"] ++ ts)%list); try done.
    + unfold run. cbn [default from_option mbind result_bind id app].
      rewrite bool_decide_false by (by destruct l). by rewrite match_tok_here.
    + rewrite length_app. pose proof (length_operand_tokens l). lia.
    + intros t ts' Heq. simpl in Heq. by simplify_eq.
  - destruct l as [|o [|o' l]]; [done| |by specialize (Hlen eq_refl)]. simpl.
    apply Forall_inv in Hc. by rewrite parseOperand_print.
Qed.

Lemma parseCondition_print f op l ts i :
  canonical (conditionPredicateNode f op l) →
  operand_places l = seqZ i (count (operand_places l)) → (i + count (operand_places l) <= N)%Z →
  parseCondition (at_ (condition_tokens f op l ++ ts)%list i) =
  Ok (conditionPredicateNode f op l, at_ ts (i + count (operand_places l))).
Proof.
  intros [[Hok _] Hcan] Hp Hle. simpl in *. apply Forall_inv in Hok, Hcan. destruct Hcan as [Hf Hc]; simpl in *.
  unfold parseCondition, condition_tokens. cbn [app]. unfold current. cbn [rest head default tkind tok].
  rewrite bool_decide_true by done. simpl negb. cbv iota.
  unfold advance. cbn [rest tail nargs p_argIndex]. rewrite <-app_assoc.
  destruct Hok as (Hop&Hne&Hlen). rewrite parseOperator_print by done. simpl.
  rewrite parseOperands_print by done. simpl. by rewrite Hf.
Qed.

(** What each level parses, with the fuel that is enough for its tokens. *)
Definition primary_ok (n : predicateNode) : Prop :=
  ∀ ts i fuel, node_places n = seqZ i (count (node_places n)) → (i + count (node_places n) <= N)%Z →
    (4 * length (print 2 n ++ ts) + 1 <= fuel)%nat →
    parsePrimary fuel (at_ (print 2 n ++ ts)%list i) = Some (Ok (n, at_ ts (i + count (node_places n)))).
Definition and_ok (n : predicateNode) : Prop :=
  ∀ ts i fuel res, node_places n = seqZ i (count (node_places n)) → (i + count (node_places n) <= N)%Z →
    (4 * length (print 1 n ++ ts) + 2 <= fuel)%nat →
    (∀ fuel, (4 * length ts + 1 <= fuel)%nat → and_loop fuel n (at_ ts (i + count (node_places n))) = Some res) →
    parseAnd fuel (at_ (print 1 n ++ ts)%list i) = Some res.
Definition or_ok (n : predicateNode) : Prop :=
  ∀ ts i fuel res, node_places n = seqZ i (count (node_places n)) → (i + count (node_places n) <= N)%Z →
    (4 * length (print 0 n ++ ts) + 3 <= fuel)%nat →
    (∀ t ts', ts = t :: ts' → tkind t ≠ tokenAnd) →
    (∀ fuel, (4 * length ts + 1 <= fuel)%nat → or_loop fuel n (at_ ts (i + count (node_places n))) = Some res) →
    parseOr fuel (at_ (print 0 n ++ ts)%list i) = Some res.

(** A loop stops at a token that is not its connective. *)
Lemma and_loop_stops n ts i fuel :
  (1 <= fuel)%nat → (∀ t ts', ts = t :: ts' → tkind t ≠ tokenAnd) →
  and_loop fuel n (at_ ts i) = Some (Ok (n, at_ ts i)).
Proof.
  intros Hf Hts. destruct fuel; [lia|]. cbn [and_loop]. destruct ts as [|t ts]; [done|].
  rewrite match_tok_not; [done|by eapply Hts].
Qed.
Lemma or_loop_stops n ts i fuel :
  (1 <= fuel)%nat → (∀ t ts', ts = t :: ts' → tkind t ≠ tokenOr) →
  or_loop fuel n (at_ ts i) = Some (Ok (n, at_ ts i)).
Proof.
  intros Hf Hts. destruct fuel; [lia|]. cbn [or_loop]. destruct ts as [|t ts]; [done|].
  rewrite match_tok_not; [done|by eapply Hts].
Qed.

(** A primary is a conjunction, a conjunction a disjunction. *)
Lemma primary_and n : print 1 n = print 2 n → primary_ok n → and_ok n.
Proof.
  intros Heq Hp ts i fuel res Hpl Hle Hf Hloop. rewrite Heq in *. destruct fuel as [|fuel]; [lia|].
  cbn [parseAnd]. rewrite Hp by (done || lia). apply Hloop. rewrite length_app in Hf. lia.
Qed.
Lemma and_or n : print 0 n = print 1 n → and_ok n → or_ok n.
Proof.
  intros Heq Ha ts i fuel res Hpl Hle Hf Hts Hloop. rewrite Heq in *. destruct fuel as [|fuel]; [lia|].
  cbn [parseOr]. rewrite length_app in Hf.
  rewrite (Ha ts i fuel (Ok (n, at_ ts (i + count (node_places n))))); try done.
  - apply Hloop. lia.
  - rewrite length_app. lia.
  - intros f Hf'. apply and_loop_stops; [lia|done].
Qed.

(** A parenthesized disjunction is a primary. *)
Lemma parens_primary n : print 2 n = parens (print 0 n) → or_ok n → primary_ok n.
Proof.
  intros Heq Ho ts i fuel Hpl Hle Hf. rewrite Heq in *. unfold parens in *. cbn [app] in *.
  rewrite <-app_assoc in *. simpl in Hf. destruct fuel as [|fuel]; [lia|]. cbn [parsePrimary].
  rewrite match_tok_here by done.
  rewrite (Ho ([tok tokenRParen ")"] ++ ts)%list i fuel (Ok (n, at_ ([tok tokenRParen ")"] ++ ts)%list (i + count (node_places n))))); try done.
  - simpl app. lia.
  - intros t ts' Heq'. simpl in Heq'. by simplify_eq.
  - intros f Hf'. apply or_loop_stops; [lia|]. intros t ts' Heq'. simpl in Heq'. by simplify_eq.
Qed.

Lemma print_parses n : canonical n → primary_ok n ∧ and_ok n ∧ or_ok n.
Proof.
  induction n as [op l IHl r IHr|f op l]; intros Hcan.
  - destruct (canonical_logical _ _ _ Hcan) as (Hl&Hr&Hop).
    destruct (IHl Hl) as (Pl&Al&Ol). destruct (IHr Hr) as (Pr&Ar&Or). clear IHl IHr.
    assert (Hplaces : ∀ i, node_places (logicalPredicateNode op l r) =
        seqZ i (count (node_places (logicalPredicateNode op l r))) →
        node_places l = seqZ i (count (node_places l)) ∧
        node_places r = seqZ (i + count (node_places l)) (count (node_places r)) ∧
        count (node_places (logicalPredicateNode op l r)) = (count (node_places l) + count (node_places r))%Z).
    { intros i. rewrite node_places_logical. intros [? ?]%seqZ_split. rewrite length_app. split_and!; try done. lia. }
    destruct Hop as [-> | ->].
    + assert (Ha : and_ok (logicalPredicateNode "AND" l r)).
      { intros ts i fuel res Hpl Hle Hf Hloop. destruct (Hplaces i Hpl) as (P1&P2&P3). rewrite P3 in *.
        simpl in *. rewrite <-app_assoc in *. cbn [app] in *. apply Al; [done|lia|done|].
        intros f Hf'. destruct f as [|f]; [lia|]. cbn [and_loop]. rewrite match_tok_here by done. simpl in Hf'.
        rewrite length_app in Hf'.
        rewrite Pr; [|done|lia|rewrite length_app; lia]. rewrite <-Z.add_assoc. apply Hloop. lia. }
      assert (Ho : or_ok (logicalPredicateNode "AND" l r)) by (by apply and_or).
      split; [|done]. by apply parens_primary.
    + assert (Ho : or_ok (logicalPredicateNode "OR" l r)).
      { intros ts i fuel res Hpl Hle Hf Hts Hloop. destruct (Hplaces i Hpl) as (P1&P2&P3). rewrite P3 in *.
        simpl in *. rewrite <-app_assoc in *. cbn [app] in *. apply Ol; [done|lia|done|intros; by simplify_eq|].
        intros f Hf'. destruct f as [|f]; [lia|]. cbn [or_loop]. rewrite match_tok_here by done. simpl in Hf'.
        rewrite length_app in Hf'.
        rewrite (Ar ts _ f (Ok (r, at_ ts (i + count (node_places l) + count (node_places r))))); [|done|lia|rewrite length_app; lia|].
        - rewrite <-Z.add_assoc. apply Hloop. lia.
        - intros f' Hf''. apply and_loop_stops; [lia|done]. }
      assert (Hp : primary_ok (logicalPredicateNode "OR" l r)) by (by apply parens_primary).
      split; [done|]. split; [|done]. by apply primary_and.
  - assert (Hp : primary_ok (conditionPredicateNode f op l)).
    { intros ts i fuel Hpl Hle Hf. destruct fuel as [|fuel]; [lia|]. cbn [parsePrimary print].
      assert (Hnp : node_places (conditionPredicateNode f op l) = operand_places l)
        by (unfold node_places; simpl; by rewrite app_nil_r).
      rewrite Hnp in *.
      assert (match_tok tokenLParen (at_ (condition_tokens f op l ++ ts)%list i) = None) as -> by done.
      by rewrite parseCondition_print. }
    assert (Ha : and_ok (conditionPredicateNode f op l)) by (by apply primary_and).
    split; [done|]. split; [done|]. by apply and_or.
Qed.
End roundtrip.

(** C33: parsing the tokens of a canonical predicate, printed with the fewest parentheses, gives
    the predicate back and consumes all of them: precedence and associativity of AND and OR are
    as in SQL. *)
Theorem parse_print n :
  canonical n → node_places n = seqZ 0 (Z.of_nat (length (node_places n))) →
  let nargs := Z.of_nat (length (node_places n)) in
  parseExpression (MkParser (print 0 n ++ [tok tokenEOF ""])%list nargs 0) =
  Ok (n, MkParser [tok tokenEOF ""] nargs nargs).
Proof.
  intros Hcan Hpl N. destruct (print_parses N n Hcan) as (_&_&Ho).
  unfold parseExpression, run.
  rewrite (Ho [tok tokenEOF ""] 0%Z _ (Ok (n, MkParser [tok tokenEOF ""] N N))); [done|done|lia|done|by intros; simplify_eq|].
  intros fuel Hf. apply or_loop_stops; [lia|by intros; simplify_eq].
Qed.
