(* ===== verification/QueryMatch.v ===== *)
(** * Evaluating a predicate on a model (internal/cache/query_match.go and the
    [Match] methods of query_predicate.go)

    A model is a pointer to a struct ([gostruct]).  Evaluation returns a
    [result bool]; [Panic] is a run-time panic of [reflect]. *)

From Stdlib Require Import SpecFloat.
From S2P Require Import Prelude GoStrings GoValues Predicate.

Open Scope string_scope.

(** ** nil *)

Definition nilable (k : kind) : bool :=
  match k with
  | KPointer | KInterface | KMap | KSlice | KChan | KFunc => true
  | _ => false
  end.

Definition isArgNil (arg : option goval) : bool :=
  match arg with
  | None => true
  | Some v => nilable (kindof v) && value_IsNil v
  end.

Definition isFieldNil (v : goval) : bool := nilable (kindof v) && value_IsNil v.

(** ** Equality *)

(** [Value.Elem] of a non-nil pointer. *)
Definition value_Elem (v : goval) : option goval :=
  match under v with VPtr _ p => p | _ => None end.

Definition is_pointer (v : goval) : bool := bool_decide (kindof v = KPointer).

Definition fieldEqualsArg `{GoPlatform} (fieldVal : goval) (arg : option goval) : bool :=
  if isFieldNil fieldVal then false
  else
    let arg_is_ptr := match arg with Some a => is_pointer a | None => false end in
    let actual :=
      if is_pointer fieldVal && negb arg_is_ptr
      then value_Elem fieldVal ≫= value_Interface
      else value_Interface fieldVal in
    match actual, arg with
    | Some x, Some a =>
        if ConvertibleTo (typeof a) (typeof x) then
          match Convert a (typeof x) with
          | Some c => DeepEqual actual (value_Interface c)
          | None => false
          end
        else DeepEqual actual arg
    | _, _ => DeepEqual actual arg
    end.

(** ** LIKE *)

Definition stringValueForLike (v : option goval) : string * bool * bool :=
  match v with
  | None => ("", false, true)
  | Some v =>
      match under v with
      | VPtr t p =>
          if negb (bool_decide (type_kind t = KString)) then ("", false, false)
          else match p with
               | None => ("", true, true)
               | Some x => (match under x with VString s => s | _ => "" end, true, false)
               end
      | _ => match v with VString s => (s, true, false) | _ => ("", false, false) end
      end
  end.

Definition matchLike (s pattern : string) : result bool :=
  if Contains pattern "_" then Err (ErrMsg "LIKE pattern with '_' wildcard not supported")
  else
    let pattern := TrimSpace pattern in
    if HasPrefix pattern "%" && HasSuffix pattern "%" then Ok (Contains s (Trim pattern "%"))
    else if HasPrefix pattern "%" then Ok (HasSuffix s (TrimPrefix pattern "%"))
    else if HasSuffix pattern "%" then Ok (HasPrefix s (TrimSuffix pattern "%"))
    else Ok (s =? pattern).

(** ** Ordering *)

Definition convertToInt64 `{GoPlatform} (v : goval) : Z * bool :=
  match under v with
  | VInt _ z => (z, true)
  | VUint _ u => if (max_int64 <? u)%Z then (max_int64, false) else (u, true)
  | VFloat _ f => (float_to_int64 f, true)
  | _ => (0%Z, false)
  end.

Definition convertToUint64 `{GoPlatform} (v : goval) : Z * bool :=
  match under v with
  | VInt _ z => if (z <? 0)%Z then (0%Z, false) else (z, true)
  | VUint _ u => (u, true)
  | VFloat _ f => if SFltb f (S754_zero false) then (0%Z, false) else (float_to_uint64 f, true)
  | _ => (0%Z, false)
  end.

Definition convertToFloat64 (v : goval) : float64 * bool :=
  match under v with
  | VInt _ z | VUint _ z => (float_of_Z z, true)
  | VFloat _ f => (f, true)
  | _ => (S754_zero false, false)
  end.

(** Go compares strings byte by byte. *)
Fixpoint str_ltb (s t : string) : bool :=
  match s, t with
  | "", String _ _ => true
  | String a s', String b t' =>
      if (code a <? code b)%Z then true
      else if (code b <? code a)%Z then false else str_ltb s' t'
  | _, "" => false
  end.

Definition fallthrough : goerr :=
  ErrMsg "internal error: unexpected fallthrough in compareValues".

(** The four-way [switch operator] over [<] and [=] of the operand type. *)
Definition order_switch (lt eq gt : bool) (operator : string) (otherwise : goerr) : result bool :=
  if operator =? ">" then Ok gt
  else if operator =? "<" then Ok lt
  else if operator =? ">=" then Ok (gt || eq)
  else if operator =? "<=" then Ok (lt || eq)
  else Err otherwise.

(** Dereference one pointer level; a nil pointer is an error. *)
Definition deref (v : option goval) (e : goerr) : result (option goval) :=
  match v with
  | Some u => if is_pointer u
              then match value_Elem u with Some x => Ok (Some x) | None => Err e end
              else Ok v
  | None => Ok None
  end.

Definition order_Z (a b : Z) (operator : string) : result bool :=
  order_switch (a <? b)%Z (a =? b)%Z (b <? a)%Z operator fallthrough.

Definition compareValues `{GoPlatform} (modelVal argVal : option goval) (operator : string) : result bool :=
  m ← deref modelVal (ErrMsg "cannot compare a nil model value");
  a ← deref argVal (ErrMsg "cannot compare against a nil argument value");
  match m, a with
  | None, _ | _, None => Panic "reflect: call of reflect.Value.Interface on zero Value"
  | Some m, Some a =>
      match value_Interface m, value_Interface a with
      | Some (VTime t _), Some (VTime u _) =>
          order_switch (t <? u)%Z (t =? u)%Z (u <? t)%Z operator
            (ErrMsg "unsupported operator for time.Time comparison")
      | _, _ =>
          match under m with
          | VInt _ z =>
              match convertToInt64 a with
              | (y, true) => order_Z z y operator
              | (_, false) => Err (ErrMsg "cannot compare: model is int type")
              end
          | VUint _ z =>
              match convertToUint64 a with
              | (y, true) => order_Z z y operator
              | (_, false) => Err (ErrMsg "cannot compare: model is uint type")
              end
          | VFloat _ f =>
              match convertToFloat64 a with
              | (g, true) =>
                  order_switch (SFltb f g) (SFeqb f g) (SFltb g f) operator fallthrough
              | (_, false) => Err (ErrMsg "cannot compare: model is float type")
              end
          | VString s =>
              match under a with
              | VString t => order_switch (str_ltb s t) (s =? t) (str_ltb t s) operator fallthrough
              | _ => Err (ErrMsg "cannot compare: model is string, but arg is not")
              end
          | _ => Err (ErrMsg "unsupported type for comparison operators")
          end
      end
  end.

(** ** IN *)

Fixpoint Comparable (t : gotype) : bool :=
  match t with
  | TSlice _ | TOpaque OMap _ | TOpaque OFunc _ => false
  | TArray _ t | TNamed _ t => Comparable t
  | _ => true
  end.

(** The loop of [checkInOperator]; [bad] is whether a conversion panicked
    (recovered and recorded by the code). *)
Fixpoint check_in_loop `{GoPlatform} (field : goval) (try_convert : bool) (bad : bool)
    (elems : list goval) : result bool :=
  match elems with
  | [] => if bad then Err (ErrMsg "incompatible types for IN operator") else Ok false
  | e :: elems =>
      if DeepEqual (value_Interface field) (value_Interface e) then Ok true
      else if try_convert then
        match Convert e (typeof field) with
        | Some c =>
            if DeepEqual (value_Interface field) (value_Interface c) then Ok true
            else check_in_loop field try_convert bad elems
        | None => check_in_loop field try_convert true elems
        end
      else check_in_loop field try_convert bad elems
  end.

Definition checkInOperator `{GoPlatform} (field : goval) (arg : option goval) : result bool :=
  let go (elemType : gotype) (elems : list goval) : result bool :=
    if bool_decide (length elems = 0%nat) then Ok false
    else
      let fieldType := typeof field in
      let canCompareDirectly :=
        Comparable fieldType && Comparable elemType && bool_decide (fieldType = elemType) in
      let canConvert := ConvertibleTo fieldType elemType in
      if negb canCompareDirectly && negb canConvert
      then Err (ErrMsg "incompatible types for IN operator")
      else check_in_loop field (canConvert && negb (bool_decide (fieldType = elemType))) false elems in
  match under <$> arg with
  | Some (VSlice t l) => go t (default [] l)
  | Some (VArray t l) => go t l
  | _ => Err (ErrMsg "IN operator requires a slice or array argument")
  end.

(** ** One condition *)

(** The Go field that a column names: through the map, else directly. *)
Definition column_field (m : gostruct) (columnToField : gmap string string) (col : string) : option string :=
  match columnToField !! col with
  | Some f => Some f
  | None => if bool_decide (is_Some (FieldByName m col)) then Some col else None
  end.

Definition like_operator (field arg : option goval) (negated : bool) : result bool :=
  let '(s, ok, isnil) := stringValueForLike field in
  let '(pat, pok, pnil) := stringValueForLike arg in
  if negb ok || negb pok then Err (ErrMsg "LIKE operator requires string field and pattern")
  else if isnil || pnil then Ok false
  else met ← matchLike s pat; Ok (if negated then negb met else met).

Definition apply_operator `{GoPlatform} (fieldVal : goval) (operator : string) (arg : option goval) : result bool :=
  if operator =? "=" then
    Ok (if isArgNil arg then isFieldNil fieldVal else fieldEqualsArg fieldVal arg)
  else if (operator =? "!=") || (operator =? "<>") then
    Ok (negb (if isArgNil arg then isFieldNil fieldVal else fieldEqualsArg fieldVal arg))
  else if operator =? "LIKE" then like_operator (value_Interface fieldVal) arg false
  else if operator =? "NOT LIKE" then like_operator (value_Interface fieldVal) arg true
  else if (operator =? ">") || (operator =? "<") || (operator =? ">=") || (operator =? "<=") then
    compareValues (value_Interface fieldVal) arg operator
  else if operator =? "IN" then checkInOperator fieldVal arg
  else if operator =? "NOT IN" then b ← checkInOperator fieldVal arg; Ok (negb b)
  else Err (ErrMsg "unsupported operator").

Definition matchPredicateCondition `{GoPlatform} (m : gostruct) (columnToField : gmap string string)
    (colName operator : string) (arg : option goval) : result bool :=
  match column_field m columnToField colName with
  | None => Err (ErrMsg "column from WHERE clause not found in map for table")
  | Some goFieldName =>
      match FieldByName m goFieldName with
      | None => Err (ErrMsg "field not valid on model for table")
      | Some fieldVal => apply_operator fieldVal operator arg
      end
  end.

Fixpoint matchAnyPredicateValue `{GoPlatform} (m : gostruct) (columnToField : gmap string string)
    (field : string) (values : list (option goval)) : result bool :=
  match values with
  | [] => Ok false
  | v :: values =>
      b ← matchPredicateCondition m columnToField field "=" v;
      if b : bool then Ok true else matchAnyPredicateValue m columnToField field values
  end.

(** ** Nodes *)

Definition match_condition `{GoPlatform} (m : gostruct) (columnToField : gmap string string)
    (args : list (option goval)) (field operator : string) (operands : list predicateOperand) : result bool :=
  values ← resolveOperands operands args;
  match values with
  | [] => Err (ErrMsg "condition has no operands")
  | v :: others =>
      if is_in operator then
        if bool_decide (length others = 0%nat) && single_placeholder operands
        then matchPredicateCondition m columnToField field operator v
        else
          matches ← matchAnyPredicateValue m columnToField field values;
          Ok (if operator =? "NOT IN" then negb matches else matches)
      else if bool_decide (length others = 0%nat)
      then matchPredicateCondition m columnToField field operator v
      else Err (ErrMsg "operator requires exactly one operand")
  end.

Fixpoint node_Match `{GoPlatform} (m : gostruct) (columnToField : gmap string string)
    (args : list (option goval)) (n : predicateNode) : result bool :=
  match n with
  | conditionPredicateNode field operator operands =>
      match_condition m columnToField args field operator operands
  | logicalPredicateNode op l r =>
      b ← node_Match m columnToField args l;
      if op =? "AND" then (if b : bool then node_Match m columnToField args r else Ok false)
      else if op =? "OR" then (if b : bool then Ok true else node_Match m columnToField args r)
      else Err (ErrMsg "unsupported logical operator")
  end.

Definition predicate_Match `{GoPlatform} (p : queryPredicate) (m : gostruct)
    (columnToField : gmap string string) : result bool :=
  match root p with
  | None => Ok true
  | Some n => node_Match m columnToField (qp_args p) n
  end.

(** The [model interface{}] argument of the entry points. *)
Inductive model_arg :=
  | NilModel
  | NotPointer
  | NilPointer
  | ModelPtr (m : gostruct).

Definition CheckQueryMatchWithPredicate `{GoPlatform} (model : model_arg) (tableName : string)
    (columnToField : option (gmap string string)) (params : QueryParams)
    (pred : option queryPredicate) : result bool :=
  match model with
  | NilModel => Err (ErrMsg "model cannot be nil")
  | _ =>
      if tableName =? "" then Err (ErrMsg "tableName cannot be empty")
      else match columnToField with
      | None => Err (ErrMsg "columnToFieldMap cannot be nil")
      | Some ctf =>
          match model with
          | ModelPtr m =>
              predicate ← match pred with
                          | Some p => Ok p
                          | None => parseQueryPredicate params
                          end;
              predicate_Match predicate m ctf
          | _ => Err (ErrMsg "model must be a non-nil pointer")
          end
      end
  end.

Definition CheckQueryMatch `{GoPlatform} (model : model_arg) (tableName : string)
    (columnToField : option (gmap string string)) (params : QueryParams) : result bool :=
  CheckQueryMatchWithPredicate model tableName columnToField params None.
