(* ===== verification/SqlSemantics.v ===== *)
(** * Predicate evaluation against SQL

    A reference semantics for the clauses the parser accepts — [LIKE] with
    [%] wildcards, comparisons of integers and strings, [IN] — and the
    refinement: on rows whose columns are not NULL and have the type of their
    argument, the in-memory evaluation decides what SQL decides. *)

From Stdlib Require Import SpecFloat.
From S2P Require Import Prelude GoStrings GoStringsFacts GoValues GoValuesFacts Predicate QueryMatch QueryMatchFacts.
From S2P Require Import PredicateFacts.

Open Scope string_scope.

(** ** LIKE *)

Fixpoint any_suffix (f : string → bool) (s : string) : bool :=
  f s || match s with "" => false | String _ s' => any_suffix f s' end.

(** SQL [LIKE] for patterns whose only wildcard is [%]. *)
Fixpoint sql_like (p : string) (s : string) : bool :=
  match p with
  | "" => (s =? "")
  | String c p' =>
      if bool_decide (c = "%"%char) then any_suffix (sql_like p') s
      else match s with
           | String d s' => bool_decide (c = d) && sql_like p' s'
           | "" => false
           end
  end.

(** No [%] in a string. *)
Fixpoint literal (s : string) : bool :=
  match s with "" => true | String c s' => negb (bool_decide (c = "%"%char)) && literal s' end.

Lemma sql_like_literal b s : literal b = true → sql_like b s = (s =? b).
Proof.
  revert s. induction b as [|c b IH]; intros s Hb; simpl in *; [done|].
  apply andb_true_iff in Hb as [Hc Hb]. apply negb_true_iff in Hc. rewrite Hc.
  destruct s as [|d s]; simpl; [done|]. rewrite IH by done.
  destruct (Ascii.eqb_spec d c); subst.
  - by rewrite bool_decide_true.
  - by rewrite bool_decide_false by congruence.
Qed.

Lemma any_suffix_true s : any_suffix (sql_like "") s = true.
Proof. induction s as [|c s IH]; cbn [any_suffix]; [done|]. rewrite IH. apply orb_true_r. Qed.

Lemma sql_like_prefix b s : literal b = true → sql_like (b +:+ "%") s = HasPrefix s b.
Proof.
  unfold HasPrefix. revert s. induction b as [|c b IH]; intros s Hb.
  { change (sql_like ("" +:+ "%") s) with (any_suffix (sql_like "") s). rewrite any_suffix_true. by destruct s. }
  simpl in Hb. apply andb_true_iff in Hb as [Hc Hb]. apply negb_true_iff in Hc.
  simpl. rewrite Hc. destruct s as [|d s]; [done|]. rewrite IH by done.
  cbn [String.prefix]. destruct (ascii_dec c d); subst; [by rewrite bool_decide_true|by rewrite bool_decide_false].
Qed.

Lemma sql_like_suffix b s : literal b = true → sql_like (String "%" b) s = HasSuffix s b.
Proof.
  intros Hb. change (sql_like (String "%" b) s) with (any_suffix (sql_like b) s).
  induction s as [|d s IH]; cbn [any_suffix HasSuffix]; rewrite sql_like_literal by done; [done|]. by rewrite IH.
Qed.

Lemma sql_like_contains b s : literal b = true → sql_like (String "%" (b +:+ "%")) s = Contains s b.
Proof.
  intros Hb. change (sql_like (String "%" (b +:+ "%")) s) with (any_suffix (sql_like (b +:+ "%")) s).
  induction s as [|d s IH]; cbn [any_suffix Contains]; rewrite sql_like_prefix by done; [done|]. by rewrite IH.
Qed.

Lemma literal_not_prefix b : literal b = true → HasPrefix b "%" = false.
Proof. destruct b as [|c b]; simpl; [done|]. rewrite bool_decide_decide. repeat case_match; naive_solver. Qed.

Lemma literal_not_suffix b : literal b = true → HasSuffix b "%" = false.
Proof.
  induction b as [|c b IH]; simpl; [done|]. intros [Hc Hb]%andb_true_iff. rewrite IH, orb_false_r by done.
  apply negb_true_iff, bool_decide_eq_false in Hc. by destruct (Ascii.eqb_spec c "%").
Qed.

Lemma HasSuffix_nil s : HasSuffix s "" = true.
Proof. induction s as [|c s IH]; [done|]. cbn [HasSuffix]. rewrite IH. apply orb_true_r. Qed.

Lemma trim_right_literal b : literal b = true → trim_right (λ c, byte_in c "%") (b +:+ "%") = b.
Proof.
  induction b as [|c b IH]; simpl; [done|]. intros [Hc Hb]%andb_true_iff. rewrite IH by done.
  apply negb_true_iff, bool_decide_eq_false in Hc.
  assert (byte_in c "%" = false) as ->; [|done]. unfold byte_in. apply bool_decide_eq_false. simpl. set_solver.
Qed.

Lemma trim_left_literal b : literal b = true → trim_left (λ c, byte_in c "%") (b +:+ "%") = if b =? "" then "" else b +:+ "%".
Proof.
  destruct b as [|c b]; simpl; [done|]. intros [Hc _]%andb_true_iff.
  apply negb_true_iff, bool_decide_eq_false in Hc.
  assert (byte_in c "%" = false) as ->; [|done]. unfold byte_in. apply bool_decide_eq_false. simpl. set_solver.
Qed.

Lemma Trim_both b : literal b = true → Trim (String "%" (b +:+ "%")) "%" = b.
Proof.
  intros Hb. unfold Trim, trim_func. simpl trim_left. rewrite trim_left_literal by done.
  destruct (String.eqb_spec b "") as [->|]; [done|]. by apply trim_right_literal.
Qed.

(** The patterns the matcher supports. *)
Definition supported_pattern (p b : string) : Prop :=
  literal b = true ∧
  (p = b ∨ p = String "%" b ∨ p = b +:+ "%" ∨ p = String "%" (b +:+ "%")).

Lemma matchLike_sql_lemma s p b :
  supported_pattern p b → TrimSpace p = p → Contains p "_" = false →
  matchLike s p = Ok (sql_like p s).
Proof.
  intros [Hb Hp] Ht Hu. unfold matchLike. rewrite Hu, Ht.
  destruct Hp as [-> |[-> |[-> | ->]]].
  - rewrite literal_not_prefix, literal_not_suffix by done. simpl. by rewrite sql_like_literal.
  - rewrite sql_like_suffix by done. destruct (String.eqb_spec b "") as [->|Hne].
    { transitivity (@Ok bool true); [by destruct s|by rewrite (HasSuffix_nil s)]. }
    assert (HasSuffix (String "%" b) "%" = false) as ->.
    { cbn [HasSuffix]. rewrite literal_not_suffix, orb_false_r by done. by destruct b. }
    simpl andb. cbv iota. destruct b; done.
  - rewrite sql_like_prefix by done. destruct (String.eqb_spec b "") as [->|Hne]; [by destruct s|].
    assert (HasPrefix (b +:+ "%") "%" = false) as ->.
    { destruct b as [|c b]; [done|]. simpl in Hb. apply andb_true_iff in Hb as [Hc _]. apply negb_true_iff, bool_decide_eq_false in Hc.
      unfold HasPrefix. change (String c b +:+ "%") with (String c (b +:+ "%")); cbn [String.prefix]. destruct (ascii_dec "%" c); [congruence|done]. }
    simpl andb. cbv iota. by rewrite HasSuffix_app, TrimSuffix_app.
  - rewrite sql_like_contains by done.
    assert (HasSuffix (String "%" (b +:+ "%")) "%" = true) as ->.
    { cbn [HasSuffix]. rewrite HasSuffix_app. apply orb_true_r. }
    simpl andb. cbv iota. rewrite Trim_both by done. by destruct (b +:+ "%").
Qed.

(** On the patterns the matcher supports (a literal with an optional % at either end, no
    _), matchLike agrees with the LIKE of SQL. *)
Theorem matchLike_sql s p b :
  supported_pattern p b → TrimSpace p = p → Contains p "_" = false →
  matchLike s p = Ok (sql_like p s).
Proof. apply matchLike_sql_lemma. Qed.

(** ** Scalars *)

Inductive sqlval := SInt (z : Z) | SStr (s : string).

Definition in_width (w : width) (z : Z) : Prop := (- 2 ^ (bits w - 1) <= z < 2 ^ (bits w - 1))%Z.

Lemma wrap_int_id w z : in_width w z → wrap_int w z = z.
Proof.
  unfold in_width, wrap_int. intros Hz.
  assert (Hb : (2 ^ bits w = 2 * 2 ^ (bits w - 1))%Z) by (by destruct w).
  assert (Hpos : (0 < 2 ^ (bits w - 1))%Z) by (by destruct w).
  destruct (Z_lt_le_dec z 0).
  - replace (z mod 2 ^ bits w)%Z with (z + 2 ^ bits w)%Z.
    + destruct (Z.ltb_spec (z + 2 ^ bits w) (2 ^ (bits w - 1))); lia.
    + rewrite <-(Z.mod_add z 1) by lia. rewrite Z.mod_small; lia.
  - rewrite Z.mod_small by lia. destruct (Z.ltb_spec z (2 ^ (bits w - 1))); lia.
Qed.

(** A column value and the SQL value it stands for; a nullable column is a
    pointer to it. *)
Inductive repr : goval → sqlval → Prop :=
  | repr_int w z : in_width w z → repr (VInt w z) (SInt z)
  | repr_str s : repr (VString s) (SStr s).

Inductive field_repr : goval → goval → sqlval → Prop :=
  | fr_direct v sv : repr v sv → field_repr v v sv
  | fr_pointer x sv : repr x sv → field_repr (VPtr (typeof x) (Some x)) x sv.

(** An argument of the type of the column [x] (any width that fits it). *)
Inductive arg_repr : goval → option goval → sqlval → Prop :=
  | ar_int w z w' z' : in_width w z' → arg_repr (VInt w z) (Some (VInt w' z')) (SInt z')
  | ar_str s s' : arg_repr (VString s) (Some (VString s')) (SStr s').

(** ** Reference semantics *)

Definition sql_eqb (a b : sqlval) : bool :=
  match a, b with
  | SInt x, SInt y => (x =? y)%Z
  | SStr x, SStr y => (x =? y)
  | _, _ => false
  end.

Definition sql_ltb (a b : sqlval) : bool :=
  match a, b with
  | SInt x, SInt y => (x <? y)%Z
  | SStr x, SStr y => String.ltb x y
  | _, _ => false
  end.

Definition sql_compare (op : string) (a b : sqlval) : bool :=
  if op =? "=" then sql_eqb a b
  else if (op =? "!=") || (op =? "<>") then negb (sql_eqb a b)
  else if op =? "<" then sql_ltb a b
  else if op =? ">" then sql_ltb b a
  else if op =? "<=" then sql_ltb a b || sql_eqb a b
  else if op =? ">=" then sql_ltb b a || sql_eqb a b
  else match a, b with
       | SStr s, SStr p =>
           if op =? "LIKE" then sql_like p s
           else if op =? "NOT LIKE" then negb (sql_like p s) else false
       | _, _ => false
       end.

Definition sql_condition (op : string) (a : sqlval) (bs : list sqlval) : bool :=
  if op =? "IN" then existsb (sql_eqb a) bs
  else if op =? "NOT IN" then negb (existsb (sql_eqb a) bs)
  else match bs with [b] => sql_compare op a b | _ => false end.

(** ** The operators *)

Lemma str_ltb_spec s t : str_ltb s t = String.ltb s t.
Proof.
  unfold String.ltb. revert t. induction s as [|a s IH]; intros [|b t]; simpl; try done.
  unfold Ascii.compare, code.
  destruct (N.compare_spec (N_of_ascii a) (N_of_ascii b)) as [E|E|E].
  - rewrite E, Z.ltb_irrefl. apply IH.
  - destruct (Z.ltb_spec (Z.of_N (N_of_ascii a)) (Z.of_N (N_of_ascii b))); [done|lia].
  - destruct (Z.ltb_spec (Z.of_N (N_of_ascii a)) (Z.of_N (N_of_ascii b))); [lia|].
    destruct (Z.ltb_spec (Z.of_N (N_of_ascii b)) (Z.of_N (N_of_ascii a))); [done|lia].
Qed.

Section operators.
Context `{GoPlatform}.

Lemma equals_repr v x sv a b :
  field_repr v x sv → arg_repr x a b → fieldEqualsArg v a = sql_eqb sv b.
Proof.
  intros Hf Ha. destruct Hf as [x sv Hx|x sv Hx]; destruct Hx; inversion Ha; subst;
    unfold fieldEqualsArg; simpl; unfold Convert, ConvertibleTo; simpl;
    rewrite ?bool_decide_refl; simpl; rewrite ?wrap_int_id by done; done.
Qed.

Lemma eq_operator v x sv a b :
  field_repr v x sv → arg_repr x a b →
  (if isArgNil a then isFieldNil v else fieldEqualsArg v a) = sql_eqb sv b.
Proof. intros Hf Ha. rewrite <-(equals_repr v x sv a b) by done. by inversion Ha. Qed.

Lemma compare_repr v x sv a b op :
  field_repr v x sv → arg_repr x a b → op ∈ ["<"; ">"; "<="; ">="] →
  compareValues (value_Interface v) a op = Ok (sql_compare op sv b).
Proof.
  intros Hf Ha Hop.
  assert (Hcmp : compareValues (Some x) a op = Ok (sql_compare op sv b)).
  { assert (Hr : repr x sv) by (by inversion Hf).
    destruct Hr; inversion Ha; subst; unfold compareValues, order_Z, order_switch, sql_compare; simpl;
      rewrite ?str_ltb_spec;
      repeat (apply elem_of_cons in Hop as [->|Hop]; [reflexivity|]); by apply elem_of_nil in Hop. }
  destruct Hf as [x sv Hx|x sv Hx]; [by destruct Hx|]. rewrite <-Hcmp.
  destruct Hx; inversion Ha; subst; done.
Qed.

Lemma like_repr v s p b neg :
  field_repr v (VString s) (SStr s) →
  supported_pattern p b → TrimSpace p = p → Contains p "_" = false →
  like_operator (value_Interface v) (Some (VString p)) neg = Ok (if neg : bool then negb (sql_like p s) else sql_like p s).
Proof.
  intros Hf Hp Ht Hu. unfold like_operator.
  assert (stringValueForLike (value_Interface v) = (s, true, false)) as -> by (by inversion Hf).
  simpl. rewrite (matchLike_sql_lemma s p b) by done. by destruct neg.
Qed.

(** [IN] with a slice argument of the column's own type. *)
Lemma check_in_repr x sv elems svs :
  repr x sv → Forall2 repr elems svs → Forall (λ e, typeof e = typeof x) elems →
  checkInOperator x (Some (VSlice (typeof x) (Some elems))) = Ok (existsb (sql_eqb sv) svs).
Proof.
  intros Hx Hel Hty. unfold checkInOperator. simpl.
  destruct Hel as [|e sve elems svs He Hel]; [done|]. simpl.
  assert (Hcmp : Comparable (typeof x) = true) by (by destruct Hx).
  assert (ConvertibleTo (typeof x) (typeof x) && negb (bool_decide (typeof x = typeof x)) = false) as ->.
  { rewrite bool_decide_refl. apply andb_false_r. }
  rewrite Hcmp, bool_decide_refl. simpl negb. cbn [andb].
  assert (Hloop : ∀ es ss, Forall2 repr es ss → Forall (λ e, typeof e = typeof x) es →
    check_in_loop x false false es = Ok (existsb (sql_eqb sv) ss)).
  { induction 1 as [|e' sv' es ss He' _ IH]; intros Hes; [done|].
    apply Forall_cons in Hes as [Ht Hes]. cbn [check_in_loop existsb].
    assert (DeepEqual (value_Interface x) (value_Interface e') = sql_eqb sv sv') as ->.
    { destruct Hx, He'; simpl in *; simplify_eq; rewrite ?bool_decide_refl; done. }
    destruct (sql_eqb sv sv'); [done|]. by apply IH. }
  by apply (Hloop (e :: elems) (sve :: svs)); [constructor|].
Qed.

(** ** Conditions and nodes *)

(** The SQL values of the operands of a condition on a column value [v]. *)
Inductive operands_repr (v : goval) (op : string) (operands : list predicateOperand)
    : list (option goval) → sqlval → list sqlval → Prop :=
  | or_slice sv elems svs :
      is_in op = true → single_placeholder operands = true → length operands = 1%nat → repr v sv →
      Forall2 repr elems svs → Forall (λ e, typeof e = typeof v) elems →
      operands_repr v op operands [Some (VSlice (typeof v) (Some elems))] sv svs
  | or_list x sv values svs :
      is_in op = true → single_placeholder operands = false → field_repr v x sv →
      Forall2 (arg_repr x) values svs → operands_repr v op operands values sv svs
  | or_single x sv a b :
      op ∈ ["="; "!="; "<>"; "<"; ">"; "<="; ">="] → field_repr v x sv → arg_repr x a b →
      operands_repr v op operands [a] sv [b]
  | or_like s p b :
      op ∈ ["LIKE"; "NOT LIKE"] → field_repr v (VString s) (SStr s) →
      supported_pattern p b → TrimSpace p = p → Contains p "_" = false →
      operands_repr v op operands [Some (VString p)] (SStr s) [SStr p].

Lemma apply_single v x sv a b op :
  op ∈ ["="; "!="; "<>"; "<"; ">"; "<="; ">="] → field_repr v x sv → arg_repr x a b →
  apply_operator v op a = Ok (sql_condition op sv [b]).
Proof.
  intros Hop Hf Ha. unfold apply_operator. rewrite (eq_operator v x sv a b) by done.
  repeat (apply elem_of_cons in Hop as [->|Hop];
    [try reflexivity; simpl; by rewrite (compare_repr v x sv a b) by (done || set_solver)|]).
  by apply elem_of_nil in Hop.
Qed.

Lemma apply_operator_in v a : apply_operator v "IN" a = checkInOperator v a.
Proof. done. Qed.
Lemma apply_operator_not_in v a : apply_operator v "NOT IN" a = negb <$> checkInOperator v a.
Proof. unfold apply_operator. simpl. by destruct (checkInOperator v a). Qed.

Definition in_frame (m : gostruct) (ctf : gmap string string) (f : string) (v : goval) : Prop :=
  column_value m ctf f = Some v.

Lemma matchPredicateCondition_value m ctf f v op a :
  in_frame m ctf f v → matchPredicateCondition m ctf f op a = apply_operator v op a.
Proof.
  unfold in_frame, column_value, matchPredicateCondition. destruct (column_field m ctf f); [|done]. simpl.
  by intros ->.
Qed.

Lemma matchAny_repr m ctf f v x sv values svs :
  in_frame m ctf f v → field_repr v x sv → Forall2 (arg_repr x) values svs →
  matchAnyPredicateValue m ctf f values = Ok (existsb (sql_eqb sv) svs).
Proof.
  intros Hv Hf. induction 1 as [|a b values svs Ha _ IH]; [done|]. cbn [matchAnyPredicateValue existsb].
  rewrite (matchPredicateCondition_value m ctf f v) by done.
  rewrite (apply_single v x sv a b "=") by (done || set_solver).
  change (sql_condition "=" sv [b]) with (sql_eqb sv b). rewrite IH. cbn [mbind result_bind].
  by destruct (sql_eqb sv b).
Qed.

Lemma match_condition_sql m ctf args f op operands v values sv svs :
  in_frame m ctf f v → resolveOperands operands args = Ok values → values ≠ [] →
  operands_repr v op operands values sv svs →
  match_condition m ctf args f op operands = Ok (sql_condition op sv svs).
Proof.
  intros Hv Hres Hne Hrep. unfold match_condition. rewrite Hres. simpl.
  destruct Hrep as [sv elems svs Hin Hsp Hlen Hx Hel Hty|x sv values svs Hin Hsp Hf Hargs|x sv a b Hop Hf Ha|s p b Hop Hf Hp Ht Hu].
  - rewrite Hin, Hsp. simpl. rewrite (matchPredicateCondition_value m ctf f v) by done.
    pose proof (check_in_repr v sv elems svs Hx Hel Hty) as Hc.
    unfold is_in in Hin. apply orb_true_iff in Hin as [Hin|Hin]; apply String.eqb_eq in Hin as ->.
    + rewrite apply_operator_in. exact Hc.
    + rewrite apply_operator_not_in, Hc. done.
  - destruct values as [|a values]; [done|]. rewrite Hin, Hsp, andb_false_r.
    rewrite (matchAny_repr m ctf f v x sv _ svs) by done. simpl. unfold sql_condition.
    unfold is_in in Hin. apply orb_true_iff in Hin as [Hin|Hin]; apply String.eqb_eq in Hin as ->; done.
  - assert (is_in op = false) as ->
      by (repeat (apply elem_of_cons in Hop as [->|Hop]; [done|]); by apply elem_of_nil in Hop).
    simpl. rewrite (matchPredicateCondition_value m ctf f v) by done. by eapply apply_single.
  - assert (is_in op = false) as ->
      by (repeat (apply elem_of_cons in Hop as [->|Hop]; [done|]); by apply elem_of_nil in Hop).
    simpl. rewrite (matchPredicateCondition_value m ctf f v) by done. unfold apply_operator.
    repeat (apply elem_of_cons in Hop as [->|Hop]; [simpl; by rewrite (like_repr v s p b)|]).
    by apply elem_of_nil in Hop.
Qed.

(** A clause interpreted by SQL: [row c] and [rhs c] are the values of the
    column and of the operands of the condition [c]. *)
Fixpoint sql_node (truth : string * string * list predicateOperand → bool) (n : predicateNode) : bool :=
  match n with
  | conditionPredicateNode f op operands => truth (f, op, operands)
  | logicalPredicateNode op l r =>
      if op =? "AND" then sql_node truth l && sql_node truth r
      else sql_node truth l || sql_node truth r
  end.

Definition typed_condition (m : gostruct) (ctf : gmap string string) (args : list (option goval))
    (truth : string * string * list predicateOperand → bool)
    (c : string * string * list predicateOperand) : Prop :=
  ∃ v values sv svs,
    in_frame m ctf c.1.1 v ∧ resolveOperands c.2 args = Ok values ∧ values ≠ [] ∧
    operands_repr v c.1.2 c.2 values sv svs ∧ truth c = sql_condition c.1.2 sv svs.

Lemma node_Match_sql_lemma m ctf args truth n :
  Forall (λ op, op = "AND" ∨ op = "OR") (node_ops n) →
  Forall (typed_condition m ctf args truth) (node_conditions n) →
  node_Match m ctf args n = Ok (sql_node truth n).
Proof.
  induction n as [op l IHl r IHr|f op operands]; intros Hops Hty; simpl in *.
  - apply Forall_cons in Hops as [Hop Hops]. apply Forall_app in Hops as [Ol Or]. apply Forall_app in Hty as [Tl Tr].
    rewrite IHl, IHr by done. simpl.
    destruct Hop as [-> | ->]; simpl; by destruct (sql_node truth l), (sql_node truth r).
  - apply Forall_inv in Hty as (v&values&sv&svs&Hv&Hres&Hne&Hrep&Ht). simpl in *. rewrite Ht.
    by eapply match_condition_sql.
Qed.

End operators.
