(* ===== verification/CacheIndex.v ===== *)
(** * The cache index (internal/cache/index.go)

    [CacheIndex] records, per table, which query cache keys depend on which
    columns.  A Go [map[string]bool] whose values are always [true] is a
    [gset string]; the read/write mutex makes every method atomic, so a method
    is a function on the record.  The order in which Go ranges over a map is
    unspecified: methods that return the keys of a set return its elements. *)

From S2P Require Import Prelude GoStrings GoValues Predicate.

Open Scope string_scope.

Definition uncertainDependencyField : string := "*".

(** ** Data *)

Record QueryDependencies := MkDeps {
  WhereFields : gset string;
  OrderFields : gset string;
  HasUncertainOrder : bool
}.

(** Nested set-valued maps. *)
Abbreviation keys1 := (gmap string (gset string)).
Abbreviation keys2 := (gmap string (gmap string (gset string))).
Abbreviation keys3 := (gmap string (gmap string (gmap string (gset string)))).

Record CacheIndex := MkIndex {
  keyToParams : gmap string QueryParams;
  keyToDependencies : gmap string QueryDependencies;
  keyToPredicate : gmap string (option queryPredicate);
  tableToQueryKeys : keys1;
  DependencyIndex : keys2;
  valueIndex : keys3;
  FieldIndex : keys2;
  TableToFullTableListKeys : keys1;
  TableToFullTableCountKeys : keys1
}.

Definition NewCacheIndex : CacheIndex := MkIndex ∅ ∅ ∅ ∅ ∅ ∅ ∅ ∅ ∅.

(** [m[a][k] = true], with the inner map made when missing; and the same one
    and two levels deeper. *)
Definition add1 (a k : string) (m : keys1) : keys1 := <[a := {[k]} ∪ default ∅ (m !! a)]> m.
Definition add2 (a b k : string) (m : keys2) : keys2 := <[a := add1 b k (default ∅ (m !! a))]> m.
Definition add3 (a b c k : string) (m : keys3) : keys3 := <[a := add2 b c k (default ∅ (m !! a))]> m.

(** ** Parsing helpers *)

Definition space_tab (c : ascii) : bool := byte_in c (String " " (String "009" "")).

(** The package's own [trimSpace] and [splitFields] know spaces and tabs only. *)
Definition trimSpace (s : string) : string := trim_func space_tab s.
Definition splitFields (s : string) : list string := words space_tab "" s.

Definition and_word (a b c : ascii) : bool :=
  byte_in a "Aa" && byte_in b "Nn" && byte_in c "Dd".

(** [cur] is [s[last:i]], [prev] is [s[i-1]] (none at the start) and [s] is
    the suffix at [i]. *)
Fixpoint split_and_loop (prev : option ascii) (cur s : string) : list string :=
  match s with
  | "" => [cur]
  | String a s1 =>
      match s1 with
      | String b (String c rest) =>
          if and_word a b c &&
             match prev with None => true | Some p => bool_decide (p = " "%char) end &&
             match rest with "" => true | String d _ => bool_decide (d = " "%char) end
          then cur :: split_and_loop (Some c) "" rest
          else split_and_loop (Some a) (cur +:+ String a "") s1
      | _ => split_and_loop (Some a) (cur +:+ String a "") s1
      end
  end.

Definition splitByAND (s : string) : list string := split_and_loop None "" s.
Definition splitAndConditions (where_ : string) : list string := trimSpace <$> splitByAND where_.

Definition legacyExtractAllWhereFields (params : QueryParams) : list string :=
  if Where params =? "" then []
  else omap (λ cond, let cond := trimSpace cond in
                     if cond =? "" then None else head (splitFields cond))
            (splitAndConditions (Where params)).

(** The [switch] on the argument's type in [legacyParseExactMatchFields]. *)
Definition legacy_in_values (arg : option goval) : list (option goval) :=
  match arg with
  | Some (VSlice TIface (Some l)) => value_Interface <$> l
  | Some (VSlice (TInt WInt) (Some l)) | Some (VSlice TString (Some l)) => Some <$> l
  | _ => []
  end.

Fixpoint legacy_exact_loop (conditions : list string) (args : list (option goval))
    (out : exact_map) : exact_map :=
  match conditions with
  | [] => out
  | cond :: conditions =>
      let cond := trimSpace cond in
      if cond =? "" then legacy_exact_loop conditions args out
      else match args with
      | [] => legacy_exact_loop conditions [] out
      | arg :: args =>
          match splitFields cond with
          | [field; op; rhs] =>
              if (op =? "=") && (rhs =? "?") then
                legacy_exact_loop conditions args (<[field := [arg]]> out)
              else if (op =? "IN") && (rhs =? "(?)") then
                legacy_exact_loop conditions args
                  (match legacy_in_values arg with
                   | [] => out
                   | vals => <[field := vals]> out
                   end)
              else legacy_exact_loop conditions args out
          | _ => legacy_exact_loop conditions args out
          end
      end
  end.

Definition legacyParseExactMatchFields (params : QueryParams) : exact_map :=
  if (Where params =? "") || bool_decide (length (Args params) = 0%nat) then ∅
  else legacy_exact_loop (splitAndConditions (Where params)) (Args params) ∅.

Definition ParseExactMatchFields (params : QueryParams) : exact_map :=
  match parseQueryPredicate params with
  | Ok p => predicate_ExactMatches p
  | _ => legacyParseExactMatchFields params
  end.

Definition parseQueryForIndex (params : QueryParams) : list string * bool * exact_map :=
  match parseQueryPredicate params with
  | Ok p => (elements (predicate_Fields p), false, predicate_ExactMatches p)
  | _ => (legacyExtractAllWhereFields params, true, legacyParseExactMatchFields params)
  end.

Definition normalizeOrderIdentifier (identifier : string) : option string :=
  let identifier := TrimSpace identifier in
  if (identifier =? "") || ContainsAny identifier "()+-*/" then None
  else
    let identifier := TrimSpace (default "" (last (Split identifier "."))) in
    let identifier := Trim identifier (String "034" (String "`" "")) in
    let identifier := strip_brackets identifier in
    if (identifier =? "") ||
       ContainsAny identifier (String " " (String "009" (String "010" (String "013" ""))))
    then None else Some identifier.

(** One clause of the loop of [ParseOrderFields]: the column it names, if
    any, and whether the clause is uncertain. *)
Definition order_clause (clause : string) : option string * bool :=
  let clause := TrimSpace clause in
  if clause =? "" then (None, true)
  else match Fields clause with
  | [] => (None, true)
  | part :: more =>
      let uncertain :=
        match more with
        | [] => false
        | [d] => negb (EqualFold d "ASC") && negb (EqualFold d "DESC")
        | _ => true
        end in
      match normalizeOrderIdentifier part with
      | None => (None, true)
      | Some field => (Some field, uncertain)
      end
  end.

Definition ParseOrderFields (order : string) : list string * bool :=
  if TrimSpace order =? "" then ([], false)
  else
    foldl (λ '(fields, uncertain) clause,
             let '(field, unc) := order_clause clause in
             (match field with
              | None => fields
              | Some f => if bool_decide (f ∈ fields) then fields else (fields ++ [f])%list
              end, uncertain || unc))
          ([], false) (Split order ",").

Definition buildQueryDependencies (whereFields : list string) (uncertainWhere : bool)
    (order : string) (isListKey : bool) : QueryDependencies :=
  let where_fields := list_to_set whereFields ∪
    (if uncertainWhere then {[uncertainDependencyField]} else ∅) in
  if isListKey && negb (order =? "") then
    let '(orderFields, uncertain) := ParseOrderFields order in
    MkDeps where_fields (list_to_set orderFields) uncertain
  else MkDeps where_fields ∅ false.

(** [toIndexValueString]: the cases the type switch formats itself, and the
    [String] method or [%v] for the rest. *)
Definition toIndexValueString `{GoPlatform} (v : option goval) : string :=
  match v with
  | Some (VString s) => s
  | Some (VInt WInt z) | Some (VInt W64 z) => FormatInt z
  | Some (VFloat F64 f) => fmt_g f
  | Some x => fmt_v x
  | None => "<nil>"
  end.

(** ** Registration *)

Definition is_list_key (k : string) : bool := HasPrefix k "list:".
Definition is_count_key (k : string) : bool := HasPrefix k "count:" || HasPrefix k "count_precise:".

Definition addDependencyLocked (table field key : string) (m : keys2) : keys2 :=
  if field =? "" then m else add2 table field key m.

Definition register_dependencies (table key : string) (deps : QueryDependencies) (m : keys2) : keys2 :=
  let m := foldr (λ f m, addDependencyLocked table f key m) m (elements (WhereFields deps)) in
  let m := foldr (λ f m, addDependencyLocked table f key m) m (elements (OrderFields deps)) in
  if HasUncertainOrder deps then addDependencyLocked table uncertainDependencyField key m else m.

(** The value index of one field: the maps are made first, then one entry per
    value. *)
Definition register_values `{GoPlatform} (table key field : string) (vals : list (option goval))
    (m : keys3) : keys3 :=
  let tbl := default ∅ (m !! table) in
  let m := <[table := <[field := default ∅ (tbl !! field)]> tbl]> m in
  foldr (λ v m, add3 table field (toIndexValueString v) key m) m vals.

Definition register_exact `{GoPlatform} (table key : string) (exact : exact_map) (m : keys3) : keys3 :=
  foldr (λ '(field, vals) m, register_values table key field vals m) m (map_to_list exact).

Definition RegisterQuery `{GoPlatform} (table key : string) (params : QueryParams)
    (idx : CacheIndex) : CacheIndex :=
  if (table =? "") || (key =? "") then idx
  else
    let pred := match parseQueryPredicate params with Ok p => Some p | _ => None end in
    let '(whereFields, uncertainWhere, exactFields) := parseQueryForIndex params in
    let deps := buildQueryDependencies whereFields uncertainWhere (Order params) (is_list_key key) in
    let full := Where params =? "" in
    {| keyToParams := <[key := params]> (keyToParams idx);
       keyToDependencies := <[key := deps]> (keyToDependencies idx);
       keyToPredicate := <[key := pred]> (keyToPredicate idx);
       tableToQueryKeys := add1 table key (tableToQueryKeys idx);
       DependencyIndex := register_dependencies table key deps (DependencyIndex idx);
       valueIndex := register_exact table key exactFields (valueIndex idx);
       FieldIndex := foldr (λ f m, add2 table f key m) (FieldIndex idx) whereFields;
       TableToFullTableListKeys :=
         (if full && is_list_key key then add1 table key else id) (TableToFullTableListKeys idx);
       TableToFullTableCountKeys :=
         (if full && is_count_key key then add1 table key else id) (TableToFullTableCountKeys idx) |}.

(** ** Deregistration *)

(** [delete(keys, k)] in every set, dropping what becomes empty; and the same
    one and two levels deeper. *)
Definition drop_key (k : string) (s : gset string) : option (gset string) :=
  let s' := s ∖ {[k]} in if decide (s' = ∅) then None else Some s'.
Definition prune1 (k : string) (m : keys1) : keys1 := omap (drop_key k) m.
Definition prune2 (k : string) (m : keys2) : keys2 :=
  omap (λ sub, let sub' := prune1 k sub in if decide (sub' = ∅) then None else Some sub') m.
Definition prune3 (k : string) (m : keys3) : keys3 :=
  omap (λ sub, let sub' := prune2 k sub in if decide (sub' = ∅) then None else Some sub') m.

Definition DeregisterQuery (key : string) (idx : CacheIndex) : CacheIndex :=
  if key =? "" then idx
  else
    {| keyToParams := delete key (keyToParams idx);
       keyToDependencies := delete key (keyToDependencies idx);
       keyToPredicate := delete key (keyToPredicate idx);
       tableToQueryKeys := prune1 key (tableToQueryKeys idx);
       DependencyIndex := prune2 key (DependencyIndex idx);
       valueIndex := prune3 key (valueIndex idx);
       FieldIndex := prune2 key (FieldIndex idx);
       TableToFullTableListKeys := prune1 key (TableToFullTableListKeys idx);
       TableToFullTableCountKeys := prune1 key (TableToFullTableCountKeys idx) |}.

(** ** Queries *)

(** Reading a missing entry of a Go map gives the empty map. *)
Definition keys_at1 (m : keys1) (a : string) : gset string := default ∅ (m !! a).
Definition keys_at2 (m : keys2) (a b : string) : gset string := keys_at1 (default ∅ (m !! a)) b.
Definition keys_at3 (m : keys3) (a b c : string) : gset string := keys_at2 (default ∅ (m !! a)) b c.

Definition GetQueryParamsForKey (idx : CacheIndex) (key : string) : option QueryParams :=
  if key =? "" then None else keyToParams idx !! key.
Definition GetQueryDependenciesForKey (idx : CacheIndex) (key : string) : option QueryDependencies :=
  if key =? "" then None else keyToDependencies idx !! key.
Definition GetCachedPredicate (idx : CacheIndex) (key : string) : option queryPredicate :=
  if key =? "" then None else default None (keyToPredicate idx !! key).
Definition GetQueryKeysForTable (idx : CacheIndex) (table : string) : list string :=
  if table =? "" then [] else elements (keys_at1 (tableToQueryKeys idx) table).
Definition GetAllRegisteredKeys (idx : CacheIndex) : list string := (map_to_list (keyToParams idx)).*1.
Definition GetFullTableListKeys (idx : CacheIndex) (table : string) : list string :=
  elements (keys_at1 (TableToFullTableListKeys idx) table).
Definition GetFullTableCountKeys (idx : CacheIndex) (table : string) : list string :=
  elements (keys_at1 (TableToFullTableCountKeys idx) table).
Definition GetKeysByValue `{GoPlatform} (idx : CacheIndex) (table field : string) (v : option goval) : list string :=
  if (table =? "") || (field =? "") then []
  else elements (keys_at3 (valueIndex idx) table field (toIndexValueString v)).

Definition union_of (f : string → gset string) (columns : gset string) : gset string :=
  ⋃ (f <$> elements columns).

Definition GetKeysByFieldIndex (idx : CacheIndex) (table : string) (columns : gset string) : list string :=
  elements (union_of (keys_at2 (FieldIndex idx) table) columns).

Definition dependency_keys (idx : CacheIndex) (table : string) (columns : gset string) : gset string :=
  union_of (keys_at2 (DependencyIndex idx) table) columns
  ∪ keys_at2 (DependencyIndex idx) table uncertainDependencyField.

Definition GetKeysByChangedFields (idx : CacheIndex) (table : string) (changed : gset string) : list string :=
  if (table =? "") || bool_decide (changed = ∅) then []
  else elements (dependency_keys idx table changed).

Record InvalidationContext := MkInvCtx {
  CacheKeys : list string;
  KeyToParams : gmap string QueryParams;
  KeyToDeps : gmap string QueryDependencies;
  KeyToPredicate : gmap string (option queryPredicate)
}.

(** Step 1 of [GetInvalidationContext]: the keys registered for the value a
    candidate column has. *)
Definition value_keys `{GoPlatform} (idx : CacheIndex) (table : string)
    (fieldValues : gmap string (option goval)) (candidates : gset string) : gset string :=
  ⋃ ((λ '(col, v), if decide (col ∈ candidates)
                   then keys_at3 (valueIndex idx) table col (toIndexValueString v)
                   else ∅) <$> map_to_list fieldValues).

Definition invalidation_keys `{GoPlatform} (idx : CacheIndex) (table : string)
    (fieldValues : gmap string (option goval)) (candidates : gset string) : gset string :=
  value_keys idx table fieldValues candidates
  ∪ union_of (keys_at2 (FieldIndex idx) table) candidates
  ∪ keys_at1 (TableToFullTableListKeys idx) table
  ∪ keys_at1 (TableToFullTableCountKeys idx) table
  ∪ dependency_keys idx table candidates.

Definition GetInvalidationContext `{GoPlatform} (idx : CacheIndex) (table : string)
    (fieldValues : gmap string (option goval)) (candidates : gset string) : InvalidationContext :=
  let keySet := invalidation_keys idx table fieldValues candidates in
  if decide (keySet = ∅) then MkInvCtx [] ∅ ∅ ∅
  else
    let keys := elements keySet in
    MkInvCtx keys
      (filter (λ kp, kp.1 ∈ keySet) (keyToParams idx))
      (filter (λ kp, kp.1 ∈ keySet) (keyToDependencies idx))
      (list_to_map ((λ k, (k, default None (keyToPredicate idx !! k))) <$> keys)).
