(* ===== verification/CacheIndexFacts.v ===== *)
(** * Correctness of the cache index

    The well-formedness invariant of [CacheIndex], its preservation by every
    operation, and what it gives to the invalidation: a registered query is
    among the candidates whenever one of the columns it depends on is. *)

From Stdlib Require Decidable.
From S2P Require Import Prelude GoStrings GoValues Predicate CacheIndex.

Open Scope string_scope.

(** ** Membership in the nested maps *)

Lemma elem_keys_at1_add1 (m : keys1) a k a' x :
  x ∈ keys_at1 (add1 a k m) a' ↔ (a = a' ∧ x = k) ∨ x ∈ keys_at1 m a'.
Proof.
  unfold keys_at1, add1. rewrite lookup_insert. case_decide; subst; simpl; set_solver.
Qed.

Lemma elem_keys_at2_add2 (m : keys2) a b k a' b' x :
  x ∈ keys_at2 (add2 a b k m) a' b' ↔ (a = a' ∧ b = b' ∧ x = k) ∨ x ∈ keys_at2 m a' b'.
Proof.
  unfold keys_at2, add2. rewrite lookup_insert.
  case_decide; subst; simpl; rewrite ?elem_keys_at1_add1; naive_solver.
Qed.

Lemma elem_keys_at3_add3 (m : keys3) a b c k a' b' c' x :
  x ∈ keys_at3 (add3 a b c k m) a' b' c' ↔
  (a = a' ∧ b = b' ∧ c = c' ∧ x = k) ∨ x ∈ keys_at3 m a' b' c'.
Proof.
  unfold keys_at3, add3. rewrite lookup_insert.
  case_decide; subst; simpl; rewrite ?elem_keys_at2_add2; naive_solver.
Qed.

Lemma elem_fold_add2 (fs : list string) (m : keys2) t k a b x :
  x ∈ keys_at2 (foldr (λ f m, add2 t f k m) m fs) a b ↔
  (t = a ∧ b ∈ fs ∧ x = k) ∨ x ∈ keys_at2 m a b.
Proof.
  induction fs as [|f fs IH]; simpl; [set_solver|].
  rewrite elem_keys_at2_add2, IH. set_solver.
Qed.

Lemma elem_fold_dependency (fs : list string) (m : keys2) t k a b x :
  x ∈ keys_at2 (foldr (λ f m, addDependencyLocked t f k m) m fs) a b ↔
  (t = a ∧ b ∈ fs ∧ b ≠ "" ∧ x = k) ∨ x ∈ keys_at2 m a b.
Proof.
  induction fs as [|f fs IH]; simpl; [set_solver|].
  unfold addDependencyLocked at 1.
  destruct (String.eqb_spec f ""); subst; rewrite ?elem_keys_at2_add2, IH; set_solver.
Qed.

Lemma elem_register_dependencies t k deps (m : keys2) a b x :
  x ∈ keys_at2 (register_dependencies t k deps m) a b ↔
  (t = a ∧ x = k ∧ b ≠ "" ∧
   (b ∈ WhereFields deps ∨ b ∈ OrderFields deps ∨
    (HasUncertainOrder deps = true ∧ b = uncertainDependencyField)))
  ∨ x ∈ keys_at2 m a b.
Proof.
  unfold register_dependencies, addDependencyLocked at 1.
  destruct (HasUncertainOrder deps); simpl; rewrite ?elem_keys_at2_add2;
    rewrite !elem_fold_dependency, !elem_of_elements; unfold uncertainDependencyField;
    naive_solver.
Qed.

Section values.
Context `{GoPlatform}.

Lemma elem_register_values t k f vals (m : keys3) a b c x :
  x ∈ keys_at3 (register_values t k f vals m) a b c ↔
  (t = a ∧ f = b ∧ x = k ∧ ∃ v, v ∈ vals ∧ toIndexValueString v = c) ∨ x ∈ keys_at3 m a b c.
Proof.
  unfold register_values.
  assert (Htouch : x ∈ keys_at3 (<[t := <[f := default ∅ (default ∅ (m !! t) !! f)]>
                                          (default ∅ (m !! t))]> m) a b c ↔ x ∈ keys_at3 m a b c).
  { unfold keys_at3, keys_at2. rewrite lookup_insert. case_decide; [|done]. subst; simpl.
    rewrite lookup_insert. case_decide; by subst. }
  induction vals as [|v vals IH]; simpl.
  - rewrite Htouch. set_solver.
  - rewrite elem_keys_at3_add3, IH. set_solver.
Qed.

Lemma elem_fold_register (l : list (string * list (option goval))) t k (m : keys3) a b c x :
  x ∈ keys_at3 (foldr (λ '(field, vals) m, register_values t k field vals m) m l) a b c ↔
  (t = a ∧ x = k ∧ ∃ vals v, (b, vals) ∈ l ∧ v ∈ vals ∧ toIndexValueString v = c)
  ∨ x ∈ keys_at3 m a b c.
Proof.
  induction l as [|[f vals] l IH]; simpl; [set_solver|].
  rewrite elem_register_values, IH. set_solver.
Qed.

Lemma elem_register_exact t k (exact : exact_map) (m : keys3) a b c x :
  x ∈ keys_at3 (register_exact t k exact m) a b c ↔
  (t = a ∧ x = k ∧ ∃ vals v, exact !! b = Some vals ∧ v ∈ vals ∧ toIndexValueString v = c)
  ∨ x ∈ keys_at3 m a b c.
Proof.
  unfold register_exact. rewrite elem_fold_register.
  by setoid_rewrite (elem_of_map_to_list exact b).
Qed.
End values.

(** ** Pruning *)

Lemma elem_keys_at1_prune1 k (m : keys1) a x :
  x ∈ keys_at1 (prune1 k m) a ↔ x ≠ k ∧ x ∈ keys_at1 m a.
Proof.
  unfold keys_at1, prune1, drop_key. rewrite lookup_omap.
  destruct (m !! a) as [s|]; simpl; [case_decide; simpl; set_solver|set_solver].
Qed.

Lemma elem_keys_at2_prune2 k (m : keys2) a b x :
  x ∈ keys_at2 (prune2 k m) a b ↔ x ≠ k ∧ x ∈ keys_at2 m a b.
Proof.
  unfold keys_at2, prune2. rewrite lookup_omap.
  destruct (m !! a) as [sub|]; simpl; [|unfold keys_at1; set_solver].
  rewrite <-elem_keys_at1_prune1. case_decide as E; simpl; [by rewrite E|done].
Qed.

Lemma elem_keys_at3_prune3 k (m : keys3) a b c x :
  x ∈ keys_at3 (prune3 k m) a b c ↔ x ≠ k ∧ x ∈ keys_at3 m a b c.
Proof.
  unfold keys_at3, prune3. rewrite lookup_omap.
  destruct (m !! a) as [sub|]; simpl; [|unfold keys_at2, keys_at1; set_solver].
  rewrite <-elem_keys_at2_prune2. case_decide as E; simpl; [by rewrite E|done].
Qed.

(** No map of the index keeps an empty inner map. *)
Definition full1 (m : keys1) : Prop := ∀ a s, m !! a = Some s → s ≠ ∅.
Definition full2 (m : keys2) : Prop := ∀ a s, m !! a = Some s → s ≠ ∅ ∧ full1 s.
Definition full3 (m : keys3) : Prop := ∀ a s, m !! a = Some s → s ≠ ∅ ∧ full2 s.

Lemma full1_default (m : keys2) a : full2 m → full1 (default ∅ (m !! a)).
Proof. intros Hm. destruct (m !! a) eqn:E; simpl; [by eapply Hm|intros ??; by rewrite lookup_empty]. Qed.
Lemma full2_default (m : keys3) a : full3 m → full2 (default ∅ (m !! a)).
Proof. intros Hm. destruct (m !! a) eqn:E; simpl; [by eapply Hm|intros ??; by rewrite lookup_empty]. Qed.

Lemma full1_add1 a k m : full1 m → full1 (add1 a k m).
Proof. intros Hm b s. unfold add1. rewrite lookup_insert. case_decide; [set_solver|apply Hm]. Qed.
Lemma full2_add2 a b k m : full2 m → full2 (add2 a b k m).
Proof.
  intros Hm a' s. unfold add2. rewrite lookup_insert. case_decide; [|apply Hm]. intros [= <-].
  split; [apply insert_non_empty|]. by apply full1_add1, full1_default.
Qed.
Lemma full3_add3 a b c k m : full3 m → full3 (add3 a b c k m).
Proof.
  intros Hm a' s. unfold add3. rewrite lookup_insert. case_decide; [|apply Hm]. intros [= <-].
  split; [apply insert_non_empty|]. by apply full2_add2, full2_default.
Qed.

Lemma full1_prune1 k m : full1 (prune1 k m).
Proof.
  intros a s. unfold prune1, drop_key. rewrite lookup_omap.
  destruct (m !! a); simpl; [case_decide|]; congruence.
Qed.
Lemma full2_prune2 k m : full2 (prune2 k m).
Proof.
  intros a s. unfold prune2. rewrite lookup_omap.
  destruct (m !! a); simpl; [case_decide|]; [done| |done].
  intros [= <-]. split; [done|apply full1_prune1].
Qed.
Lemma full3_prune3 k m : full3 (prune3 k m).
Proof.
  intros a s. unfold prune3. rewrite lookup_omap.
  destruct (m !! a); simpl; [case_decide|]; [done| |done].
  intros [= <-]. split; [done|apply full2_prune2].
Qed.
#[export] Hint Resolve full1_add1 full2_add2 full3_add3 full1_prune1 full2_prune2 full3_prune3 : thing.

(** Maps without empty inner maps are determined by their keys. *)
Lemma full1_ext m m' :
  full1 m → full1 m' → (∀ a x, x ∈ keys_at1 m a ↔ x ∈ keys_at1 m' a) → m = m'.
Proof.
  intros Hm Hm' Heq. apply map_eq. intros a. specialize (Heq a). unfold keys_at1 in Heq.
  destruct (m !! a) as [s|] eqn:E, (m' !! a) as [s'|] eqn:E'; simpl in *; [| | |done].
  - f_equal. set_solver.
  - apply Hm in E. set_solver.
  - apply Hm' in E'. set_solver.
Qed.

(** A map that keeps no empty inner map has a key in each inner map. *)
Lemma full1_inhabited m : full1 m → m ≠ ∅ → ∃ a x, x ∈ keys_at1 m a.
Proof.
  intros Hm (a&s&E)%map_choose. destruct (set_choose_L s) as [x Hx]; [by eapply Hm|].
  exists a, x. unfold keys_at1. by rewrite E.
Qed.
Lemma full2_inhabited m : full2 m → m ≠ ∅ → ∃ a b x, x ∈ keys_at2 m a b.
Proof.
  intros Hm (a&s&E)%map_choose. destruct (full1_inhabited s) as (b&x&Hx); [by eapply Hm..|].
  exists a, b, x. unfold keys_at2. by rewrite E.
Qed.

Lemma full2_ext m m' :
  full2 m → full2 m' → (∀ a b x, x ∈ keys_at2 m a b ↔ x ∈ keys_at2 m' a b) → m = m'.
Proof.
  intros Hm Hm' Heq. apply map_eq. intros a. specialize (Heq a). unfold keys_at2 in Heq.
  destruct (m !! a) as [s|] eqn:E, (m' !! a) as [s'|] eqn:E'; simpl in *; [| | |done].
  - f_equal. apply full1_ext; [by eapply Hm|by eapply Hm'|done].
  - apply Hm in E as [Hne Hf]. destruct (full1_inhabited s) as (b&x&Hx); [done..|].
    apply Heq in Hx. unfold keys_at1 in Hx. set_solver.
  - apply Hm' in E' as [Hne Hf]. destruct (full1_inhabited s') as (b&x&Hx); [done..|].
    apply Heq in Hx. unfold keys_at1 in Hx. set_solver.
Qed.

Lemma full3_ext m m' :
  full3 m → full3 m' → (∀ a b c x, x ∈ keys_at3 m a b c ↔ x ∈ keys_at3 m' a b c) → m = m'.
Proof.
  intros Hm Hm' Heq. apply map_eq. intros a. specialize (Heq a). unfold keys_at3 in Heq.
  destruct (m !! a) as [s|] eqn:E, (m' !! a) as [s'|] eqn:E'; simpl in *; [| | |done].
  - f_equal. apply full2_ext; [by eapply Hm|by eapply Hm'|done].
  - apply Hm in E as [Hne Hf]. destruct (full2_inhabited s) as (b&c&x&Hx); [done..|].
    apply Heq in Hx. unfold keys_at2, keys_at1 in Hx. set_solver.
  - apply Hm' in E' as [Hne Hf]. destruct (full2_inhabited s') as (b&c&x&Hx); [done..|].
    apply Heq in Hx. unfold keys_at2, keys_at1 in Hx. set_solver.
Qed.

(** ** What the parsers give the index *)

(** Every field with exact-match values is a field of the clause, and its list
    of values is not empty. *)
Definition exact_ok (fields : gset string) (exact : exact_map) : Prop :=
  ∀ f vals, exact !! f = Some vals → f ∈ fields ∧ vals ≠ [].

Lemma exact_ok_insert fields exact f vals :
  exact_ok fields exact → vals ≠ [] → exact_ok ({[f]} ∪ fields) (<[f := vals]> exact).
Proof.
  intros Hok Hne g vs. rewrite lookup_insert. case_decide; [intros [= <-]; set_solver|].
  intros ?%Hok. set_solver.
Qed.

Lemma exact_ok_mono fields fields' exact : fields ⊆ fields' → exact_ok fields exact → exact_ok fields' exact.
Proof. intros Hsub Hok f vals ?%Hok. set_solver. Qed.

Lemma exact_ok_append fields exact f vals :
  exact_ok fields exact → vals ≠ [] → exact_ok ({[f]} ∪ fields) (append_values f vals exact).
Proof.
  intros Hok Hne. apply exact_ok_insert; [done|]. destruct (default [] _); [done|by destruct vals].
Qed.

Lemma exact_ok_fold fields field values exact :
  exact_ok ({[field]} ∪ fields) exact →
  exact_ok ({[field]} ∪ fields)
    (foldl (λ out v, match expandExactMatchValues v with
                     | [] => append_values field [v] out
                     | vals => append_values field vals out
                     end) exact values).
Proof.
  revert exact. induction values as [|v values IH]; intros exact Hok; simpl; [done|].
  apply IH. assert ({[field]} ∪ fields = {[field]} ∪ ({[field]} ∪ fields)) as -> by set_solver.
  case_match; by apply exact_ok_append.
Qed.

Lemma node_exact_ok n args fields exact :
  exact_ok fields exact → exact_ok (node_Fields n fields) (node_ExactMatches n args exact).
Proof.
  revert fields exact. induction n as [op l IHl r IHr|field op operands]; intros fields exact Hok; simpl.
  { auto. }
  assert (Hok' : exact_ok ({[field]} ∪ fields) exact) by (eapply exact_ok_mono, Hok; set_solver).
  destruct (resolveOperands operands args) as [values|e|m]; [|done..].
  destruct (op =? "="); [destruct values as [|v [|? ?]]; [done|by apply exact_ok_append|done]|].
  destruct (op =? "IN"); [|done].
  destruct values as [|v [|v' values]]; [by apply (exact_ok_fold _ _ [])| |by apply exact_ok_fold].
  destruct (single_placeholder operands), (expandExactMatchValues v) eqn:E; try done;
    by apply exact_ok_append.
Qed.

Lemma legacy_exact_ok conds args fields out :
  exact_ok fields out →
  (∀ c f, c ∈ conds → trimSpace c ≠ "" → head (splitFields (trimSpace c)) = Some f → f ∈ fields) →
  exact_ok fields (legacy_exact_loop conds args out).
Proof.
  revert args out. induction conds as [|c conds IH]; intros args out Hok Hin; simpl; [done|].
  assert (IH' : ∀ args out, exact_ok fields out → exact_ok fields (legacy_exact_loop conds args out)).
  { intros args' out' Hok'. apply IH; [done|]. intros c' f Hc. apply Hin. set_solver. }
  destruct (String.eqb_spec (trimSpace c) ""); [by apply IH'|].
  destruct args as [|arg args]; [by apply IH'|].
  destruct (splitFields (trimSpace c)) as [|f [|op [|rhs [|? ?]]]] eqn:E; try by apply IH'.
  assert (f ∈ fields) by (apply (Hin c); [set_solver|done|by rewrite E]).
  assert (Hins : ∀ vals, vals ≠ [] → exact_ok fields (<[f := vals]> out)).
  { intros vals Hne. replace fields with ({[f]} ∪ fields) by set_solver. by apply exact_ok_insert. }
  destruct ((op =? "=") && (rhs =? "?")); [by apply IH', Hins|].
  destruct ((op =? "IN") && (rhs =? "(?)")); [|by apply IH'].
  apply IH'. destruct (legacy_in_values arg) eqn:?; [done|by apply Hins].
Qed.

Lemma parseQueryForIndex_exact params fs unc exact :
  parseQueryForIndex params = (fs, unc, exact) → exact_ok (list_to_set fs) exact.
Proof.
  assert (Hempty : ∀ fields, exact_ok fields ∅) by (intros ? ??; by rewrite lookup_empty).
  assert (Hlegacy : exact_ok (list_to_set (legacyExtractAllWhereFields params))
                             (legacyParseExactMatchFields params)).
  { unfold legacyParseExactMatchFields, legacyExtractAllWhereFields.
    destruct (Where params =? ""); simpl; [done|]. case_bool_decide; [done|].
    apply legacy_exact_ok; [done|]. intros c f Hc Hne Hhead.
    apply elem_of_list_to_set, list_elem_of_omap. exists c. split; [done|].
    by destruct (String.eqb_spec (trimSpace c) ""). }
  unfold parseQueryForIndex. destruct (parseQueryPredicate params) as [p|e|m]; intros [= <- <- <-];
    [|done..].
  assert (list_to_set (elements (predicate_Fields p)) = predicate_Fields p) as -> by set_solver.
  unfold predicate_Fields, predicate_ExactMatches. destruct (root p); [|done].
  by apply node_exact_ok.
Qed.

(** ** The invariant *)

Section invariant.
Context `{GoPlatform}.

(** The table every key is registered for (a cache key contains its table). *)
Context (key_table : string → string).

Definition pred_of (p : QueryParams) : option queryPredicate :=
  match parseQueryPredicate p with Ok q => Some q | _ => None end.

Definition deps_of (k : string) (p : QueryParams) : QueryDependencies :=
  let '(fs, unc, _) := parseQueryForIndex p in
  buildQueryDependencies fs unc (Order p) (is_list_key k).

(** What the index holds for a registered key. *)
Record entry_ok (idx : CacheIndex) (k : string) (p : QueryParams) : Prop := {
  ok_table : k ∈ keys_at1 (tableToQueryKeys idx) (key_table k);
  ok_deps : keyToDependencies idx !! k = Some (deps_of k p);
  ok_pred : keyToPredicate idx !! k = Some (pred_of p);
  ok_fields f : f ∈ (parseQueryForIndex p).1.1 → k ∈ keys_at2 (FieldIndex idx) (key_table k) f;
  ok_dependency f : f ≠ "" →
    f ∈ WhereFields (deps_of k p) ∨ f ∈ OrderFields (deps_of k p) ∨
    (HasUncertainOrder (deps_of k p) = true ∧ f = uncertainDependencyField) →
    k ∈ keys_at2 (DependencyIndex idx) (key_table k) f;
  ok_full_list : Where p = "" → is_list_key k = true →
    k ∈ keys_at1 (TableToFullTableListKeys idx) (key_table k);
  ok_full_count : Where p = "" → is_count_key k = true →
    k ∈ keys_at1 (TableToFullTableCountKeys idx) (key_table k);
  ok_values f vals v : (parseQueryForIndex p).2 !! f = Some vals → v ∈ vals →
    k ∈ keys_at3 (valueIndex idx) (key_table k) f (toIndexValueString v)
}.

(** A key that occurs in a map of the index under table [t]. *)
Definition occurs (idx : CacheIndex) (t k : string) : Prop :=
  k ∈ keys_at1 (tableToQueryKeys idx) t
  ∨ (∃ f, k ∈ keys_at2 (DependencyIndex idx) t f)
  ∨ (∃ f v, k ∈ keys_at3 (valueIndex idx) t f v)
  ∨ (∃ f, k ∈ keys_at2 (FieldIndex idx) t f)
  ∨ k ∈ keys_at1 (TableToFullTableListKeys idx) t
  ∨ k ∈ keys_at1 (TableToFullTableCountKeys idx) t.

Record index_wf (idx : CacheIndex) : Prop := {
  wf_entry k p : keyToParams idx !! k = Some p → entry_ok idx k p;
  wf_occurs t k : occurs idx t k → key_table k = t ∧ is_Some (keyToParams idx !! k);
  wf_dom_deps k : is_Some (keyToDependencies idx !! k) → is_Some (keyToParams idx !! k);
  wf_dom_pred k : is_Some (keyToPredicate idx !! k) → is_Some (keyToParams idx !! k);
  wf_value_field t f v k : k ∈ keys_at3 (valueIndex idx) t f v → k ∈ keys_at2 (FieldIndex idx) t f;
  wf_full_keys : full1 (tableToQueryKeys idx);
  wf_full_dep : full2 (DependencyIndex idx);
  wf_full_val : full3 (valueIndex idx);
  wf_full_field : full2 (FieldIndex idx);
  wf_full_list : full1 (TableToFullTableListKeys idx);
  wf_full_count : full1 (TableToFullTableCountKeys idx)
}.

(** The states of the index: [GlobalCacheIndex] starts (or is reset) empty;
    queries are registered and deregistered. *)
Inductive index_reachable : CacheIndex → Prop :=
  | reach_new : index_reachable NewCacheIndex
  | reach_register idx t k p :
      index_reachable idx → key_table k = t → index_reachable (RegisterQuery t k p idx)
  | reach_deregister idx k :
      index_reachable idx → index_reachable (DeregisterQuery k idx).

Lemma index_wf_new : index_wf NewCacheIndex.
Proof.
  assert (H1 : ∀ a, keys_at1 ∅ a = ∅) by (intros a; unfold keys_at1; by rewrite lookup_empty).
  assert (H2 : ∀ a b, keys_at2 ∅ a b = ∅) by (intros a b; unfold keys_at2; rewrite lookup_empty; apply H1).
  assert (H3 : ∀ a b c, keys_at3 ∅ a b c = ∅)
    by (intros a b c; unfold keys_at3; rewrite lookup_empty; apply H2).
  split; simpl; try (intros ??; by rewrite lookup_empty).
  - intros t k [Ho|[[f Ho]|[(f&v&Ho)|[[f Ho]|[Ho|Ho]]]]]; simpl in Ho; rewrite ?H1, ?H2, ?H3 in Ho; set_solver.
  - intros k [? Hk]. by rewrite lookup_empty in Hk.
  - intros k [? Hk]. by rewrite lookup_empty in Hk.
  - intros t f v k. rewrite H3. set_solver.
Qed.

Lemma full2_fold_add2 t k fs m : full2 m → full2 (foldr (λ f m, add2 t f k m) m fs).
Proof. intros. induction fs; simpl; auto with thing. Qed.

Lemma full2_dependency t f k m : full2 m → full2 (addDependencyLocked t f k m).
Proof. intros. unfold addDependencyLocked. case_match; auto with thing. Qed.

Lemma full2_register_dependencies t k deps m : full2 m → full2 (register_dependencies t k deps m).
Proof.
  intros Hm. unfold register_dependencies.
  assert (Hf : ∀ fs m, full2 m → full2 (foldr (λ f m, addDependencyLocked t f k m) m fs)).
  { intros fs m' ?. induction fs; simpl; auto using full2_dependency. }
  case_match; auto using full2_dependency.
Qed.

(** Making the inner maps of the value index first does not matter when a
    value follows. *)
Lemma register_values_cons t k f v vals m :
  register_values t k f (v :: vals) m =
  foldr (λ v m, add3 t f (toIndexValueString v) k m) m (v :: vals).
Proof.
  unfold register_values. set (m0 := <[t := _]> m).
  assert (Hadd : ∀ v, add3 t f v k m0 = add3 t f v k m).
  { intros c. unfold add3, m0. rewrite lookup_insert_eq, insert_insert_eq. simpl. f_equal.
    unfold add2. by rewrite lookup_insert_eq, insert_insert_eq. }
  assert (Hcomm : ∀ l v, foldr (λ v m, add3 t f (toIndexValueString v) k m) m0 (l ++ [v]) =
                         foldr (λ v m, add3 t f (toIndexValueString v) k m) m (l ++ [v])).
  { intros l x. induction l as [|y l IH]; simpl; [apply Hadd|by rewrite IH]. }
  destruct (@exists_last _ (v :: vals)) as (l&x&->); [done|]. apply Hcomm.
Qed.

Lemma full3_fold_add3 t f k vals m :
  full3 m → full3 (foldr (λ v m, add3 t f (toIndexValueString v) k m) m vals).
Proof. intros Hm. induction vals; simpl; auto with thing. Qed.

Lemma full3_register_exact t k fields exact m :
  exact_ok fields exact → full3 m → full3 (register_exact t k exact m).
Proof.
  intros Hok Hm. unfold register_exact.
  assert (Hl : ∀ f vals, (f, vals) ∈ map_to_list exact → vals ≠ []).
  { intros f vals ?%elem_of_map_to_list%Hok. naive_solver. }
  induction (map_to_list exact) as [|[f vals] l IH]; simpl; [done|].
  destruct vals as [|v vals]; [by destruct (Hl f []); [left|]|].
  rewrite register_values_cons. apply full3_fold_add3, IH.
  intros f' vs' ?. apply (Hl f'). by right.
Qed.

(** The keys of the maps after a registration. *)
Lemma occurs_register t k p idx t' k' :
  t ≠ "" → k ≠ "" →
  occurs (RegisterQuery t k p idx) t' k' → (t' = t ∧ k' = k) ∨ occurs idx t' k'.
Proof.
  intros Ht Hk. unfold RegisterQuery.
  destruct (String.eqb_spec t ""), (String.eqb_spec k ""); [done..|]. simpl.
  destruct (parseQueryForIndex p) as [[fs unc] exact]. unfold occurs.
  intros [Ho|[[f Ho]|[(f&v&Ho)|[[f Ho]|[Ho|Ho]]]]]; simpl in Ho;
    [apply elem_keys_at1_add1 in Ho|apply elem_register_dependencies in Ho
    |apply elem_register_exact in Ho|apply elem_fold_add2 in Ho
    |case_match; [apply elem_keys_at1_add1 in Ho|]..];
    naive_solver.
Qed.

(** Registration only adds keys. *)
Lemma register_mono t k p idx :
  (∀ a x, x ∈ keys_at1 (tableToQueryKeys idx) a → x ∈ keys_at1 (tableToQueryKeys (RegisterQuery t k p idx)) a) ∧
  (∀ a b x, x ∈ keys_at2 (DependencyIndex idx) a b → x ∈ keys_at2 (DependencyIndex (RegisterQuery t k p idx)) a b) ∧
  (∀ a b c x, x ∈ keys_at3 (valueIndex idx) a b c → x ∈ keys_at3 (valueIndex (RegisterQuery t k p idx)) a b c) ∧
  (∀ a b x, x ∈ keys_at2 (FieldIndex idx) a b → x ∈ keys_at2 (FieldIndex (RegisterQuery t k p idx)) a b) ∧
  (∀ a x, x ∈ keys_at1 (TableToFullTableListKeys idx) a → x ∈ keys_at1 (TableToFullTableListKeys (RegisterQuery t k p idx)) a) ∧
  (∀ a x, x ∈ keys_at1 (TableToFullTableCountKeys idx) a → x ∈ keys_at1 (TableToFullTableCountKeys (RegisterQuery t k p idx)) a).
Proof.
  unfold RegisterQuery. destruct ((t =? "") || (k =? "")); [tauto|].
  destruct (parseQueryForIndex p) as [[fs unc] exact]; simpl.
  split_and!; intros; rewrite ?elem_keys_at1_add1, ?elem_register_dependencies, ?elem_register_exact,
    ?elem_fold_add2; auto; case_match; rewrite ?elem_keys_at1_add1; auto.
Qed.

Lemma entry_ok_register idx k p :
  k ≠ "" → key_table k ≠ "" → entry_ok (RegisterQuery (key_table k) k p idx) k p.
Proof.
  intros Hk Ht. unfold RegisterQuery.
  destruct (String.eqb_spec (key_table k) ""), (String.eqb_spec k ""); [done..|]. simpl.
  split; unfold deps_of, pred_of; destruct (parseQueryForIndex p) as [[fs unc] exact]; simpl;
    rewrite ?lookup_insert_eq; try done; intros.
  - apply elem_keys_at1_add1. auto.
  - apply elem_fold_add2. auto.
  - apply elem_register_dependencies. auto.
  - match goal with HW : Where p = _, HK : _ = true |- _ => rewrite HW, HK end.
    simpl. apply elem_keys_at1_add1. auto.
  - match goal with HW : Where p = _, HK : _ = true |- _ => rewrite HW, HK end.
    simpl. apply elem_keys_at1_add1. auto.
  - apply elem_register_exact. left. naive_solver.
Qed.

Lemma entry_ok_frame t k p idx k' p' :
  k ≠ k' → entry_ok idx k' p' → entry_ok (RegisterQuery t k p idx) k' p'.
Proof.
  intros Hne []. destruct (register_mono t k p idx) as (M1&M2&M3&M4&M5&M6).
  assert (keyToDependencies (RegisterQuery t k p idx) !! k' = keyToDependencies idx !! k' ∧
               keyToPredicate (RegisterQuery t k p idx) !! k' = keyToPredicate idx !! k') as [L1 L2].
  { unfold RegisterQuery. destruct (_ || _); [done|].
    destruct (parseQueryForIndex p) as [[? ?] ?]; simpl. by rewrite !lookup_insert_ne. }
  split; rewrite ?L1, ?L2; eauto.
Qed.

Lemma keyToParams_register t k p idx :
  t ≠ "" → k ≠ "" → keyToParams (RegisterQuery t k p idx) = <[k := p]> (keyToParams idx).
Proof.
  intros Ht Hk. unfold RegisterQuery.
  destruct (String.eqb_spec t ""), (String.eqb_spec k ""); [done..|]. simpl.
  by destruct (parseQueryForIndex p) as [[? ?] ?].
Qed.

Lemma value_field_register t k p idx a f v x :
  (x ∈ keys_at3 (valueIndex idx) a f v → x ∈ keys_at2 (FieldIndex idx) a f) →
  x ∈ keys_at3 (valueIndex (RegisterQuery t k p idx)) a f v →
  x ∈ keys_at2 (FieldIndex (RegisterQuery t k p idx)) a f.
Proof.
  intros Hidx. unfold RegisterQuery. destruct (_ || _); [done|].
  destruct (parseQueryForIndex p) as [[fs unc] exact] eqn:E; simpl.
  apply parseQueryForIndex_exact in E.
  rewrite elem_register_exact, elem_fold_add2.
  intros [(->&->&vals&w&Hex&?)|?]; [|auto]. apply E in Hex. set_solver.
Qed.

Lemma index_wf_register t k p idx :
  key_table k = t → index_wf idx → index_wf (RegisterQuery t k p idx).
Proof.
  intros <- Hwf.
  destruct (decide (key_table k = "" ∨ k = "")) as [Hnil|[Ht Hk]%Decidable.not_or].
  { unfold RegisterQuery. destruct (String.eqb_spec (key_table k) ""), (String.eqb_spec k "");
      simpl; naive_solver. }
  pose proof (keyToParams_register _ _ p idx Ht Hk) as HP.
  split.
  - intros k' p'. rewrite HP, lookup_insert. case_decide as Ek; [subst; intros [= <-]|].
    + by apply entry_ok_register.
    + intros. apply entry_ok_frame; [done|]. by apply Hwf.
  - intros t' k' [[-> ->]|Ho]%occurs_register; [| |done..]; rewrite HP.
    + by rewrite lookup_insert_eq.
    + apply Hwf in Ho as [? ?]. split; [done|]. rewrite lookup_insert. by case_decide.
  - intros k'. rewrite HP. pose proof (wf_dom_deps _ Hwf k'). unfold RegisterQuery.
    destruct (_ || _); [rewrite lookup_insert; case_decide; eauto|].
    destruct (parseQueryForIndex p) as [[? ?] ?]; simpl. rewrite !lookup_insert. by case_decide.
  - intros k'. rewrite HP. pose proof (wf_dom_pred _ Hwf k'). unfold RegisterQuery.
    destruct (_ || _); [rewrite lookup_insert; case_decide; eauto|].
    destruct (parseQueryForIndex p) as [[? ?] ?]; simpl. rewrite !lookup_insert. by case_decide.
  - intros t f v k'. apply value_field_register, Hwf.
  - unfold RegisterQuery. destruct (_ || _); [apply Hwf|].
    destruct (parseQueryForIndex p) as [[? ?] ?]; simpl. apply full1_add1, Hwf.
  - unfold RegisterQuery. destruct (_ || _); [apply Hwf|].
    destruct (parseQueryForIndex p) as [[? ?] ?]; simpl. apply full2_register_dependencies, Hwf.
  - unfold RegisterQuery. destruct (_ || _); [apply Hwf|].
    destruct (parseQueryForIndex p) as [[? ?] ?] eqn:E; simpl.
    eapply full3_register_exact, Hwf. by eapply parseQueryForIndex_exact.
  - unfold RegisterQuery. destruct (_ || _); [apply Hwf|].
    destruct (parseQueryForIndex p) as [[? ?] ?]; simpl. apply full2_fold_add2, Hwf.
  - unfold RegisterQuery. destruct (_ || _); [apply Hwf|].
    destruct (parseQueryForIndex p) as [[? ?] ?]; simpl. case_match; simpl; [apply full1_add1|]; apply Hwf.
  - unfold RegisterQuery. destruct (_ || _); [apply Hwf|].
    destruct (parseQueryForIndex p) as [[? ?] ?]; simpl. case_match; simpl; [apply full1_add1|]; apply Hwf.
Qed.

(** A deregistered key occurs nowhere; the other keys stay. *)
Lemma occurs_deregister k idx t' k' :
  k ≠ "" → occurs (DeregisterQuery k idx) t' k' ↔ k' ≠ k ∧ occurs idx t' k'.
Proof.
  intros Hk. unfold DeregisterQuery. destruct (String.eqb_spec k ""); [done|].
  unfold occurs; simpl. setoid_rewrite elem_keys_at1_prune1. setoid_rewrite elem_keys_at2_prune2.
  setoid_rewrite elem_keys_at3_prune3. naive_solver.
Qed.

Lemma entry_ok_deregister k idx k' p :
  k ≠ k' → entry_ok idx k' p → entry_ok (DeregisterQuery k idx) k' p.
Proof.
  intros Hne Hok. unfold DeregisterQuery. destruct (k =? ""); [done|]. destruct Hok.
  split; simpl; intros; rewrite ?lookup_delete_ne by done;
    rewrite ?elem_keys_at1_prune1, ?elem_keys_at2_prune2, ?elem_keys_at3_prune3; eauto.
Qed.

Lemma index_wf_deregister k idx : index_wf idx → index_wf (DeregisterQuery k idx).
Proof.
  intros Hwf. destruct (decide (k = "")) as [->|Hk]; [done|].
  assert (HP : keyToParams (DeregisterQuery k idx) = delete k (keyToParams idx))
    by (unfold DeregisterQuery; by destruct (String.eqb_spec k "")).
  split.
  - intros k' p. rewrite HP, lookup_delete_Some. intros [? ?]. apply entry_ok_deregister; [done|].
    by apply Hwf.
  - intros t k' [Hne [? ?]%Hwf]%occurs_deregister; [|done]. by rewrite HP, lookup_delete_ne.
  - intros k'. rewrite HP. pose proof (wf_dom_deps _ Hwf k'). unfold DeregisterQuery.
    destruct (String.eqb_spec k ""); [done|]; simpl. rewrite !lookup_delete. by case_decide.
  - intros k'. rewrite HP. pose proof (wf_dom_pred _ Hwf k'). unfold DeregisterQuery.
    destruct (String.eqb_spec k ""); [done|]; simpl. rewrite !lookup_delete. by case_decide.
  - intros t f v k'. unfold DeregisterQuery. destruct (String.eqb_spec k ""); [done|]; simpl.
    rewrite elem_keys_at2_prune2, elem_keys_at3_prune3. intros [? ?%Hwf]; auto.
  - unfold DeregisterQuery. destruct (k =? ""); [apply Hwf|simpl; auto with thing].
  - unfold DeregisterQuery. destruct (k =? ""); [apply Hwf|simpl; auto with thing].
  - unfold DeregisterQuery. destruct (k =? ""); [apply Hwf|simpl; auto with thing].
  - unfold DeregisterQuery. destruct (k =? ""); [apply Hwf|simpl; auto with thing].
  - unfold DeregisterQuery. destruct (k =? ""); [apply Hwf|simpl; auto with thing].
  - unfold DeregisterQuery. destruct (k =? ""); [apply Hwf|simpl; auto with thing].
Qed.

(** C20: the index is well formed in every state reached by registering and deregistering
    queries: its nine maps describe the same set of queries, each under its own table, fields,
    values and full-table sets, and no map holds an empty set. *)
Theorem reachable_index_wf idx : index_reachable idx → index_wf idx.
Proof.
  induction 1; auto using index_wf_new, index_wf_register, index_wf_deregister.
Qed.

Lemma index_wf_reachable idx : index_reachable idx → index_wf idx.
Proof.
  induction 1; auto using index_wf_new, index_wf_register, index_wf_deregister.
Qed.

(** ** Candidates of an invalidation *)

Lemma elem_union_of (g : string → gset string) cols x :
  x ∈ union_of g cols ↔ ∃ c, c ∈ cols ∧ x ∈ g c.
Proof.
  unfold union_of. rewrite elem_of_union_list. setoid_rewrite list_elem_of_fmap. set_solver.
Qed.

Lemma elem_dependency_keys idx t cols x :
  x ∈ dependency_keys idx t cols ↔
  ∃ c, (c ∈ cols ∨ c = uncertainDependencyField) ∧ x ∈ keys_at2 (DependencyIndex idx) t c.
Proof. unfold dependency_keys. rewrite elem_of_union, elem_union_of. naive_solver. Qed.

Lemma elem_value_keys idx t fv cols x :
  x ∈ value_keys idx t fv cols ↔
  ∃ c v, fv !! c = Some v ∧ c ∈ cols ∧ x ∈ keys_at3 (valueIndex idx) t c (toIndexValueString v).
Proof.
  unfold value_keys. rewrite elem_of_union_list. setoid_rewrite list_elem_of_fmap. split.
  - intros (X&([c v]&->&Hc%elem_of_map_to_list)&Hx). case_decide; [eauto|set_solver].
  - intros (c&v&Hl&Hc&Hx). eexists. split; [|exact Hx]. exists (c, v).
    rewrite elem_of_map_to_list, decide_True; auto.
Qed.

(** The value index adds no candidate of its own: its keys are in the field
    index of the same column. *)
Lemma value_keys_redundant idx t fv cols :
  index_wf idx → value_keys idx t fv cols ⊆ union_of (keys_at2 (FieldIndex idx) t) cols.
Proof.
  intros Hwf x (c&v&_&Hc&Hx)%elem_value_keys. apply elem_union_of. exists c.
  split; [done|]. by eapply Hwf.
Qed.

Lemma elem_GetInvalidationContext idx t fv cols k :
  k ∈ CacheKeys (GetInvalidationContext idx t fv cols) ↔ k ∈ invalidation_keys idx t fv cols.
Proof.
  unfold GetInvalidationContext. case_decide as E; simpl; [rewrite E; set_solver|].
  apply elem_of_elements.
Qed.

Lemma GetInvalidationContext_entry idx t fv cols k p :
  index_wf idx → keyToParams idx !! k = Some p →
  k ∈ CacheKeys (GetInvalidationContext idx t fv cols) →
  KeyToParams (GetInvalidationContext idx t fv cols) !! k = Some p ∧
  KeyToDeps (GetInvalidationContext idx t fv cols) !! k = Some (deps_of k p) ∧
  KeyToPredicate (GetInvalidationContext idx t fv cols) !! k = Some (pred_of p).
Proof.
  intros Hwf Hp. rewrite elem_GetInvalidationContext. unfold GetInvalidationContext.
  intros Hk. case_decide as E; [rewrite E in Hk; set_solver|]; simpl.
  destruct (wf_entry _ Hwf _ _ Hp) as [_ Hd Hq _ _ _ _ _].
  split_and!; [by apply map_lookup_filter_Some|by apply map_lookup_filter_Some|].
  apply elem_of_list_to_map_1.
  - rewrite <-list_fmap_compose. simpl. rewrite list_fmap_id. apply NoDup_elements.
  - apply list_elem_of_fmap. exists k. rewrite Hq. split; [done|by apply elem_of_elements].
Qed.

(** The reasons for which a registered query is a candidate when the columns
    [cols] may have changed. *)
Definition depends_on (k : string) (p : QueryParams) (cols : gset string) : Prop :=
  (Where p = "" ∧ (is_list_key k = true ∨ is_count_key k = true))
  ∨ pred_of p = None
  ∨ HasUncertainOrder (deps_of k p) = true
  ∨ ∃ c, c ∈ cols ∧ c ≠ "" ∧ (c ∈ WhereFields (deps_of k p) ∨ c ∈ OrderFields (deps_of k p)).

Lemma uncertain_where k p :
  pred_of p = None → uncertainDependencyField ∈ WhereFields (deps_of k p).
Proof.
  unfold pred_of, deps_of, parseQueryForIndex, buildQueryDependencies.
  destruct (parseQueryPredicate p); [done|..]; intros _;
    (destruct (_ && _); [destruct (ParseOrderFields _)|]); set_solver.
Qed.

Lemma candidate_if_depends idx t fv cols k p :
  index_wf idx → keyToParams idx !! k = Some p → key_table k = t → depends_on k p cols →
  k ∈ CacheKeys (GetInvalidationContext idx t fv cols).
Proof.
  intros Hwf Hp <- Hd. apply elem_GetInvalidationContext. unfold invalidation_keys.
  destruct (wf_entry _ Hwf _ _ Hp) as [_ _ _ _ Hdep Hlist Hcount _].
  rewrite !elem_of_union.
  destruct Hd as [[HW [HL|HC]]|[Hpred|[Ho|(c&Hc&Hne&Hdc)]]]; [by auto..| | |]; right;
    apply elem_dependency_keys.
  - exists uncertainDependencyField. split; [auto|]. apply Hdep; [done|].
    left. by apply uncertain_where.
  - exists uncertainDependencyField. split; [auto|]. apply Hdep; [done|]. auto.
  - exists c. split; [auto|]. apply Hdep; [done|]. naive_solver.
Qed.

Lemma candidate_registered idx t fv cols k :
  index_wf idx → k ∈ CacheKeys (GetInvalidationContext idx t fv cols) →
  key_table k = t ∧ is_Some (keyToParams idx !! k).
Proof.
  intros Hwf. rewrite elem_GetInvalidationContext. unfold invalidation_keys.
  rewrite !elem_of_union, elem_value_keys, elem_union_of, elem_dependency_keys.
  intros Hk. apply (wf_occurs _ Hwf). unfold occurs. naive_solver.
Qed.

(** In every reachable index, the candidates for a set of columns contain each registered
    query of the table that has no clause, an unparsed clause, an uncertain order, or that
    filters or sorts on one of the columns, each with the parameters, dependencies and parsed
    clause it was registered with; and every candidate is a registered query of the table. *)
Theorem invalidation_candidates idx t fv cols k p :
  index_reachable idx → keyToParams idx !! k = Some p → key_table k = t → depends_on k p cols →
  let ctx := GetInvalidationContext idx t fv cols in
  k ∈ CacheKeys ctx ∧
  KeyToParams ctx !! k = Some p ∧ KeyToDeps ctx !! k = Some (deps_of k p) ∧
  KeyToPredicate ctx !! k = Some (pred_of p) ∧
  ∀ k', k' ∈ CacheKeys ctx → key_table k' = t ∧ is_Some (keyToParams idx !! k').
Proof.
  intros Hr%index_wf_reachable Hp Ht Hd ctx.
  assert (k ∈ CacheKeys ctx) by (by eapply candidate_if_depends).
  destruct (GetInvalidationContext_entry idx t fv cols k p) as (?&?&?); [done..|].
  split_and!; [done..|]. intros k'. by apply candidate_registered.
Qed.

(** ** Registration and deregistration *)

Lemma not_registered_absent idx k t : index_wf idx → keyToParams idx !! k = None → ¬ occurs idx t k.
Proof. intros Hwf Hk Ho%(wf_occurs _ Hwf). rewrite Hk in Ho. by destruct Ho as [_ [? ?]]. Qed.

Lemma dom_absent idx k :
  index_wf idx → keyToParams idx !! k = None →
  keyToDependencies idx !! k = None ∧ keyToPredicate idx !! k = None.
Proof.
  intros Hwf Hk. split; apply eq_None_not_Some; intros Hs;
    [apply (wf_dom_deps _ Hwf) in Hs|apply (wf_dom_pred _ Hwf) in Hs]; rewrite Hk in Hs;
    by apply is_Some_None in Hs.
Qed.

(** Registration adds no other key. *)
Lemma register_only t k p idx x :
  x ≠ k →
  (∀ a, x ∈ keys_at1 (tableToQueryKeys (RegisterQuery t k p idx)) a → x ∈ keys_at1 (tableToQueryKeys idx) a) ∧
  (∀ a b, x ∈ keys_at2 (DependencyIndex (RegisterQuery t k p idx)) a b → x ∈ keys_at2 (DependencyIndex idx) a b) ∧
  (∀ a b c, x ∈ keys_at3 (valueIndex (RegisterQuery t k p idx)) a b c → x ∈ keys_at3 (valueIndex idx) a b c) ∧
  (∀ a b, x ∈ keys_at2 (FieldIndex (RegisterQuery t k p idx)) a b → x ∈ keys_at2 (FieldIndex idx) a b) ∧
  (∀ a, x ∈ keys_at1 (TableToFullTableListKeys (RegisterQuery t k p idx)) a → x ∈ keys_at1 (TableToFullTableListKeys idx) a) ∧
  (∀ a, x ∈ keys_at1 (TableToFullTableCountKeys (RegisterQuery t k p idx)) a → x ∈ keys_at1 (TableToFullTableCountKeys idx) a).
Proof.
  intros Hne. unfold RegisterQuery. destruct ((t =? "") || (k =? "")); [tauto|].
  destruct (parseQueryForIndex p) as [[fs unc] exact]; simpl.
  split_and!; intros *; rewrite ?elem_register_dependencies, ?elem_register_exact,
    ?elem_fold_add2, ?elem_keys_at1_add1; try naive_solver;
    (case_match; rewrite ?elem_keys_at1_add1; naive_solver).
Qed.

(** Two well-formed indexes with the same entries are the same index. *)
Lemma index_ext idx idx' :
  index_wf idx → index_wf idx' →
  keyToParams idx = keyToParams idx' → keyToDependencies idx = keyToDependencies idx' →
  keyToPredicate idx = keyToPredicate idx' →
  (∀ a x, x ∈ keys_at1 (tableToQueryKeys idx) a ↔ x ∈ keys_at1 (tableToQueryKeys idx') a) →
  (∀ a b x, x ∈ keys_at2 (DependencyIndex idx) a b ↔ x ∈ keys_at2 (DependencyIndex idx') a b) →
  (∀ a b c x, x ∈ keys_at3 (valueIndex idx) a b c ↔ x ∈ keys_at3 (valueIndex idx') a b c) →
  (∀ a b x, x ∈ keys_at2 (FieldIndex idx) a b ↔ x ∈ keys_at2 (FieldIndex idx') a b) →
  (∀ a x, x ∈ keys_at1 (TableToFullTableListKeys idx) a ↔ x ∈ keys_at1 (TableToFullTableListKeys idx') a) →
  (∀ a x, x ∈ keys_at1 (TableToFullTableCountKeys idx) a ↔ x ∈ keys_at1 (TableToFullTableCountKeys idx') a) →
  idx = idx'.
Proof.
  intros [] [] **. destruct idx, idx'; simpl in *; subst.
  f_equal; auto using full1_ext, full2_ext, full3_ext.
Qed.

(** Deregistering a query that was just registered under a fresh key gives back the index
    as it was. *)
Theorem deregister_register t k p idx :
  index_reachable idx → key_table k = t → t ≠ "" → k ≠ "" → keyToParams idx !! k = None →
  DeregisterQuery k (RegisterQuery t k p idx) = idx.
Proof.
  intros Hwf%index_wf_reachable Ht Htne Hk Hnone.
  assert (Hwf' : index_wf (DeregisterQuery k (RegisterQuery t k p idx)))
    by auto using index_wf_deregister, index_wf_register.
  assert (Habs : ∀ t, ¬ occurs idx t k) by (intros; by apply not_registered_absent).
  destruct (dom_absent idx k Hwf Hnone) as [Hnd Hnp].
  destruct (register_mono t k p idx) as (M1&M2&M3&M4&M5&M6).
  assert (HR := λ x, register_only t k p idx x).
  assert (HP := keyToParams_register t k p idx Htne Hk).
  assert (keyToDependencies (RegisterQuery t k p idx) = <[k := deps_of k p]> (keyToDependencies idx) ∧
          keyToPredicate (RegisterQuery t k p idx) = <[k := pred_of p]> (keyToPredicate idx)) as [HD HQ].
  { unfold RegisterQuery, deps_of, pred_of. destruct (String.eqb_spec t ""), (String.eqb_spec k ""); [done..|].
    simpl. by destruct (parseQueryForIndex p) as [[? ?] ?]. }
  assert (Hocc : ∀ x t, occurs idx t x → x ≠ k) by (intros ??? ->; naive_solver).
  unfold occurs in Hocc.
  apply index_ext; [done..|idtac| | | | | | | |];
    unfold DeregisterQuery; destruct (String.eqb_spec k ""); try done; simpl;
    rewrite ?HP, ?HD, ?HQ, ?delete_insert_id by done; [done..| | | | | |];
    intros; rewrite ?elem_keys_at1_prune1, ?elem_keys_at2_prune2, ?elem_keys_at3_prune3;
    (split; [intros [? ?]; naive_solver|intros; split; naive_solver]).
Qed.

(** A deregistered query is never again a candidate of an invalidation. *)
Theorem deregister_removes k idx t fv cols :
  k ≠ "" → index_reachable idx →
  let idx' := DeregisterQuery k idx in
  (k ∉ CacheKeys (GetInvalidationContext idx' t fv cols)) ∧
  GetQueryParamsForKey idx' k = None ∧ (k ∉ GetQueryKeysForTable idx' t) ∧
  ∀ k' p, k' ≠ k → keyToParams idx !! k' = Some p →
    keyToParams idx' !! k' = Some p ∧ entry_ok idx' k' p.
Proof.
  intros Hk Hwf%index_wf_reachable idx'.
  assert (Hwf' : index_wf idx') by (by apply index_wf_deregister).
  assert (Hno : ∀ t, ¬ occurs idx' t k) by (intros t' [? ?]%occurs_deregister; done).
  split_and!.
  - intros Hin. apply (candidate_registered _ _ _ _ _ Hwf') in Hin as [_ Hs].
    unfold idx', DeregisterQuery in Hs. destruct (String.eqb_spec k ""); [done|]. simpl in Hs.
    rewrite lookup_delete_eq in Hs. by apply is_Some_None in Hs.
  - unfold GetQueryParamsForKey, idx', DeregisterQuery.
    destruct (String.eqb_spec k ""); [done|]. apply lookup_delete_eq.
  - unfold GetQueryKeysForTable. case_match; [set_solver|]. rewrite elem_of_elements.
    specialize (Hno t). unfold occurs in Hno. naive_solver.
  - intros k' p Hne Hp.
    assert (keyToParams idx' !! k' = Some p).
    { unfold idx', DeregisterQuery. destruct (String.eqb_spec k ""); [done|]. simpl.
      by rewrite lookup_delete_ne. }
    split; [done|]. by apply Hwf'.
Qed.
End invariant.
