(* ===== verification/Metadata.v ===== *)
(** * Model metadata (internal/schema/metadata.go)

    [reflect] describes a struct type by its fields; here a struct type is a
    list of [sfield].  [GetCachedModelInfo] is a function of that description
    and of what the methods of the model return ([TableName], [Indexes] and the
    two [HasCustom...] flags); the memo table of the code does not change what
    it computes.  Log calls are left out. *)

From S2P Require Import Prelude GoStrings GoValues.

Open Scope string_scope.

(** ** Struct types *)

(** A field of a struct type: a plain field with its type and its [db] and
    [diff] tags, or an anonymous struct field with its type's name and fields. *)
#[warnings="-register-all"] Inductive sfield :=
  | SField (name : string) (t : gotype) (dbTag diffTag : string)
  | SEmbed (name : string) (typeName : string) (fields : list sfield).

Definition sfield_name (f : sfield) : string :=
  match f with SField n _ _ _ | SEmbed n _ _ => n end.

(** [field.IsExported()]. *)
Definition IsExported (name : string) : bool :=
  match name with
  | "" => false
  | String c _ => is_upper c
  end.

(** ** Data *)

Record ComparableFieldInfo := MkCF {
  GoName : string;
  DBColumn : string;
  Index : list nat;
  CFType : gotype;
  IsEmbedded : bool;
  IgnoreInDiff : bool;
  DefaultValue : option string
}.

Record IndexInfo := MkIndexInfo {
  IdxName : string;
  IdxColumns : list string;
  IdxUnique : bool;
  IdxWhere : string
}.

#[export] Instance IndexInfo_eq_dec : EqDecision IndexInfo.
Proof. solve_decision. Defined.

Record ModelInfo := MkInfo {
  TableName : string;
  PkName : string;
  Columns : list string;
  Fields_ : list string;
  FieldToColumnMap : gmap string string;
  ColumnToFieldMap : gmap string string;
  CompareFields : list ComparableFieldInfo;
  Indexes : list IndexInfo;
  UniqueIndexes : list IndexInfo;
  HasCustomKeepItem : bool;
  HasCustomKeepItemFields : bool
}.

(** What [processFields] builds up: the [ModelInfo], the named indexes and the
    primary key found so far. *)
Record build_state := MkBuild {
  b_Columns : list string;
  b_Fields : list string;
  b_FieldToColumn : gmap string string;
  b_ColumnToField : gmap string string;
  b_Compare : list ComparableFieldInfo;
  b_Indexes : list IndexInfo;
  b_UniqueIndexes : list IndexInfo;
  b_composite : gmap string IndexInfo;
  b_pk : string
}.

Definition build_empty : build_state := MkBuild [] [] ∅ ∅ [] [] [] ∅ "".

(** ** Names *)

(** [(.)([A-Z][a-z]+)] replaced by [${1}_${2}]: [run] is the text of the
    lower-case run being consumed after a match. *)
Fixpoint first_cap (in_run : bool) (s : string) : string :=
  match s with
  | "" => ""
  | String a s1 =>
      if in_run && is_lower a then String a (first_cap true s1)
      else match s1 with
      | String b (String c s3) =>
          if negb (bool_decide (a = "010"%char)) && is_upper b && is_lower c
          then String a (String "_" (String b (String c (first_cap true s3))))
          else String a (first_cap false s1)
      | _ => String a (first_cap false s1)
      end
  end.

Definition lower_digit (c : ascii) : bool := is_lower c || is_digit c.

(** [([a-z0-9])([A-Z])] replaced by [${1}_${2}]. *)
Fixpoint all_cap (s : string) : string :=
  match s with
  | "" => ""
  | String a s1 =>
      match s1 with
      | String b s2 =>
          if lower_digit a && is_upper b
          then String a (String "_" (String b (all_cap s2)))
          else String a (all_cap s1)
      | "" => String a ""
      end
  end.

Definition ToSnakeCase (str : string) : string := ToLower (all_cap (first_cap false str)).

Definition getTableNameFromType (typeName tableNameMethod : string) : string :=
  if negb (tableNameMethod =? "") then tableNameMethod else ToSnakeCase typeName +:+ "s".

(** ** Tags *)

Definition is_default_part (part : string) : bool := HasPrefix (ToLower (TrimSpace part)) "default:".

Definition default_value (part : string) : string :=
  let valStr := TrimPrefix (TrimSpace part) "default:" in
  let n := String.length valStr in
  if (2 <=? n)%nat && HasPrefix valStr "'" && HasSuffix valStr "'"
  then take_str (n - 2) (drop_str 1 valStr) else valStr.

(** The parts of a [db] tag other than [default:], and the last default. *)
Definition parse_db_tag (dbTag : string) : list string * option string :=
  if dbTag =? "" then ([], None)
  else
    let raw := Split dbTag "," in
    (filter (λ p, is_default_part p = false) raw,
     last (default_value <$> filter (λ p, is_default_part p = true) raw)).

Definition is_pk_part (part : string) : bool := (part =? "pk") || (part =? "primarykey").

(** ** Indexes *)

Definition add_composite (unique : bool) (indexName columnName : string) (m : gmap string IndexInfo) : gmap string IndexInfo :=
  if indexName =? "" then m
  else match m !! indexName with
  | Some e =>
      if Bool.eqb (IdxUnique e) unique
      then <[indexName := MkIndexInfo (IdxName e) (IdxColumns e ++ [columnName])%list (IdxUnique e) (IdxWhere e)]> m
      else m
  | None => <[indexName := MkIndexInfo indexName [columnName] unique ""]> m
  end.

Definition parseIndexTagFromDb (columnName : string) (b : build_state) (part : string) : build_state :=
  let part := TrimSpace part in
  let with_idx i u c := MkBuild (b_Columns b) (b_Fields b) (b_FieldToColumn b) (b_ColumnToField b)
                          (b_Compare b) i u c (b_pk b) in
  if part =? "index" then
    with_idx (b_Indexes b ++ [MkIndexInfo "" [columnName] false ""])%list (b_UniqueIndexes b) (b_composite b)
  else if part =? "unique" then
    with_idx (b_Indexes b) (b_UniqueIndexes b ++ [MkIndexInfo "" [columnName] true ""])%list (b_composite b)
  else if HasPrefix part "index:" then
    with_idx (b_Indexes b) (b_UniqueIndexes b)
      (add_composite false (TrimPrefix part "index:") columnName (b_composite b))
  else if HasPrefix part "unique:" then
    with_idx (b_Indexes b) (b_UniqueIndexes b)
      (add_composite true (TrimPrefix part "unique:") columnName (b_composite b))
  else b.

(** ** Fields *)

(** The body both for a field of [BaseModel] and for a plain field. *)
Definition process_column (index : list nat) (embedded : bool) (name : string) (t : gotype)
    (dbTag diffTag : string) (b : build_state) : build_state :=
  let '(parts, dflt) := parse_db_tag dbTag in
  if bool_decide (head parts = Some "-") || negb (IsExported name) then b
  else
    let tagName := default "" (head parts) in
    let columnName := if tagName =? "" then ToSnakeCase name else tagName in
    let isPk := existsb is_pk_part (tail parts) in
    let b := MkBuild (b_Columns b ++ [columnName])%list (b_Fields b ++ [name])%list
               (<[name := columnName]> (b_FieldToColumn b))
               (<[columnName := name]> (b_ColumnToField b))
               (b_Compare b ++ [MkCF name columnName index t embedded (diffTag =? "-") dflt])%list
               (b_Indexes b) (b_UniqueIndexes b) (b_composite b)
               (if isPk && (b_pk b =? "") then columnName else b_pk b) in
    foldl (parseIndexTagFromDb columnName) b (tail parts).

(** The fields of an embedded [BaseModel]: anonymous structs inside it are not
    entered (a plain field of struct type, for [reflect]). *)
Definition process_base_field (i j : nat) (f : sfield) (b : build_state) : build_state :=
  match f with
  | SField name t dbTag diffTag => process_column [i; j] true name t dbTag diffTag b
  | SEmbed name typeName _ => process_column [i; j] true name (TOpaque OStruct typeName) "" "" b
  end.

Fixpoint process_base (i j : nat) (fs : list sfield) (b : build_state) : build_state :=
  match fs with
  | [] => b
  | f :: fs => process_base i (S j) fs (process_base_field i j f b)
  end.

(** The loop of [processFields] from field [i] on; the parent's index is not
    used (line "只聚合自身，不递归、不拼接 parentIndex"). *)
Fixpoint process_field (i : nat) (embedded : bool) (f : sfield) (b : build_state) {struct f} : build_state :=
  match f with
  | SEmbed name typeName fields =>
      if typeName =? "BaseModel" then
        if name =? "BaseModel" then process_base i 0 fields b else b
      else
        (fix go (i : nat) (fs : list sfield) (b : build_state) : build_state :=
           match fs with
           | [] => b
           | f :: fs => go (S i) fs (process_field i true f b)
           end) 0%nat fields b
  | SField name t dbTag diffTag => process_column [i] embedded name t dbTag diffTag b
  end.

Fixpoint processFields (i : nat) (embedded : bool) (fs : list sfield) (b : build_state) : build_state :=
  match fs with
  | [] => b
  | f :: fs => processFields (S i) embedded fs (process_field i embedded f b)
  end.

(** ** Programmatic indexes *)

Definition effectiveIndexName (tableName : string) (idx : IndexInfo) : string :=
  match IdxColumns idx with
  | [c] =>
      if negb (IdxName idx =? "") then IdxName idx
      else if IdxUnique idx then "uniq_" +:+ tableName +:+ "_" +:+ c
      else "idx_" +:+ tableName +:+ "_" +:+ c
  | _ => IdxName idx
  end.

Definition validateProgrammaticIndex (columnToField : gmap string string) (idx : IndexInfo) : result unit :=
  if bool_decide (IdxColumns idx = []) then Err (ErrMsg "columns must be non-empty")
  else if (IdxName idx =? "") && (1 <? length (IdxColumns idx))%nat
  then Err (ErrMsg "name is required for composite indexes")
  else if forallb (λ c, bool_decide (is_Some (columnToField !! c))) (IdxColumns idx)
  then Ok () else Err (ErrMsg "column does not exist on table").

Definition appendIndex (tableName : string) (idx : IndexInfo) (plain uniq : list IndexInfo)
    : result (list IndexInfo * list IndexInfo) :=
  match filter (λ e, effectiveIndexName tableName e = effectiveIndexName tableName idx) (plain ++ uniq)%list with
  | e :: _ =>
      if Bool.eqb (IdxUnique e) (IdxUnique idx) && (IdxWhere e =? IdxWhere idx) &&
         bool_decide (IdxColumns e = IdxColumns idx)
      then Ok (plain, uniq)
      else Err (ErrMsg "index conflicts with an existing index definition")
  | [] => Ok (if IdxUnique idx then (plain, uniq ++ [idx])%list else (plain ++ [idx], uniq)%list)
  end.

Fixpoint appendProgrammaticIndexes (tableName : string) (columnToField : gmap string string)
    (idxs : list IndexInfo) (plain uniq : list IndexInfo) : result (list IndexInfo * list IndexInfo) :=
  match idxs with
  | [] => Ok (plain, uniq)
  | idx :: idxs =>
      _ ← validateProgrammaticIndex columnToField idx;
      p ← appendIndex tableName idx plain uniq;
      appendProgrammaticIndexes tableName columnToField idxs p.1 p.2
  end.

(** ** Sorting by name *)

Fixpoint str_leb (s t : string) : bool :=
  match s, t with
  | "", _ => true
  | String _ _, "" => false
  | String a s', String b t' =>
      if (code a <? code b)%Z then true else if (code b <? code a)%Z then false else str_leb s' t'
  end.

Fixpoint insert_sorted {A} (key : A → string) (x : A) (l : list A) : list A :=
  match l with
  | [] => [x]
  | y :: l' => if str_leb (key x) (key y) then x :: l else y :: insert_sorted key x l'
  end.
Definition sort_by {A} (key : A → string) (l : list A) : list A := foldr (insert_sorted key) [] l.

(** ** The whole *)

(** What the methods of the model type return. *)
Record model_methods := MkMethods {
  mm_TableName : string;
  mm_Indexes : list IndexInfo;
  mm_customKeepItem : bool;
  mm_customKeepItemFields : bool
}.

Definition GetCachedModelInfo (typeName : string) (mm : model_methods) (fs : list sfield) : result ModelInfo :=
  let b := processFields 0 false fs build_empty in
  let tableName := getTableNameFromType typeName (mm_TableName mm) in
  let composite := (λ e, MkIndexInfo (IdxName e) (sort_by id (IdxColumns e)) (IdxUnique e) (IdxWhere e)) <$>
                   (map_to_list (b_composite b)).*2 in
  let plain := (b_Indexes b ++ filter (λ e, IdxUnique e = false) composite)%list in
  let uniq := (b_UniqueIndexes b ++ filter (λ e, IdxUnique e = true) composite)%list in
  p ← appendProgrammaticIndexes tableName (b_ColumnToField b) (mm_Indexes mm) plain uniq;
  Ok {| TableName := tableName;
        PkName := if b_pk b =? "" then "id" else b_pk b;
        Columns := b_Columns b;
        Fields_ := b_Fields b;
        FieldToColumnMap := b_FieldToColumn b;
        ColumnToFieldMap := b_ColumnToField b;
        CompareFields := b_Compare b;
        Indexes := sort_by IdxName p.1;
        UniqueIndexes := sort_by IdxName p.2;
        HasCustomKeepItem := mm_customKeepItem mm;
        HasCustomKeepItemFields := mm_customKeepItemFields mm |}.
