(* ===== verification/LocalCache.v ===== *)
(** * The local cache (cache.go: [localCache], and [CacheStats])

    The [sync.Map]s of [localCache] are finite maps of one record; every
    operation takes the time [now] (nanoseconds) at which it reads the clock
    and returns the new state.  The background goroutine is the operation
    [cleanup_tick]; its interleaving with the other operations is a sequence of
    operations.  A [[]byte] in the store is always the gob encoding of a value,
    and is represented by the value the encoder saw ([gobdata]); what gob
    changes on the way ([gob_iface]) is applied when it is decoded. *)

From Stdlib Require Import SpecFloat.
From S2P Require Import Prelude GoStrings GoValues Predicate CacheIndex.

Open Scope string_scope.
Open Scope Z_scope.

(** ** Gob *)

(** A [time.Time] keeps its instant through gob; its representation (monotonic
    clock, location pointer) is rebuilt by the decoder.  What gob makes of the
    values the model keeps opaque (structs, maps) is a parameter too. *)
Class Gob := {
  gob_time_rep : Z → Z → Z;
  gob_opaque : opaque_kind → string → bool → Z → option goval
}.

Definition gob_basic (t : gotype) : bool :=
  match t with TBool | TInt _ | TUint _ | TFloat _ | TString => true | _ => false end.

(** What an [interface{}] holding [v] decodes to; [None] when it cannot be
    encoded (a nil pointer, or a type that is not registered: slices of
    anything but basic types).  The named types of a model's fields are
    registered when its [Thing] is made (utils.RegisterTypeRecursive).  A
    pointer is flattened to what it points to, and an empty slice decodes as
    nil. *)
Fixpoint gob_iface `{Gob} (v : goval) : option goval :=
  match v with
  | VBool _ | VInt _ _ | VUint _ _ | VFloat _ _ | VString _ => Some v
  | VTime i r => Some (VTime i (gob_time_rep i r))
  | VPtr _ None => None
  | VPtr _ (Some x) => gob_iface x
  | VSlice t l =>
      if gob_basic t
      then Some (VSlice t (match l with Some [] => None | l => l end))
      else None
  | VNamed n x => VNamed n <$> gob_iface x
  | VOpaque k n i d => gob_opaque k n i d
  | VArray _ _ | VIface _ => None
  end.

(** Encoding and decoding a [map[string]interface{}]; a nil interface stays
    nil. *)
Definition gob_map `{Gob} (m : gmap string (option goval)) : option (gmap string (option goval)) :=
  if forallb (λ kv, match kv.2 with Some v => bool_decide (is_Some (gob_iface v)) | None => true end)
             (map_to_list m)
  then Some ((λ o : option goval, o ≫= gob_iface) <$> m)
  else None.

Inductive gobdata :=
  | GobMap (m : gmap string (option goval))
  | GobIDs (ids : list Z).

(** ** State *)

Inductive payload :=
  | PString (s : string)
  | PBytes (b : gobdata).

Record localCache := MkLocal {
  store : gmap string payload;
  lockPool : gmap string bool;          (* whether the channel of the lock is full *)
  counters : gmap string Z;
  expiryStore : gmap string Z;
  cleanupStarted : bool
}.

Definition new_localCache : localCache := MkLocal ∅ ∅ ∅ ∅ false.

Definition with_store (f : gmap string payload → gmap string payload) (m : localCache) : localCache :=
  MkLocal (f (store m)) (lockPool m) (counters m) (expiryStore m) (cleanupStarted m).
Definition with_locks (f : gmap string bool → gmap string bool) (m : localCache) : localCache :=
  MkLocal (store m) (f (lockPool m)) (counters m) (expiryStore m) (cleanupStarted m).
Definition with_expiry (f : gmap string Z → gmap string Z) (m : localCache) : localCache :=
  MkLocal (store m) (lockPool m) (counters m) (f (expiryStore m)) (cleanupStarted m).

(** ** Helpers *)

(** An [atomic.Int64] per name. *)
Definition incrCounter (name : string) (m : localCache) : localCache :=
  MkLocal (store m) (lockPool m)
    (<[name := wrap_int W64 (default 0 (counters m !! name) + 1)]> (counters m))
    (expiryStore m) (cleanupStarted m).

Definition GetCacheStats (m : localCache) : gmap string Z := counters m.

(** The expiry map only ever holds [time.Time] values. *)
Definition isExpired (now : Z) (key : string) (m : localCache) : bool :=
  match expiryStore m !! key with
  | None => false
  | Some expiryTime => expiryTime <? now
  end.

Definition startCleanupGoroutine (m : localCache) : localCache :=
  MkLocal (store m) (lockPool m) (counters m) (expiryStore m) true.

(** [m.store.Delete(key); m.expiryStore.Delete(key)]. *)
Definition remove (key : string) (m : localCache) : localCache :=
  with_expiry (delete key) (with_store (delete key) m).

(** The common tail of [Set], [SetModel], [SetQueryIDs] and [Expire]. *)
Definition set_expiration (now : Z) (key : string) (expiration : Z) (m : localCache) : localCache :=
  if 0 <? expiration
  then startCleanupGoroutine (with_expiry (insert key (now + expiration)) m)
  else with_expiry (delete key) m.

(** ** Strings *)

Definition Get (now : Z) (key : string) (m : localCache) : localCache * result string :=
  let m := incrCounter "Get" m in
  match store m !! key with
  | None => (incrCounter "GetMiss" m, Err ErrNotFound)
  | Some v =>
      if isExpired now key m then (incrCounter "GetExpired" (remove key m), Err ErrNotFound)
      else match v with
      | PString s => (incrCounter "GetHit" m, Ok s)
      | PBytes _ => (incrCounter "GetMiss" m, Err ErrNotFound)
      end
  end.

Definition Set_ (now : Z) (key value : string) (expiration : Z) (m : localCache) : localCache * result unit :=
  let m := incrCounter "Set" m in
  let store_it m := (set_expiration now key expiration (with_store (insert key (PString value)) m), Ok ()) in
  if (value =? NoneResult)%string then
    match store m !! key with
    | Some (PString s) =>
        if (s =? NoneResult)%string then (m, Ok ()) else store_it (incrCounter "SetNoneResult" m)
    | _ => store_it (incrCounter "SetNoneResult" m)
    end
  else store_it m.

Definition Delete (key : string) (m : localCache) : localCache * result unit :=
  (remove key (incrCounter "Delete" m), Ok ()).

Definition Exists_ (now : Z) (key : string) (m : localCache) : localCache * bool :=
  let m := incrCounter "Exists" m in
  match store m !! key with
  | None => (m, false)
  | Some _ => if isExpired now key m then (remove key m, false) else (m, true)
  end.

(** ** Models *)

Definition exported (name : string) : bool :=
  match name with
  | "" => false
  | String c _ => (65 <=? code c) && (code c <=? 90)
  end.

(** [field.Set] on the field [FieldByName] finds (its own depth first). *)
Fixpoint set_at (d : nat) (s : gostruct) (name : string) (v : goval) : gostruct :=
  match d with
  | O => (λ f, match f with
               | FVal n x => if (n =? name)%string then FVal n v else FVal n x
               | FEmbed n fs => FEmbed n fs
               end) <$> s
  | S d => (λ f, match f with
                 | FVal n x => FVal n x
                 | FEmbed n fs => FEmbed n (set_at d fs name v)
                 end) <$> s
  end.

Fixpoint set_search (ds : list nat) (s : gostruct) (name : string) (v : goval) : gostruct :=
  match ds with
  | [] => s
  | d :: ds => match fields_at d s name with
               | [] => set_search ds s name v
               | [_] => set_at d s name v
               | _ => s
               end
  end.
Definition set_field (s : gostruct) (name : string) (v : goval) : gostruct :=
  set_search (seq 0 (S (struct_depth s))) s name v.

(** The [switch] of [GetModel]: the value a field of type [t] gets from a
    decoded value [v] ([None]: a warning, the field keeps its value). *)
Definition value_for_field `{GoPlatform} (t : gotype) (v : goval) : option goval :=
  if bool_decide (typeof v = t) then Some v
  else if bool_decide (t = TIface) then Some (VIface (Some v))
  else if ConvertibleTo (typeof v) t then Convert v t
  else
    let numeric z :=
      match under_type t with
      | TInt w => Some (rename t (VInt w (wrap_int w z)))
      | TUint w => Some (rename t (VUint w (wrap_uint w z)))
      | _ => None
      end in
    match under v with
    | VFloat F64 f => numeric (float_to_int64 f)
    | VInt W64 z => numeric z
    | _ => None
    end.

Fixpoint populate `{GoPlatform} (entries : list (string * option goval)) (dest : gostruct) : result gostruct :=
  match entries with
  | [] => Ok dest
  | (k, o) :: entries =>
      match FieldByName dest k with
      | Some old =>
          if exported k then
            match o with
            | None => Panic "reflect: call of reflect.Value.Type on zero Value"
            | Some v =>
                populate entries (match value_for_field (typeof old) v with
                                  | Some x => set_field dest k x
                                  | None => dest
                                  end)
            end
          else populate entries dest
      | None => populate entries dest
      end
  end.

Definition not_bytes : goerr := ErrMsg "localCache: cached value for key is not []byte".
Definition gob_unmarshal_error : goerr := ErrMsg "localCache: Gob Unmarshal error for key".

(** [dest] is a non-nil pointer to a struct, as at every call.  A list of ids
    decodes neither as a map nor into a struct. *)
Definition GetModel `{GoPlatform} `{Gob} (now : Z) (key : string) (dest : gostruct) (m : localCache)
    : localCache * result gostruct :=
  let m := incrCounter "GetModel" m in
  match store m !! key with
  | None => (incrCounter "GetModelMiss" m, Err ErrNotFound)
  | Some raw =>
      if isExpired now key m then (incrCounter "GetModelExpired" (remove key m), Err ErrNotFound)
      else match raw with
      | PString _ => (incrCounter "GetModelError" m, Err not_bytes)
      | PBytes (GobMap dataMap) =>
          match gob_map dataMap with
          | Some dataMap =>
              match populate (map_to_list dataMap) dest with
              | Ok dest => (incrCounter "GetModelHit" m, Ok dest)
              | r => (m, r)
              end
          | None => (m, Err gob_unmarshal_error)
          end
      | PBytes (GobIDs _) => (m, Err gob_unmarshal_error)
      end
  end.

Fixpoint MGetModel `{GoPlatform} `{Gob} (now : Z) (keys : list (string * gostruct)) (m : localCache)
    : localCache * list (result gostruct) :=
  match keys with
  | [] => (m, [])
  | (key, dest) :: keys =>
      let '(m, r) := GetModel now key dest m in
      let '(m, rs) := MGetModel now keys m in
      (m, r :: rs)
  end.

(** The map of the fields to cache; unknown and unexported names are skipped. *)
Definition model_data (model : gostruct) (fieldsToCache : list string) : gmap string (option goval) :=
  list_to_map (omap (λ f, if exported f
                          then (λ v, (f, value_Interface v)) <$> FieldByName model f
                          else None) (rev fieldsToCache)).

Definition SetModel `{Gob} (now : Z) (key : string) (model : gostruct) (fieldsToCache : list string)
    (expiration : Z) (m : localCache) : localCache * result unit :=
  let m := incrCounter "SetModel" m in
  let dataMap := model_data model fieldsToCache in
  match gob_map dataMap with
  | None => (m, Err (ErrMsg "localCache: Gob map encode error for key"))
  | Some _ =>
      (set_expiration now key expiration (with_store (insert key (PBytes (GobMap dataMap))) m), Ok ())
  end.

Definition DeleteModel (key : string) (m : localCache) : localCache * result unit :=
  (remove key (incrCounter "DeleteModel" m), Ok ()).

(** ** Lists of ids *)

(** A nil slice is [None]; gob decodes an empty list as nil. *)
Definition GetQueryIDs (now : Z) (queryKey : string) (m : localCache)
    : localCache * result (option (list Z)) :=
  let m := incrCounter "GetQueryIDs" m in
  match store m !! queryKey with
  | None => (incrCounter "GetQueryIDsMiss" m, Err ErrNotFound)
  | Some raw =>
      if isExpired now queryKey m
      then (incrCounter "GetQueryIDsExpired" (remove queryKey m), Err ErrNotFound)
      else match raw with
      | PString _ => (incrCounter "GetQueryIDsError" m, Err not_bytes)
      | PBytes (GobIDs ids) =>
          (incrCounter "GetQueryIDsHit" m, Ok (match ids with [] => None | _ => Some ids end))
      | PBytes (GobMap _) => (m, Err gob_unmarshal_error)
      end
  end.

Definition SetQueryIDs (now : Z) (queryKey : string) (ids : option (list Z)) (expiration : Z)
    (m : localCache) : localCache * result unit :=
  let m := incrCounter "SetQueryIDs" m in
  (set_expiration now queryKey expiration
     (with_store (insert queryKey (PBytes (GobIDs (default [] ids)))) m), Ok ()).

Definition DeleteQueryIDs (queryKey : string) (m : localCache) : localCache * result unit :=
  (remove queryKey (incrCounter "DeleteQueryIDs" m), Ok ()).

(** ** Locks *)

(** [LoadOrStore]: a lock that does not exist is made free. *)
Definition getLock (key : string) (m : localCache) : localCache * bool :=
  match lockPool m !! key with
  | Some held => (m, held)
  | None => (with_locks (insert key false) m, false)
  end.

(** Which branch of a [select] is taken: the send or receive on the lock's
    channel, the expiry of the timeout, or the cancellation of the context.
    When several are ready the run time picks any of them. *)
Inductive select_branch :=
  | OnChannel
  | OnTimeout
  | OnCancel (e : goerr)
  | OnDefault.

(** [None]: the branch is not ready, the call is still blocked. *)
Definition AcquireLock (br : select_branch) (lockKey : string) (expiration : Z) (m : localCache)
    : option (localCache * result bool) :=
  let m := incrCounter "AcquireLock" m in
  let '(m, held) := getLock lockKey m in
  match br with
  | OnChannel => if held : bool then None else Some (with_locks (insert lockKey true) m, Ok true)
  | OnTimeout => if 0 <? expiration then Some (m, Ok false) else None
  | OnCancel e => Some (m, Err e)
  | OnDefault => None
  end.

(** The default branch is taken only when no other is ready. *)
Definition ReleaseLock (br : select_branch) (lockKey : string) (m : localCache)
    : option (localCache * result unit) :=
  let m := incrCounter "ReleaseLock" m in
  let '(m, held) := getLock lockKey m in
  match br with
  | OnChannel => if held : bool then Some (with_locks (insert lockKey false) m, Ok ()) else None
  | OnCancel e => Some (m, Err e)
  | OnDefault => if held : bool then None else Some (m, Ok ())
  | OnTimeout => None
  end.

(** ** Counters and expiry of a key *)

(** [Incr]: the increment happens under the lock [incr:key]; [acq] and [rel]
    are the branches the two lock operations take. *)
Definition Incr (acq rel : select_branch) (key : string) (m : localCache)
    : option (localCache * result Z) :=
  let m := incrCounter "Incr" m in
  let lockKey := "incr:" +:+ key in
  match AcquireLock acq lockKey 0 m with
  | None => None
  | Some (m, Err e) => Some (m, Err e)
  | Some (m, Panic msg) => Some (m, Panic msg)
  | Some (m, Ok false) => Some (m, Err (ErrMsg "could not acquire lock for Incr on key"))
  | Some (m, Ok true) =>
      let currentVal := match store m !! key with
                        | Some (PString s) => default 0 (ParseInt s)
                        | _ => 0
                        end in
      let newVal := wrap_int W64 (currentVal + 1) in
      let m := with_store (insert key (PString (FormatInt newVal))) m in
      match ReleaseLock rel lockKey m with
      | None => None
      | Some (m, _) => Some (m, Ok newVal)
      end
  end.

Definition Expire (now : Z) (key : string) (expiration : Z) (m : localCache) : localCache * result unit :=
  let m := incrCounter "Expire" m in
  match store m !! key with
  | None => (m, Err ErrNotFound)
  | Some _ => (set_expiration now key expiration m, Ok ())
  end.

(** ** The cleanup goroutine *)

(** One tick: expired keys are removed, then registered keys that are not in
    the store are deregistered from the index. *)
Definition expired_keys (now : Z) (m : localCache) : list string :=
  (filter (λ kv : string * Z, (kv.2 < now)%Z) (map_to_list (expiryStore m))).*1.

Definition cleanup_tick (now : Z) (m : localCache) (idx : CacheIndex) : localCache * CacheIndex :=
  let m := foldl (λ m key, remove key m) m (expired_keys now m) in
  (m, foldl (λ idx key, match store m !! key with
                        | Some _ => idx
                        | None => DeregisterQuery key idx
                        end) idx (GetAllRegisteredKeys idx)).
