(* ===== verification/CacheClient.v ===== *)
(** * The cache client interface (interfaces.go: [CacheClient])

    The operations the ORM calls on a cache, as a type class over the client's
    state; the laws the ORM relies on; the local cache as an instance, with the
    laws proved; and [WithLock] (cache.go), written against the interface. *)

From S2P Require Import Prelude GoStrings GoValues Predicate CacheIndex LocalCache.

Open Scope string_scope.
Open Scope Z_scope.

(** ** The interface *)

(** A nil slice of ids is [None].  [cc_Wait] is the [select] of [WithLock]
    between the retry delay ([None]) and the end of the context. *)
Class CacheClient (C : Type) := {
  cc_Get : string → C → C * result string;
  cc_Set : string → string → Z → C → C * result unit;
  cc_Delete : string → C → C * result unit;
  cc_GetModel : string → gostruct → C → C * result gostruct;
  cc_SetModel : string → gostruct → list string → Z → C → C * result unit;
  cc_DeleteModel : string → C → C * result unit;
  cc_MGetModel : list (string * gostruct) → C → C * list (result gostruct);
  cc_GetQueryIDs : string → C → C * result (option (list Z));
  cc_SetQueryIDs : string → option (list Z) → Z → C → C * result unit;
  cc_DeleteQueryIDs : string → C → C * result unit;
  cc_AcquireLock : string → Z → C → C * result bool;
  cc_ReleaseLock : string → C → C * result unit;
  cc_Wait : C → C * option goerr
}.

(** What clients rely on.  [live c k]: the cache holds an entry for [k] that a
    read may return.  A client may keep its locks among its entries. *)
Class CacheLaws (C : Type) `{CacheClient C} := {
  live : C → string → Prop;
  law_Get_miss c k v : ¬ live c k → (cc_Get k c).2 ≠ Ok v;
  law_GetQueryIDs_miss c k v : ¬ live c k → (cc_GetQueryIDs k c).2 ≠ Ok v;
  law_Delete c k : ∀ k', live (cc_Delete k c).1 k' → live c k' ∧ ((cc_Delete k c).2 = Ok () → k' ≠ k);
  law_Delete_NotFound c k e : (cc_Delete k c).2 = Err e → errors_Is e ErrNotFound = true → ¬ live (cc_Delete k c).1 k;
  law_Delete_panic c k m : (cc_Delete k c).2 ≠ Panic m;
  law_Get_live c k k' : live (cc_Get k c).1 k' → live c k';
  law_GetQueryIDs_live c k k' : live (cc_GetQueryIDs k c).1 k' → live c k';
  law_GetQueryIDs_NotFound c k e :
    (cc_GetQueryIDs k c).2 = Err e → errors_Is e ErrNotFound = true → ¬ live (cc_GetQueryIDs k c).1 k;
  law_Set_live c k v ttl k' : live (cc_Set k v ttl c).1 k' → k' = k ∨ live c k';
  law_SetModel_live c k m fs ttl k' : live (cc_SetModel k m fs ttl c).1 k' → k' = k ∨ live c k';
  law_SetQueryIDs_live c k ids ttl k' : live (cc_SetQueryIDs k ids ttl c).1 k' → k' = k ∨ live c k';
  law_MGetModel_live c ks k' : live (cc_MGetModel ks c).1 k' → live c k';
  law_AcquireLock_live c k d k' : live (cc_AcquireLock k d c).1 k' → k' = k ∨ live c k';
  law_ReleaseLock_live c k k' : live (cc_ReleaseLock k c).1 k' → live c k';
  law_Wait_live c k' : live (cc_Wait c).1 k' → live c k'
}.

(** ** The local cache as a client *)

(** What the environment decides at each operation: the time, the branch of a
    [select] when it can choose, whether the context ends during a wait. *)
Record env_step := MkEnv {
  es_now : Z;
  es_branch : select_branch;
  es_wait : option goerr
}.

Record local_client := MkClient {
  lc : localCache;
  lc_env : nat → env_step;
  lc_pos : nat
}.

Definition env_now (c : local_client) : env_step := lc_env c (lc_pos c).

(** One operation: it sees the environment's step and moves to the next. *)
Definition local_op {A} (f : env_step → localCache → localCache * A) (c : local_client)
    : local_client * A :=
  let '(m, r) := f (env_now c) (lc c) in
  (MkClient m (lc_env c) (S (lc_pos c)), r).

(** The branch the environment chose, when it is ready; otherwise the one that
    will be: the channel when the lock is free, the timeout when it is held. *)
Definition local_acquire (k : string) (d : Z) (e : env_step) (m : localCache) : localCache * result bool :=
  match AcquireLock (es_branch e) k d m with
  | Some r => r
  | None => default (default (m, Ok false) (AcquireLock OnTimeout k d m)) (AcquireLock OnChannel k d m)
  end.

Definition local_release (k : string) (e : env_step) (m : localCache) : localCache * result unit :=
  match ReleaseLock (es_branch e) k m with
  | Some r => r
  | None => default (default (m, Ok ()) (ReleaseLock OnDefault k m)) (ReleaseLock OnChannel k m)
  end.

#[export] Instance local_CacheClient `{GoPlatform} `{Gob} : CacheClient local_client := {
  cc_Get k := local_op (λ e, Get (es_now e) k);
  cc_Set k v ttl := local_op (λ e, Set_ (es_now e) k v ttl);
  cc_Delete k := local_op (λ _, Delete k);
  cc_GetModel k dest := local_op (λ e, GetModel (es_now e) k dest);
  cc_SetModel k m fs ttl := local_op (λ e, SetModel (es_now e) k m fs ttl);
  cc_DeleteModel k := local_op (λ _, DeleteModel k);
  cc_MGetModel ks := local_op (λ e, MGetModel (es_now e) ks);
  cc_GetQueryIDs k := local_op (λ e, GetQueryIDs (es_now e) k);
  cc_SetQueryIDs k ids ttl := local_op (λ e, SetQueryIDs (es_now e) k ids ttl);
  cc_DeleteQueryIDs k := local_op (λ _, DeleteQueryIDs k);
  cc_AcquireLock k d := local_op (local_acquire k d);
  cc_ReleaseLock k := local_op (local_release k);
  cc_Wait := local_op (λ e m, (m, es_wait e))
}.

(** ** Stores of the local cache *)

Section local_laws.
Context `{GoPlatform} `{Gob}.

Definition stored (m : localCache) (k : string) : Prop := is_Some (store m !! k).

Lemma store_incr n m : store (incrCounter n m) = store m.
Proof. done. Qed.
Lemma store_set_expiration now k ttl m : store (set_expiration now k ttl m) = store m.
Proof. unfold set_expiration. by case_match. Qed.
Lemma stored_remove k m k' : stored (remove k m) k' ↔ k' ≠ k ∧ stored m k'.
Proof.
  unfold stored, remove, with_store; simpl. rewrite lookup_delete. case_decide; subst.
  - split; [by intros ?%is_Some_None|naive_solver].
  - naive_solver.
Qed.
Lemma stored_insert k v m k' : stored (with_store (insert k v) m) k' → k' = k ∨ stored m k'.
Proof. unfold stored, with_store; simpl. rewrite lookup_insert. case_decide; auto. Qed.

Lemma stored_Get now k m k' : stored (Get now k m).1 k' → stored m k'.
Proof.
  unfold Get. simpl. destruct (store m !! k) as [v|]; [|done].
  destruct (isExpired _ _ _); [|by destruct v]. simpl.
  by intros [_ ?]%(stored_remove k (incrCounter "Get" m)).
Qed.

Lemma stored_GetQueryIDs now k m k' : stored (GetQueryIDs now k m).1 k' → stored m k'.
Proof.
  unfold GetQueryIDs. simpl. destruct (store m !! k) as [v|]; [|done].
  destruct (isExpired _ _ _); [|by destruct v as [|[]]]. simpl.
  by intros [_ ?]%(stored_remove k (incrCounter "GetQueryIDs" m)).
Qed.

Lemma stored_GetModel now k dest m k' : stored (GetModel now k dest m).1 k' → stored m k'.
Proof.
  unfold GetModel. simpl. destruct (store m !! k) as [v|]; [|done].
  destruct (isExpired _ _ _).
  - simpl. by intros [_ ?]%(stored_remove k (incrCounter "GetModel" m)).
  - destruct v as [|[]]; [done| |done]. destruct (gob_map _); [|done]. by destruct (populate _ _).
Qed.

Lemma stored_MGetModel now ks m k' : stored (MGetModel now ks m).1 k' → stored m k'.
Proof.
  revert m. induction ks as [|[k dest] ks IH]; intros m; simpl; [done|].
  destruct (GetModel now k dest m) as [m1 r] eqn:E1.
  destruct (MGetModel now ks m1) as [m2 rs] eqn:E2. simpl.
  intros Hs. apply (stored_GetModel now k dest). rewrite E1. apply IH. simpl. by rewrite E2.
Qed.

Lemma stored_Set now k v ttl m k' : stored (Set_ now k v ttl m).1 k' → k' = k ∨ stored m k'.
Proof.
  unfold Set_. simpl.
  assert (Hins : ∀ m', stored (set_expiration now k ttl (with_store (insert k (PString v)) m')) k' →
                       k' = k ∨ stored m' k').
  { intros m'. unfold stored. rewrite store_set_expiration. apply stored_insert. }
  destruct (v =? NoneResult)%string; [|apply (Hins (incrCounter "Set" m))].
  destruct (store m !! k) as [[s|]|]; try apply (Hins (incrCounter _ (incrCounter _ m))).
  destruct (s =? NoneResult)%string; [by right|apply (Hins (incrCounter _ (incrCounter _ m)))].
Qed.

Lemma stored_SetModel now k mo fs ttl m k' : stored (SetModel now k mo fs ttl m).1 k' → k' = k ∨ stored m k'.
Proof.
  unfold SetModel. destruct (gob_map _); simpl; [|by right].
  unfold stored. rewrite store_set_expiration. apply (stored_insert _ _ (incrCounter _ m)).
Qed.

Lemma stored_SetQueryIDs now k ids ttl m k' : stored (SetQueryIDs now k ids ttl m).1 k' → k' = k ∨ stored m k'.
Proof.
  unfold SetQueryIDs, stored; simpl. rewrite store_set_expiration. apply (stored_insert _ _ (incrCounter _ m)).
Qed.

Lemma store_AcquireLock br k d m m' r : AcquireLock br k d m = Some (m', r) → store m' = store m.
Proof. unfold AcquireLock, getLock; simpl. intros. break; done. Qed.
Lemma store_ReleaseLock br k m m' r : ReleaseLock br k m = Some (m', r) → store m' = store m.
Proof. unfold ReleaseLock, getLock; simpl. intros. break; done. Qed.

Lemma store_local_acquire k d e m : store (local_acquire k d e m).1 = store m.
Proof.
  unfold local_acquire.
  destruct (AcquireLock (es_branch e) k d m) as [[]|] eqn:E; [by eapply store_AcquireLock|].
  destruct (AcquireLock OnChannel k d m) as [[]|] eqn:E1; simpl; [by eapply store_AcquireLock|].
  destruct (AcquireLock OnTimeout k d m) as [[]|] eqn:E2; simpl; [by eapply store_AcquireLock|done].
Qed.
Lemma store_local_release k e m : store (local_release k e m).1 = store m.
Proof.
  unfold local_release.
  destruct (ReleaseLock (es_branch e) k m) as [[]|] eqn:E; [by eapply store_ReleaseLock|].
  destruct (ReleaseLock OnChannel k m) as [[]|] eqn:E1; simpl; [by eapply store_ReleaseLock|].
  destruct (ReleaseLock OnDefault k m) as [[]|] eqn:E2; simpl; [by eapply store_ReleaseLock|done].
Qed.

Lemma local_op_1 {A} (f : env_step → localCache → localCache * A) c :
  lc (local_op f c).1 = (f (env_now c) (lc c)).1.
Proof. unfold local_op. by destruct (f (env_now c) (lc c)). Qed.
Lemma local_op_2 {A} (f : env_step → localCache → localCache * A) c :
  (local_op f c).2 = (f (env_now c) (lc c)).2.
Proof. unfold local_op. by destruct (f (env_now c) (lc c)). Qed.

Lemma Get_missing now k m : ¬ stored m k → (Get now k m).2 = Err ErrNotFound.
Proof.
  unfold Get, stored; simpl. destruct (store m !! k) eqn:E; [|done]. intros Hn. destruct Hn; eauto.
Qed.
Lemma GetQueryIDs_missing now k m : ¬ stored m k → (GetQueryIDs now k m).2 = Err ErrNotFound.
Proof.
  unfold GetQueryIDs, stored; simpl. destruct (store m !! k) eqn:E; [|done]. intros Hn. destruct Hn; eauto.
Qed.

(** A read that misses leaves nothing under the key. *)
Lemma GetQueryIDs_NotFound now k m e :
  (GetQueryIDs now k m).2 = Err e → errors_Is e ErrNotFound = true → ¬ stored (GetQueryIDs now k m).1 k.
Proof.
  unfold GetQueryIDs; simpl. destruct (store m !! k) as [v|] eqn:E.
  - destruct (isExpired _ _ _); simpl.
    + intros _ _ [Hne _]%(stored_remove k (incrCounter "GetQueryIDs" m)). done.
    + destruct v as [|[]]; simpl; intros [= <-]; done.
  - intros _ _ [? Hs]. simpl in Hs. congruence.
Qed.

#[export] Instance local_CacheLaws : CacheLaws local_client.
Proof.
  refine {| live c k := stored (lc c) k |};
    simpl; intros *; rewrite ?local_op_1, ?local_op_2; simpl.
  - intros Hm. by rewrite Get_missing.
  - intros Hm. by rewrite GetQueryIDs_missing.
  - intros [? ?]%stored_remove. auto.
  - done.
  - done.
  - apply stored_Get.
  - apply stored_GetQueryIDs.
  - apply GetQueryIDs_NotFound.
  - apply stored_Set.
  - apply stored_SetModel.
  - apply stored_SetQueryIDs.
  - apply stored_MGetModel.
  - unfold stored. rewrite store_local_acquire. by right.
  - unfold stored. by rewrite store_local_release.
  - done.
Defined.
End local_laws.

(** ** The state the ORM works on *)

Record world (C D : Type) := MkWorld {
  w_cache : C;
  w_index : CacheIndex;
  w_db : D
}.
Arguments MkWorld {C D} _ _ _.
Arguments w_cache {C D} _.
Arguments w_index {C D} _.
Arguments w_db {C D} _.

Definition on_cache {C D A} (f : C → C * A) (w : world C D) : world C D * A :=
  let '(c, r) := f (w_cache w) in (MkWorld c (w_index w) (w_db w), r).

Definition on_index {C D} (f : CacheIndex → CacheIndex) (w : world C D) : world C D :=
  MkWorld (w_cache w) (f (w_index w)) (w_db w).

(** ** [WithLock] *)

Definition LockDuration : Z := 5000000000.
Definition LockMaxRetries : nat := 5.

(** The acquisition loop, with [n] attempts left. *)
Fixpoint acquire_loop {C} `{CacheClient C} (n : nat) (lockKey : string) (c : C) : C * result bool :=
  match n with
  | O => (c, Ok false)
  | S n =>
      let '(c, r) := cc_AcquireLock lockKey LockDuration c in
      match r with
      | Err e => (c, Err (ErrWrap "failed to attempt lock acquisition for key" e))
      | Panic m => (c, Panic m)
      | Ok true => (c, Ok true)
      | Ok false =>
          let '(c, o) := cc_Wait c in
          match o with
          | Some e => (c, Err e)
          | None => acquire_loop n lockKey c
          end
      end
  end.

(** The deferred release runs however the action ends; its error is logged. *)
Definition WithLock {C D} `{CacheClient C} (lockKey : string)
    (action : world C D → world C D * result unit) (w : world C D) : world C D * result unit :=
  let '(w, r) := on_cache (acquire_loop LockMaxRetries lockKey) w in
  match r with
  | Err e => (w, Err e)
  | Panic m => (w, Panic m)
  | Ok false => (w, Err (ErrWrap "failed to acquire lock for key" ErrLockNotAcquired))
  | Ok true =>
      let '(w, r) := action w in
      let '(w, _) := on_cache (cc_ReleaseLock lockKey) w in
      (w, r)
  end.
