(* ===== verification/LocalCacheFacts.v ===== *)
(** * Facts about the local cache

    Round trips of strings, id lists and models through the store, with the
    expiry rules; the cleanup tick; the locks. *)

From S2P Require Import Prelude GoStrings GoValues GoValuesFacts Predicate CacheIndex CacheIndexFacts.
From S2P Require Import LocalCache CacheClient.

Open Scope string_scope.
Open Scope Z_scope.

(** ** Strings and id lists *)

Lemma lookup_set_expiration now k ttl m k' :
  expiryStore (set_expiration now k ttl m) !! k' =
  if decide (k' = k) then (if 0 <? ttl then Some (now + ttl) else None) else expiryStore m !! k'.
Proof.
  unfold set_expiration, with_expiry, startCleanupGoroutine.
  destruct (0 <? ttl); simpl; [rewrite lookup_insert|rewrite lookup_delete];
    repeat case_decide; subst; congruence.
Qed.

(** When an entry written at [now] with [ttl] has expired. *)
Definition expired_at (now ttl now' : Z) : bool := (0 <? ttl) && (now + ttl <? now').

Lemma isExpired_set now k ttl m now' k' :
  isExpired now' k' (set_expiration now k ttl m) =
  if decide (k' = k) then expired_at now ttl now' else isExpired now' k' m.
Proof.
  unfold isExpired, expired_at. rewrite lookup_set_expiration. repeat case_decide; [|done].
  by destruct (0 <? ttl).
Qed.

(** What [Get] answers, from the store and the expiry alone. *)
Lemma Get_result now k m :
  (Get now k m).2 =
  match store m !! k with
  | Some (PString s) => if isExpired now k m then Err ErrNotFound else Ok s
  | _ => Err ErrNotFound
  end.
Proof.
  unfold Get. simpl. change (isExpired now k (incrCounter "Get" m)) with (isExpired now k m).
  destruct (store m !! k) as [[s|b]|]; [| |done]; by destruct (isExpired now k m).
Qed.

Lemma GetQueryIDs_result now k m :
  (GetQueryIDs now k m).2 =
  match store m !! k with
  | None => Err ErrNotFound
  | Some raw =>
      if isExpired now k m then Err ErrNotFound
      else match raw with
      | PString _ => Err not_bytes
      | PBytes (GobIDs ids) => Ok (match ids with [] => None | _ => Some ids end)
      | PBytes (GobMap _) => Err gob_unmarshal_error
      end
  end.
Proof.
  unfold GetQueryIDs. simpl. change (isExpired now k (incrCounter "GetQueryIDs" m)) with (isExpired now k m).
  destruct (store m !! k) as [[s|[]]|]; [| | |done]; by destruct (isExpired now k m).
Qed.

Lemma Set_state now k v ttl m :
  v ≠ NoneResult →
  (Set_ now k v ttl m).1 = set_expiration now k ttl (with_store (insert k (PString v)) (incrCounter "Set" m)).
Proof. intros Hv. unfold Set_. by destruct (String.eqb_spec v NoneResult). Qed.

Lemma lookup_with_store k v m k' :
  store (with_store (insert k v) m) !! k' = if decide (k' = k) then Some v else store m !! k'.
Proof. unfold with_store. simpl. rewrite lookup_insert. repeat case_decide; congruence. Qed.

(** A string set in the local cache is read back until its expiry has passed and is a miss
    after it; other keys are not affected. *)
Theorem Set_Get_roundtrip now now' k v ttl m :
  v ≠ NoneResult →
  let m' := (Set_ now k v ttl m).1 in
  (Set_ now k v ttl m).2 = Ok () ∧
  (Get now' k m').2 = (if expired_at now ttl now' then Err ErrNotFound else Ok v) ∧
  ∀ k', k' ≠ k → (Get now' k' m').2 = (Get now' k' m).2 ∧ (GetQueryIDs now' k' m').2 = (GetQueryIDs now' k' m).2.
Proof.
  intros Hv m'. unfold m'. rewrite Set_state by done. split_and!.
  - unfold Set_. by destruct (String.eqb_spec v NoneResult).
  - rewrite Get_result, store_set_expiration, isExpired_set, lookup_with_store.
    by rewrite !decide_True.
  - intros k' Hne. rewrite !Get_result, !GetQueryIDs_result, !store_set_expiration, !isExpired_set, !lookup_with_store.
    rewrite !decide_False by done. done.
Qed.

(** A list of ids set in the local cache is read back until its expiry has passed (an empty
    list as a nil one) and is a miss after it; other keys are not affected. *)
Theorem SetQueryIDs_roundtrip now now' k ids ttl m :
  let m' := (SetQueryIDs now k ids ttl m).1 in
  (GetQueryIDs now' k m').2 =
    (if expired_at now ttl now' then Err ErrNotFound
     else Ok (match default [] ids with [] => None | l => Some l end)) ∧
  ∀ k', k' ≠ k → (Get now' k' m').2 = (Get now' k' m).2 ∧ (GetQueryIDs now' k' m').2 = (GetQueryIDs now' k' m).2.
Proof.
  intros m'. unfold m', SetQueryIDs. simpl. split.
  - rewrite GetQueryIDs_result, store_set_expiration, isExpired_set, lookup_with_store.
    rewrite !decide_True by done. by destruct (default [] ids).
  - intros k' Hne. rewrite !Get_result, !GetQueryIDs_result, !store_set_expiration, !isExpired_set, !lookup_with_store.
    rewrite !decide_False by done. done.
Qed.

(** Reading the marker of a known-missing record from the local cache gives an error that
    is neither ErrCacheNoneResult nor ErrNotFound. *)
Theorem GetModel_NoneResult `{GoPlatform} `{Gob} now now' k ttl dest m :
  store m !! k = None → expired_at now ttl now' = false →
  (GetModel now' k dest (Set_ now k NoneResult ttl m).1).2 = Err not_bytes ∧
  errors_Is not_bytes ErrCacheNoneResult = false ∧ errors_Is not_bytes ErrNotFound = false.
Proof.
  intros Hk He. split; [|done].
  assert ((Set_ now k NoneResult ttl m).1 =
          set_expiration now k ttl (with_store (insert k (PString NoneResult)) (incrCounter "SetNoneResult" (incrCounter "Set" m)))) as ->.
  { unfold Set_. simpl. by rewrite Hk. }
  unfold GetModel. simpl. rewrite store_set_expiration, lookup_with_store, decide_True by done.
  match goal with |- context [isExpired now' k (incrCounter _ ?x)] =>
    change (isExpired now' k (incrCounter "GetModel" x)) with (isExpired now' k x) end.
  by rewrite isExpired_set, decide_True, He.
Qed.

(** ** The cleanup tick *)

Lemma foldl_remove keys m k :
  store (foldl (λ m key, remove key m) m keys) !! k = (if decide (k ∈ keys) then None else store m !! k) ∧
  expiryStore (foldl (λ m key, remove key m) m keys) !! k = (if decide (k ∈ keys) then None else expiryStore m !! k).
Proof.
  revert m. induction keys as [|key keys IH]; intros m; cbn [foldl].
  { by rewrite !decide_False by (intros ?%elem_of_nil; done). }
  destruct (IH (remove key m)) as [-> ->].
  change (store (remove key m)) with (delete key (store m)).
  change (expiryStore (remove key m)) with (delete key (expiryStore m)). rewrite !lookup_delete.
  repeat case_decide; subst; set_solver.
Qed.

Lemma elem_expired_keys now m k :
  k ∈ expired_keys now m ↔ isExpired now k m = true.
Proof.
  unfold expired_keys, isExpired. rewrite list_elem_of_fmap. split.
  - intros ([k' t]&->&[Ht Hl]%list_elem_of_filter). apply elem_of_map_to_list in Hl. simpl in *.
    rewrite Hl. by apply Z.ltb_lt.
  - destruct (expiryStore m !! k) as [t|] eqn:E; [|done]. intros Ht%Z.ltb_lt.
    exists (k, t). split; [done|]. apply list_elem_of_filter. split; [done|]. by apply elem_of_map_to_list.
Qed.

Lemma foldl_deregister (m : gmap string payload) keys idx k :
  "" ∉ keys →
  keyToParams (foldl (λ idx key, match m !! key with Some _ => idx | None => DeregisterQuery key idx end) idx keys) !! k =
  if decide (k ∈ keys ∧ m !! k = None) then None else keyToParams idx !! k.
Proof.
  revert idx. induction keys as [|key keys IH]; intros idx Hne; cbn [foldl].
  { by rewrite decide_False by (intros [?%elem_of_nil ?]; done). }
  rewrite IH by set_solver.
  assert (Hone : keyToParams (match m !! key with Some _ => idx | None => DeregisterQuery key idx end) !! k =
                 if decide (k = key ∧ m !! k = None) then None else keyToParams idx !! k).
  { destruct (m !! key) eqn:E.
    - rewrite decide_False; [done|]. intros [-> ?]. congruence.
    - unfold DeregisterQuery. destruct (String.eqb_spec key ""); [set_solver|]. simpl.
      rewrite lookup_delete. repeat case_decide; naive_solver. }
  rewrite Hone. repeat case_decide; set_solver.
Qed.

(** A pass of the cleanup goroutine removes exactly the expired entries and deregisters
    exactly the queries that have no entry left. *)
Theorem cleanup_tick_spec now m idx k :
  keyToParams idx !! "" = None →
  let '(m', idx') := cleanup_tick now m idx in
  store m' !! k = (if isExpired now k m then None else store m !! k) ∧
  isExpired now k m' = false ∧
  keyToParams idx' !! k = (if store m' !! k then keyToParams idx !! k else None).
Proof.
  intros Hnil. unfold cleanup_tick. set (m' := foldl _ m _).
  destruct (foldl_remove (expired_keys now m) m k) as [Hs He]. fold m' in Hs, He.
  assert (Hs' : store m' !! k = if isExpired now k m then None else store m !! k).
  { rewrite Hs. destruct (isExpired now k m) eqn:E.
    - by rewrite decide_True by (by apply elem_expired_keys).
    - rewrite decide_False; [done|]. rewrite elem_expired_keys. congruence. }
  split; [done|]. split.
  - unfold isExpired. rewrite He. case_decide as Hk; [done|].
    destruct (expiryStore m !! k) as [t|] eqn:E; [|done].
    apply not_true_is_false. intros Ht. apply Hk, elem_expired_keys. unfold isExpired. by rewrite E.
  - rewrite foldl_deregister.
    + destruct (store m' !! k) eqn:E; [by rewrite decide_False by naive_solver|].
      clear Hs He Hs'. case_decide as Hd; [done|]. apply eq_None_not_Some. intros [p Hp]. apply Hd. split; [|done].
      unfold GetAllRegisteredKeys. apply list_elem_of_fmap. exists (k, p).
      split; [done|]. by apply elem_of_map_to_list.
    + unfold GetAllRegisteredKeys. intros ([k' p]&Heq&Hp%elem_of_map_to_list)%list_elem_of_fmap.
      simpl in Heq. subst. congruence.
Qed.

(** ** Locks *)

Definition held (m : localCache) (k : string) : Prop := lockPool m !! k = Some true.

Lemma AcquireLock_Ok br k d m m' b :
  AcquireLock br k d m = Some (m', Ok b) →
  (b = true → ¬ held m k ∧ held m' k) ∧ (b = false → ∀ k', held m' k' ↔ held m k') ∧
  ∀ k', k' ≠ k → (held m' k' ↔ held m k').
Proof.
  unfold AcquireLock, getLock, held. simpl. intros Ha.
  destruct (lockPool m !! k) as [h|] eqn:E, br; break; simpl;
    split_and!; intros; simplify_eq; simpl; rewrite ?lookup_insert_eq; try done;
    try (split; [congruence|done]);
    try (rewrite !lookup_insert_ne by done; done);
    try (rewrite lookup_insert; case_decide; subst; naive_solver).
Qed.

Lemma AcquireLock_other br k d m m' r :
  AcquireLock br k d m = Some (m', r) → r ≠ Ok true → ∀ k', held m' k' ↔ held m k'.
Proof.
  unfold AcquireLock, getLock, held. simpl. intros Ha Hr k'.
  destruct (lockPool m !! k) as [h|] eqn:E, br; break; simplify_eq; simpl; try tauto; try congruence;
    rewrite lookup_insert; case_decide; subst; rewrite ?E; naive_solver.
Qed.

Lemma ReleaseLock_held br k m m' r k' :
  ReleaseLock br k m = Some (m', r) → k' ≠ k → held m' k' ↔ held m k'.
Proof.
  unfold ReleaseLock, getLock, held. simpl. intros Ha Hne.
  destruct (lockPool m !! k) as [h|] eqn:E, br; break; simplify_eq; simpl; try tauto;
    rewrite ?lookup_insert_ne by done; done.
Qed.

(** Threads that use the lock the way [WithLock] does: a thread enters the
    critical section of a key when it acquired its lock, and leaves it when it
    has called [ReleaseLock], whatever that returned.  Other operations leave
    the locks alone. *)
Record lock_system := MkSys { sys_cache : localCache; inside : gset (nat * string) }.

Inductive lock_step : lock_system → lock_system → Prop :=
  | ls_enter t k d br m m' hs :
      AcquireLock br k d m = Some (m', Ok true) → lock_step (MkSys m hs) (MkSys m' ({[(t, k)]} ∪ hs))
  | ls_fail k d br m m' r hs :
      AcquireLock br k d m = Some (m', r) → r ≠ Ok true → lock_step (MkSys m hs) (MkSys m' hs)
  | ls_leave t k br m m' r hs :
      (t, k) ∈ hs → ReleaseLock br k m = Some (m', r) → lock_step (MkSys m hs) (MkSys m' (hs ∖ {[(t, k)]}))
  | ls_other m m' hs : lockPool m' = lockPool m → lock_step (MkSys m hs) (MkSys m' hs).

Definition lock_inv (s : lock_system) : Prop :=
  ∀ t k, (t, k) ∈ inside s → held (sys_cache s) k ∧ ∀ t', (t', k) ∈ inside s → t' = t.

Lemma lock_inv_step s s' : lock_step s s' → lock_inv s → lock_inv s'.
Proof.
  intros Hstep Hinv. unfold lock_inv in *.
  destruct Hstep as [t k d br m m' hs Ha|k d br m m' r hs Ha Hr|t k br m m' r hs Hin Hrel|m m' hs Hl]; simpl in *.
  - apply AcquireLock_Ok in Ha as (Ht&_&Hoth). destruct (Ht eq_refl) as [Hfree Hheld].
    intros t0 k0 H0. destruct (decide (k0 = k)) as [->|Hne].
    + assert (Hno : ∀ t1, (t1, k) ∉ hs) by (intros t1 H1; by apply Hinv in H1 as [? _]).
      split; [done|]. intros t1 H1. set_solver.
    + assert (H0' : (t0, k0) ∈ hs) by set_solver. apply Hinv in H0' as [? Hu].
      split; [by apply Hoth|]. intros t1 H1. apply Hu. set_solver.
  - intros t0 k0 [? ?]%Hinv. split; [|done]. by eapply AcquireLock_other.
  - intros t0 k0 [H0 Hne]%elem_of_difference. apply Hinv in H0 as [Hh Hu].
    destruct (decide (k0 = k)) as [->|Hk].
    + destruct Hne. apply Hu in Hin. set_solver.
    + split; [by eapply ReleaseLock_held|]. intros t1 H1. apply Hu. set_solver.
  - intros t0 k0 [Hh Hu]%Hinv. unfold held in *. rewrite Hl. done.
Qed.

(** In every interleaving of threads that acquire and release locks as WithLock does, at
    most one thread is inside the critical section of a key. *)
Theorem lock_mutual_exclusion m s t1 t2 k :
  rtc lock_step (MkSys m ∅) s → (t1, k) ∈ inside s → (t2, k) ∈ inside s → t1 = t2.
Proof.
  intros Hr H1 H2.
  assert (Hinv : lock_inv s).
  { assert (H0 : lock_inv (MkSys m ∅)) by (intros ???; set_solver).
    revert H0. clear H1 H2. induction Hr; eauto using lock_inv_step. }
  apply Hinv in H2 as [_ Hu]. auto.
Qed.

(** A release whose select takes the branch of the ended context keeps the lock held, and
    no later attempt acquires it. *)
Theorem cancelled_release_keeps_lock k m e :
  held m k →
  ∃ m', ReleaseLock (OnCancel e) k m = Some (m', Err e) ∧ held m' k ∧
        ∀ br d m'' r, AcquireLock br k d m' = Some (m'', r) → r ≠ Ok true.
Proof.
  intros Hh. unfold ReleaseLock, getLock. simpl. rewrite Hh.
  eexists. split; [done|]. split; [done|]. intros br d m'' r Ha ->.
  apply AcquireLock_Ok in Ha as (Ht&_). by destruct (Ht eq_refl).
Qed.

(** ** [WithLock] on the local cache *)

Section with_lock.
Context `{GoPlatform} `{Gob} {D : Type}.

(** The environment never ends the context. *)
Definition calm (env : nat → env_step) : Prop :=
  ∀ n, es_wait (env n) = None ∧ ∀ e, es_branch (env n) ≠ OnCancel e.

Lemma local_acquire_held k d e m :
  held m k → (∀ x, es_branch e ≠ OnCancel x) → 0 < d →
  (local_acquire k d e m).2 = Ok false ∧ held (local_acquire k d e m).1 k.
Proof.
  intros Hh Hc Hd. unfold local_acquire, AcquireLock, getLock. simpl. unfold held in *. rewrite Hh.
  assert (0 <? d = true) as -> by lia. destruct (es_branch e) eqn:E; simpl; try done. by destruct (Hc e0).
Qed.

Lemma local_acquire_free k d e m :
  ¬ held m k → (∀ x, es_branch e ≠ OnCancel x) → es_branch e ≠ OnTimeout →
  (local_acquire k d e m).2 = Ok true ∧ held (local_acquire k d e m).1 k.
Proof.
  intros Hh Hc Ht. unfold local_acquire, AcquireLock, getLock, held in *. simpl.
  destruct (lockPool m !! k) as [[]|] eqn:Ek; try done;
    destruct (es_branch e) eqn:E; simpl; try done; try (by destruct (Hc e0)); rewrite lookup_insert_eq; done.
Qed.

Lemma acquire_loop_held n k (c : local_client) :
  held (lc c) k → calm (lc_env c) →
  (acquire_loop n k c).2 = Ok false ∧ held (lc (acquire_loop n k c).1) k ∧
  store (lc (acquire_loop n k c).1) = store (lc c).
Proof.
  revert c. induction n as [|n IH]; intros c Hh Hcalm; [done|].
  destruct (local_acquire_held k LockDuration (env_now c) (lc c)) as [Hr Hh']; [done|apply Hcalm|done|].
  pose proof (store_local_acquire k LockDuration (env_now c) (lc c)) as Hst.
  destruct (local_acquire k LockDuration (env_now c) (lc c)) as [m r] eqn:El. simpl in Hr, Hh', Hst. subst r.
  assert (acquire_loop (S n) k c = acquire_loop n k (MkClient m (lc_env c) (S (S (lc_pos c))))) as ->.
  { cbn [acquire_loop cc_AcquireLock cc_Wait local_CacheClient]. unfold local_op at 1. rewrite El.
    unfold local_op, env_now. simpl. by destruct (Hcalm (S (lc_pos c))) as [-> _]. }
  destruct (IH (MkClient m (lc_env c) (S (S (lc_pos c))))) as (?&?&Hst'); [done..|].
  split; [done|]. split; [done|]. by rewrite Hst'.
Qed.

(** When another thread keeps the lock, WithLock gives up after its retries with
    ErrLockNotAcquired, without running the action and without touching the cache, the index or
    the database. *)
Theorem WithLock_held k action (w : world local_client D) :
  held (lc (w_cache w)) k → calm (lc_env (w_cache w)) →
  ∃ w' e, WithLock k action w = (w', Err e) ∧ errors_Is e ErrLockNotAcquired = true ∧
          store (lc (w_cache w')) = store (lc (w_cache w)) ∧ w_index w' = w_index w ∧ w_db w' = w_db w ∧
          held (lc (w_cache w')) k.
Proof.
  intros Hh Hcalm. unfold WithLock, on_cache.
  destruct (acquire_loop_held LockMaxRetries k (w_cache w) Hh Hcalm) as (Hr&Hh'&Hs).
  destruct (acquire_loop LockMaxRetries k (w_cache w)) as [c r]. simpl in *. subst r.
  eexists _, _. split; [done|]. done.
Qed.

Lemma local_release_spec k e m :
  held m k → (∀ x, es_branch e ≠ OnCancel x) → ¬ held (local_release k e m).1 k.
Proof.
  intros Hh Hc. unfold local_release, ReleaseLock, getLock, held in *. simpl. rewrite Hh.
  destruct (es_branch e) eqn:E; simpl; try (by rewrite lookup_insert_eq); by destruct (Hc e0).
Qed.

(** When the lock is free, WithLock runs the action while it holds the lock, returns the
    action's result, keeps what the action did, and has released the lock if the context was not
    cancelled. *)
Theorem WithLock_free k action (w : world local_client D) :
  ¬ held (lc (w_cache w)) k →
  (∀ e, es_branch (env_now (w_cache w)) ≠ OnCancel e) → es_branch (env_now (w_cache w)) ≠ OnTimeout →
  ∃ w1,
    held (lc (w_cache w1)) k ∧ store (lc (w_cache w1)) = store (lc (w_cache w)) ∧
    w_index w1 = w_index w ∧ w_db w1 = w_db w ∧
    let w2 := (action w1).1 in
    let w' := (WithLock k action w).1 in
    (WithLock k action w).2 = (action w1).2 ∧
    store (lc (w_cache w')) = store (lc (w_cache w2)) ∧ w_index w' = w_index w2 ∧ w_db w' = w_db w2 ∧
    (held (lc (w_cache w2)) k → (∀ e, es_branch (env_now (w_cache w2)) ≠ OnCancel e) →
     ¬ held (lc (w_cache w')) k).
Proof.
  intros Hh Hc Ht.
  destruct (local_acquire_free k LockDuration (env_now (w_cache w)) (lc (w_cache w))) as [Hr Hh']; [done..|].
  pose proof (store_local_acquire k LockDuration (env_now (w_cache w)) (lc (w_cache w))) as Hst.
  destruct (local_acquire k LockDuration (env_now (w_cache w)) (lc (w_cache w))) as [m r] eqn:El.
  simpl in Hr, Hh', Hst. subst r.
  set (w1 := MkWorld (MkClient m (lc_env (w_cache w)) (S (lc_pos (w_cache w)))) (w_index w) (w_db w)).
  exists w1. do 4 (split; [done|]). intros w2 w'.
  assert (Heq : WithLock k action w =
    (MkWorld (cc_ReleaseLock k (w_cache w2)).1 (w_index w2) (w_db w2), (action w1).2)).
  { unfold WithLock, on_cache, LockMaxRetries.
    cbn [acquire_loop cc_AcquireLock local_CacheClient]. unfold local_op at 1. rewrite El.
    fold w1. unfold w2. destruct (action w1) as [w3 r3]. simpl.
    by destruct (local_op (local_release k) (w_cache w3)). }
  unfold w'. rewrite Heq. simpl. rewrite local_op_1. split; [done|]. rewrite store_local_release.
  do 3 (split; [done|]). intros Hheld Hcalm. by apply local_release_spec.
Qed.
End with_lock.

(** ** Models through the cache *)

Lemma flat_map_fmap {A B} (h : A → A) (g g' : A → list B) s :
  (∀ x, g (h x) = g' x) → flat_map g (h <$> s) = flat_map g' s.
Proof.
  intros Hg. induction s as [|x s IH]; [done|]. rewrite fmap_cons. cbn [flat_map]. by rewrite Hg, IH.
Qed.

(** Setting a field leaves the other names alone. *)
Lemma fields_at_set_ne d d' s name name' v :
  name ≠ name' → fields_at d' (set_at d s name v) name' = fields_at d' s name'.
Proof.
  intros Hne. revert d' s. induction d as [|d IH]; intros [|d'] s;
    cbn [fields_at set_at]; apply flat_map_fmap; intros [n x|n fs]; try done; try apply IH;
    destruct (String.eqb_spec n name); simpl; try done; destruct (String.eqb_spec n name'); congruence.
Qed.

(** The values found under a name are plain fields (not embedded structs). *)
Definition plain_value (v : goval) : Prop := ∀ n, typeof v ≠ TOpaque OStruct n.

Lemma fields_at_set_eq d s name v :
  Forall plain_value (fields_at d s name) →
  fields_at d (set_at d s name v) name = (λ _, v) <$> fields_at d s name.
Proof.
  revert s. induction d as [|d IH]; intros s; cbn [fields_at set_at];
    induction s as [|f s IHs]; try done; rewrite fmap_cons; cbn [flat_map];
    intros [Hf Hs]%Forall_app; rewrite fmap_app, IHs by done; f_equal;
    destruct f as [n x|n fs]; try done; try (by apply IH);
    destruct (String.eqb_spec n name) as [->|Hne]; simpl; rewrite ?String.eqb_refl; try done;
    try (by destruct (String.eqb_spec n name)).
  apply Forall_inv in Hf. by destruct (Hf name).
Qed.

Lemma fields_at_set_lower d d' s name v :
  d' ≠ d → fields_at d' s name = [] → fields_at d' (set_at d s name v) name = [].
Proof.
  revert d' s. induction d as [|d IH]; intros [|d'] s Hne; cbn [fields_at set_at]; try done.
  - intros Hs. rewrite (flat_map_fmap _ _ (λ f, match f with
      | FVal _ _ => [] | FEmbed _ fs => fields_at d' fs name end)); [done|].
    intros [n x|]; [|done]. by destruct (n =? name)%string.
  - intros Hs. rewrite (flat_map_fmap _ _ (λ f, match f with
      | FVal n v => if (n =? name)%string then [v] else []
      | FEmbed n _ => if (n =? name)%string then [VOpaque OStruct n false 0] else [] end)); [done|].
    by intros [n x|].
  - induction s as [|f s IHs]; [done|]. rewrite fmap_cons. cbn [flat_map]. intros [Hf Hs]%app_eq_nil.
    rewrite IHs by done. destruct f as [n x|n fs]; [done|]. rewrite IH; [done|congruence|done].
Qed.

Lemma struct_depth_set d s name v : struct_depth (set_at d s name v) = struct_depth s.
Proof.
  unfold struct_depth. revert s. induction d as [|d IH]; intros s; cbn [set_at];
    induction s as [|f s IHs]; try done; rewrite fmap_cons; cbn [map foldr]; rewrite IHs; f_equal;
    destruct f as [n x|n fs]; simpl; try done; [by destruct (n =? name)%string|].
  f_equal. apply IH.
Qed.

Lemma field_search_set ds s name v x :
  plain_value x → NoDup ds → field_search ds s name = Some x →
  field_search ds (set_search ds s name v) name = Some v.
Proof.
  intros Hx. induction ds as [|d ds IH]; intros Hnd; [done|]. cbn [field_search set_search].
  apply NoDup_cons in Hnd as [Hd Hnd].
  destruct (fields_at d s name) as [|y [|z l]] eqn:E; [| |done].
  - intros Hs. specialize (IH Hnd Hs). 
    assert (Hlow : fields_at d (set_search ds s name v) name = []).
    { clear IH Hs Hnd. induction ds as [|d' ds IH]; [done|]. cbn [set_search].
      assert (d ∉ ds ∧ d ≠ d') as [? ?] by set_solver.
      destruct (fields_at d' s name) as [|? [|? ?]]; [by apply IH|by apply fields_at_set_lower|done]. }
    by rewrite Hlow.
  - intros [= ->]. rewrite fields_at_set_eq; rewrite E; [done|]. by constructor.
Qed.

Lemma struct_depth_search ds s name v : struct_depth (set_search ds s name v) = struct_depth s.
Proof.
  induction ds as [|d ds IH]; [done|]. cbn [set_search].
  destruct (fields_at d s name) as [|? [|? ?]]; [done|apply struct_depth_set|done].
Qed.

Lemma FieldByName_set_eq s name v x :
  plain_value x → FieldByName s name = Some x → FieldByName (set_field s name v) name = Some v.
Proof.
  unfold FieldByName, set_field. rewrite struct_depth_search. intros Hx Hs.
  eapply field_search_set; [exact Hx|apply NoDup_ListNoDup, seq_NoDup|done].
Qed.

Lemma FieldByName_set_ne s name name' v :
  name ≠ name' → FieldByName (set_field s name v) name' = FieldByName s name'.
Proof.
  intros Hne. unfold FieldByName, set_field. rewrite struct_depth_search.
  assert (Hat : ∀ d ds, fields_at d (set_search ds s name v) name' = fields_at d s name').
  { intros d ds. induction ds as [|d' ds IH]; [done|]. cbn [set_search].
    destruct (fields_at d' s name) as [|? [|? ?]]; [done|by apply fields_at_set_ne|done]. }
  set (ds0 := seq 0 (S (struct_depth s))). generalize ds0 at 1 3.
  intros ds. induction ds as [|d ds IH]; [done|]. cbn [field_search]. by rewrite Hat, IH.
Qed.

Section model_cache.
Context `{GoPlatform} `{Gob}.

Lemma populate_spec entries dest :
  NoDup entries.*1 →
  (∀ k o, (k, o) ∈ entries → exported k = true ∧ ∃ v old, o = Some v ∧ FieldByName dest k = Some old ∧
                             typeof old = typeof v ∧ plain_value old) →
  ∃ dest', populate entries dest = Ok dest' ∧
    (∀ k v, (k, Some v) ∈ entries → FieldByName dest' k = Some v) ∧
    (∀ n, n ∉ entries.*1 → FieldByName dest' n = FieldByName dest n).
Proof.
  revert dest. induction entries as [|[k o] entries IH]; intros dest Hnd Hall; cbn [populate].
  { exists dest. split; [done|]. split; [by intros ?? ?%elem_of_nil|done]. }
  rewrite fmap_cons in *. apply NoDup_cons in Hnd as [Hk Hnd].
  destruct (Hall k o) as (He&v&old&->&Hf&Ht&Hp); [by left|].
  rewrite Hf, He. unfold value_for_field. rewrite bool_decide_true by done.
  destruct (IH (set_field dest k v) Hnd) as (dest'&Hpop&Hin&Hout).
  - intros k' o' Hin. destruct (Hall k' o') as (He'&v'&old'&->&Hf'&Ht'&Hp'); [by right|].
    split; [done|]. exists v', old'. split; [done|]. rewrite FieldByName_set_ne; [done|].
    intros <-. apply Hk. by apply (list_elem_of_fmap_2 fst) in Hin.
  - exists dest'. split; [done|]. split.
    + intros k' v' [Heq|Hk']%elem_of_cons; [|by apply Hin]. injection Heq as -> ->.
      rewrite Hout by done. by eapply FieldByName_set_eq.
    + intros n Hn. rewrite Hout by set_solver. apply FieldByName_set_ne. set_solver.
Qed.

(** A field value that comes back from gob with its type. *)
Definition gob_keeps (v v' : goval) : Prop :=
  value_Interface v = Some v ∧ plain_value v ∧ gob_iface v = Some v' ∧ typeof v' = typeof v.

Lemma model_data_lookup model fields f o :
  model_data model fields !! f = Some o →
  f ∈ fields ∧ exported f = true ∧ ∃ v, FieldByName model f = Some v ∧ o = value_Interface v.
Proof.
  intros Hl%elem_of_list_to_map_2. apply list_elem_of_omap in Hl as (g&Hg&He).
  apply list_elem_of_In, in_rev, list_elem_of_In in Hg.
  destruct (exported g) eqn:Ex; [|done]. destruct (FieldByName model g) as [v|] eqn:Ef; simplify_eq/=. eauto.
Qed.

Lemma model_data_Some model fields f v :
  f ∈ fields → exported f = true → FieldByName model f = Some v →
  model_data model fields !! f = Some (value_Interface v).
Proof.
  intros Hf He Hv.
  destruct (model_data model fields !! f) as [o|] eqn:E.
  { apply model_data_lookup in E as (_&_&v'&Hv'&->). congruence. }
  apply not_elem_of_list_to_map in E. destruct E. apply list_elem_of_fmap.
  exists (f, value_Interface v). split; [done|]. apply list_elem_of_omap. exists f.
  rewrite He, Hv. split; [|done].
  apply list_elem_of_In, in_rev. rewrite rev_involutive. by apply list_elem_of_In.
Qed.

(** Every cached field can be encoded. *)
Lemma gob_map_model model fields :
  (∀ f, f ∈ fields → ∃ v v', FieldByName model f = Some v ∧ gob_keeps v v') →
  gob_map (model_data model fields) = Some ((λ o : option goval, o ≫= gob_iface) <$> model_data model fields).
Proof.
  intros Hall. unfold gob_map.
  assert (forallb _ (map_to_list (model_data model fields)) = true) as ->; [|done].
  apply forallb_forall. intros [f o] Hin%list_elem_of_In%elem_of_map_to_list.
  apply model_data_lookup in Hin as (Hf&_&v&Hv&->). destruct (Hall f Hf) as (w&v'&Hw&Hi&_&Hg&_).
  simpl. assert (v = w) as -> by congruence. rewrite Hi, Hg. by apply bool_decide_true.
Qed.

Lemma SetModel_GetModel_lemma now now' key model dest fields ttl m :
  (∀ f, f ∈ fields → exported f = true ∧ ∃ v v' old,
      FieldByName model f = Some v ∧ gob_keeps v v' ∧
      FieldByName dest f = Some old ∧ typeof old = typeof v) →
  expired_at now ttl now' = false →
  let m' := (SetModel now key model fields ttl m).1 in
  (SetModel now key model fields ttl m).2 = Ok () ∧
  ∃ dest', (GetModel now' key dest m').2 = Ok dest' ∧
    (∀ f, f ∈ fields → FieldByName dest' f = FieldByName model f ≫= gob_iface) ∧
    (∀ n, n ∉ fields → FieldByName dest' n = FieldByName dest n).
Proof.
  intros Hall Hexp m'.
  assert (Hgob : gob_map (model_data model fields) = Some ((λ o : option goval, o ≫= gob_iface) <$> model_data model fields)).
  { apply gob_map_model. intros f Hf. destruct (Hall f Hf) as (_&v&v'&_&?&?&_). eauto. }
  unfold m', SetModel. rewrite Hgob. simpl. split; [done|].
  set (data := (λ o : option goval, o ≫= gob_iface) <$> model_data model fields) in *.
  assert (Hlook : ∀ f o, data !! f = Some o → f ∈ fields ∧ o = FieldByName model f ≫= gob_iface).
  { intros f o. unfold data. rewrite lookup_fmap. intros (o'&Ho&->)%fmap_Some.
    apply model_data_lookup in Ho as (Hf&_&v&Hv&->). split; [done|]. rewrite Hv. simpl.
    destruct (Hall f Hf) as (_&w&v'&_&Hw&[Hi _]&_). assert (v = w) as -> by congruence. by rewrite Hi. }
  destruct (populate_spec (map_to_list data) dest) as (dest'&Hpop&Hin&Hout).
  { apply NoDup_fst_map_to_list. }
  { intros f o Hfo%elem_of_map_to_list%Hlook. destruct Hfo as [Hf ->].
    destruct (Hall f Hf) as (He&v&v'&old&Hv&(Hi&Hp&Hg&Ht)&Ho&Hto). split; [done|].
    exists v', old. rewrite Hv. split_and!; [done|done|congruence|]. intros n. rewrite Hto. apply Hp. }
  exists dest'. split; [|split].
  - unfold GetModel. simpl. rewrite store_set_expiration, lookup_with_store, decide_True by done.
    match goal with |- context [isExpired now' key (incrCounter _ ?x)] =>
      change (isExpired now' key (incrCounter "GetModel" x)) with (isExpired now' key x) end.
    rewrite isExpired_set, decide_True, Hexp, Hgob by done. by rewrite Hpop.
  - intros f Hf. destruct (Hall f Hf) as (He&v&v'&old&Hv&(Hi&Hp&Hg&Ht)&Ho&Hto). rewrite Hv. simpl. rewrite Hg.
    apply Hin, elem_of_map_to_list. unfold data. rewrite lookup_fmap, (model_data_Some _ _ _ v) by done.
    simpl. by rewrite Hi; simpl; rewrite Hg.
  - intros n Hn. apply Hout. intros ([f o]&->&Hfo%elem_of_map_to_list%Hlook)%list_elem_of_fmap. naive_solver.
Qed.

(** A model stored in the local cache and read before it expires comes back with each
    cached field as gob decodes it, and the other fields of the destination unchanged. *)
Theorem SetModel_GetModel now now' key model dest fields ttl m :
  (∀ f, f ∈ fields → exported f = true ∧ ∃ v v' old,
      FieldByName model f = Some v ∧ gob_keeps v v' ∧
      FieldByName dest f = Some old ∧ typeof old = typeof v) →
  expired_at now ttl now' = false →
  let m' := (SetModel now key model fields ttl m).1 in
  (SetModel now key model fields ttl m).2 = Ok () ∧
  ∃ dest', (GetModel now' key dest m').2 = Ok dest' ∧
    (∀ f, f ∈ fields → FieldByName dest' f = FieldByName model f ≫= gob_iface) ∧
    (∀ n, n ∉ fields → FieldByName dest' n = FieldByName dest n).
Proof. apply SetModel_GetModel_lemma. Qed.
End model_cache.
