(* ===== verification/RedisCache.v ===== *)
(** * The Redis cache client (drivers/cache/redis/client.go)

    The client of the Redis driver: every operation of [CacheClient] as the
    commands it sends and what it makes of their replies.  The go-redis library
    and the server behind it are a parameter, the class [RedisServer]: a
    command takes the state of the server and returns the new one with a reply;
    the time between two commands is part of the next one.  The gob encoding of
    a value is a string of bytes here, since the server stores nothing else;
    encoder and decoder are the class [GobCodec].  The structs a decoded map is
    copied to are those of the local cache ([populate]): the two drivers have
    the same loop. *)

From S2P Require Import Prelude GoStrings GoValues Predicate CacheIndex LocalCache CacheClient.

Open Scope string_scope.
Open Scope Z_scope.

(** ** The library *)

(** [err == redislib.Nil], no error, or another error. *)
Inductive reply (A : Type) :=
  | RNil
  | ROk (a : A)
  | RErr (e : goerr).
Arguments RNil {A}.
Arguments ROk {A} a.
Arguments RErr {A} e.

(** An element of the [[]interface{}] of [MGET]. *)
Inductive mget_value :=
  | MNil
  | MString (s : string)
  | MBytes (s : string)
  | MOther.

(** What [NewClient] is told about a server. *)
Record Options := MkRedisOptions { Addr : string; Password : string; DB : Z }.

Class RedisServer (R : Type) := {
  r_NewClient : Options → R;
  r_Ping : R → R * option goerr;
  r_Close : R → R * option goerr;
  r_Get : string → R → R * reply string;
  r_MGet : list string → R → R * (list mget_value + goerr);
  r_Set : string → string → Z → R → R * option goerr;
  r_SetNX : string → string → Z → R → R * (bool + goerr);
  r_Del : list string → R → R * reply Z;
  r_Incr : string → R → R * (Z + goerr);
  r_Expire : string → Z → R → R * (bool + goerr);
  r_Scan : Z → string → Z → R → R * (list string * Z + goerr);
  (* the [select] of [WithLock]: the delay, or the end of the context *)
  r_Wait : R → R * option goerr
}.

(** [encoding/gob] over bytes: a map, a list of ids, or a struct ([dest] is the
    struct decoded into). *)
Class GobCodec := {
  enc_map : gmap string (option goval) → option string;
  enc_ids : list Z → string;
  dec_map : string → option (gmap string (option goval));
  dec_ids : string → option (option (list Z));
  dec_struct : string → gostruct → option gostruct
}.

(** ** The client *)

Record redis_client (R : Type) := MkRedis {
  redisClient : R;
  redis_counters : gmap string Z;
  createdInternally : bool
}.
Arguments MkRedis {R} _ _ _.
Arguments redisClient {R} _.
Arguments redis_counters {R} _.
Arguments createdInternally {R} _.

Section client.
Context {R : Type} `{RedisServer R}.
Implicit Types c : redis_client R.

Definition incrementCounter (name : string) c : redis_client R :=
  MkRedis (redisClient c)
    (<[name := wrap_int WInt (default 0 (redis_counters c !! name) + 1)]> (redis_counters c))
    (createdInternally c).

Definition redis_GetCacheStats c : gmap string Z := redis_counters c.

(** One command of the library. *)
Definition command {A} (f : R → R * A) c : redis_client R * A :=
  let '(r, a) := f (redisClient c) in (MkRedis r (redis_counters c) (createdInternally c), a).

Definition redis_NewClient (redisCli : option R) (opts : option Options) : result (redis_client R) :=
  match redisCli with
  | Some rdb => Ok (MkRedis rdb ∅ false)
  | None =>
      let '(rdb, err) := r_Ping (r_NewClient (default (MkRedisOptions "" "" 0) opts)) in
      match err with
      | Some e => Err (ErrWrap "failed to ping redis" e)
      | None => Ok (MkRedis rdb ∅ true)
      end
  end.

Definition redis_Close c : redis_client R * result unit :=
  if createdInternally c then
    let '(c, err) := command r_Close c in
    (c, match err with Some e => Err e | None => Ok () end)
  else (c, Ok ()).

(** *** Strings *)

Definition redis_Get (key : string) c : redis_client R * result string :=
  let c := incrementCounter "Get" c in
  let '(c, rep) := command (r_Get key) c in
  match rep with
  | RNil => (incrementCounter "GetMiss" c, Err ErrNotFound)
  | RErr e => (incrementCounter "GetError" c, Err (ErrWrap "redis Get error for key" e))
  | ROk val => (incrementCounter "GetHit" c, Ok val)
  end.

(** The error of [SET], if any. *)
Definition set_bytes (msg key value : string) (expiration : Z) c : redis_client R * result unit :=
  let '(c, err) := command (r_Set key value expiration) c in
  (c, match err with Some e => Err (ErrWrap msg e) | None => Ok () end).

Definition redis_Set (key value : string) (expiration : Z) c : redis_client R * result unit :=
  set_bytes "redis Set error for key" key value expiration (incrementCounter "Set" c).

(** The error of [DEL] on some keys, if any; [redislib.Nil] is none. *)
Definition del_keys (msg : string) (keys : list string) c : redis_client R * result unit :=
  let '(c, rep) := command (r_Del keys) c in
  (c, match rep with RErr e => Err (ErrWrap msg e) | _ => Ok () end).

Definition redis_Delete (key : string) c : redis_client R * result unit :=
  del_keys "redis Del error for key" [key] (incrementCounter "Delete" c).

(** *** Models *)

(** Bytes read into a struct: as a map of fields, otherwise as the struct
    itself.  [dest] is a non-nil pointer to a struct, as at every call. *)
Definition decode_model `{GoPlatform} `{GobCodec} (val : string) (dest : gostruct) : result gostruct :=
  match dec_map val with
  | Some dataMap => populate (map_to_list dataMap) dest
  | None =>
      match dec_struct val dest with
      | Some dest => Ok dest
      | None => Err (ErrWrap "redis Gob Unmarshal error for key" (ErrMsg "gob"))
      end
  end.

Definition redis_GetModel `{GoPlatform} `{GobCodec} (key : string) (dest : gostruct) c
    : redis_client R * result gostruct :=
  let c := incrementCounter "GetModel" c in
  let '(c, rep) := command (r_Get key) c in
  match rep with
  | RNil => (incrementCounter "GetModelMiss" c, Err ErrNotFound)
  | RErr e => (incrementCounter "GetModelError" c, Err (ErrWrap "redis Get error for key" e))
  | ROk val => (incrementCounter "GetModelHit" c, decode_model val dest)
  end.

(** The loop over the replies: a missing reply leaves the nil error the slice
    was made with, a surplus one is out of its range.  A panic ends the call,
    and is the outcome of every element left. *)
Fixpoint mget_loop `{GoPlatform} `{GobCodec} (vals : list mget_value) (keys : list (string * gostruct)) c
    : redis_client R * list (result gostruct) :=
  match vals, keys with
  | [], _ => (c, (λ kd, Ok kd.2) <$> keys)
  | _ :: _, [] => (c, [Panic "index out of range"])
  | val :: vals, (_, dest) :: keys =>
      let '(c, r) :=
        match val with
        | MNil => (incrementCounter "GetModelMiss" c, Err ErrNotFound)
        | MOther => (incrementCounter "GetModelError" c, Err (ErrMsg "redis MGet: unexpected type"))
        | MString b | MBytes b => (incrementCounter "GetModelHit" c, decode_model b dest)
        end in
      match r with
      | Panic m => (c, Panic m :: ((λ _, Panic m) <$> keys))
      | r => let '(c, rs) := mget_loop vals keys c in (c, r :: rs)
      end
  end.

Definition redis_MGetModel `{GoPlatform} `{GobCodec} (keys : list (string * gostruct)) c
    : redis_client R * list (result gostruct) :=
  let c := incrementCounter "MGetModel" c in
  match keys with
  | [] => (c, [])
  | _ =>
      let '(c, r) := command (r_MGet keys.*1) c in
      match r with
      | inr e => (incrementCounter "MGetModelError" c, (λ _, Err (ErrWrap "redis MGet error" e)) <$> keys)
      | inl vals => mget_loop vals keys c
      end
  end.

Definition redis_SetModel `{GobCodec} (key : string) (model : gostruct) (fieldsToCache : list string)
    (expiration : Z) c : redis_client R * result unit :=
  let c := incrementCounter "SetModel" c in
  match enc_map (model_data model fieldsToCache) with
  | None => (c, Err (ErrWrap "redis Gob map encode error for key" (ErrMsg "gob")))
  | Some buf => set_bytes "redis Set error for key" key buf expiration c
  end.

Definition redis_DeleteModel (key : string) c : redis_client R * result unit :=
  del_keys "redis Del error for key" [key] (incrementCounter "DeleteModel" c).

(** *** Lists of ids *)

Definition redis_GetQueryIDs `{GobCodec} (queryKey : string) c
    : redis_client R * result (option (list Z)) :=
  let c := incrementCounter "GetQueryIDs" c in
  let '(c, rep) := command (r_Get queryKey) c in
  match rep with
  | RNil => (incrementCounter "GetQueryIDsMiss" c, Err ErrNotFound)
  | RErr e => (incrementCounter "GetQueryIDsError" c, Err (ErrWrap "redis Get error for query key" e))
  | ROk val =>
      (incrementCounter "GetQueryIDsHit" c,
       match dec_ids val with
       | Some ids => Ok ids
       | None => Err (ErrWrap "redis Gob Unmarshal error for query key" (ErrMsg "gob"))
       end)
  end.

Definition redis_SetQueryIDs `{GobCodec} (queryKey : string) (ids : option (list Z)) (expiration : Z) c
    : redis_client R * result unit :=
  set_bytes "redis Set error for query key" queryKey (enc_ids (default [] ids)) expiration
    (incrementCounter "SetQueryIDs" c).

Definition redis_DeleteQueryIDs (queryKey : string) c : redis_client R * result unit :=
  del_keys "redis Del error for query key" [queryKey] (incrementCounter "DeleteQueryIDs" c).

(** *** Locks and counters *)

Definition lockValue : string := "1".

Definition redis_AcquireLock (lockKey : string) (expiration : Z) c : redis_client R * result bool :=
  let c := incrementCounter "AcquireLock" c in
  let '(c, r) := command (r_SetNX lockKey lockValue expiration) c in
  (c, match r with
      | inr e => Err (ErrWrap "redis SetNX error for lock key" e)
      | inl acquired => Ok acquired
      end).

Definition redis_ReleaseLock (lockKey : string) c : redis_client R * result unit :=
  del_keys "redis Del error for lock key" [lockKey] (incrementCounter "ReleaseLock" c).

Definition redis_Incr (key : string) c : redis_client R * result Z :=
  let c := incrementCounter "Incr" c in
  let '(c, r) := command (r_Incr key) c in
  (c, match r with inr e => Err (ErrWrap "redis Incr error for key" e) | inl val => Ok val end).

(** A key that does not exist is only logged. *)
Definition redis_Expire (key : string) (expiration : Z) c : redis_client R * result unit :=
  let c := incrementCounter "Expire" c in
  let '(c, r) := command (r_Expire key expiration) c in
  (c, match r with inr e => Err (ErrWrap "redis Expire error for key" e) | inl _ => Ok () end).

(** *** [DeleteByPrefix] *)

Definition scanCount : Z := 100.

(** The [SCAN] loop, for at most [fuel] commands; [None]: it has not ended. *)
Fixpoint prefix_scan (fuel : nat) (cursor : Z) (matchPattern : string) (keysToDelete : list string) c
    : redis_client R * option (result (list string)) :=
  match fuel with
  | O => (c, None)
  | S fuel =>
      let '(c, r) := command (r_Scan cursor matchPattern scanCount) c in
      match r with
      | inr e => (c, Some (Err (ErrWrap "redis SCAN error for prefix" e)))
      | inl (keys, cursor) =>
          let keysToDelete := (keysToDelete ++ keys)%list in
          if cursor =? 0 then (c, Some (Ok keysToDelete))
          else prefix_scan fuel cursor matchPattern keysToDelete c
      end
  end.

Definition redis_DeleteByPrefix (fuel : nat) (prefix : string) c
    : redis_client R * option (result unit) :=
  let c := incrementCounter "DeleteByPrefix" c in
  let '(c, r) := prefix_scan fuel 0 (prefix +:+ "*") [] c in
  match r with
  | None => (c, None)
  | Some (Ok []) => (c, Some (Ok ()))
  | Some (Ok keysToDelete) =>
      let '(c, r) := del_keys "redis DEL error for prefix" keysToDelete c in (c, Some r)
  | Some (Err e) => (c, Some (Err e))
  | Some (Panic m) => (c, Some (Panic m))
  end.

(** ** The client as a cache client *)

#[export] Instance redis_CacheClient `{GoPlatform} `{GobCodec} : CacheClient (redis_client R) := {
  cc_Get := redis_Get;
  cc_Set := redis_Set;
  cc_Delete := redis_Delete;
  cc_GetModel := redis_GetModel;
  cc_SetModel := redis_SetModel;
  cc_DeleteModel := redis_DeleteModel;
  cc_MGetModel := redis_MGetModel;
  cc_GetQueryIDs := redis_GetQueryIDs;
  cc_SetQueryIDs := redis_SetQueryIDs;
  cc_DeleteQueryIDs := redis_DeleteQueryIDs;
  cc_AcquireLock := redis_AcquireLock;
  cc_ReleaseLock := redis_ReleaseLock;
  cc_Wait := command r_Wait
}.
End client.
