(* ===== verification/RedisFacts.v ===== *)
(** * Facts about the Redis cache client

    The behaviour of the server the client relies on ([RedisLaws]: what each
    command does to the keys, and when a key expires) and of gob
    ([GobCodecLaws]); the laws of [CacheClient] for the Redis client, so that
    every theorem about an arbitrary cache client holds of it; round trips;
    the locks, with the lease that bounds them; [DeleteByPrefix]. *)

From S2P Require Import Prelude GoStrings GoStringsFacts GoValues Predicate CacheIndex LocalCache CacheClient RedisCache.

Open Scope string_scope.
Open Scope Z_scope.

(** ** The server *)

(** [rd_val r k] is the value of a key that exists and has not expired,
    [rd_deadline r k] the time at which it expires, [rd_clock] the time.  [aged]:
    the key is as it was, or it has expired since. *)
Section aging.
Context {R : Type} (val : R → string → option string) (deadline : R → string → option Z) (clock : R → Z).

Definition expired_by (r r' : R) (k : string) : Prop :=
  ∃ t, deadline r k = Some t ∧ t ≤ clock r'.
Definition aged (r r' : R) (k : string) : Prop :=
  (val r' k = val r k ∧ deadline r' k = deadline r k) ∨ (val r' k = None ∧ expired_by r r' k).
(** The key was written with an expiry of [ttl] (none when it is not positive)
    between the two states. *)
Definition written (r r' : R) (k v : string) (ttl : Z) : Prop :=
  val r' k = Some v ∧
  if 0 <? ttl then ∃ t, deadline r' k = Some t ∧ clock r + ttl ≤ t ≤ clock r' + ttl
  else deadline r' k = None.
End aging.

Definition no_sentinel (e : goerr) : Prop := errors_Is e ErrNotFound = false.

Definition mget_agrees (o : option string) (v : mget_value) : Prop :=
  match v with
  | MNil => o = None
  | MString s | MBytes s => o = Some s
  | MOther => True
  end.

(** What the commands do, from the documentation of Redis; a command whose
    reply was lost may or may not have been executed. *)
Class RedisLaws (R : Type) `{RedisServer R} := {
  rd_val : R → string → option string;
  rd_deadline : R → string → option Z;
  rd_clock : R → Z;
  rd_unexpired r k t : is_Some (rd_val r k) → rd_deadline r k = Some t → rd_clock r < t;
  rd_Get r k : let '(r', rep) := r_Get k r in
    rd_clock r ≤ rd_clock r' ∧ (∀ k', aged rd_val rd_deadline rd_clock r r' k') ∧
    match rep with
    | RNil => rd_val r' k = None
    | ROk v => rd_val r' k = Some v
    | RErr e => no_sentinel e
    end;
  rd_MGet r ks : let '(r', rep) := r_MGet ks r in
    rd_clock r ≤ rd_clock r' ∧ (∀ k', aged rd_val rd_deadline rd_clock r r' k') ∧
    match rep with
    | inl vs => Forall2 (λ k v, mget_agrees (rd_val r' k) v) ks vs
    | inr e => no_sentinel e
    end;
  rd_Set r k v ttl : let '(r', rep) := r_Set k v ttl r in
    rd_clock r ≤ rd_clock r' ∧ (∀ k', k' ≠ k → aged rd_val rd_deadline rd_clock r r' k') ∧
    match rep with
    | None => written rd_val rd_deadline rd_clock r r' k v ttl
    | Some e => no_sentinel e ∧ (aged rd_val rd_deadline rd_clock r r' k ∨
                                 written rd_val rd_deadline rd_clock r r' k v ttl)
    end;
  rd_SetNX r k v ttl : let '(r', rep) := r_SetNX k v ttl r in
    rd_clock r ≤ rd_clock r' ∧ (∀ k', k' ≠ k → aged rd_val rd_deadline rd_clock r r' k') ∧
    let taken := (rd_val r k = None ∨ expired_by rd_deadline rd_clock r r' k) ∧
                 written rd_val rd_deadline rd_clock r r' k v ttl in
    match rep with
    | inl true => taken
    | inl false => is_Some (rd_val r' k) ∧ aged rd_val rd_deadline rd_clock r r' k
    | inr _ => aged rd_val rd_deadline rd_clock r r' k ∨ taken
    end;
  rd_Del r ks : let '(r', rep) := r_Del ks r in
    rd_clock r ≤ rd_clock r' ∧ (∀ k', k' ∉ ks → aged rd_val rd_deadline rd_clock r r' k') ∧
    match rep with
    | RErr e => no_sentinel e ∧
        ∀ k', k' ∈ ks → aged rd_val rd_deadline rd_clock r r' k' ∨ rd_val r' k' = None
    | _ => ∀ k', k' ∈ ks → rd_val r' k' = None
    end;
  rd_Wait r : let '(r', _) := r_Wait r in
    rd_clock r ≤ rd_clock r' ∧ ∀ k', aged rd_val rd_deadline rd_clock r r' k'
}.

(** Gob over bytes agrees with gob over values, and distinguishes lists from
    maps. *)
Class GobCodecLaws `{Gob} `{GobCodec} := {
  codec_map m b : enc_map m = Some b → dec_map b = gob_map m ∧ is_Some (gob_map m);
  codec_ids ids : dec_ids (enc_ids ids) = Some (match ids with [] => None | _ => Some ids end);
  codec_ids_map ids : dec_map (enc_ids ids) = None;
  codec_ids_struct ids dest : dec_struct (enc_ids ids) dest = None;
  codec_map_ids m b : enc_map m = Some b → dec_ids b = None
}.

(** ** The laws of a cache client *)

Section laws.
Context {R : Type} `{RedisLaws R} `{GoPlatform} `{GobCodec}.
Implicit Types (c : redis_client R) (r : R).

Notation aged := (aged rd_val rd_deadline rd_clock).
Notation written := (written rd_val rd_deadline rd_clock).

Definition rlive c (k : string) : Prop := is_Some (rd_val (redisClient c) k).

Lemma aged_live r r' k : aged r r' k → is_Some (rd_val r' k) → is_Some (rd_val r k).
Proof. intros [[-> _]|[-> _]]; [done|by intros ?%is_Some_None]. Qed.

Lemma aged_value r r' k v : aged r r' k → rd_val r' k = Some v → rd_val r k = Some v.
Proof. by intros [[-> _]|[-> _]]. Qed.

Lemma command_server {A} (f : R → R * A) c :
  redisClient (command f c).1 = (f (redisClient c)).1 ∧ (command f c).2 = (f (redisClient c)).2.
Proof. unfold command. by destruct (f _). Qed.

(** What a read of a key, in any of its forms, does. *)
Lemma Get_command k c c' rep :
  command (r_Get k) c = (c', rep) →
  (∀ k', rlive c' k' → rlive c k') ∧
  match rep with
  | RNil => ¬ rlive c' k
  | ROk v => rd_val (redisClient c') k = Some v ∧ rd_val (redisClient c) k = Some v
  | RErr e => no_sentinel e
  end.
Proof.
  unfold command. pose proof (rd_Get (redisClient c) k) as Hl. destruct (r_Get k _) as [r' rep'].
  destruct Hl as (_&Ha&Hr). intros [= <- <-]. unfold rlive; simpl. split.
  - intros k'. apply aged_live, Ha.
  - destruct rep'; [by rewrite Hr; intros ?%is_Some_None| |done]. eauto using aged_value.
Qed.

Lemma set_bytes_live msg k v ttl c k' : rlive (set_bytes msg k v ttl c).1 k' → k' = k ∨ rlive c k'.
Proof.
  unfold set_bytes, command. pose proof (rd_Set (redisClient c) k v ttl) as Hl.
  destruct (r_Set k v ttl _) as [r' err]. destruct Hl as (_&Ha&_). unfold rlive; simpl. intros Hk.
  destruct (decide (k' = k)); [by left|right]. by eapply aged_live; [apply Ha|].
Qed.

Lemma del_keys_live msg ks c k' :
  rlive (del_keys msg ks c).1 k' → rlive c k' ∧ ((del_keys msg ks c).2 = Ok () → k' ∉ ks).
Proof.
  unfold del_keys, command. pose proof (rd_Del (redisClient c) ks) as Hl.
  destruct (r_Del ks _) as [r' rep]. destruct Hl as (_&Ha&Hr). unfold rlive; simpl. intros Hk.
  assert (Hn : rd_val r' k' ≠ None) by (by apply not_eq_None_Some).
  destruct (decide (k' ∈ ks)) as [Hin|Hni].
  - destruct rep as [| |e]; [by destruct Hn; apply Hr..|]. destruct Hr as [_ Hr].
    split; [|done]. destruct (Hr _ Hin); [by eapply aged_live|done].
  - split; [|done]. by eapply aged_live; [apply Ha|].
Qed.

Lemma del_keys_error msg ks c e :
  (del_keys msg ks c).2 = Err e → errors_Is e ErrNotFound = false.
Proof.
  unfold del_keys, command. pose proof (rd_Del (redisClient c) ks) as Hl.
  destruct (r_Del ks _) as [r' rep]. destruct Hl as (_&_&Hr). destruct rep as [| |e']; simpl; [done..|].
  intros [= <-]. apply Hr.
Qed.

Lemma rlive_incr n c k : rlive (incrementCounter n c) k ↔ rlive c k.
Proof. done. Qed.

Lemma mget_loop_server vals keys c : redisClient (mget_loop vals keys c).1 = redisClient c.
Proof.
  revert keys c. induction vals as [|v vals IH]; intros [|[k dest] keys] c; [done..|]. cbn [mget_loop].
  set (x := match v with MNil => _ | _ => _ end).
  assert (Hx : redisClient x.1 = redisClient c) by (unfold x; by destruct v). clearbody x.
  destruct x as [c1 o]. simpl in Hx. pose proof (IH keys c1) as IH1.
  destruct (mget_loop vals keys c1) as [c2 rs]. destruct o; simpl in *; congruence.
Qed.

Lemma redis_MGetModel_live ks c k' : rlive (redis_MGetModel ks c).1 k' → rlive c k'.
Proof.
  unfold redis_MGetModel. destruct ks as [|kd ks]; [done|].
  pose proof (rd_MGet (redisClient c) (kd :: ks).*1) as Hl. unfold command. simpl redisClient.
  destruct (r_MGet _ _) as [r' rep]. destruct Hl as (_&Ha&_). unfold rlive.
  destruct rep; [rewrite mget_loop_server|]; simpl; apply aged_live, Ha.
Qed.

Lemma redis_SetModel_live k m fs ttl c k' : rlive (redis_SetModel k m fs ttl c).1 k' → k' = k ∨ rlive c k'.
Proof.
  unfold redis_SetModel. destruct (enc_map _); [|by right].
  intros Hl%set_bytes_live. exact Hl.
Qed.

Lemma redis_AcquireLock_live k d c k' : rlive (redis_AcquireLock k d c).1 k' → k' = k ∨ rlive c k'.
Proof.
  unfold redis_AcquireLock, command. pose proof (rd_SetNX (redisClient c) k lockValue d) as Hl.
  simpl redisClient. destruct (r_SetNX _ _ _ _) as [r' rep]. destruct Hl as (_&Ha&_). unfold rlive; simpl.
  intros Hk. destruct (decide (k' = k)); [by left|right]. by eapply aged_live; [apply Ha|].
Qed.


#[export] Instance redis_CacheLaws : CacheLaws (redis_client R).
Proof.
  refine {| live := rlive |}; simpl; intros *.
  - intros Hm. unfold redis_Get. destruct (command _ _) as [c1 rep] eqn:E.
    apply Get_command in E as [_ Hr]. destruct rep; simpl; [done| |done].
    intros [= <-]. destruct Hm. unfold rlive. destruct Hr as [_ Hr]. simpl in Hr. by rewrite Hr.
  - intros Hm. unfold redis_GetQueryIDs. destruct (command _ _) as [c1 rep] eqn:E.
    apply Get_command in E as [_ Hr]. destruct rep; simpl; [done| |done]. intros _.
    destruct Hm. unfold rlive. destruct Hr as [_ Hr]. simpl in Hr. by rewrite Hr.
  - intros [? Hn]%del_keys_live. split; [done|]. intros ?%Hn. set_solver.
  - intros He. apply del_keys_error in He. congruence.
  - unfold redis_Delete, del_keys. destruct (command _ _) as [? []]; done.
  - unfold redis_Get. destruct (command _ _) as [c1 rep] eqn:E. apply Get_command in E as [Hl _].
    destruct rep; apply Hl.
  - unfold redis_GetQueryIDs. destruct (command _ _) as [c1 rep] eqn:E. apply Get_command in E as [Hl _].
    destruct rep; apply Hl.
  - unfold redis_GetQueryIDs. destruct (command _ _) as [c1 rep] eqn:E. apply Get_command in E as [_ Hr].
    destruct rep; simpl; [done| |].
    + destruct (dec_ids a); [done|]. by intros [= <-].
    + intros [= <-]. simpl. rewrite Hr. done.
  - intros Hl%set_bytes_live. exact Hl.
  - apply redis_SetModel_live.
  - intros Hl%set_bytes_live. exact Hl.
  - apply redis_MGetModel_live.
  - apply redis_AcquireLock_live.
  - by intros [? _]%del_keys_live.
  - unfold command. pose proof (rd_Wait (redisClient c)) as Hl. destruct (r_Wait _) as [r' o].
    destruct Hl as [_ Ha]. apply aged_live, Ha.
Defined.
End laws.

(** ** Reading back *)

Section roundtrip.
Context {R : Type} `{RedisLaws R} `{GoPlatform} `{GobCodecLaws}.
Implicit Types (c : redis_client R) (r : R).

Notation aged := (aged rd_val rd_deadline rd_clock).
Notation written := (written rd_val rd_deadline rd_clock).

Lemma set_bytes_written msg k v ttl c c1 :
  set_bytes msg k v ttl c = (c1, Ok ()) →
  rd_clock (redisClient c) ≤ rd_clock (redisClient c1) ∧ written (redisClient c) (redisClient c1) k v ttl.
Proof.
  unfold set_bytes, command. pose proof (rd_Set (redisClient c) k v ttl) as Hl.
  destruct (r_Set k v ttl _) as [r' err]. destruct Hl as (?&_&Hw). by destruct err; intros [= <-].
Qed.

(** The reply to a [GET] of a key that was written and not touched since: the
    value; nothing, once the expiry has passed; or an error of the server. *)
Lemma Get_written r k v ttl c1 c2 c3 rep :
  written r (redisClient c1) k v ttl → aged (redisClient c1) (redisClient c2) k →
  rd_clock (redisClient c1) ≤ rd_clock (redisClient c2) →
  command (r_Get k) c2 = (c3, rep) →
  rep = ROk v ∨ (rep = RNil ∧ 0 < ttl ∧ rd_clock r + ttl ≤ rd_clock (redisClient c3)) ∨
  ∃ e, rep = RErr e ∧ no_sentinel e.
Proof.
  intros [Hv Hd] Ha12 Hc12. unfold command. pose proof (rd_Get (redisClient c2) k) as Hl.
  destruct (r_Get k _) as [r3 rep']. destruct Hl as (Hc&Ha&Hr). intros [= <- <-]. simpl.
  specialize (Ha k).
  assert (Hcase : rd_val r3 k = Some v ∨ (rd_val r3 k = None ∧ 0 < ttl ∧ rd_clock r + ttl ≤ rd_clock r3)).
  { assert (Hexp : ∀ r', rd_clock r' ≤ rd_clock r3 → expired_by rd_deadline rd_clock (redisClient c1) r' k →
                         0 < ttl ∧ rd_clock r + ttl ≤ rd_clock r3).
    { intros r' Hle (t&Ht&Hle'). rewrite Ht in Hd. destruct (0 <? ttl) eqn:E; [|done].
      destruct Hd as (t'&[= <-]&?). lia. }
    destruct Ha12 as [[Hv2 Hd2]|[Hv2 He]].
    - destruct Ha as [[-> _]|[-> (t&Ht&Hle)]]; [left; congruence|right; split; [done|]].
      apply (Hexp r3); [lia|]. exists t. split; [congruence|done].
    - right. destruct Ha as [[-> _]|[-> _]]; (split; [done|]); by apply (Hexp (redisClient c2)). }
  destruct rep' as [|v'|e]; [right; left|left|by eauto].
  - destruct Hcase as [?|[_ ?]]; [congruence|done].
  - destruct Hcase as [?|[? _]]; congruence.
Qed.

(** C30: a model stored in Redis is read back with its stored fields as gob decodes them while
    its entry is not overwritten; the only other answers are a miss after the expiry and a
    wrapped error of the server. *)
Theorem redis_model_roundtrip k model fs ttl c c1 c2 dest :
  redis_SetModel k model fs ttl c = (c1, Ok ()) →
  aged (redisClient c1) (redisClient c2) k → rd_clock (redisClient c1) ≤ rd_clock (redisClient c2) →
  let '(c3, o) := redis_GetModel k dest c2 in
  ∃ data, gob_map (model_data model fs) = Some data ∧
  (o = populate (map_to_list data) dest ∨
   (o = Err ErrNotFound ∧ 0 < ttl ∧ rd_clock (redisClient c) + ttl ≤ rd_clock (redisClient c3)) ∨
   ∃ msg e, o = Err (ErrWrap msg e) ∧ no_sentinel e).
Proof.
  unfold redis_SetModel. intros Hs Ha Hc.
  destruct (enc_map _) as [b|] eqn:Hb; [|done]. destruct (codec_map _ _ Hb) as [Hm [data Hdata]].
  apply set_bytes_written in Hs as [_ Hw].
  unfold redis_GetModel. destruct (command _ _) as [c3 rep] eqn:E.
  eapply Get_written in E; [|exact Hw|exact Ha|exact Hc].
  destruct E as [->|[(->&?&?)|(e&->&?)]]; exists data; (split; [done|]).
  - left. unfold decode_model. by rewrite Hm, Hdata.
  - right; left. done.
  - right; right. eauto.
Qed.

Lemma redis_ids_roundtrip k ids ttl c c1 c2 :
  redis_SetQueryIDs k ids ttl c = (c1, Ok ()) →
  aged (redisClient c1) (redisClient c2) k → rd_clock (redisClient c1) ≤ rd_clock (redisClient c2) →
  let '(c3, o) := redis_GetQueryIDs k c2 in
  o = Ok (match default [] ids with [] => None | l => Some l end) ∨
  (o = Err ErrNotFound ∧ 0 < ttl ∧ rd_clock (redisClient c) + ttl ≤ rd_clock (redisClient c3)) ∨
  ∃ msg e, o = Err (ErrWrap msg e) ∧ no_sentinel e.
Proof.
  intros [_ Hw]%set_bytes_written Ha Hc.
  unfold redis_GetQueryIDs. destruct (command _ _) as [c3 rep] eqn:E.
  eapply Get_written in E; [|exact Hw|exact Ha|exact Hc].
  destruct E as [->|[(->&?&?)|(e&->&?)]]; [left|by right; left|right; right; eauto].
  rewrite codec_ids. by destruct (default [] ids).
Qed.
End roundtrip.

(** ** Locks *)

Section locks.
Context {R : Type} `{RedisLaws R}.
Implicit Types (c : redis_client R) (r : R).

Notation aged := (aged rd_val rd_deadline rd_clock).
Notation clock c := (rd_clock (redisClient c)).

(** What the holder of a lock knows: it was acquired for [d] at a time it reads
    before the call, so that the lock is its own until that time plus [d], its
    lease. *)
Record redis_system := MkRSys { rs_client : redis_client R; rs_inside : gset (nat * string * Z) }.

(** Threads as [WithLock] makes them, over one server; [late]: whether a
    release may reach the server after the end of the lease. *)
Inductive redis_lock_step (late : bool) : redis_system → redis_system → Prop :=
  | rl_enter t k d c c' hs :
      0 < d → redis_AcquireLock k d c = (c', Ok true) →
      redis_lock_step late (MkRSys c hs) (MkRSys c' ({[(t, k, clock c + d)]} ∪ hs))
  | rl_fail k d c c' o hs :
      redis_AcquireLock k d c = (c', o) → o ≠ Ok true →
      redis_lock_step late (MkRSys c hs) (MkRSys c' hs)
  | rl_leave t k l c c' o hs :
      (t, k, l) ∈ hs → redis_ReleaseLock k c = (c', o) → late = true ∨ clock c' < l →
      redis_lock_step late (MkRSys c hs) (MkRSys c' (hs ∖ {[(t, k, l)]}))
  | rl_other c c' hs :
      clock c ≤ clock c' → (∀ t k l, (t, k, l) ∈ hs → aged (redisClient c) (redisClient c') k) →
      redis_lock_step late (MkRSys c hs) (MkRSys c' hs).

(** The lock of a lease that has not ended is on the server, at least until the
    end of the lease. *)
Definition leased c (k : string) (l : Z) : Prop :=
  is_Some (rd_val (redisClient c) k) ∧ ∀ t, rd_deadline (redisClient c) k = Some t → l ≤ t.

Definition lease_inv (s : redis_system) : Prop :=
  ∀ t k l, (t, k, l) ∈ rs_inside s → clock (rs_client s) < l →
  leased (rs_client s) k l ∧
  ∀ t' l', (t', k, l') ∈ rs_inside s → clock (rs_client s) < l' → t' = t ∧ l' = l.

Lemma leased_aged c c' k l :
  leased c k l → clock c' < l → aged (redisClient c) (redisClient c') k → leased c' k l.
Proof.
  intros [Hv Hd] Hl [[Hv' Hd']|[_ (t&Ht&Hle)]]; [|apply Hd in Ht; lia].
  unfold leased. by rewrite Hv', Hd'.
Qed.

Lemma AcquireLock_command k d c c' o :
  redis_AcquireLock k d c = (c', o) →
  clock c ≤ clock c' ∧ (∀ k', k' ≠ k → aged (redisClient c) (redisClient c') k') ∧
  let taken := (rd_val (redisClient c) k = None ∨ expired_by rd_deadline rd_clock (redisClient c) (redisClient c') k) ∧
               written rd_val rd_deadline rd_clock (redisClient c) (redisClient c') k lockValue d in
  match o with
  | Ok true => taken
  | Ok false => is_Some (rd_val (redisClient c') k) ∧ aged (redisClient c) (redisClient c') k
  | _ => aged (redisClient c) (redisClient c') k ∨ taken
  end.
Proof.
  unfold redis_AcquireLock, command. pose proof (rd_SetNX (redisClient c) k lockValue d) as Hl.
  cbn [incrementCounter redisClient]. destruct (r_SetNX _ _ _ _) as [r' rep].
  intros [= <- <-]. by destruct rep as [[]|].
Qed.

Lemma ReleaseLock_command k c c' o :
  redis_ReleaseLock k c = (c', o) →
  clock c ≤ clock c' ∧ ∀ k', k' ≠ k → aged (redisClient c) (redisClient c') k'.
Proof.
  unfold redis_ReleaseLock, del_keys, command. pose proof (rd_Del (redisClient c) [k]) as Hl.
  cbn [incrementCounter redisClient]. destruct (r_Del _ _) as [r' rep].
  intros [= <- <-]. destruct Hl as (?&Ha&_). split; [done|]. intros k' Hne. apply Ha. set_solver.
Qed.

(** While a lease lasts, its lock cannot be taken. *)
Lemma leased_not_taken c c' k l :
  leased c k l → clock c' < l →
  ¬ (rd_val (redisClient c) k = None ∨ expired_by rd_deadline rd_clock (redisClient c) (redisClient c') k).
Proof.
  intros [Hv Hd] Hl [Hn|(t&Ht&Hle)]; [rewrite Hn in Hv; by apply is_Some_None in Hv|].
  apply Hd in Ht. lia.
Qed.

(** Time that passes without a command on a held key keeps the invariant. *)
Lemma lease_inv_aged c c' hs :
  lease_inv (MkRSys c hs) → clock c ≤ clock c' →
  (∀ t k l, (t, k, l) ∈ hs → clock c' < l → aged (redisClient c) (redisClient c') k) →
  lease_inv (MkRSys c' hs).
Proof.
  intros Hi Hc Ha t k l Hin Hl. simpl in *. destruct (Hi t k l Hin) as [Hle Hu]; [simpl; lia|].
  split; [eapply leased_aged; eauto|]. intros t' l' Hin' Hl'. apply Hu; [done|simpl; lia].
Qed.

Lemma lease_inv_enter t k d c c' hs :
  0 < d → redis_AcquireLock k d c = (c', Ok true) → lease_inv (MkRSys c hs) →
  lease_inv (MkRSys c' ({[(t, k, clock c + d)]} ∪ hs)).
Proof.
  intros Hd (Hc&Ha&Htk&[Hv Hdl])%AcquireLock_command Hi.
  assert (Hd' : 0 <? d = true) by lia. rewrite Hd' in Hdl.
  assert (Hno : ∀ t' l', (t', k, l') ∈ hs → ¬ clock c' < l').
  { intros t' l' Hin Hl. destruct (Hi t' k l' Hin) as [Hle _]; [simpl; lia|].
    by eapply leased_not_taken. }
  intros t0 k0 l0. cbn [rs_inside rs_client]. intros [[= -> -> ->]%elem_of_singleton|Hin]%elem_of_union Hl0.
  - split; [|intros t' l' [[= -> ->]%elem_of_singleton|?]%elem_of_union ?; [done|by edestruct Hno]].
    split; [by rewrite Hv|]. intros t1 Ht1. destruct Hdl as (t2&Ht2&?&?). rewrite Ht1 in Ht2. by injection Ht2 as ->.
  - assert (Hne : k0 ≠ k) by (intros ->; by edestruct Hno).
    destruct (Hi t0 k0 l0 Hin) as [Hle Hu]; [simpl; lia|]. split; [by eapply leased_aged; eauto|].
    intros t' l' [[= _ -> _]%elem_of_singleton|?]%elem_of_union ?; [done|]. apply Hu; [done|simpl in *; lia].
Qed.

Lemma lease_inv_step s s' : redis_lock_step false s s' → lease_inv s → lease_inv s'.
Proof.
  intros Hstep Hi. destruct Hstep as [t k d c c' hs Hd Hacq|k d c c' o hs Hacq Ho|t k l c c' o hs Hin Hrel Hl|c c' hs Hc Ha].
  - by apply lease_inv_enter.
  - apply AcquireLock_command in Hacq as (Hc&Ha&Hk). eapply lease_inv_aged; [done..|].
    intros t0 k0 l0 Hin Hl0. destruct (decide (k0 = k)) as [->|]; [|by apply Ha].
    destruct (Hi t0 k l0 Hin) as [Hle _]; [simpl; lia|].
    pose proof (leased_not_taken c c' k l0 Hle Hl0) as Hnt.
    destruct o as [[]| |]; [done|by apply Hk|..]; (destruct Hk as [?|[? _]]; [done|by destruct Hnt]).
  - apply ReleaseLock_command in Hrel as [Hc Ha]. destruct Hl as [|Hl]; [done|].
    intros t0 k0 l0 [Hin0 Hne]%elem_of_difference Hl0. simpl in *.
    assert (Hk : k0 ≠ k).
    { intros ->. destruct (Hi t k l Hin) as [_ Hu]; [simpl; lia|].
      destruct (Hu t0 l0 Hin0) as [-> ->]; [simpl; lia|]. set_solver. }
    destruct (Hi t0 k0 l0 Hin0) as [Hle Hu]; [simpl; lia|]. split; [by eapply leased_aged; eauto|].
    intros t' l' [? _]%elem_of_difference ?. apply Hu; [done|simpl; lia].
  - eapply lease_inv_aged; eauto.
Qed.

(** C31: with the Redis client, in every interleaving of threads that release a lock before its
    lease ends, at most one thread holds an unexpired lease of a lock. *)
Theorem redis_mutual_exclusion c s t1 t2 k l1 l2 :
  rtc (redis_lock_step false) (MkRSys c ∅) s →
  (t1, k, l1) ∈ rs_inside s → clock (rs_client s) < l1 →
  (t2, k, l2) ∈ rs_inside s → clock (rs_client s) < l2 → t1 = t2.
Proof.
  intros Hr H1 Hl1 H2 Hl2.
  assert (Hi : lease_inv s).
  { assert (Hinit : lease_inv (MkRSys c ∅)) by (intros ???; set_solver).
    revert Hinit. clear -Hr. induction Hr; eauto using lease_inv_step. }
  destruct (Hi t1 k l1 H1 Hl1) as [_ Hu]. by destruct (Hu t2 l2 H2 Hl2) as [-> _].
Qed.

(** A lock whose lease has ended is never reported as held. *)
Theorem redis_lock_expires k d d' c c1 c2 :
  0 < d → redis_AcquireLock k d c = (c1, Ok true) →
  aged (redisClient c1) (redisClient c2) k → clock c1 + d ≤ clock c2 →
  (redis_AcquireLock k d' c2).2 ≠ Ok false.
Proof.
  intros Hd (_&_&_&[Hv Hdl])%AcquireLock_command Ha Hc Hf.
  destruct (redis_AcquireLock k d' c2) as [c3 o] eqn:E. simpl in Hf. subst o.
  apply AcquireLock_command in E as (_&_&Hs&[[Hv3 _]|[Hv3 _]]).
  - rewrite Hv3 in Hs. assert (Hd' : 0 <? d = true) by lia. rewrite Hd' in Hdl. destruct Hdl as (t&Ht&?&?).
    destruct Ha as [[_ Hd2]|[Hv2 _]]; [|rewrite Hv2 in Hs; by apply is_Some_None in Hs].
    assert (clock c2 < t); [|lia]. apply (rd_unexpired _ k); [done|congruence].
  - rewrite Hv3 in Hs. by apply is_Some_None in Hs.
Qed.
End locks.

(** ** [DeleteByPrefix] *)

(** The bytes that are not themselves in a pattern. *)
Definition glob_special (a : ascii) : bool := byte_in a "*?[\".

(** A whole iteration of [SCAN] from a cursor: the keys it returned, the state
    of the server after it, and the error that ended it, if any. *)
Inductive scan_run {R} `{RedisServer R} (pat : string) : Z → R → list string → R → option goerr → Prop :=
  | sr_end cur r r' ks :
      r_Scan cur pat scanCount r = (r', inl (ks, 0)) → scan_run pat cur r ks r' None
  | sr_error cur r r' e :
      r_Scan cur pat scanCount r = (r', inr e) → scan_run pat cur r [] r' (Some e)
  | sr_more cur cur' r r1 r' ks ks' e :
      r_Scan cur pat scanCount r = (r1, inl (ks, cur')) → cur' ≠ 0 →
      scan_run pat cur' r1 ks' r' e → scan_run pat cur r (ks ++ ks')%list r' e.

(** The guarantees of [SCAN]: an iteration ends; it returns only keys that
    match, and every matching key that is there throughout; it changes
    nothing.  A pattern of ordinary bytes and a final star matches the keys
    with that prefix. *)
Class RedisScanLaws (R : Type) `{RedisLaws R} := {
  rd_glob : string → string → bool;
  rd_glob_prefix p k : str_all (λ a, negb (glob_special a)) p = true →
    rd_glob (p +:+ "*") k = HasPrefix k p;
  rd_Scan r pat : ∃ ks r' e, scan_run pat 0 r ks r' e ∧
    (∀ k, aged rd_val rd_deadline rd_clock r r' k) ∧
    (∀ k, k ∈ ks → rd_glob pat k = true) ∧
    (e = None → ∀ k, is_Some (rd_val r' k) → rd_glob pat k = true → k ∈ ks)
}.

Section prefix.
Context {R : Type} `{RedisScanLaws R} `{GoPlatform} `{GobCodec}.
Implicit Types c : redis_client R.

Lemma prefix_scan_run pat cur r ks r' e :
  scan_run pat cur r ks r' e →
  ∃ n, ∀ fuel acc cnt b, (n ≤ fuel)%nat →
  prefix_scan fuel cur pat acc (MkRedis r cnt b) =
  (MkRedis r' cnt b, Some (match e with
                           | None => Ok (acc ++ ks)%list
                           | Some e => Err (ErrWrap "redis SCAN error for prefix" e)
                           end)).
Proof.
  induction 1 as [cur r r' ks Hs|cur r r' e Hs|cur cur' r r1 r' ks ks' e Hs Hne _ [n IH]].
  - exists 1%nat. intros [|fuel] acc cnt b Hf; [lia|]. simpl. unfold command. simpl. by rewrite Hs.
  - exists 1%nat. intros [|fuel] acc cnt b Hf; [lia|]. simpl. unfold command. simpl. by rewrite Hs.
  - exists (S n). intros [|fuel] acc cnt b Hf; [lia|]. simpl. unfold command. simpl. rewrite Hs.
    apply Z.eqb_neq in Hne. rewrite Hne, IH by lia. destruct e; [done|]. by rewrite <-(assoc_L (++))%list.
Qed.

(** DeleteByPrefix with a prefix free of pattern characters ends on every server whose
    scans end, touches no key without the prefix, and after a success leaves no live key with
    it. *)
Theorem redis_DeleteByPrefix_spec prefix c :
  str_all (λ a, negb (glob_special a)) prefix = true →
  ∃ n, ∀ fuel, (n ≤ fuel)%nat →
  ∃ c' o, redis_DeleteByPrefix fuel prefix c = (c', Some o) ∧
  (∀ k, rlive c' k → rlive c k) ∧
  (∀ k, HasPrefix k prefix = false →
     ∃ r, aged rd_val rd_deadline rd_clock (redisClient c) r k ∧
          aged rd_val rd_deadline rd_clock r (redisClient c') k) ∧
  (o = Ok () → ∀ k, HasPrefix k prefix = true → ¬ rlive c' k).
Proof.
  intros Hlit. destruct (rd_Scan (redisClient c) (prefix +:+ "*")) as (ks&r'&e&Hrun&Hag&Honly&Hall).
  destruct (prefix_scan_run _ _ _ _ _ _ Hrun) as [n Hn]. exists n. intros fuel Hf.
  unfold redis_DeleteByPrefix, incrementCounter. rewrite Hn by done.
  set (c1 := MkRedis r' _ _). destruct e as [e|].
  { exists c1. eexists. split; [done|]. split; [intros k; by apply aged_live|].
    split; [|done]. intros k _. exists r'. split; [done|]. by left. }
  assert (Hpre : ∀ k, rd_glob (prefix +:+ "*") k = HasPrefix k prefix) by (intros; by apply rd_glob_prefix).
  destruct ks as [|k0 ks0]; [|set (ks := k0 :: ks0) in *].
  { exists c1. eexists. split; [done|]. split; [intros k; by apply aged_live|].
    split; [intros k _; exists r'; split; [done|by left]|].
    intros _ k Hk Hl. destruct (not_elem_of_nil k). apply (Hall eq_refl k); [done|]. by rewrite Hpre. }
  cbn [app].
  destruct (del_keys "redis DEL error for prefix" ks c1) as [c' o] eqn:E.
  pose proof (del_keys_live "redis DEL error for prefix" ks c1) as Hdel. rewrite E in Hdel. simpl in Hdel.
  exists c', o. split; [done|]. split_and!.
  - intros k [? _]%Hdel. eapply aged_live; [apply Hag|done].
  - intros k Hk. exists r'. split; [done|].
    unfold del_keys, command in E. pose proof (rd_Del (redisClient c1) ks) as Hd.
    destruct (r_Del ks _) as [r2 rep]. injection E as <- _. apply Hd.
    intros Hin%Honly. rewrite Hpre in Hin. congruence.
  - intros Ho k Hk Hl. apply Hdel in Hl as [Hl Hni]. apply Hni; [done|].
    apply (Hall eq_refl); [done|]. by rewrite Hpre.
Qed.
End prefix.
