(* ===== verification/Invalidate.v ===== *)
(** * Cache invalidation (cache.go)

    [invalidateAffectedQueryCaches] and its helpers: after a row was created,
    updated or deleted, find the registered queries whose cached list or count
    may be wrong and delete their entries.  A model is a non-nil pointer to a
    struct ([gostruct]); the original is [None] when it is a nil pointer (a
    creation).  A [Thing] made by [New] has a cache, so the nil-cache guards are
    not modelled.  Go ranges over maps in an unspecified order: the keys of
    [writesNeeded] are taken in the order of [elements].  Mutexes of the key
    locker do not change the sequential behaviour (see the file on locks). *)

From S2P Require Import Prelude GoStrings GoValues Predicate QueryMatch CacheIndex Metadata LocalCache.
From S2P Require Import CacheClient.

Open Scope string_scope.

(** The methods of the model type (thing.go: [Model]). *)
Class ModelOps := {
  GetID : gostruct → Z;
  KeepItem : gostruct → bool;
  KeepItemFields : gostruct → list string
}.

(** What a model that embeds [BaseModel] inherits (model.go). *)
Definition BaseModel_GetID (m : gostruct) : Z :=
  match FieldByName m "ID" with Some (VInt _ z) => z | _ => 0%Z end.
Definition BaseModel_KeepItem (m : gostruct) : bool :=
  match FieldByName m "Deleted" with Some (VBool b) => negb b | _ => true end.
Definition BaseModelOps : ModelOps :=
  {| GetID := BaseModel_GetID; KeepItem := BaseModel_KeepItem; KeepItemFields := λ _, [] |}.

(** The key of a model's own cache entry (model.go). *)
Definition generateCacheKey (tableName : string) (id : Z) : string :=
  tableName +:+ ":" +:+ FormatInt id.

(** ** Columns *)

(** Whether the loops look at a field at all: compared, with an index that the
    struct has. *)
Definition field_in_range (f : ComparableFieldInfo) (m : gostruct) : bool :=
  match Index f with [] => false | i :: _ => (i <? length m)%nat end.

Definition field_index_panic : string := "reflect: Field index out of range".

Fixpoint changed_loop (fs : list ComparableFieldInfo) (model original : gostruct) : result (gset string) :=
  match fs with
  | [] => Ok ∅
  | f :: fs =>
      if IgnoreInDiff f || negb (field_in_range f model) || negb (field_in_range f original)
      then changed_loop fs model original
      else match FieldByIndex model (Index f), FieldByIndex original (Index f) with
      | Some x, Some y =>
          changed ← changed_loop fs model original;
          Ok (if DeepEqual (value_Interface x) (value_Interface y) then changed
              else {[DBColumn f]} ∪ changed)
      | _, _ => Panic field_index_panic
      end
  end.

Definition changedModelColumns (info : ModelInfo) (model : gostruct) (original : option gostruct)
    : result (gset string) :=
  match original with
  | None => Ok (list_to_set (DBColumn <$> filter (λ f, IgnoreInDiff f = false) (CompareFields info)))
  | Some o => changed_loop (CompareFields info) model o
  end.

Fixpoint field_values (fs : list ComparableFieldInfo) (model : gostruct)
    : result (list (string * option goval)) :=
  match fs with
  | [] => Ok []
  | f :: fs =>
      if IgnoreInDiff f || negb (field_in_range f model) then field_values fs model
      else match FieldByIndex model (Index f) with
      | Some v => rest ← field_values fs model; Ok ((DBColumn f, value_Interface v) :: rest)
      | None => Panic field_index_panic
      end
  end.

(** Later fields of the same column overwrite earlier ones. *)
Definition fieldValues_map (l : list (string * option goval)) : gmap string (option goval) :=
  list_to_map (rev l).

Definition orderDependencyChanged (deps : QueryDependencies) (changedColumns : gset string) : bool :=
  if decide (changedColumns = ∅) then false
  else HasUncertainOrder deps || negb (bool_decide (OrderFields deps ∩ changedColumns = ∅)).

Definition cacheCandidateColumns (fieldValues : gmap string (option goval)) (changedColumns : gset string)
    (isCreate isDelete forceAll : bool) : gset string :=
  if negb isCreate && negb isDelete && negb forceAll then changedColumns
  else dom fieldValues.

Definition keepItemFieldChanged `{ModelOps} (model : gostruct) (changedColumns : gset string) : bool :=
  if decide (changedColumns = ∅) then false
  else existsb (λ col, bool_decide (col ∈ changedColumns)) (KeepItemFields model).

Definition determineCacheAction (isCreate matchesOriginal matchesCurrent isKept : bool) : bool * bool :=
  if negb isKept then (false, true)
  else if isCreate then (matchesCurrent, false)
  else if matchesCurrent && negb matchesOriginal then (true, false)
  else if negb matchesCurrent && matchesOriginal then (false, true)
  else (false, false).

Definition containsID (ids : list Z) (id : Z) : bool := existsb (λ x, x =? id)%Z ids.

(** ** Tasks *)

Record cacheTask := MkTask {
  cacheKey : string;
  isListKey : bool;
  isCountKey : bool;
  needsAdd : bool;
  needsRemove : bool
}.

(** The tables an invalidation works with. *)
Record inv_input := MkInput {
  in_info : ModelInfo;
  in_model : gostruct;
  in_original : option gostruct;
  in_isCreate : bool;
  in_isDelete : bool;
  in_changed : gset string;
  in_kiFieldChanged : bool
}.

Section invalidate.
Context `{GoPlatform} `{ModelOps} {C D : Type} `{CacheClient C}.

Definition check_match (info : ModelInfo) (m : gostruct) (params : QueryParams)
    (pred : option queryPredicate) : result bool :=
  CheckQueryMatchWithPredicate (ModelPtr m) (TableName info) (Some (ColumnToFieldMap info)) params pred.

(** The action decided for a query both models could be checked against. *)
Definition decide_task (inp : inv_input) (key : string) (deps : QueryDependencies)
    (matchesOriginal matchesCurrent : bool) : option cacheTask :=
  let '(add, remove) :=
    determineCacheAction (in_isCreate inp) matchesOriginal matchesCurrent (KeepItem (in_model inp)) in
  let remove := remove ||
    (is_list_key key && negb (in_isCreate inp) && matchesOriginal && matchesCurrent &&
     orderDependencyChanged deps (in_changed inp)) in
  let remove := remove || (in_kiFieldChanged inp && matchesCurrent) in
  if add || remove then Some (MkTask key (is_list_key key) (is_count_key key) add remove) else None.

(** What phase 1 does with one key: a task, the deletion of the entry because
    a check failed, nothing, or a panic of a check. *)
Inductive verdict :=
  | VTask (task : cacheTask)
  | VDrop
  | VSkip
  | VPanic (msg : string).

Definition gather_key (inp : inv_input) (ctx : InvalidationContext) (key : string) : verdict :=
  if negb (is_list_key key) && negb (is_count_key key) then VSkip
  else match KeyToParams ctx !! key with
  | None => VSkip
  | Some params =>
      let deps := default (MkDeps ∅ ∅ false) (KeyToDeps ctx !! key) in
      let pred := default None (KeyToPredicate ctx !! key) in
      match check_match (in_info inp) (in_model inp) params pred with
      | Panic m => VPanic m
      | Err _ => VDrop
      | Ok matchesCurrent =>
          if in_isDelete inp then
            if matchesCurrent then VTask (MkTask key (is_list_key key) (is_count_key key) false true)
            else VSkip
          else
            match (if in_isCreate inp then Ok false
                   else match in_original inp with
                        | Some o => check_match (in_info inp) o params pred
                        | None => Ok false
                        end) with
            | Panic m => VPanic m
            | Err _ => VDrop
            | Ok matchesOriginal =>
                match decide_task inp key deps matchesOriginal matchesCurrent with
                | Some task => VTask task
                | None => VSkip
                end
            end
      end
  end.

(** Phase 1 over the candidate keys. *)
Fixpoint gather (inp : inv_input) (ctx : InvalidationContext) (keys : list string) (c : C)
    : C * result (list cacheTask) :=
  match keys with
  | [] => (c, Ok [])
  | key :: keys =>
      match gather_key inp ctx key with
      | VPanic m => (c, Panic m)
      | VSkip => gather inp ctx keys c
      | VDrop => gather inp ctx keys (cc_Delete key c).1
      | VTask task =>
          let '(c, r) := gather inp ctx keys c in
          (c, (λ tasks, task :: tasks) <$> r)
      end
  end.

(** Phase 2: what the cached lists hold; a failed read is recorded. *)
Inductive list_read :=
  | ReadIDs (ids : list Z)
  | ReadError (e : goerr).

Fixpoint read_lists (tasks : list cacheTask) (seen : gmap string list_read) (c : C)
    : C * gmap string list_read :=
  match tasks with
  | [] => (c, seen)
  | task :: tasks =>
      if (needsAdd task || needsRemove task) && isListKey task &&
         negb (bool_decide (is_Some (seen !! cacheKey task)))
      then
        let '(c, r) := cc_GetQueryIDs (cacheKey task) c in
        let read := match r with
                    | Ok ids => ReadIDs (default [] ids)
                    | Err e => if errors_Is e ErrNotFound then ReadIDs [] else ReadError e
                    | Panic m => ReadError (ErrMsg m)
                    end in
        read_lists tasks (<[cacheKey task := read]> seen) c
      else read_lists tasks seen c
  end.

(** Phase 3: the keys to delete. *)
Definition write_needed (reads : gmap string list_read) (id : Z) (task : cacheTask) : bool :=
  if isListKey task then
    match reads !! cacheKey task with
    | Some (ReadIDs ids) =>
        if needsAdd task then negb (containsID ids id) else needsRemove task
    | _ => false
    end
  else isCountKey task && (needsAdd task || needsRemove task).

Definition writesNeeded (reads : gmap string list_read) (id : Z) (tasks : list cacheTask) : gset string :=
  list_to_set (cacheKey <$> filter (λ t, write_needed reads id t = true) tasks).

(** Phase 4: delete each, and try once more after an error. *)
Definition write_one (c : C) (key : string) : C :=
  let '(c, r) := cc_Delete key c in
  match r with
  | Ok _ => c
  | Err e => if errors_Is e ErrNotFound then c else (cc_Delete key c).1
  | Panic _ => c
  end.

Definition run_tasks (id : Z) (tasks : list cacheTask) (c : C) : C :=
  let '(c, reads) := read_lists tasks ∅ c in
  foldl write_one c (elements (writesNeeded reads id tasks)).

(** The four phases on the candidate keys. *)
Definition process_candidates (inp : inv_input) (ctx : InvalidationContext) (c : C) : C * result unit :=
  let '(c, r) := gather inp ctx (CacheKeys ctx) c in
  match r with
  | Ok tasks => (run_tasks (GetID (in_model inp)) tasks c, Ok ())
  | Err e => (c, Err e)
  | Panic m => (c, Panic m)
  end.

Definition invalidateAffectedQueryCaches (info : ModelInfo) (model : gostruct) (original : option gostruct)
    (isCreate isDelete : bool) (w : world C D) : world C D * result unit :=
  if (GetID model =? 0)%Z then (w, Ok ())
  else
    match changedModelColumns info model original, field_values (CompareFields info) model with
    | Panic m, _ | _, Panic m => (w, Panic m)
    | Ok changed, Ok values =>
        let ki := keepItemFieldChanged model changed in
        let fieldValues := fieldValues_map values in
        let candidates := cacheCandidateColumns fieldValues changed isCreate isDelete
                            (negb (KeepItem model) || ki) in
        let ctx := GetInvalidationContext (w_index w) (TableName info) fieldValues candidates in
        on_cache (process_candidates (MkInput info model original isCreate isDelete changed ki) ctx) w
    | Err e, _ | _, Err e => (w, Err e)
    end.

(** [ClearCacheByID]: errors are logged only. *)
Definition ClearCacheByID (info : ModelInfo) (id : Z) (w : world C D) : world C D * result unit :=
  let '(w, _) := on_cache (cc_DeleteModel (generateCacheKey (TableName info) id)) w in (w, Ok ()).

(** [InvalidateQueryCaches]: every registered key of the table is deleted; the
    first error other than a miss is returned. *)
Fixpoint delete_all (keys : list string) (firstErr : option goerr) (c : C) : C * result unit :=
  match keys with
  | [] => (c, match firstErr with Some e => Err e | None => Ok () end)
  | key :: keys =>
      let '(c, r) := cc_Delete key c in
      let firstErr := match r with
                      | Err e => if errors_Is e ErrNotFound then firstErr
                                 else Some (default e firstErr)
                      | _ => firstErr
                      end in
      delete_all keys firstErr c
  end.

Definition InvalidateQueryCaches (info : ModelInfo) (w : world C D) : world C D * result unit :=
  on_cache (delete_all (GetQueryKeysForTable (w_index w) (TableName info)) None) w.
End invalidate.
