(* ===== verification/InvalidateFacts.v ===== *)
(** * Invalidation reaches every affected query

    After a create, an update or a delete, every registered list or count query
    that the write affects has lost its cache entry.  The theorem is proved
    against the [CacheClient] interface and its laws. *)

From S2P Require Import Prelude GoStrings GoValues GoValuesFacts Predicate QueryMatch QueryMatchFacts.
From S2P Require Import CacheIndex CacheIndexFacts Metadata LocalCache CacheClient Invalidate.

Open Scope string_scope.

(** ** What the metadata must say about a model *)

Definition compared (info : ModelInfo) : list ComparableFieldInfo :=
  filter (λ f, IgnoreInDiff f = false) (CompareFields info).

Definition columns_of (info : ModelInfo) : gset string := list_to_set (DBColumn <$> compared info).

(** The index path of each compared field leads to the field its column is
    mapped to. *)
Definition describes (info : ModelInfo) (m : gostruct) : Prop :=
  ∀ f, f ∈ compared info →
    field_in_range f m = true ∧ DBColumn f ≠ "" ∧
    ColumnToFieldMap info !! DBColumn f = Some (GoName f) ∧
    ∃ v, FieldByIndex m (Index f) = Some v ∧ FieldByName m (GoName f) = Some v.

Lemma elem_compared info f :
  f ∈ compared info ↔ f ∈ CompareFields info ∧ IgnoreInDiff f = false.
Proof. unfold compared. rewrite list_elem_of_filter. naive_solver. Qed.

Lemma column_value_compared info m f :
  describes info m → f ∈ compared info →
  ∃ v, FieldByIndex m (Index f) = Some v ∧
       column_value m (ColumnToFieldMap info) (DBColumn f) = Some v.
Proof.
  intros Hd Hf. destruct (Hd f Hf) as (_&_&Hc&v&Hi&Hn). exists v. split; [done|].
  unfold column_value, column_field. by rewrite Hc.
Qed.

(** ** Changed columns *)

Lemma changed_loop_Ok fs model o :
  (∀ f, f ∈ fs → IgnoreInDiff f = false →
        is_Some (FieldByIndex model (Index f)) ∧ is_Some (FieldByIndex o (Index f))) →
  ∃ changed, changed_loop fs model o = Ok changed.
Proof.
  induction fs as [|f fs IH]; intros Hfs; simpl; [eauto|].
  destruct IH as [changed Hc]; [set_solver|].
  destruct (IgnoreInDiff f) eqn:Ei; simpl; [eauto|].
  destruct (negb (field_in_range f model) || negb (field_in_range f o)); [eauto|].
  destruct (Hfs f) as [[x Hx] [y Hy]]; [set_solver|done|].
  rewrite Hx, Hy, Hc. simpl. eauto.
Qed.

Lemma changed_loop_elem fs model o changed f x y :
  changed_loop fs model o = Ok changed → f ∈ fs → IgnoreInDiff f = false →
  field_in_range f model = true → field_in_range f o = true →
  FieldByIndex model (Index f) = Some x → FieldByIndex o (Index f) = Some y →
  DeepEqual (value_Interface x) (value_Interface y) = false →
  DBColumn f ∈ changed.
Proof.
  revert changed. induction fs as [|g fs IH]; intros changed Hl Hf Hi R1 R2 Hx Hy Hne; simpl in Hl; [set_solver|].
  apply elem_of_cons in Hf as [->|Hf].
  - rewrite Hi, R1, R2, Hx, Hy in Hl. simpl in Hl.
    destruct (changed_loop fs model o) as [ch| |]; try done. simpl in Hl. rewrite Hne in Hl.
    simplify_eq. set_solver.
  - destruct (_ || _); [by eapply IH|].
    destruct (FieldByIndex model (Index g)), (FieldByIndex o (Index g)); try done.
    destruct (changed_loop fs model o) as [ch| |]; try done. simpl in Hl.
    simplify_eq. case_match; [by eapply IH|]. apply elem_of_union_r. by eapply IH.
Qed.

(** Values of the same type with equal interfaces are [DeepEqual]; an
    interface field compares by its dynamic value. *)
Lemma deep_equal_of_Interface x y :
  typeof x = typeof y → DeepEqual (value_Interface x) (value_Interface y) = true → deep_equal x y = true.
Proof. destruct x, y; simpl; try done. Qed.

(** A compared column on which two models differ is a changed column. *)
Lemma differs_changed info model o changed c :
  describes info model → describes info o →
  (∀ f x y, f ∈ compared info → FieldByIndex model (Index f) = Some x →
            FieldByIndex o (Index f) = Some y → typeof x = typeof y) →
  changedModelColumns info model (Some o) = Ok changed → c ∈ columns_of info →
  ¬ same_column model o (ColumnToFieldMap info) c → c ∈ changed.
Proof.
  intros Hm Ho Hty Hch Hc Hdiff. unfold columns_of in Hc.
  apply elem_of_list_to_set, list_elem_of_fmap in Hc as (f&->&Hf).
  destruct (column_value_compared info model f) as (x&Hx&Hcx); [done..|].
  destruct (column_value_compared info o f) as (y&Hy&Hcy); [done..|].
  destruct (Hm f Hf) as (R1&_). destruct (Ho f Hf) as (R2&_).
  apply elem_compared in Hf as Hf'. destruct Hf' as [Hin Hig].
  eapply changed_loop_elem; [exact Hch|done..|].
  apply not_true_is_false. intros Heq. apply Hdiff. unfold same_column. rewrite Hcx, Hcy.
  eapply deep_equal_of_Interface; eauto.
Qed.

Lemma changedModelColumns_Ok info model original :
  describes info model → (∀ o, original = Some o → describes info o) →
  ∃ changed, changedModelColumns info model original = Ok changed.
Proof.
  intros Hm Ho. destruct original as [o|]; simpl; [|eauto]. apply changed_loop_Ok.
  intros f Hf Hi. assert (Hc : f ∈ compared info) by (by apply elem_compared).
  destruct (Hm f Hc) as (_&_&_&x&Hx&_). destruct (Ho o eq_refl f Hc) as (_&_&_&y&Hy&_). eauto.
Qed.

Lemma field_values_Ok info model :
  describes info model →
  ∃ values, field_values (CompareFields info) model = Ok values ∧
            ∀ f, f ∈ compared info → DBColumn f ∈ values.*1.
Proof.
  intros Hd. assert (Hsub : ∀ f, f ∈ CompareFields info → IgnoreInDiff f = false →
    field_in_range f model = true ∧ is_Some (FieldByIndex model (Index f))).
  { intros f Hf Hi. destruct (Hd f) as (?&_&_&v&?&_); [by apply elem_compared|eauto]. }
  assert (Hgo : ∃ values, field_values (CompareFields info) model = Ok values ∧
    ∀ f, f ∈ CompareFields info → IgnoreInDiff f = false → DBColumn f ∈ values.*1).
  { clear Hd. induction (CompareFields info) as [|f fs IH]; simpl.
    { exists []. split; [done|]. by intros f Hf%elem_of_nil. }
    destruct IH as (values&Hv&Hin); [intros; apply Hsub; [by right|done]|].
    destruct (IgnoreInDiff f) eqn:Ei; simpl.
    { exists values. split; [done|]. intros g [->|?]%elem_of_cons ?; [congruence|auto]. }
    destruct (Hsub f) as [Hr [v Hf]]; [by left|done|]. rewrite Hr, Hf, Hv. simpl.
    eexists. split; [done|]. intros g [->|?]%elem_of_cons ?; simpl; [by left|right; auto]. }
  destruct Hgo as (values&Hv&Hin). exists values. split; [done|].
  intros f [? ?]%elem_compared. auto.
Qed.

Lemma dom_fieldValues_map l : dom (fieldValues_map l) = list_to_set l.*1.
Proof.
  unfold fieldValues_map. rewrite dom_list_to_map_L. apply set_eq. intros x.
  rewrite !elem_of_list_to_set, !list_elem_of_fmap.
  setoid_rewrite list_elem_of_In. by setoid_rewrite <-in_rev.
Qed.

(** ** Clauses *)

(** Evaluating a registered query on a model, as the invalidation does. *)
Definition checks `{GoPlatform} (info : ModelInfo) (p : QueryParams) (m : gostruct) : result bool :=
  check_match info m p (pred_of p).

(** The clause names compared columns only, and is not made of blanks. *)
Definition clause_known (info : ModelInfo) (p : QueryParams) : Prop :=
  (Where p ≠ "" → TrimSpace (Where p) ≠ "") ∧
  ∀ q, pred_of p = Some q → predicate_Fields q ⊆ columns_of info.

Lemma node_Fields_nonempty n fields : ∃ c, c ∈ node_Fields n fields.
Proof.
  revert fields. induction n as [op l IHl r IHr|field]; intros fields; simpl; [apply IHr|].
  exists field. set_solver.
Qed.

Lemma pred_of_root p q :
  pred_of p = Some q → TrimSpace (Where p) ≠ "" → ∃ n, root q = Some n.
Proof.
  unfold pred_of, parseQueryPredicate. intros Hp Hne.
  destruct (String.eqb_spec (TrimSpace (Where p)) ""); [done|].
  destruct (tokenizeWhere _) as [tokens| |]; try done. simpl in Hp.
  destruct (parseExpression _) as [[node ps]| |]; try done. simpl in Hp.
  destruct (negb _); [done|]. destruct (negb _); [done|]. simplify_eq. simpl. eauto.
Qed.

Lemma WhereFields_deps k p q :
  pred_of p = Some q → WhereFields (deps_of k p) = predicate_Fields q.
Proof.
  unfold pred_of, deps_of, parseQueryForIndex, buildQueryDependencies.
  destruct (parseQueryPredicate p); intros; simplify_eq.
  destruct (_ && _); [destruct (ParseOrderFields _)|]; simpl; set_solver.
Qed.

Lemma checks_unparsed `{GoPlatform} info p m : pred_of p = None → is_Ok (checks info p m) = false.
Proof.
  unfold checks, check_match, CheckQueryMatchWithPredicate, pred_of. intros Hp.
  destruct (TableName info =? ""); [done|]. by destruct (parseQueryPredicate p).
Qed.

Lemma checks_frame `{GoPlatform} info p q m o :
  pred_of p = Some q →
  (∀ c, c ∈ predicate_Fields q → same_column m o (ColumnToFieldMap info) c) →
  checks info p m = checks info p o.
Proof.
  intros Hq Hc. unfold checks, check_match, CheckQueryMatchWithPredicate. rewrite Hq.
  destruct (TableName info =? ""); [done|]. simpl. by apply predicate_Match_frame.
Qed.

#[export] Instance same_column_dec m o ctf c : Decision (same_column m o ctf c).
Proof. unfold same_column. repeat case_match; apply _. Defined.

(** A clause whose evaluation differs has a column on which the models differ. *)
Lemma checks_differ `{GoPlatform} info p q m o :
  pred_of p = Some q → checks info p m ≠ checks info p o →
  ∃ c, c ∈ predicate_Fields q ∧ ¬ same_column m o (ColumnToFieldMap info) c.
Proof.
  intros Hq Hne.
  destruct (decide (set_Forall (λ c, same_column m o (ColumnToFieldMap info) c) (predicate_Fields q))) as [Hall|Hex].
  - destruct Hne. by eapply checks_frame.
  - apply not_set_Forall_Exists in Hex; [|apply _]. destruct Hex as (c&?&?). eauto.
Qed.

(** ** Which queries are candidates *)

(** When all the columns of the model are candidate columns, every known query
    of the table is a candidate. *)
Lemma depends_on_all info k p cols m :
  describes info m → clause_known info p → is_list_key k = true ∨ is_count_key k = true →
  columns_of info ⊆ cols → depends_on k p cols.
Proof.
  intros Hd [Hblank Hknown] Hk Hsub. unfold depends_on.
  destruct (decide (Where p = "")) as [HW|HW]; [auto|].
  destruct (pred_of p) as [q|] eqn:Hq; [|auto]. right; right; right.
  destruct (pred_of_root p q Hq (Hblank HW)) as [n Hn].
  destruct (node_Fields_nonempty n ∅) as [c Hc].
  assert (Hc' : c ∈ predicate_Fields q) by (unfold predicate_Fields; by rewrite Hn).
  assert (Hcol : c ∈ columns_of info) by (by apply (Hknown q)).
  exists c. split_and!; [by apply Hsub| |left; by rewrite (WhereFields_deps k p q)].
  unfold columns_of in Hcol. apply elem_of_list_to_set, list_elem_of_fmap in Hcol as (f&->&Hf).
  by destruct (Hd f Hf) as (_&?&_).
Qed.

(** A changed column of the clause makes the query a candidate. *)
Lemma depends_on_column info k p q cols m c :
  describes info m → clause_known info p → pred_of p = Some q →
  c ∈ predicate_Fields q → c ∈ cols → depends_on k p cols.
Proof.
  intros Hd [_ Hknown] Hq Hc Hcols. unfold depends_on. right; right; right. exists c.
  split_and!; [done| |left; by rewrite (WhereFields_deps k p q)].
  apply (Hknown q Hq) in Hc. unfold columns_of in Hc.
  apply elem_of_list_to_set, list_elem_of_fmap in Hc as (f&->&Hf). by destruct (Hd f Hf) as (_&?&_).
Qed.

Lemma changed_loop_sub fs model o changed :
  changed_loop fs model o = Ok changed →
  changed ⊆ list_to_set (DBColumn <$> filter (λ f, IgnoreInDiff f = false) fs).
Proof.
  revert changed. induction fs as [|f fs IH]; intros changed Hl; simpl in Hl; [simplify_eq; set_solver|].
  destruct (IgnoreInDiff f) eqn:Ei; simpl in Hl.
  { rewrite filter_cons_False by congruence. auto. }
  rewrite filter_cons_True by done. simpl.
  destruct (_ || _); [apply IH in Hl; set_solver|].
  destruct (FieldByIndex model (Index f)), (FieldByIndex o (Index f)); try done.
  destruct (changed_loop fs model o) as [ch| |]; try done. simpl in Hl. simplify_eq.
  specialize (IH ch eq_refl). case_match; set_solver.
Qed.

Lemma changed_sub info model original changed :
  changedModelColumns info model original = Ok changed → changed ⊆ columns_of info.
Proof.
  destruct original as [o|]; simpl; [apply changed_loop_sub|]. by intros [= <-].
Qed.

Lemma depends_on_order info k p changed m :
  describes info m → changed ⊆ columns_of info →
  orderDependencyChanged (deps_of k p) changed = true → depends_on k p changed.
Proof.
  intros Hd Hsub. unfold orderDependencyChanged. case_decide; [done|].
  intros [Hu|Ho]%orb_true_iff; unfold depends_on; [auto|]. bools.
  apply set_choose_L in Ho as [c [Hco Hcc]%elem_of_intersection]. right; right; right.
  exists c. split_and!; [done| |auto]. apply Hsub in Hcc. unfold columns_of in Hcc.
  apply elem_of_list_to_set, list_elem_of_fmap in Hcc as (f&->&Hf). by destruct (Hd f Hf) as (_&?&_).
Qed.

(** ** What a write affects *)

Section affected.
Context `{GoPlatform} `{ModelOps}.

(** The kind of write: creation, deletion, or an update of an original row. *)
Inductive write_kind :=
  | Created
  | Deleted
  | Updated (original : gostruct).

Definition wk_original (model : gostruct) (wk : write_kind) : option gostruct :=
  match wk with Created => None | Deleted => Some model | Updated o => Some o end.
Definition wk_create (wk : write_kind) : bool := match wk with Created => true | _ => false end.
Definition wk_delete (wk : write_kind) : bool := match wk with Deleted => true | _ => false end.

(** The columns the order of a query depends on; an order that is not a list of
    columns is taken to depend on all the compared ones. *)
Definition order_deps (info : ModelInfo) (k : string) (p : QueryParams) : gset string :=
  let deps := deps_of k p in if HasUncertainOrder deps then columns_of info else OrderFields deps.

(** The clause names compared columns only (no column tagged [diff:"-"]), and
    so does the order of a list, which matters for an update. *)
Definition compared_query (info : ModelInfo) (k : string) (p : QueryParams) (wk : write_kind) : Prop :=
  clause_known info p ∧
  match wk with
  | Updated _ => is_list_key k = true → order_deps info k p ⊆ columns_of info
  | _ => True
  end.

Definition differs (info : ModelInfo) (m o : gostruct) (c : string) : Prop :=
  ¬ same_column m o (ColumnToFieldMap info) c.

(** A hidden row becomes visible, and its clause holds before and after. *)
Definition restored (info : ModelInfo) (p : QueryParams) (model : gostruct) (wk : write_kind) : Prop :=
  match wk with
  | Updated o => KeepItem o = false ∧ KeepItem model = true ∧ checks info p model = Ok true ∧ checks info p o = Ok true
  | _ => False
  end.

(** The reasons for which the cached answer of a query is no longer right
    after a write (or cannot be decided): by the clause on the row before and
    after, its order columns, and its visibility. *)
Inductive affected (info : ModelInfo) (model : gostruct) (k : string) (p : QueryParams) : write_kind → Prop :=
  | aff_unparsed wk : pred_of p = None → affected info model k p wk
  | aff_deleted : checks info p model ≠ Ok false → affected info model k p Deleted
  | aff_created : checks info p model ≠ Ok false → affected info model k p Created
  | aff_match o : checks info p model ≠ checks info p o → affected info model k p (Updated o)
  | aff_error o q c :
      pred_of p = Some q → c ∈ predicate_Fields q → differs info model o c →
      is_Ok (checks info p model) = false ∨ is_Ok (checks info p o) = false →
      affected info model k p (Updated o)
  | aff_order o c :
      is_list_key k = true → checks info p model = Ok true → checks info p o = Ok true →
      c ∈ order_deps info k p → differs info model o c → affected info model k p (Updated o)
  | aff_hidden wk : wk ≠ Deleted → KeepItem model = false → affected info model k p wk
  | aff_restored wk : restored info p model wk → affected info model k p wk
  | aff_keep o c :
      c ∈ KeepItemFields model → c ∈ columns_of info → differs info model o c → checks info p model = Ok true →
      affected info model k p (Updated o).

(** A row is part of the answer: its clause holds and it is visible. *)
Definition answers (info : ModelInfo) (p : QueryParams) (m : gostruct) : Prop :=
  checks info p m = Ok true ∧ KeepItem m = true.

(** The reasons leave none out: an update after which the row is in the answer
    and was not, or was and is not, affects the query. *)
Lemma answer_changed_affected info model k p o :
  ¬ (answers info p model ↔ answers info p o) → affected info model k p (Updated o).
Proof.
  unfold answers. intros Hne. destruct (KeepItem model) eqn:Km; [|by apply aff_hidden].
  destruct (checks info p model) as [[]|e|m] eqn:Em, (checks info p o) as [[]|e'|m'] eqn:Eo;
    try (apply aff_match; congruence); try (exfalso; apply Hne; naive_solver).
  destruct (KeepItem o) eqn:Ko; [exfalso; apply Hne; naive_solver|]. by apply aff_restored.
Qed.

(** The same reasons, as phase 1 tests them on the changed columns. *)
Inductive noticed (info : ModelInfo) (model : gostruct) (changed : gset string) (k : string)
    (p : QueryParams) : write_kind → Prop :=
  | ntc_unparsed wk : pred_of p = None → noticed info model changed k p wk
  | ntc_deleted : checks info p model ≠ Ok false → noticed info model changed k p Deleted
  | ntc_created : checks info p model ≠ Ok false → noticed info model changed k p Created
  | ntc_match o : checks info p model ≠ checks info p o → noticed info model changed k p (Updated o)
  | ntc_error o q c :
      pred_of p = Some q → c ∈ predicate_Fields q → c ∈ changed →
      is_Ok (checks info p model) = false ∨ is_Ok (checks info p o) = false →
      noticed info model changed k p (Updated o)
  | ntc_order o :
      is_list_key k = true → checks info p model = Ok true → checks info p o = Ok true →
      orderDependencyChanged (deps_of k p) changed = true →
      noticed info model changed k p (Updated o)
  | ntc_hidden wk : wk ≠ Deleted → KeepItem model = false → noticed info model changed k p wk
  | ntc_keep wk :
      wk ≠ Deleted → keepItemFieldChanged model changed = true → checks info p model = Ok true →
      noticed info model changed k p wk.

(** A restored row phase 1 does not notice: no column that [KeepItemFields]
    names has changed, nor an order column of the list. *)
Definition missed (info : ModelInfo) (model : gostruct) (changed : gset string) (k : string) (p : QueryParams)
    (wk : write_kind) : Prop :=
  restored info p model wk ∧ keepItemFieldChanged model changed = false ∧
  (is_list_key k = true → orderDependencyChanged (deps_of k p) changed = false).

Definition candidates_of (info : ModelInfo) (model : gostruct) (wk : write_kind) (changed : gset string)
    (values : list (string * option goval)) : gset string :=
  cacheCandidateColumns (fieldValues_map values) changed (wk_create wk) (wk_delete wk)
    (negb (KeepItem model) || keepItemFieldChanged model changed).

(** Two models of the same struct type. *)
Definition same_types (info : ModelInfo) (m o : gostruct) : Prop :=
  ∀ f x y, f ∈ compared info → FieldByIndex m (Index f) = Some x →
           FieldByIndex o (Index f) = Some y → typeof x = typeof y.

Lemma columns_in_values info values :
  (∀ f, f ∈ compared info → DBColumn f ∈ values.*1) →
  columns_of info ⊆ dom (fieldValues_map values).
Proof.
  intros Hv c. unfold columns_of. rewrite dom_fieldValues_map, !elem_of_list_to_set.
  intros (f&->&Hf)%list_elem_of_fmap. by apply Hv.
Qed.

Lemma noticed_depends info model wk changed values k p :
  describes info model → (∀ o, wk = Updated o → describes info o ∧ same_types info model o) →
  clause_known info p → is_list_key k = true ∨ is_count_key k = true →
  changedModelColumns info model (wk_original model wk) = Ok changed →
  (∀ f, f ∈ compared info → DBColumn f ∈ values.*1) →
  noticed info model changed k p wk →
  depends_on k p (candidates_of info model wk changed values).
Proof.
  intros Hm Ho Hcl Hk Hch Hv Haff.
  assert (Hall : ∀ cols, columns_of info ⊆ cols → depends_on k p cols) by (intros; by eapply depends_on_all).
  assert (Hfull : columns_of info ⊆ dom (fieldValues_map values)) by (by apply columns_in_values).
  unfold candidates_of, cacheCandidateColumns.
  destruct (negb (wk_create wk) && negb (wk_delete wk) &&
            negb (negb (KeepItem model) || keepItemFieldChanged model changed)) eqn:Eb; [|auto].
  destruct Haff as [wk Hp| | |o Hne|o q c Hq Hc Hcc _|o _ _ _ Hord|wk _ Hkeep|wk _ Hki _]; simpl in *; try done.
  - unfold depends_on. auto.
  - destruct (Ho o eq_refl) as [Hdo Hty].
    destruct (pred_of p) as [q|] eqn:Hq; [|unfold depends_on; auto].
    destruct (checks_differ info p q model o) as (c&Hc&Hd); [done..|].
    eapply depends_on_column; [exact Hm|done..|].
    destruct Hcl as [_ Hkn]. apply (differs_changed info model o changed c Hm Hdo Hty Hch); [|done].
    by apply (Hkn q Hq).
  - by eapply depends_on_column.
  - eapply depends_on_order; [exact Hm| |done]. by apply (changed_sub info model (Some o)).
  - rewrite Hkeep in Eb. by rewrite andb_false_r in Eb.
  - rewrite Hki, orb_true_r in Eb. by rewrite andb_false_r in Eb.
Qed.

Lemma order_moved info k p changed c :
  c ∈ order_deps info k p → c ∈ changed → orderDependencyChanged (deps_of k p) changed = true.
Proof.
  intros Hc Hch. unfold orderDependencyChanged. rewrite decide_False by (intros ->; by apply elem_of_empty in Hch).
  unfold order_deps in Hc. cbv zeta in Hc. destruct (HasUncertainOrder (deps_of k p)); [done|]. simpl.
  apply negb_true_iff, bool_decide_eq_false_2. set_solver.
Qed.

Lemma keep_field_moved model changed c :
  c ∈ KeepItemFields model → c ∈ changed → keepItemFieldChanged model changed = true.
Proof.
  intros Hc Hch. unfold keepItemFieldChanged. rewrite decide_False by (intros ->; by apply elem_of_empty in Hch).
  apply existsb_exists. exists c. split; [by apply list_elem_of_In|]. by apply bool_decide_eq_true_2.
Qed.

(** Every reason is noticed, save a restored row's. *)
Lemma affected_noticed info model wk changed k p :
  describes info model → (∀ o, wk = Updated o → describes info o ∧ same_types info model o) →
  compared_query info k p wk → changedModelColumns info model (wk_original model wk) = Ok changed →
  affected info model k p wk → noticed info model changed k p wk ∨ missed info model changed k p wk.
Proof.
  intros Hm Ho [[_ Hcl] Hord] Hch Haff.
  assert (Hdiff : ∀ o c, wk = Updated o → c ∈ columns_of info → differs info model o c → c ∈ changed).
  { intros o c -> Hc Hd. destruct (Ho o eq_refl) as [Hdo Hty]. exact (differs_changed info model o changed c Hm Hdo Hty Hch Hc Hd). }
  destruct Haff as [wk Hp|Hc|Hc|o Hne|o q c Hq Hc Hd He|o c Hl H1 H2 Hc Hd|wk Hwk Hk|wk Hr|o c Hc Hcol Hd H1].
  - left. by apply ntc_unparsed.
  - left. by apply ntc_deleted.
  - left. by apply ntc_created.
  - left. by apply ntc_match.
  - left. eapply ntc_error; [done..| |done]. eapply Hdiff; [done| |done]. by apply (Hcl q Hq).
  - left. apply ntc_order; [done..|]. eapply order_moved; [done|]. eapply Hdiff; [done| |done]. by apply Hord.
  - left. by apply ntc_hidden.
  - destruct wk as [| |o]; [done..|]. pose proof Hr as (_&_&H1&H2).
    destruct (keepItemFieldChanged model changed) eqn:Ek; [left; by apply ntc_keep|].
    destruct (is_list_key k) eqn:El; [|right; split_and!; [done|done|congruence]].
    destruct (orderDependencyChanged (deps_of k p) changed) eqn:Eo; [left; by apply ntc_order|right].
    by split_and!.
  - left. apply ntc_keep; [done| |done]. eapply keep_field_moved; [done|]. by eapply Hdiff.
Qed.
End affected.

(** ** The phases *)

Section phases.
Context `{GoPlatform} `{ModelOps} {C D : Type} `{HC : CacheClient C} `{HL : !CacheLaws C}.

(** States reached by deleting keys and reading lists. *)
Inductive shrinks : C → C → Prop :=
  | shrinks_refl c : shrinks c c
  | shrinks_delete c c' k : shrinks c c' → shrinks c (cc_Delete k c').1
  | shrinks_read c c' k : shrinks c c' → shrinks c (cc_GetQueryIDs k c').1.
Hint Constructors shrinks : thing.

Lemma shrinks_trans c1 c2 c3 : shrinks c1 c2 → shrinks c2 c3 → shrinks c1 c3.
Proof. induction 2; auto with thing. Qed.

Lemma shrinks_live c c' k : shrinks c c' → live c' k → live c k.
Proof.
  induction 1 as [|c c' x _ IH|c c' x _ IH]; [done|..]; intros Hl; apply IH.
  - by apply law_Delete in Hl as [? _].
  - by apply law_GetQueryIDs_live in Hl.
Qed.

Lemma shrinks_write c key : shrinks c (write_one c key).
Proof.
  unfold write_one. destruct (cc_Delete key c) as [c' r] eqn:E.
  assert (shrinks c c') by (change c' with (c', r).1; rewrite <-E; auto with thing).
  destruct r as [|e|]; [done| |done]. destruct (errors_Is e ErrNotFound); auto with thing.
Qed.

Lemma shrinks_writes keys c : shrinks c (foldl write_one c keys).
Proof.
  revert c. induction keys as [|key keys IH]; intros c; simpl; [auto with thing|].
  eapply shrinks_trans; [apply shrinks_write|apply IH].
Qed.

Lemma shrinks_gather inp ctx keys c : shrinks c (gather inp ctx keys c).1.
Proof.
  revert c. induction keys as [|key keys IH]; intros c; simpl; [auto with thing|].
  destruct (gather_key inp ctx key).
  - specialize (IH c). by destruct (gather inp ctx keys c).
  - eapply shrinks_trans; [|apply IH]. auto with thing.
  - apply IH.
  - auto with thing.
Qed.

Lemma shrinks_reads tasks seen c : shrinks c (read_lists tasks seen c).1.
Proof.
  revert seen c. induction tasks as [|t tasks IH]; intros seen c; simpl; [auto with thing|].
  destruct (_ && _); [|apply IH].
  pose proof (shrinks_read c c (cacheKey t) (shrinks_refl c)) as Hr.
  destruct (cc_GetQueryIDs (cacheKey t) c) as [c' r]. eapply shrinks_trans; [exact Hr|apply IH].
Qed.

(** Deleting never fails for good: a client reports success or a miss. *)
Definition deletes_reliably : Prop :=
  ∀ (c : C) k, match (cc_Delete k c).2 with
               | Ok _ => True
               | Err e => errors_Is e ErrNotFound = true
               | Panic _ => False
               end.

Context (Hrel : deletes_reliably).

Lemma delete_not_live c k : ¬ live (cc_Delete k c).1 k.
Proof.
  intros Hl. specialize (Hrel c k). destruct (cc_Delete k c).2 as [[]|e|] eqn:E; [| |done].
  - apply law_Delete in Hl as [_ Hne]. by apply Hne.
  - by eapply law_Delete_NotFound.
Qed.

Lemma write_one_not_live c k : ¬ live (write_one c k) k.
Proof.
  pose proof (delete_not_live c k) as Hn. unfold write_one. specialize (Hrel c k).
  destruct (cc_Delete k c) as [c' [|e|]]; simpl in *; [done| |done]. by rewrite Hrel.
Qed.

Lemma writes_not_live keys c k : k ∈ keys → ¬ live (foldl write_one c keys) k.
Proof.
  revert c. induction keys as [|key keys IH]; intros c; [by intros ?%elem_of_nil|].
  intros [->|Hk]%elem_of_cons; simpl; [|by apply IH].
  intros Hl%(shrinks_live _ _ _ (shrinks_writes keys _)). by apply write_one_not_live in Hl.
Qed.

(** Phase 1: a key whose check failed is deleted, a task is kept. *)
Lemma gather_spec inp ctx keys c c' tasks k :
  gather inp ctx keys c = (c', Ok tasks) → k ∈ keys →
  match gather_key inp ctx k with
  | VDrop => ¬ live c' k
  | VTask t => t ∈ tasks
  | VSkip => True
  | VPanic _ => False
  end.
Proof.
  revert c tasks. induction keys as [|key keys IH]; intros c tasks; simpl; [by intros _ ?%elem_of_nil|].
  intros Hg [->|Hk]%elem_of_cons.
  - destruct (gather_key inp ctx key) as [t| | |]; [|idtac|done|done].
    + destruct (gather inp ctx keys c) as [c1 [ts| |]]; simplify_eq/=. by left.
    + intros Hl. pose proof (shrinks_gather inp ctx keys (cc_Delete key c).1) as Hs. rewrite Hg in Hs.
      apply (shrinks_live _ _ _ Hs) in Hl. by apply delete_not_live in Hl.
  - destruct (gather_key inp ctx key) as [t| | |]; [|by eapply IH..|done].
    destruct (gather inp ctx keys c) as [c1 [ts| |]] eqn:E; simplify_eq/=.
    specialize (IH _ _ E Hk). destruct (gather_key inp ctx k); try done. by right.
Qed.

Lemma gather_Ok inp ctx keys c :
  (∀ k m, k ∈ keys → gather_key inp ctx k ≠ VPanic m) → ∃ c' tasks, gather inp ctx keys c = (c', Ok tasks).
Proof.
  revert c. induction keys as [|key keys IH]; intros c Hn; simpl; [eauto|].
  assert (IH' : ∀ c, ∃ c' tasks, gather inp ctx keys c = (c', Ok tasks)).
  { intros c0. apply IH. intros k m Hk. apply Hn. by right. }
  destruct (gather_key inp ctx key) as [t| | |m] eqn:E; [|by apply IH'..|].
  - destruct (IH' c) as (c'&tasks&->). simpl. eauto.
  - destruct (Hn key m); [by left|done].
Qed.

(** Phase 2 reads the list of every list task. *)
Definition read_of (c : C) (k : string) : list_read :=
  match (cc_GetQueryIDs k c).2 with
  | Ok ids => ReadIDs (default [] ids)
  | Err e => if errors_Is e ErrNotFound then ReadIDs [] else ReadError e
  | Panic m => ReadError (ErrMsg m)
  end.

Lemma read_lists_seen tasks seen c k r :
  seen !! k = Some r → (read_lists tasks seen c).2 !! k = Some r.
Proof.
  revert seen c. induction tasks as [|t tasks IH]; intros seen c Hs; simpl; [done|].
  destruct (_ && _) eqn:Eb; [|by apply IH].
  destruct (cc_GetQueryIDs (cacheKey t) c) as [c' rr]. apply IH.
  rewrite lookup_insert_ne; [done|]. intros <-. rewrite Hs, bool_decide_true in Eb by done.
  by rewrite andb_false_r in Eb.
Qed.

Lemma read_lists_spec cb tasks seen c t :
  shrinks cb c → t ∈ tasks → isListKey t = true → needsAdd t || needsRemove t = true →
  (∀ k r, seen !! k = Some r → ∃ c0, shrinks cb c0 ∧ r = read_of c0 k) →
  ∃ c0, shrinks cb c0 ∧ (read_lists tasks seen c).2 !! cacheKey t = Some (read_of c0 (cacheKey t)).
Proof.
  intros Hcb Ht Hlist Hneed. revert seen c Hcb.
  induction tasks as [|t' tasks IH]; intros seen c Hcb Hseen; [by apply elem_of_nil in Ht|].
  simpl. apply elem_of_cons in Ht as [<-|Ht].
  - rewrite Hneed, Hlist. simpl.
    destruct (seen !! cacheKey t) as [r|] eqn:Es; simpl.
    + destruct (Hseen _ _ Es) as (c0&Hc0&->). exists c0. split; [done|]. by apply read_lists_seen.
    + destruct (cc_GetQueryIDs (cacheKey t) c) as [c' r] eqn:E. exists c. split; [done|].
      apply read_lists_seen. unfold read_of. rewrite E. apply lookup_insert_eq.
  - destruct (_ && _); [|by apply IH].
    pose proof (shrinks_read cb c (cacheKey t') Hcb) as Hr.
    destruct (cc_GetQueryIDs (cacheKey t') c) as [c' r] eqn:E. apply IH; [done|done|].
    intros k r'. rewrite lookup_insert. case_decide; [|apply Hseen]. intros [= <-]. subst k.
    exists c. split; [done|]. unfold read_of. by rewrite E.
Qed.

(** The only ways a list survives its task: the row enters the query and the
    cached list already has it, or the list could not be read. *)
Definition list_survives (c : C) (id : Z) (t : cacheTask) : Prop :=
  isListKey t = true ∧ ∃ c0, shrinks c c0 ∧
    ((needsAdd t = true ∧ ∃ ids, read_of c0 (cacheKey t) = ReadIDs ids ∧ id ∈ ids)
     ∨ ∃ e, read_of c0 (cacheKey t) = ReadError e).

Lemma containsID_spec ids id : containsID ids id = true ↔ id ∈ ids.
Proof.
  unfold containsID. rewrite existsb_exists. setoid_rewrite Z.eqb_eq. rewrite list_elem_of_In. naive_solver.
Qed.

Lemma run_tasks_spec id tasks c t :
  t ∈ tasks → isListKey t = true ∨ isCountKey t = true → needsAdd t || needsRemove t = true →
  ¬ live (run_tasks id tasks c) (cacheKey t) ∨ list_survives c id t.
Proof.
  intros Ht Hkey Hneed. unfold run_tasks.
  destruct (read_lists tasks ∅ c) as [c1 reads] eqn:Er.
  assert (Hdel : write_needed reads id t = true →
                 ¬ live (foldl write_one c1 (elements (writesNeeded reads id tasks))) (cacheKey t)).
  { intros Hw. apply writes_not_live, elem_of_elements. unfold writesNeeded.
    apply elem_of_list_to_set, list_elem_of_fmap. exists t. split; [done|].
    by apply list_elem_of_filter. }
  destruct (isListKey t) eqn:Hlist.
  - destruct (read_lists_spec c tasks ∅ c t) as (c0&Hc0&Hread);
      [apply shrinks_refl|done..|intros ??; by rewrite lookup_empty|].
    rewrite Er in Hread. simpl in Hread.
    destruct (write_needed reads id t) eqn:Hw; [by auto|right].
    unfold write_needed in Hw. rewrite Hlist, Hread in Hw.
    split; [done|]. exists c0. split; [done|].
    destruct (read_of c0 (cacheKey t)) as [ids|e] eqn:E; [left|eauto].
    destruct (needsAdd t); [|simpl in Hneed; congruence].
    split; [done|]. exists ids. split; [done|]. apply containsID_spec. by bools.
  - destruct Hkey as [?|Hcount]; [done|]. left. apply Hdel. unfold write_needed.
    by rewrite Hlist, Hcount, Hneed.
Qed.
End phases.

(** ** The main theorem *)

Section complete.
Context `{GoPlatform} `{ModelOps} {C D : Type} `{HC : CacheClient C} `{HL : !CacheLaws C}.
Context (Hrel : deletes_reliably (C := C)) (key_table : string → string).

Definition input_of (info : ModelInfo) (model : gostruct) (wk : write_kind) (changed : gset string) : inv_input :=
  MkInput info model (wk_original model wk) (wk_create wk) (wk_delete wk) changed
    (keepItemFieldChanged model changed).

(** The models a write of kind [wk] is checked on. *)
Definition checked_models (model : gostruct) (wk : write_kind) : list gostruct :=
  match wk with Updated o => [model; o] | _ => [model] end.

(** What phase 1 needs to find about a key in the context of an invalidation. *)
Definition in_context (ctx : InvalidationContext) (k : string) (p : QueryParams) : Prop :=
  KeyToParams ctx !! k = Some p ∧ KeyToDeps ctx !! k = Some (deps_of k p) ∧
  KeyToPredicate ctx !! k = Some (pred_of p).

Definition no_panic (info : ModelInfo) (p : QueryParams) (ms : list gostruct) : Prop :=
  ∀ m msg, m ∈ ms → checks info p m ≠ Panic msg.

Lemma decide_task_Some inp k deps mo mc t :
  decide_task inp k deps mo mc = Some t →
  cacheKey t = k ∧ isListKey t = is_list_key k ∧ isCountKey t = is_count_key k ∧
  needsAdd t || needsRemove t = true ∧
  (needsAdd t = true → mc = true ∧ KeepItem (in_model inp) = true ∧ (in_isCreate inp = true ∨ mo = false)).
Proof.
  clear key_table. unfold decide_task, determineCacheAction. intros Hd.
  destruct (KeepItem (in_model inp)), (in_isCreate inp), mo, mc; simpl in *;
    repeat (case_match; simplify_eq/=); naive_solver.
Qed.

(** The row enters the answer: it is kept, it matches, and it is new or did not
    match before. *)
Definition enters (info : ModelInfo) (p : QueryParams) (model : gostruct) (wk : write_kind) : Prop :=
  checks info p model = Ok true ∧ KeepItem model = true ∧
  match wk with Created => True | Deleted => False | Updated o => checks info p o = Ok false end.

(** The original check, as phase 1 computes it. *)
Lemma gather_key_unfold info model wk changed ctx k p :
  in_context ctx k p → is_list_key k = true ∨ is_count_key k = true →
  gather_key (input_of info model wk changed) ctx k =
  match checks info p model with
  | Panic m => VPanic m
  | Err _ => VDrop
  | Ok mc =>
      match wk with
      | Deleted => if mc then VTask (MkTask k (is_list_key k) (is_count_key k) false true) else VSkip
      | _ => match (match wk with Updated o => checks info p o | _ => Ok false end) with
             | Panic m => VPanic m
             | Err _ => VDrop
             | Ok mo => match decide_task (input_of info model wk changed) k (deps_of k p) mo mc with
                        | Some t => VTask t | None => VSkip end
             end
      end
  end.
Proof.
  intros (Hp&Hd&Hq) Hk. unfold gather_key.
  assert (negb (is_list_key k) && negb (is_count_key k) = false) as ->
    by (destruct Hk as [-> | ->]; simpl; [done|by rewrite andb_false_r]).
  rewrite Hp, Hd, Hq. simpl. unfold checks. destruct (check_match _ _ _ _); [|done..].
  by destruct wk.
Qed.

Lemma noticed_verdict info model wk changed ctx k p :
  in_context ctx k p → is_list_key k = true ∨ is_count_key k = true →
  no_panic info p (checked_models model wk) → noticed info model changed k p wk →
  gather_key (input_of info model wk changed) ctx k = VDrop ∨
  ∃ t, gather_key (input_of info model wk changed) ctx k = VTask t ∧
       cacheKey t = k ∧ isListKey t = is_list_key k ∧ isCountKey t = is_count_key k ∧
       needsAdd t || needsRemove t = true ∧ (needsAdd t = true → enters info p model wk).
Proof.
  unfold enters. intros Hctx Hk Hnp Haff. rewrite (gather_key_unfold _ _ _ _ _ _ p) by done.
  assert (Hunp : pred_of p = None → is_Ok (checks info p model) = false) by apply checks_unparsed.
  destruct (checks info p model) as [mc|e|m] eqn:Ec;
    [|by left|by destruct (Hnp model m); [destruct wk; left|]].
  assert (Htask : ∀ mo, wk ≠ Deleted → (∀ o, wk = Updated o → checks info p o = Ok mo) →
    decide_task (input_of info model wk changed) k (deps_of k p) mo mc ≠ None →
    ∃ t, match decide_task (input_of info model wk changed) k (deps_of k p) mo mc with
         | Some t => VTask t | None => VSkip end = VTask t ∧
       cacheKey t = k ∧ isListKey t = is_list_key k ∧ isCountKey t = is_count_key k ∧
       needsAdd t || needsRemove t = true ∧
       (needsAdd t = true → Ok mc = Ok true ∧ KeepItem model = true ∧
          match wk with Created => True | Deleted => False | Updated o => checks info p o = Ok false end)).
  { intros mo Hd Ho Hne. destruct (decide_task _ _ _ _ _) as [t|] eqn:Ed; [|done].
    apply decide_task_Some in Ed as (?&?&?&?&Ha). exists t. split_and!; [done..|].
    intros (->&?&Hmo)%Ha. split_and!; [done..|]. destruct wk as [| |o]; [done..|].
    rewrite (Ho o) by done. destruct Hmo as [?| ->]; done. }
  destruct wk as [| |o].
  - right. apply Htask; [done..|]. unfold decide_task, determineCacheAction, input_of; simpl.
    inversion Haff; subst; try (by specialize (Hunp ltac:(done)));
      destruct mc, (KeepItem model) eqn:?, (keepItemFieldChanged model changed) eqn:?;
      simpl; rewrite ?andb_false_r; simpl; congruence.
  - right. inversion Haff; subst; try congruence; [by specialize (Hunp ltac:(done))|].
    destruct mc; [|congruence]. eexists. split; [done|]. naive_solver.
  - destruct (checks info p o) as [mo|e|m] eqn:Eo; [|by left|by destruct (Hnp o m); [right; left|]].
    right. apply Htask; [done|by intros ? [= <-]|]. unfold decide_task, determineCacheAction, input_of; simpl.
    inversion Haff as [? Hp| | |? Hne|? ? ? ? ? ? Herr|? Hl Hm Ho Hord|? ? Hkeep|? ? Hki Hm]; subst.
    + by specialize (Hunp Hp).
    + destruct mc, mo, (KeepItem model); simpl; try done; congruence.
    + rewrite Ec, Eo in Herr. by destruct Herr.
    + rewrite Hl, Hord. assert (mc = true) as -> by congruence. assert (mo = true) as -> by congruence.
      by destruct (KeepItem model).
    + by rewrite Hkeep.
    + rewrite Hki. assert (mc = true) as -> by congruence.
      destruct mo, (KeepItem model); simpl; rewrite ?orb_true_r; done.
Qed.

Definition invalidate (info : ModelInfo) (model : gostruct) (wk : write_kind) : world C D → world C D * result unit :=
  invalidateAffectedQueryCaches info model (wk_original model wk) (wk_create wk) (wk_delete wk).

(** The setting of an invalidation: the metadata describes the models, and no
    check of a registered query panics. *)
Record inv_setting (info : ModelInfo) (model : gostruct) (wk : write_kind) (w : world C D) : Prop := {
  set_index : index_reachable key_table (w_index w);
  set_id : GetID model ≠ 0%Z;
  set_model : describes info model;
  set_original o : wk = Updated o → describes info o ∧ same_types info model o;
  set_panic k p : keyToParams (w_index w) !! k = Some p → key_table k = TableName info →
    no_panic info p (checked_models model wk)
}.

Lemma wk_original_describes info model wk w :
  inv_setting info model wk w → ∀ o, wk_original model wk = Some o → describes info o.
Proof. intros Hs o. destruct wk; simpl; intros [= <-]; [apply Hs|by eapply Hs]. Qed.

(** The context phase 1 works on, and that no verdict is a panic. *)
Lemma no_verdict_panic info model wk changed w values :
  inv_setting info model wk w →
  let ctx := GetInvalidationContext (w_index w) (TableName info) (fieldValues_map values)
               (candidates_of info model wk changed values) in
  ∀ k msg, k ∈ CacheKeys ctx → gather_key (input_of info model wk changed) ctx k ≠ VPanic msg.
Proof.
  intros Hs ctx k msg Hk.
  assert (Hwf : index_wf key_table (w_index w)) by (apply index_wf_reachable, Hs).
  destruct (candidate_registered key_table _ _ _ _ _ Hwf Hk) as [Ht [p Hp]].
  assert (Hctx : in_context ctx k p) by (by apply (GetInvalidationContext_entry key_table)).
  pose proof (set_panic _ _ _ _ Hs k p Hp Ht) as Hnp.
  destruct (is_list_key k) eqn:El, (is_count_key k) eqn:Ecn;
    try (unfold gather_key; rewrite El, Ecn; done);
    (rewrite (gather_key_unfold _ _ _ _ _ _ p) by auto;
     destruct (checks info p model) as [mc| |m] eqn:E; [|done|destruct (Hnp model m); [destruct wk; left|done]];
     destruct wk as [| |o]; [by destruct (decide_task _ _ _ _ _)|by destruct mc|];
     destruct (checks info p o) as [mo| |m] eqn:Eo; [by destruct (decide_task _ _ _ _ _)|done|];
     destruct (Hnp o m); [right; left|done]).
Qed.

Lemma invalidate_unfold info model wk w :
  inv_setting info model wk w →
  ∃ changed values,
    changedModelColumns info model (wk_original model wk) = Ok changed ∧
    (∀ f, f ∈ compared info → DBColumn f ∈ values.*1) ∧
    let ctx := GetInvalidationContext (w_index w) (TableName info) (fieldValues_map values)
                 (candidates_of info model wk changed values) in
    ∃ c tasks, gather (input_of info model wk changed) ctx (CacheKeys ctx) (w_cache w) = (c, Ok tasks) ∧
    invalidate info model wk w = (MkWorld (run_tasks (GetID model) tasks c) (w_index w) (w_db w), Ok ()).
Proof.
  intros Hs. destruct (changedModelColumns_Ok info model (wk_original model wk)) as [changed Hch];
    [apply Hs|by eapply wk_original_describes|].
  destruct (field_values_Ok info model) as (values&Hv&Hin); [apply Hs|].
  exists changed, values. split; [done|]. split; [done|]. intros ctx.
  destruct (gather_Ok (input_of info model wk changed) ctx (CacheKeys ctx) (w_cache w)) as (c&tasks&Hg).
  { intros k m. by apply no_verdict_panic. }
  exists c, tasks. split; [done|].
  unfold invalidate, invalidateAffectedQueryCaches. destruct (Z.eqb_spec (GetID model) 0); [by destruct (set_id _ _ _ _ Hs)|].
  rewrite Hch, Hv. unfold on_cache, process_candidates. simpl.
  change (GetInvalidationContext _ _ _ _) with ctx. change (MkInput _ _ _ _ _ _ _) with (input_of info model wk changed).
  by rewrite Hg.
Qed.

(** An entry phase 1 notices is deleted, or is a list the row enters that has
    its id already, or one that cannot be read. *)
Lemma noticed_invalidated info model wk w k p changed :
  inv_setting info model wk w →
  keyToParams (w_index w) !! k = Some p → key_table k = TableName info →
  is_list_key k = true ∨ is_count_key k = true → clause_known info p →
  changedModelColumns info model (wk_original model wk) = Ok changed →
  noticed info model changed k p wk →
  ¬ live (w_cache (invalidate info model wk w).1) k ∨
  is_list_key k = true ∧ ∃ c, shrinks (w_cache w) c ∧
    ((enters info p model wk ∧ ∃ ids, read_of c k = ReadIDs ids ∧ GetID model ∈ ids)
     ∨ ∃ e, read_of c k = ReadError e).
Proof.
  intros Hs Hp Ht Hk Hcl Hch Haff.
  destruct (invalidate_unfold info model wk w Hs) as (changed'&values&Hch'&Hin&Hrun). simpl in Hrun.
  assert (changed' = changed) as -> by congruence.
  destruct Hrun as (c&tasks&Hg&->). simpl.
  set (ctx := GetInvalidationContext _ _ _ _) in *.
  assert (Hwf : index_wf key_table (w_index w)) by (apply index_wf_reachable, Hs).
  assert (Hcand : k ∈ CacheKeys ctx).
  { eapply (candidate_if_depends key_table); [done..|]. apply noticed_depends; try done; apply Hs. }
  assert (Hctx : in_context ctx k p) by (by apply (GetInvalidationContext_entry key_table)).
  assert (Hshr : shrinks (w_cache w) c).
  { pose proof (shrinks_gather (input_of info model wk changed) ctx (CacheKeys ctx) (w_cache w)) as Hsh.
    by rewrite Hg in Hsh. }
  pose proof (gather_spec Hrel _ _ _ _ _ _ k Hg Hcand) as Hspec.
  destruct (noticed_verdict info model wk changed ctx k p) as [Hv|(t&Hv&Hkey&Hl&Hc&Hneed&Hadd)];
    [done..|by eapply Hs|done| |]; rewrite Hv in Hspec.
  - left. intros Hlive. apply Hspec. unfold run_tasks in Hlive.
    destruct (read_lists tasks ∅ c) as [c1 reads] eqn:Er.
    apply (shrinks_live _ _ _ (shrinks_writes _ _)) in Hlive.
    eapply shrinks_live; [|exact Hlive]. pose proof (shrinks_reads tasks ∅ c) as Hrd. by rewrite Er in Hrd.
  - destruct (run_tasks_spec Hrel (GetID model) tasks c t) as [Hn|(Hlk&c0&Hc0&Hsurv)];
      [done|rewrite Hl, Hc; done|done|left; by rewrite <-Hkey|right].
    rewrite Hkey in Hsurv. split; [congruence|]. exists c0.
    split; [by eapply shrinks_trans|]. naive_solver.
Qed.

Lemma invalidation_complete_lemma info model wk w k p changed :
  inv_setting info model wk w →
  keyToParams (w_index w) !! k = Some p → key_table k = TableName info →
  is_list_key k = true ∨ is_count_key k = true → compared_query info k p wk →
  changedModelColumns info model (wk_original model wk) = Ok changed →
  affected info model k p wk →
  (invalidate info model wk w).2 = Ok () ∧
  (¬ live (w_cache (invalidate info model wk w).1) k ∨
   is_list_key k = true ∧ (∃ c, shrinks (w_cache w) c ∧
     ((enters info p model wk ∧ ∃ ids, read_of c k = ReadIDs ids ∧ GetID model ∈ ids)
      ∨ ∃ e, read_of c k = ReadError e)) ∨
   missed info model changed k p wk).
Proof.
  intros Hs Hp Ht Hk Hcl Hch Haff.
  assert (Hok : (invalidate info model wk w).2 = Ok ()).
  { destruct (invalidate_unfold info model wk w Hs) as (?&?&_&_&?&?&_&Hrun). by rewrite Hrun. }
  split; [done|].
  destruct (affected_noticed info model wk changed k p) as [Hn|Hm]; try done; [apply Hs|by eapply Hs| |by auto].
  destruct (noticed_invalidated info model wk w k p changed) as [?|?]; auto. apply Hcl.
Qed.

(** C8: for any cache client that satisfies the client laws and whose deletions report success
    or a miss, the invalidation after a create, an update or a delete ends without error, and a
    registered list or count query of the table that the write affects (by its clause on the row
    before and after, its order columns, and the row's visibility) has no live entry, except in
    three cases, all stated: it is a list that the row enters and that already had its id; it is
    a list whose read failed; or a hidden row is restored, its clause holding before and after,
    and no KeepItemFields column and, for a list, no order column has changed (missed;
    cache.go:533, Witnesses.restored_row_not_invalidated). Assumed: the clause and, for an
    update of a list, the order name only columns that the code compares, none tagged diff:"-"
    (cache.go:194); the metadata leads each compared column to its field; the index was built by
    its operations; no check of a registered clause panics. *)
Theorem invalidation_complete info model wk w k p changed :
  inv_setting info model wk w →
  keyToParams (w_index w) !! k = Some p → key_table k = TableName info →
  is_list_key k = true ∨ is_count_key k = true → compared_query info k p wk →
  changedModelColumns info model (wk_original model wk) = Ok changed →
  affected info model k p wk →
  (invalidate info model wk w).2 = Ok () ∧
  (¬ live (w_cache (invalidate info model wk w).1) k ∨
   is_list_key k = true ∧ (∃ c, shrinks (w_cache w) c ∧
     ((enters info p model wk ∧ ∃ ids, read_of c k = ReadIDs ids ∧ GetID model ∈ ids)
      ∨ ∃ e, read_of c k = ReadError e)) ∨
   missed info model changed k p wk).
Proof. apply invalidation_complete_lemma. Qed.

(** ** Clearing a table *)

Lemma delete_all_spec keys e (c : C) :
  (∀ k, k ∈ keys → ¬ live (delete_all keys e c).1 k) ∧ (∀ k, live (delete_all keys e c).1 k → live c k) ∧
  (delete_all keys e c).2 = match e with Some e => Err e | None => Ok () end.
Proof.
  revert e c. induction keys as [|x keys IH]; intros e c; cbn [delete_all].
  { split_and!; [by intros k ?%elem_of_nil|done|done]. }
  pose proof (delete_not_live Hrel c x) as Hx. pose proof (Hrel c x) as Hr.
  assert (Hmono : ∀ k, live (cc_Delete x c).1 k → live c k) by (by intros k [? _]%law_Delete).
  destruct (cc_Delete x c) as [c1 r]. cbn [fst snd] in *.
  assert ((match r with
           | Err e' => if errors_Is e' ErrNotFound then e else Some (default e' e)
           | _ => e end) = e) as -> by (destruct r as [|e'|]; [done| |done]; by rewrite Hr).
  destruct (IH e c1) as (Hn&Hm&Hres). split_and!; [|by auto|done].
  intros k [->|Hk]%elem_of_cons Hl; [by apply Hx, Hm|by eapply Hn].
Qed.

(** InvalidateQueryCaches leaves no live entry for any registered query of the table, adds
    none, keeps the index, and returns no error when deletions report success or a miss. *)
Theorem InvalidateQueryCaches_clears info (w : world C D) k p :
  index_reachable key_table (w_index w) → TableName info ≠ "" →
  keyToParams (w_index w) !! k = Some p → key_table k = TableName info →
  let w' := (InvalidateQueryCaches info w).1 in
  (InvalidateQueryCaches info w).2 = Ok () ∧ ¬ live (w_cache w') k ∧
  w_index w' = w_index w ∧ ∀ k', live (w_cache w') k' → live (w_cache w) k'.
Proof.
  intros Hwf%index_wf_reachable Hne Hp Ht. unfold InvalidateQueryCaches, on_cache.
  destruct (delete_all_spec (GetQueryKeysForTable (w_index w) (TableName info)) None (w_cache w)) as (Hn&Hm&Hr).
  destruct (delete_all _ None (w_cache w)) as [c r]. cbn in *. split_and!; [done| |done|done].
  apply Hn. unfold GetQueryKeysForTable. apply String.eqb_neq in Hne. rewrite Hne.
  apply elem_of_elements. rewrite <-Ht. by eapply ok_table, wf_entry.
Qed.
End complete.
