(* ===== verification/Locker.v ===== *)
(** * The key locker (internal/cache/locker.go) and the writers that use it

    A fixed array of 256 mutexes; a cache key is mapped to one of them by its
    hash.  The last phase of an invalidation (cache.go) takes the key's mutex,
    deletes the key from the cache, releases the mutex, and deletes once more
    after an error.  Several invalidations run at the same time: [step]
    interleaves them, one call of the locker or of the cache at a time. *)

From S2P Require Import Prelude GoStrings GoValues Predicate CacheIndex LocalCache CacheClient.

Open Scope string_scope.

(** ** The lock manager *)

Definition lockShardCount : Z := 256.

(** [shards]: the state of each mutex, [true] when locked. *)
Definition CacheKeyLockManagerInternal : Type := list bool.
Definition NewCacheKeyLockManagerInternal : CacheKeyLockManagerInternal :=
  replicate (Z.to_nat lockShardCount) false.

(** [hash/fnv]: 32-bit FNV-1a. *)
Definition fnv32a (s : string) : Z :=
  fold_left (λ h c, (Z.lxor h (code c) * 16777619) mod 2 ^ 32)%Z
    (String.list_ascii_of_string s) 2166136261%Z.

Definition shard (key : string) : nat := Z.to_nat (fnv32a key mod lockShardCount).

(** [Ok None]: the mutex is locked and the call waits. *)
Definition Lock (m : CacheKeyLockManagerInternal) (key : string) : result (option CacheKeyLockManagerInternal) :=
  if key =? "" then Ok (Some m)
  else match m !! shard key with
       | Some false => Ok (Some (<[shard key := true]> m))
       | Some true => Ok None
       | None => Panic "index out of range"
       end.

(** Unlocking a mutex that is not locked is a fatal error of the Go runtime, which
    no [recover] stops; nothing between here and the caller of a write recovers,
    so a [Panic], which ends every caller, stands for it. *)
Definition Unlock (m : CacheKeyLockManagerInternal) (key : string) : result CacheKeyLockManagerInternal :=
  if key =? "" then Ok m
  else match m !! shard key with
       | Some true => Ok (<[shard key := false]> m)
       | Some false => Panic "sync: unlock of unlocked mutex"
       | None => Panic "index out of range"
       end.

(** ** The writers of phase 4 *)

(** Where a writer is in the body of its loop. *)
Inductive phase :=
  | Outside
  | Holding (key : string)
  | Deleted (key : string) (failed : bool)
  | Again (key : string).

Record writer := MkWriter { todo : list string; at_phase : phase }.

Section writers.
Context {C : Type} `{CacheClient C}.

Definition delete_failed (r : result unit) : bool :=
  match r with
  | Err e => negb (errors_Is e ErrNotFound)
  | _ => false
  end.

(** The next call of a writer; [Ok None] when it waits or has finished. *)
Definition writer_step (m : CacheKeyLockManagerInternal) (c : C) (w : writer)
    : result (option (CacheKeyLockManagerInternal * C * writer)) :=
  match at_phase w with
  | Outside =>
      match todo w with
      | [] => Ok None
      | key :: rest =>
          match Lock m key with
          | Ok (Some m) => Ok (Some (m, c, MkWriter rest (Holding key)))
          | Ok None => Ok None
          | Err e => Err e
          | Panic msg => Panic msg
          end
      end
  | Holding key =>
      match cc_Delete key c with
      | (c, Panic msg) => Panic msg
      | (c, r) => Ok (Some (m, c, MkWriter (todo w) (Deleted key (delete_failed r))))
      end
  | Deleted key failed =>
      match Unlock m key with
      | Ok m => Ok (Some (m, c, MkWriter (todo w) (if failed then Again key else Outside)))
      | Err e => Err e
      | Panic msg => Panic msg
      end
  | Again key =>
      match cc_Delete key c with
      | (c, Panic msg) => Panic msg
      | (c, _) => Ok (Some (m, c, MkWriter (todo w) Outside))
      end
  end.

(** ** Interleaving *)

Record system := MkSystem {
  s_locks : CacheKeyLockManagerInternal;
  s_cache : C;
  s_writers : list writer
}.

Inductive step : system → system → Prop :=
  | step_writer s i w m c w' :
      s_writers s !! i = Some w →
      writer_step (s_locks s) (s_cache s) w = Ok (Some (m, c, w')) →
      step s (MkSystem m c (<[i := w']> (s_writers s))).

Definition start (c : C) (keys : list (list string)) : system :=
  MkSystem NewCacheKeyLockManagerInternal c ((λ ks, MkWriter ks Outside) <$> keys).

Definition finished (w : writer) : bool :=
  match todo w, at_phase w with
  | [], Outside => true
  | _, _ => false
  end.

(** One writer running alone until it waits or finishes. *)
Fixpoint run_writer (fuel : nat) (m : CacheKeyLockManagerInternal) (c : C) (w : writer)
    : CacheKeyLockManagerInternal * C * writer :=
  match fuel with
  | O => (m, c, w)
  | S fuel =>
      match writer_step m c w with
      | Ok (Some (m, c, w)) => run_writer fuel m c w
      | _ => (m, c, w)
      end
  end.

(** The mutex a writer holds. *)
Definition held_shard (w : writer) : option nat :=
  match at_phase w with
  | Holding key | Deleted key _ => if key =? "" then None else Some (shard key)
  | _ => None
  end.
End writers.
