(* ===== verification/LockerFacts.v ===== *)
(** * Facts about the key locker

    The mutexes exclude one another's holders; whatever the interleaving, the
    writers of an invalidation never deadlock, never release a mutex that is
    not locked, and finish after a bounded number of steps, with every mutex
    free and every key they were to delete gone. *)

From S2P Require Import Prelude GoStrings GoValues Predicate CacheIndex LocalCache CacheClient.
From S2P Require Import QueryMatch Metadata Invalidate InvalidateFacts Locker.

Open Scope nat_scope.
Open Scope string_scope.

(** ** Shards *)

Lemma shard_lt key : (shard key < 256)%nat.
Proof. unfold shard, lockShardCount. pose proof (Z.mod_pos_bound (fnv32a key) 256 ltac:(done)). lia. Qed.

Lemma fnv32a_range key : (0 ≤ fnv32a key < 2 ^ 32)%Z.
Proof.
  unfold fnv32a. assert (0 ≤ 2166136261 < 2 ^ 32)%Z as Hh by lia. revert Hh. generalize 2166136261%Z as h.
  induction (String.list_ascii_of_string key) as [|a l IH]; intros h Hh; simpl; [done|].
  apply IH. by apply Z.mod_pos_bound.
Qed.

(** C40: for every key the FNV-32a hash is a 32-bit number and the shard an index of the array:
    Lock never panics, a Lock that succeeds is undone by Unlock, and Unlock panics only on a
    mutex that is not locked. *)
Theorem shard_bounds (key : string) (m : CacheKeyLockManagerInternal) :
  length m = Z.to_nat lockShardCount →
  (0 ≤ fnv32a key < 2 ^ 32)%Z ∧ (shard key < length m)%nat ∧
  (∃ o, Lock m key = Ok o ∧ ∀ m', o = Some m' → length m' = length m ∧ Unlock m' key = Ok m) ∧
  ∀ msg, Unlock m key = Panic msg → msg = "sync: unlock of unlocked mutex".
Proof.
  unfold CacheKeyLockManagerInternal. intros Hlen. pose proof (shard_lt key) as Hs.
  split_and!; [apply fnv32a_range..|by rewrite Hlen| |]; unfold Lock, Unlock, CacheKeyLockManagerInternal.
  - destruct (key =? ""); [eexists; split; [done|]; by intros m' [= <-]|].
    destruct (lookup_lt_is_Some_2 m (shard key)) as [b Hb]; [by rewrite Hlen|]. rewrite Hb.
    destruct b; (eexists; split; [done|]); intros m' [= <-]. split; [by rewrite length_insert|].
    rewrite list_lookup_insert_eq by (by rewrite Hlen). by rewrite list_insert_insert_eq, list_insert_id.
  - intros msg. destruct (key =? ""); [done|].
    destruct (lookup_lt_is_Some_2 m (shard key)) as [b Hb]; [by rewrite Hlen|]. rewrite Hb.
    destruct b; [done|]. by intros [= <-].
Qed.

Section writers.
Context {C : Type} `{HC : CacheClient C} `{HL : !CacheLaws C}.

(** ** One step *)

Inductive writer_steps (m : CacheKeyLockManagerInternal) (c : C) (w : writer)
    : CacheKeyLockManagerInternal → C → writer → Prop :=
  | ws_lock key rest m' : at_phase w = Outside → todo w = key :: rest → Lock m key = Ok (Some m') →
      writer_steps m c w m' c (MkWriter rest (Holding key))
  | ws_delete key c' r : at_phase w = Holding key → cc_Delete key c = (c', r) → 
      writer_steps m c w m c' (MkWriter (todo w) (Deleted key (delete_failed r)))
  | ws_unlock key failed m' : at_phase w = Deleted key failed → Unlock m key = Ok m' →
      writer_steps m c w m' c (MkWriter (todo w) (if failed then Again key else Outside))
  | ws_again key c' r : at_phase w = Again key → cc_Delete key c = (c', r) →
      writer_steps m c w m c' (MkWriter (todo w) Outside).

Lemma writer_step_inv m c w m' c' w' :
  writer_step m c w = Ok (Some (m', c', w')) → writer_steps m c w m' c' w'.
Proof.
  unfold writer_step. destruct (at_phase w) as [|key|key failed|key] eqn:Ep; intros E.
  - destruct (todo w) as [|key rest] eqn:Et; [done|].
    destruct (Lock m key) as [[m1|]| |] eqn:El; simplify_eq. by eapply ws_lock.
  - destruct (cc_Delete key c) as [c1 r] eqn:Ed. destruct r; simplify_eq;
      match type of Ed with _ = (_, ?r) => by apply (ws_delete _ _ _ key _ r) end.
  - destruct (Unlock m key) as [m1| |] eqn:Eu; simplify_eq. by eapply ws_unlock.
  - destruct (cc_Delete key c) as [c1 r] eqn:Ed. destruct r; simplify_eq; by eapply ws_again.
Qed.

(** What a step does to the mutexes: nothing, or it takes a free one, or it
    frees the one its writer holds. *)
Lemma writer_step_locks m c w m' c' w' :
  writer_steps m c w m' c' w' →
  (m' = m ∧ held_shard w' = held_shard w) ∨
  (∃ j, held_shard w = None ∧ m !! j = Some false ∧ m' = <[j := true]> m ∧ held_shard w' = Some j) ∨
  (∃ j, held_shard w = Some j ∧ m !! j = Some true ∧ m' = <[j := false]> m ∧ held_shard w' = None).
Proof.
  destruct 1 as [key rest m' Ep _ El|key c' r Ep _|key failed m' Ep Eu|key c' r Ep _];
    unfold held_shard; rewrite Ep; simpl; [|by left| |by left].
  - unfold Lock in El. destruct (key =? ""); [left; by simplify_eq|]. right; left.
    destruct (m !! shard key) as [[]|] eqn:E; simplify_eq. eauto.
  - unfold Unlock in Eu. destruct (key =? ""); [left; simplify_eq; by destruct failed|]. right; right.
    destruct (m !! shard key) as [[]|] eqn:E; simplify_eq. exists (shard key). by destruct failed.
Qed.

(** ** Mutual exclusion *)

Record locks_ok (m : list bool) (ws : list writer) : Prop := {
  ok_length : length m = 256;
  ok_held i w j : ws !! i = Some w → held_shard w = Some j → m !! j = Some true;
  ok_owner j : m !! j = Some true → ∃ i w, ws !! i = Some w ∧ held_shard w = Some j;
  ok_unique i1 i2 w1 w2 j : ws !! i1 = Some w1 → ws !! i2 = Some w2 →
    held_shard w1 = Some j → held_shard w2 = Some j → i1 = i2
}.

Lemma locks_ok_start (c : C) keys : locks_ok (s_locks (start c keys)) (s_writers (start c keys)).
Proof.
  split; simpl.
  - done.
  - intros i w j Hw. apply list_lookup_fmap_Some in Hw as (ks & -> & _). done.
  - intros j [? _]%lookup_replicate. done.
  - intros i1 i2 w1 w2 j Hw. apply list_lookup_fmap_Some in Hw as (ks & -> & _). done.
Qed.

Lemma locks_ok_same (m : list bool) ws i w w' :
  locks_ok m ws → ws !! i = Some w → held_shard w' = held_shard w → locks_ok m (<[i := w']> ws).
Proof.
  intros [Hlen Hh Ho Hu] Hw Hs.
  assert (∀ k x j, <[i := w']> ws !! k = Some x → held_shard x = Some j → ∃ y, ws !! k = Some y ∧ held_shard y = Some j) as Hback.
  { intros k x j [(->&->&_)|[_ ?]]%list_lookup_insert_Some Hx; [rewrite Hs in Hx|]; eauto. }
  split; [done| | |].
  - intros k x j Hk Hx. destruct (Hback k x j Hk Hx) as (y&?&?). eauto.
  - intros j (k&x&Hk&Hx)%Ho. destruct (decide (k = i)) as [->|Hne].
    + simplify_eq. exists i, w'. rewrite list_lookup_insert_eq by (by eapply lookup_lt_Some). by rewrite Hs.
    + exists k, x. by rewrite list_lookup_insert_ne.
  - intros i1 i2 w1 w2 j H1 H2 Hw1 Hw2.
    destruct (Hback i1 w1 j H1 Hw1) as (y1&?&?), (Hback i2 w2 j H2 Hw2) as (y2&?&?). eauto.
Qed.

Lemma locks_ok_take (m : list bool) ws i w w' j :
  locks_ok m ws → ws !! i = Some w → held_shard w = None → m !! j = Some false → held_shard w' = Some j →
  locks_ok (<[j := true]> m) (<[i := w']> ws).
Proof.
  intros [Hlen Hh Ho Hu] Hw Hn Hj Hs.
  assert (∀ k x, <[i := w']> ws !! k = Some x → held_shard x = Some j → k = i) as Honly.
  { intros k x [(->&_)|[_ Hk]]%list_lookup_insert_Some Hx; [done|]. by rewrite (Hh k x j Hk Hx) in Hj. }
  split; [by rewrite length_insert| | |].
  - intros k x j' Hk Hx. destruct (decide (j' = j)) as [->|Hne].
    + apply list_lookup_insert_eq. by eapply lookup_lt_Some.
    + rewrite list_lookup_insert_ne by done.
      apply list_lookup_insert_Some in Hk as [(_&->&_)|[_ ?]]; [congruence|eauto].
  - intros j' [(->&_&_)|[Hne Hj']]%list_lookup_insert_Some.
    + exists i, w'. rewrite list_lookup_insert_eq by (by eapply lookup_lt_Some). done.
    + destruct (Ho j' Hj') as (k&x&?&?). exists k, x.
      rewrite list_lookup_insert_ne by (intros ->; congruence). done.
  - intros i1 i2 w1 w2 j' H1 H2 Hw1 Hw2. destruct (decide (j' = j)) as [->|Hne].
    + by rewrite (Honly i1 w1 H1 Hw1), (Honly i2 w2 H2 Hw2).
    + apply list_lookup_insert_Some in H1 as [(_&->&_)|[_ ?]]; [congruence|].
      apply list_lookup_insert_Some in H2 as [(_&->&_)|[_ ?]]; [congruence|eauto].
Qed.

Lemma locks_ok_free (m : list bool) ws i w w' j :
  locks_ok m ws → ws !! i = Some w → held_shard w = Some j → held_shard w' = None →
  locks_ok (<[j := false]> m) (<[i := w']> ws).
Proof.
  intros [Hlen Hh Ho Hu] Hw Hj Hs.
  assert (∀ k x j', <[i := w']> ws !! k = Some x → held_shard x = Some j' → ws !! k = Some x ∧ k ≠ i) as Hback.
  { intros k x j' [(_&->&_)|[? ?]]%list_lookup_insert_Some Hx; [congruence|done]. }
  split; [by rewrite length_insert| | |].
  - intros k x j' Hk Hx. destruct (Hback k x j' Hk Hx) as [Hk' Hne].
    rewrite list_lookup_insert_ne; [eauto|]. intros ->. apply Hne. by eapply Hu.
  - intros j' [(_&?&_)|[Hne Hj']]%list_lookup_insert_Some; [done|].
    destruct (Ho j' Hj') as (k&x&?&?). exists k, x.
    rewrite list_lookup_insert_ne by (intros ->; congruence). done.
  - intros i1 i2 w1 w2 j' H1 H2 Hw1 Hw2.
    destruct (Hback i1 w1 j' H1 Hw1), (Hback i2 w2 j' H2 Hw2). eauto.
Qed.

Lemma locks_ok_step (s s' : system (C := C)) :
  step s s' → locks_ok (s_locks s) (s_writers s) → locks_ok (s_locks s') (s_writers s').
Proof.
  destruct 1 as [s i w m c w' Hw Hs%writer_step_inv]; simpl; intros Hok.
  destruct (writer_step_locks _ _ _ _ _ _ Hs) as [[-> He]|[(j&Hn&Hj&->&He)|(j&Hj&_&->&He)]].
  - by eapply locks_ok_same.
  - by eapply locks_ok_take.
  - by eapply locks_ok_free.
Qed.

(** ** Termination *)

Definition phase_work (p : phase) : nat :=
  match p with Outside => 0 | Again _ => 1 | Deleted _ _ => 2 | Holding _ => 3 end.
Definition work (w : writer) : nat := 4 * length (todo w) + phase_work (at_phase w).
Definition total_work (ws : list writer) : nat := sum_list (work <$> ws).

Lemma writer_step_work m c w m' c' w' : writer_steps m c w m' c' w' → (work w' < work w)%nat.
Proof.
  destruct 1 as [key rest m' Ep Et _|key c' r Ep _|key failed m' Ep _|key c' r Ep _];
    unfold work; rewrite Ep; simpl; [rewrite Et; simpl; lia|lia| |lia].
  destruct failed; simpl; lia.
Qed.

Lemma total_work_insert ws i w w' :
  ws !! i = Some w → (work w' < work w)%nat → (total_work (<[i := w']> ws) < total_work ws)%nat.
Proof.
  unfold total_work. revert i. induction ws as [|x ws IH]; intros [|i] Hw Hlt; simplify_eq/=; [lia|].
  specialize (IH i Hw Hlt). simpl in *. lia.
Qed.

Lemma steps_bounded n (s s' : system (C := C)) : nsteps step n s s' → (n + total_work (s_writers s') ≤ total_work (s_writers s))%nat.
Proof.
  induction 1 as [|n s s1 s2 Hst _ IH]; [done|].
  destruct Hst as [s i w m c w' Hw Hs%writer_step_inv]; simpl in *.
  pose proof (total_work_insert _ _ _ _ Hw (writer_step_work _ _ _ _ _ _ Hs)). lia.
Qed.

(** ** Progress *)

Lemma inside_steps m ws c i w :
  locks_ok m ws → ws !! i = Some w → at_phase w ≠ Outside → ∃ p, writer_step m c w = Ok (Some p).
Proof.
  intros Hok Hw Hp. unfold writer_step. destruct (at_phase w) as [|key|key failed|key] eqn:Ep; [done|..].
  - pose proof (law_Delete_panic c key) as Hn. destruct (cc_Delete key c) as [c' []]; naive_solver.
  - assert (∃ m', Unlock m key = Ok m') as [m' ->]; [|eauto].
    unfold Unlock, CacheKeyLockManagerInternal. destruct (key =? "") eqn:Ek; [eauto|].
    rewrite (ok_held m ws Hok i w (shard key)); [eauto|done|]. unfold held_shard. by rewrite Ep, Ek.
  - pose proof (law_Delete_panic c key) as Hn. destruct (cc_Delete key c) as [c' []]; naive_solver.
Qed.

Lemma lock_free m ws key :
  locks_ok m ws → Forall (λ w, at_phase w = Outside) ws → ∃ m', Lock m key = Ok (Some m').
Proof.
  intros [Hlen _ Ho _] Hall. unfold Lock, CacheKeyLockManagerInternal. destruct (key =? ""); [eauto|].
  destruct (m !! shard key) as [[]|] eqn:E; [|eauto|].
  - destruct (Ho _ E) as (i&w&Hw&Hh). rewrite Forall_lookup in Hall. specialize (Hall i w Hw).
    unfold held_shard in Hh. by rewrite Hall in Hh.
  - apply lookup_ge_None in E. pose proof (shard_lt key). lia.
Qed.

Lemma progress (s : system (C := C)) :
  locks_ok (s_locks s) (s_writers s) → (∃ s', step s s') ∨ Forall (λ w, finished w = true) (s_writers s).
Proof.
  intros Hok. destruct (decide (Forall (λ w, finished w = true) (s_writers s))) as [|Hno]; [by right|left].
  assert (∃ i w p, s_writers s !! i = Some w ∧ writer_step (s_locks s) (s_cache s) w = Ok (Some p))
    as (i&w&[[m c] w']&?&?); [|by eexists; econstructor].
  destruct (decide (Forall (λ w, match at_phase w with Outside => true | _ => false end = true) (s_writers s)))
    as [Hout|Hin].
  - apply not_Forall_Exists, Exists_exists in Hno as (w&[i Hw]%list_elem_of_lookup&Hf); [|solve_decision].
    assert (at_phase w = Outside) as Ep.
    { rewrite Forall_lookup in Hout. specialize (Hout i w Hw). by destruct (at_phase w). }
    destruct (todo w) as [|key rest] eqn:Et; [destruct Hf; unfold finished; by rewrite Et, Ep|].
    destruct (lock_free _ _ key Hok) as [m' El].
    { eapply Forall_impl; [exact Hout|]. intros x; simpl. by destruct (at_phase x). }
    exists i, w. eexists. split; [done|]. unfold writer_step. by rewrite Ep, Et, El.
  - apply not_Forall_Exists, Exists_exists in Hin as (w&[i Hw]%list_elem_of_lookup&Hf); [|solve_decision].
    destruct (inside_steps _ _ (s_cache s) i w Hok Hw) as [p Hp]; [|eauto 10].
    intros E. destruct Hf. by rewrite E.
Qed.
(** ** What the writers do to the cache *)

(** The keys a writer has still to delete. *)
Definition pending (w : writer) (k : string) : Prop :=
  k ∈ todo w ∨ at_phase w = Holding k ∨ at_phase w = Deleted k true ∨ at_phase w = Again k.

Definition keys_ok (keys : list (list string)) (c : C) (ws : list writer) : Prop :=
  ∀ i ks w k, keys !! i = Some ks → ws !! i = Some w → k ∈ ks → live c k → pending w k.

Lemma keys_ok_start c keys : keys_ok keys c (s_writers (start c keys)).
Proof.
  intros i ks w k Hks Hw Hk _. simpl in Hw. rewrite list_lookup_fmap, Hks in Hw. simplify_eq/=. by left.
Qed.

Lemma writer_step_live m c w m' c' w' k : writer_steps m c w m' c' w' → live c' k → live c k.
Proof.
  destruct 1 as [| key c' r _ E | | key c' r _ E]; [done| |done|];
    intros Hl; apply (law_Delete c key k); by rewrite E.
Qed.

Lemma writer_step_pending m c w m' c' w' k :
  deletes_reliably (C := C) → writer_steps m c w m' c' w' → pending w k → live c' k → pending w' k.
Proof.
  intros Hrel. unfold pending.
  destruct 1 as [key rest m' Ep Et _|key c' r Ep E|key failed m' Ep _|key c' r Ep E]; rewrite Ep; simpl.
  - rewrite Et, elem_of_cons. naive_solver.
  - pose proof (delete_not_live Hrel c key) as Hn. rewrite E in Hn; simpl in Hn.
    intros [?|[?|[?|?]]] Hl; simplify_eq; auto. by destruct Hn.
  - intros [?|[?|[?|?]]] _; simplify_eq; auto.
  - pose proof (delete_not_live Hrel c key) as Hn. rewrite E in Hn; simpl in Hn.
    intros [?|[?|[?|?]]] Hl; simplify_eq; auto. by destruct Hn.
Qed.

Lemma keys_ok_step keys (s s' : system (C := C)) :
  deletes_reliably (C := C) → step s s' →
  keys_ok keys (s_cache s) (s_writers s) → keys_ok keys (s_cache s') (s_writers s').
Proof.
  intros Hrel. destruct 1 as [s i w m c w' Hw Hs%writer_step_inv]; simpl; intros Hok j ks x k Hks Hx Hk Hl.
  pose proof (writer_step_live _ _ _ _ _ _ k Hs Hl) as Hl'.
  apply list_lookup_insert_Some in Hx as [(->&->&_)|[_ Hx]]; [|by eapply Hok].
  eapply writer_step_pending; [done..| |done]. by eapply Hok.
Qed.

Lemma finished_not_pending w k : finished w = true → ¬ pending w k.
Proof.
  unfold finished, pending. destruct w as [[|] []]; simpl; try done.
  intros _ [?%elem_of_nil|[?|[?|?]]]; done.
Qed.

Lemma nsteps_ind_inv (P : system (C := C) → Prop) n s s' :
  (∀ a b, step a b → P a → P b) → nsteps step n s s' → P s → P s'.
Proof. intros HP. induction 1; eauto. Qed.

Lemma finished_free m ws :
  locks_ok m ws → Forall (λ w, finished w = true) ws → m = NewCacheKeyLockManagerInternal.
Proof.
  intros [Hlen _ Ho _] Hall. apply list_eq. intros j.
  destruct (m !! j) as [[]|] eqn:E; symmetry.
  - destruct (Ho j E) as (i&w&Hw&Hh). rewrite Forall_lookup in Hall. specialize (Hall i w Hw).
    destruct w as [[|] []]; done.
  - apply lookup_replicate. apply lookup_lt_Some in E. rewrite Hlen in E. done.
  - apply lookup_ge_None in E. apply lookup_ge_None. unfold NewCacheKeyLockManagerInternal.
    rewrite length_replicate. unfold lockShardCount. lia.
Qed.

(** When all have finished, every key they were given is gone. *)
Lemma finished_deleted (c : C) (keys : list (list string)) (n : nat) (s : system (C := C)) (k : string) :
  deletes_reliably (C := C) → nsteps step n (start c keys) s →
  Forall (λ w, finished w = true) (s_writers s) → k ∈ concat keys → ¬ live (s_cache s) k.
Proof.
  intros Hrel Hn Hf Hk Hl. apply list_elem_of_In, in_concat in Hk as (ks&Hks%list_elem_of_In&Hk%list_elem_of_In).
  apply list_elem_of_lookup in Hks as [i Hi].
  assert (length (s_writers s) = length keys) as Hlen.
  { apply (nsteps_ind_inv (λ s, length (s_writers s) = length keys) n (start c keys) s); [|done|by apply length_fmap].
    intros a b [? ? ? ? ? ? _ _]; simpl. by rewrite length_insert. }
  assert (keys_ok keys (s_cache s) (s_writers s)) as Hok.
  { apply (nsteps_ind_inv (λ s, keys_ok keys (s_cache s) (s_writers s)) n (start c keys) s); [|done|apply keys_ok_start].
    intros a b. by apply keys_ok_step. }
  destruct (lookup_lt_is_Some_2 (s_writers s) i) as [w Hw]; [rewrite Hlen; by eapply lookup_lt_Some|].
  rewrite Forall_lookup in Hf. apply (finished_not_pending w k); eauto.
Qed.

(** C21: invalidations that delete their keys at the same time, each taking the key's mutex
    around a deletion, never deadlock: in every interleaving at most one holds a given mutex,
    the run has at most four steps per key, and a state that cannot step is one where all have
    finished, every mutex is free and, when deletions are reliable, every key is gone from the
    cache. *)
Theorem concurrent_writers_finish (c : C) (keys : list (list string)) (n : nat) (s : system (C := C)) :
  nsteps step n (start c keys) s →
  (n ≤ 4 * sum_list (length <$> keys))%nat ∧
  (∀ i1 i2 w1 w2 j, s_writers s !! i1 = Some w1 → s_writers s !! i2 = Some w2 →
     held_shard w1 = Some j → held_shard w2 = Some j → i1 = i2) ∧
  ((∃ s', step s s') ∨
   (Forall (λ w, finished w = true) (s_writers s) ∧ s_locks s = NewCacheKeyLockManagerInternal ∧
    (deletes_reliably (C := C) → ∀ k, k ∈ concat keys → ¬ live (s_cache s) k))).
Proof.
  intros Hn.
  assert (locks_ok (s_locks s) (s_writers s)) as Hok.
  { apply (nsteps_ind_inv (λ s, locks_ok (s_locks s) (s_writers s)) n (start c keys) s); [|done|apply locks_ok_start].
    intros a b. apply locks_ok_step. }
  split; [|split].
  - pose proof (steps_bounded n _ _ Hn) as Hb.
    enough (total_work (s_writers (start c keys)) = 4 * sum_list (length <$> keys))%nat by lia.
    clear. unfold total_work, start; cbn [s_writers].
    induction keys as [|ks keys IH]; csimpl in *; [done|]. unfold work at 1; simpl. lia.
  - apply (ok_unique _ _ Hok).
  - destruct (progress s Hok) as [?|Hf]; [by left|right]. split_and!; [done|by eapply finished_free|].
    intros Hrel k. by apply (finished_deleted c keys n s k).
Qed.

(** ** The sequential phase *)

Lemma Lock_Unlock key :
  ∃ m, Lock NewCacheKeyLockManagerInternal key = Ok (Some m) ∧ Unlock m key = Ok NewCacheKeyLockManagerInternal.
Proof.
  unfold Lock, Unlock, CacheKeyLockManagerInternal. destruct (key =? ""); [eauto|].
  assert ((NewCacheKeyLockManagerInternal : list bool) !! shard key = Some false) as E.
  { apply lookup_replicate. split; [done|apply shard_lt]. }
  rewrite E. eexists; split; [done|].
  rewrite list_lookup_insert_eq by (by eapply lookup_lt_Some).
  by rewrite list_insert_insert_eq, list_insert_id.
Qed.

(** C22: a writer that runs alone does exactly what the sequential phase 4 of an invalidation
    does to the cache, ends after at most four steps per key, and leaves every mutex free. *)
Theorem run_writer_sequential (c : C) (keys : list string) (fuel : nat) :
  (4 * length keys ≤ fuel)%nat →
  run_writer fuel NewCacheKeyLockManagerInternal c (MkWriter keys Outside)
  = (NewCacheKeyLockManagerInternal, foldl write_one c keys, MkWriter [] Outside).
Proof.
  revert c fuel. induction keys as [|key keys IH]; intros c fuel Hf; simpl in *; [by destruct fuel|].
  destruct fuel as [|[|[|[|fuel]]]]; [lia..|]. destruct (Lock_Unlock key) as (m&El&Eu).
  cbn [run_writer]. unfold writer_step at 1; simpl. rewrite El. unfold writer_step at 1; simpl.
  pose proof (law_Delete_panic c key) as Hp. unfold write_one at 2.
  destruct (cc_Delete key c) as [c1 r]; simpl in Hp.
  destruct r as [u|e|msg]; [| |by destruct (Hp msg)]; unfold writer_step at 1; simpl; rewrite Eu.
  - apply (IH c1 (S fuel)). lia.
  - destruct (errors_Is e ErrNotFound); simpl; [apply (IH c1 (S fuel)); lia|].
    unfold writer_step at 1; simpl. pose proof (law_Delete_panic c1 key) as Hp1.
    destruct (cc_Delete key c1) as [c2 r2]; simpl in *.
    destruct r2 as [|e2|msg]; [apply IH; lia..|by destruct (Hp1 msg)].
Qed.
End writers.

(** ** Schedules *)

Section schedules.
Context {C : Type} `{CacheClient C}.

(** The writers stepping in the order of a schedule. *)
Fixpoint run_schedule (sched : list nat) (s : system (C := C)) : option system :=
  match sched with
  | [] => Some s
  | i :: sched =>
      match s_writers s !! i with
      | None => None
      | Some w =>
          match writer_step (s_locks s) (s_cache s) w with
          | Ok (Some (m, c, w')) => run_schedule sched (MkSystem m c (<[i := w']> (s_writers s)))
          | _ => None
          end
      end
  end.

Lemma run_schedule_nsteps sched s s' : run_schedule sched s = Some s' → nsteps step (length sched) s s'.
Proof.
  revert s. induction sched as [|i sched IH]; intros s E; simpl in *; [simplify_eq; constructor|].
  destruct (s_writers s !! i) as [w|] eqn:Hw; [|done].
  destruct (writer_step _ _ w) as [[[[m c] w']|]| |] eqn:Hs; try done.
  econstructor; [by econstructor|by apply IH].
Qed.
End schedules.
