(* ===== verification/Config.v ===== *)
(** * Configuration and constructors (config.go, thing.go)

    The package's global adapters, cache lifetime and cache version, and the
    constructors of a Thing.  Database and cache adapters are opaque handles
    here: the file keeps who is used, the other files what they do.  Every
    function holds [configMutex] for its whole body, so each is one step.  The
    lines the functions print are left out. *)

From S2P Require Import Prelude GoStrings GoValues Predicate QueryMatch CacheIndex Metadata Logging.

Open Scope string_scope.

Section config.
Context {D C X : Type}.

(** The package variables; [None] is a nil interface. *)
Record globals := MkGlobals {
  globalDB : option D;
  globalCache : option C;
  isConfigured : bool;
  atomicCacheTTLNs : Z;
  cacheVersion : Z
}.

Definition initial_globals : globals := MkGlobals None None false 0 0.

(** A value of type [interface{}], as the three type assertions of [Configure]
    see it; all are [None] for nil and for any other type. *)
Record any := MkAny {
  as_DBAdapter : option D;
  as_CacheClient : option C;
  as_Duration : option Z
}.

Record Config := MkConfig {
  cfg_DB : option D;
  cfg_Cache : option C;
  cfg_TTL : Z;
  cfg_Logger : option Logger;
  cfg_LogLevel : Level
}.

(** [8 * time.Hour], in nanoseconds. *)
Definition defaultTTL : Z := 8 * 3600 * 1000000000.

Definition getGlobalCacheTTL (s : globals) : Z := atomicCacheTTLNs s.
Definition setGlobalCacheTTL (d : Z) (s : globals) : globals :=
  MkGlobals (globalDB s) (globalCache s) (isConfigured s) d (cacheVersion s).
Definition read_cacheVersion (s : globals) : Z := cacheVersion s.

(** [DefaultLocalCache]: the local cache of the process. *)
Context (DefaultLocalCache : C).

(** The arguments, by their number. *)
Definition configure_args (args : list any) : result (D * C * Z) :=
  let first_error := Err (ErrMsg "Configure: first argument must be a DBAdapter") in
  match args with
  | [a] =>
      match as_DBAdapter a with
      | Some db => Ok (db, DefaultLocalCache, 0%Z)
      | None => first_error
      end
  | [a; b] =>
      match as_DBAdapter a with
      | Some db => Ok (db, default DefaultLocalCache (as_CacheClient b), 0%Z)
      | None => first_error
      end
  | [a; b; c] =>
      match as_DBAdapter a with
      | Some db => Ok (db, default DefaultLocalCache (as_CacheClient b), default 0%Z (as_Duration c))
      | None => first_error
      end
  | _ => Err (ErrMsg "Configure: must provide at least a DBAdapter")
  end.

(** [now]: the clock, in seconds. *)
Definition Configure (now : Z) (args : list any) (s : globals) : globals * result unit :=
  let s := if isConfigured s then s
           else MkGlobals (globalDB s) (globalCache s) (isConfigured s) (atomicCacheTTLNs s) now in
  match configure_args args with
  | Ok (db, cache, ttl) =>
      let s := setGlobalCacheTTL (if (0 <? ttl)%Z then ttl else defaultTTL) s in
      (MkGlobals (Some db) (Some cache) true (atomicCacheTTLNs s) (cacheVersion s), Ok ())
  | Err e => (s, Err e)
  | Panic m => (s, Panic m)
  end.

Definition any_db (db : D) : any := MkAny (Some db) None None.
Definition any_client (c : C) : any := MkAny None (Some c) None.
Definition any_ttl (d : Z) : any := MkAny None None (Some d).

(** The lines that [Configure] logs are not added to the log. *)
Definition ConfigureWithConfig (now : Z) (cfg : Config) (s : globals) (ls : log_state)
    : globals * log_state * result unit :=
  match cfg_DB cfg with
  | None => (s, ls, Err (ErrMsg "dbAdapter must be non-nil"))
  | Some db =>
      match cfg_Cache cfg with
      | None => (s, ls, Err (ErrMsg "cacheClient must be non-nil"))
      | Some cache =>
          let ls := match cfg_Logger cfg with Some l => SetLogger ls (Some l) | None => ls end in
          let ls := if (cfg_LogLevel cfg =? LogDefault)%Z then ls else SetLogLevel ls (cfg_LogLevel cfg) in
          let '(s, r) :=
            if (0 <? cfg_TTL cfg)%Z
            then Configure now [any_db db; any_client cache; any_ttl (cfg_TTL cfg)] s
            else Configure now [any_db db; any_client cache] s in
          (s, ls, r)
      end
  end.

(** [Cache] and [GlobalDB]. *)
Definition Cache (s : globals) : option C := globalCache s.
Definition GlobalDB (s : globals) : option D := globalDB s.

(** ** Things *)

Record Thing := MkThing { t_db : D; t_cache : C; t_ctx : X; t_info : ModelInfo }.

Context (Background : X).

(** [New] on the struct type [typeName] with fields [fs] and methods [mm].  Its
    call of [utils.RegisterTypeRecursive] (thing.go:52) changes only gob's table
    of types; it is modelled on its own, in GobRegistry.v. *)
Definition New (typeName : string) (mm : model_methods) (fs : list sfield)
    (db : option D) (cache : option C) : result Thing :=
  match db with
  | None => Err (ErrMsg "dbAdapter must be non-nil")
  | Some db =>
      let cache := default DefaultLocalCache cache in
      match GetCachedModelInfo typeName mm fs with
      | Err e => Err (ErrWrap ("failed to get model info for type " +:+ typeName) e)
      | Panic m => Panic m
      | Ok info =>
          if HasCustomKeepItem info && negb (HasCustomKeepItemFields info)
          then Err (ErrMsg ("model " +:+ typeName +:+ " overrides KeepItem() but not KeepItemFields()"))
          else Ok (MkThing db cache Background info)
      end
  end.

Definition Use (typeName : string) (mm : model_methods) (fs : list sfield) (s : globals) : result Thing :=
  if isConfigured s then New typeName mm fs (globalDB s) (globalCache s)
  else Err (ErrMsg "thing.Use[T] called before thing.Configure()").

(** A nil context becomes the background one; the Thing itself is copied. *)
Definition WithContext (ctx : option X) (t : Thing) : Thing :=
  MkThing (t_db t) (t_cache t) (default Background ctx) (t_info t).

(** ** Runs *)

(** The calls that change the configuration. *)
Inductive config_step : globals → globals → Prop :=
  | step_Configure now args s : config_step s (Configure now args s).1
  | step_ConfigureWithConfig now cfg s ls : config_step s (ConfigureWithConfig now cfg s ls).1.1.

(** ** The configuration invariant *)

Record globals_ok (s : globals) : Prop := {
  gok_set : isConfigured s = true →
    is_Some (globalDB s) ∧ is_Some (globalCache s) ∧ (0 < atomicCacheTTLNs s)%Z;
  gok_unset : isConfigured s = false →
    globalDB s = None ∧ globalCache s = None ∧ atomicCacheTTLNs s = 0%Z
}.

Lemma globals_ok_initial : globals_ok initial_globals.
Proof. by split. Qed.

Lemma Configure_cases now args s :
  ((Configure now args s).2 ≠ Ok () ∧ (Configure now args s).1
     = MkGlobals (globalDB s) (globalCache s) (isConfigured s) (atomicCacheTTLNs s)
         (if isConfigured s then cacheVersion s else now)) ∨
  (∃ db cache ttl, configure_args args = Ok (db, cache, ttl) ∧
     Configure now args s
     = (MkGlobals (Some db) (Some cache) true (if (0 <? ttl)%Z then ttl else defaultTTL)
          (if isConfigured s then cacheVersion s else now), Ok ())).
Proof.
  unfold Configure. destruct (configure_args args) as [[[db cache] ttl]|e|m].
  - right. exists db, cache, ttl. split; [done|]. by destruct s as [? ? [] ? ?].
  - left. split; [done|]. by destruct s as [? ? [] ? ?].
  - left. split; [done|]. by destruct s as [? ? [] ? ?].
Qed.

Lemma globals_ok_Configure now args s : globals_ok s → globals_ok (Configure now args s).1.
Proof.
  intros [H1 H2]. destruct (Configure_cases now args s) as [[_ ->]|(db&cache&ttl&_&->)]; split; simpl; try done.
  intros _. split_and!; [done..|]. destruct (Z.ltb_spec 0 ttl); [done|]. unfold defaultTTL. lia.
Qed.

Lemma ConfigureWithConfig_cases now cfg s ls :
  (ConfigureWithConfig now cfg s ls).1.1 = s ∨
  ∃ args, (ConfigureWithConfig now cfg s ls).1.1 = (Configure now args s).1.
Proof.
  unfold ConfigureWithConfig. destruct (cfg_DB cfg) as [db|], (cfg_Cache cfg) as [cache|]; auto.
  cbn zeta. destruct (0 <? cfg_TTL cfg)%Z; right;
    [exists [any_db db; any_client cache; any_ttl (cfg_TTL cfg)]|exists [any_db db; any_client cache]];
    by destruct (Configure _ _ _).
Qed.

(** A configuration that is accepted takes the adapters, the lifetime and the
    logging it names; an unset level leaves the one in force. *)
Lemma ConfigureWithConfig_accepts now cfg s ls db cache :
  cfg_DB cfg = Some db → cfg_Cache cfg = Some cache →
  ConfigureWithConfig now cfg s ls =
    (MkGlobals (Some db) (Some cache) true (if (0 <? cfg_TTL cfg)%Z then cfg_TTL cfg else defaultTTL)
       (if isConfigured s then cacheVersion s else now),
     LogState (match cfg_Logger cfg with Some l => Some l | None => ls_logger ls end)
       (if (cfg_LogLevel cfg =? Default)%Z then ls_level ls else cfg_LogLevel cfg) (ls_out ls),
     Ok ()).
Proof.
  intros Hdb Hca. unfold ConfigureWithConfig, LogDefault, SetLogLevel. rewrite Hdb, Hca. cbn zeta.
  destruct (0 <? cfg_TTL cfg)%Z eqn:T; unfold Configure, configure_args; simpl; rewrite ?T;
    destruct s as [? ? [] ? ?], ls as [lg lv out], (cfg_Logger cfg), (cfg_LogLevel cfg =? Default)%Z; done.
Qed.

Lemma globals_ok_step s s' : config_step s s' → globals_ok s → globals_ok s'.
Proof.
  destruct 1 as [now args s|now cfg s ls]; intros Hs; [by apply globals_ok_Configure|].
  destruct (ConfigureWithConfig_cases now cfg s ls) as [->|[args ->]]; [done|]. by apply globals_ok_Configure.
Qed.

Lemma version_Configure now args s :
  isConfigured s = true → isConfigured (Configure now args s).1 = true ∧ cacheVersion (Configure now args s).1 = cacheVersion s.
Proof. intros Hc. by destruct (Configure_cases now args s) as [[_ ->]|(db&cache&ttl&_&->)]; simpl; rewrite Hc. Qed.

Lemma version_step s s' :
  config_step s s' → isConfigured s = true → isConfigured s' = true ∧ cacheVersion s' = cacheVersion s.
Proof.
  destruct 1 as [now args s|now cfg s ls]; intros Hs; [by apply version_Configure|].
  destruct (ConfigureWithConfig_cases now cfg s ls) as [->|[args ->]]; [done|]. by apply version_Configure.
Qed.

(** C38: in every state reached by configuration calls: a configured package has a database, a
    cache and a positive TTL, stays configured and keeps its cache version; Use fails before a
    configuration, and after it gives a Thing with the configured adapters for every model whose
    metadata is valid and which does not override KeepItem alone. *)
Theorem reachable_globals (s s' : globals) :
  rtc config_step initial_globals s → rtc config_step s s' →
  (isConfigured s = true → is_Some (globalDB s) ∧ is_Some (globalCache s) ∧ (0 < getGlobalCacheTTL s)%Z) ∧
  (isConfigured s = true → isConfigured s' = true ∧ read_cacheVersion s' = read_cacheVersion s) ∧
  (∀ typeName mm fs, isConfigured s = false →
     Use typeName mm fs s = Err (ErrMsg "thing.Use[T] called before thing.Configure()")) ∧
  (∀ typeName mm fs info, isConfigured s = true → GetCachedModelInfo typeName mm fs = Ok info →
     (HasCustomKeepItem info = true → HasCustomKeepItemFields info = true) →
     ∃ t, Use typeName mm fs s = Ok t ∧ t_info t = info ∧
          globalDB s = Some (t_db t) ∧ globalCache s = Some (t_cache t)).
Proof.
  intros Hr Hrun.
  assert (globals_ok s) as Hok by (eapply (rtc_ind_r globals_ok); eauto using globals_ok_initial, globals_ok_step).
  split_and!.
  - apply Hok.
  - clear Hr Hok. induction Hrun as [|s s1 s2 Hst _ IH]; [done|]. intros Hc.
    destruct (version_step s s1 Hst Hc) as [Hc1 Hv]. destruct (IH Hc1) as [? ->]. done.
  - intros typeName mm fs Hc. unfold Use. by rewrite Hc.
  - intros typeName mm fs info Hc Hi Hk. destruct (gok_set s Hok Hc) as ([db Hdb]&[cache Hca]&_).
    exists (MkThing db cache Background info). unfold Use, New. rewrite Hc, Hdb, Hca, Hi. simpl.
    split; [|done]. destruct (HasCustomKeepItem info); simpl; [by rewrite Hk|done].
Qed.
End config.
