(* ===== verification/ModelTypes.v ===== *)
(** * Model types: methods, declared indexes and the memo table of metadata

    [internal/schema/keepitem.go] and the parts of [internal/schema/metadata.go]
    that look at a [reflect.Type] through its methods: whether a model declares
    [KeepItem] itself, the indexes its [Indexes] method returns, the table
    [ModelCache].  [Metadata.GetCachedModelInfo] is what is computed from the
    fields and from what the methods return; here its arguments come from a
    description of the type, and the results are kept by type.

    What the Go compiler does with methods is a parameter: [rm_method ptr name] is
    the source file reported for the method [name] in the method set of the type
    ([ptr = false]) or of the pointer to it, if the set has it. *)

From S2P Require Import Prelude GoStrings GoStringsFacts GoValues Metadata.

Open Scope string_scope.

(** ** Types *)

(** An element of the slice that [Indexes] returns. *)
Inductive index_value :=
  | IVPtr (p : option index_value)
  | IVStruct (s : gostruct)
  | IVOther (k : kind).

Record struct_type := MkStructType {
  rm_name : string;
  rm_fields : list sfield;
  rm_TableName : option string;
  (** [Indexes]: whether its signature is right, and what it returns. *)
  rm_Indexes : option (bool * list index_value);
  rm_method : bool → string → option string
}.

Inductive model_type :=
  | MTStruct (t : positive)
  | MTPtr (t : model_type)
  | MTOther (k : kind).

Class ModelTypes := struct_types : positive → struct_type.

(** ** Which methods a type declares *)

Definition autogenerated : string := "<autogenerated>".

(** [methodIsCustom(rt, methodName)]: [None] when the method does not exist. *)
Definition methodIsCustom (methods : string → option string) (methodName : string) : option bool :=
  file ← methods methodName; Some (negb (Contains file autogenerated)).

Definition hasCustomMethod (methods : bool → string → option string) (methodName : string) : bool :=
  match methodIsCustom (methods false) methodName with
  | Some isCustom =>
      if isCustom then true
      else match methodIsCustom (methods true) methodName with
           | Some isCustomPtr => isCustomPtr
           | None => false
           end
  | None =>
      match methodIsCustom (methods true) methodName with
      | Some isCustom => isCustom
      | None => false
      end
  end.

Definition HasCustomKeepItem (t : struct_type) : bool := hasCustomMethod (rm_method t) "KeepItem".
Definition HasCustomKeepItemFields (t : struct_type) : bool := hasCustomMethod (rm_method t) "KeepItemFields".

(** ** Declared indexes *)

Definition value_string (v : goval) : option string :=
  match under v with VString s => Some s | _ => None end.
Definition value_bool (v : goval) : option bool :=
  match under v with VBool b => Some b | _ => None end.
Definition value_strings (v : goval) : option (list string) :=
  match under v with
  | VSlice t l =>
      if bool_decide (type_kind t = KString) then Some (default "" ∘ value_string <$> default [] l) else None
  | _ => None
  end.

Definition index_fields_error : goerr :=
  ErrMsg "index must have Name string, Columns []string, Unique bool, and Where string fields".

Definition indexInfoFromStruct (s : gostruct) : result IndexInfo :=
  match FieldByName s "Name" ≫= value_string, FieldByName s "Columns" ≫= value_strings,
        FieldByName s "Unique" ≫= value_bool, FieldByName s "Where" ≫= value_string with
  | Some name, Some columns, Some unique, Some whr => Ok (MkIndexInfo name columns unique whr)
  | _, _, _, _ => Err index_fields_error
  end.

Definition indexInfoFromValue (v : index_value) : result IndexInfo :=
  match v with
  | IVPtr None => Err (ErrMsg "index must not be nil")
  | IVPtr (Some (IVStruct s)) | IVStruct s => indexInfoFromStruct s
  | IVPtr (Some _) | IVOther _ => Err (ErrMsg "index must be a struct")
  end.

(** The loop of [appendProgrammaticIndexes], from element [i] on. *)
Fixpoint append_declared (typeName tableName : string) (columnToField : gmap string string) (i : nat)
    (vs : list index_value) (plain uniq : list IndexInfo) : result (list IndexInfo * list IndexInfo) :=
  match vs with
  | [] => Ok (plain, uniq)
  | v :: vs =>
      let wrap e := ErrWrap (typeName +:+ ".Indexes[" +:+ FormatInt (Z.of_nat i) +:+ "]") e in
      match (idx ← indexInfoFromValue v;
             _ ← validateProgrammaticIndex columnToField idx;
             appendIndex tableName idx plain uniq) with
      | Ok p => append_declared typeName tableName columnToField (S i) vs p.1 p.2
      | Err e => Err (wrap e)
      | Panic m => Panic m
      end
  end.

(** [appendProgrammaticIndexes] as a whole. *)
Definition append_programmatic (t : struct_type) (tableName : string) (columnToField : gmap string string)
    (plain uniq : list IndexInfo) : result (list IndexInfo * list IndexInfo) :=
  match rm_Indexes t with
  | None => Ok (plain, uniq)
  | Some (false, _) => Err (ErrMsg (rm_name t +:+ ".Indexes must have signature Indexes() []thing.Index"))
  | Some (true, vs) => append_declared (rm_name t) tableName columnToField 0 vs plain uniq
  end.

(** ** The metadata of a type *)

Abbreviation ModelCache := (gmap positive ModelInfo).

(** The body of [GetCachedModelInfo] for a type that is not in the table. *)
Definition compute_info (t : struct_type) : result ModelInfo :=
  let b := processFields 0 false (rm_fields t) build_empty in
  let tableName := getTableNameFromType (rm_name t) (default "" (rm_TableName t)) in
  let composite := (λ e, MkIndexInfo (IdxName e) (sort_by id (IdxColumns e)) (IdxUnique e) (IdxWhere e)) <$>
                   (map_to_list (b_composite b)).*2 in
  let plain := (b_Indexes b ++ filter (λ e, IdxUnique e = false) composite)%list in
  let uniq := (b_UniqueIndexes b ++ filter (λ e, IdxUnique e = true) composite)%list in
  p ← append_programmatic t tableName (b_ColumnToField b) plain uniq;
  Ok {| TableName := tableName;
        PkName := if b_pk b =? "" then "id" else b_pk b;
        Columns := b_Columns b;
        Fields_ := b_Fields b;
        FieldToColumnMap := b_FieldToColumn b;
        ColumnToFieldMap := b_ColumnToField b;
        CompareFields := b_Compare b;
        Indexes := sort_by IdxName p.1;
        UniqueIndexes := sort_by IdxName p.2;
        Metadata.HasCustomKeepItem := HasCustomKeepItem t;
        Metadata.HasCustomKeepItemFields := HasCustomKeepItemFields t |}.

Section types.
Context `{ModelTypes}.

(** [GetCachedModelInfo] with its table. *)
Definition load_info (cache : ModelCache) (t : model_type) : ModelCache * result ModelInfo :=
  let t := match t with MTPtr t => t | t => t end in
  match t with
  | MTStruct d =>
      match cache !! d with
      | Some info => (cache, Ok info)
      | None =>
          match compute_info (struct_types d) with
          | Ok info => (<[d := info]> cache, Ok info)
          | Err e => (cache, Err e)
          | Panic m => (cache, Panic m)
          end
      end
  | MTPtr _ | MTOther _ => (cache, Err (ErrMsg "expected a struct type"))
  end.

(** *** [NewThingByType] *)

(** [Value.Set] on a field found by name: a field that is not exported is read
    only, and setting it panics. *)
Definition set_thing_field (name : string) : result unit :=
  if IsExported name then Ok () else Panic "reflect: reflect.Value.Set using value obtained using unexported field".

(** The Thing is a struct of four fields, set one by one; the metadata is asked
    for before the last one. *)
Definition NewThingByType {D C : Type} (cache : ModelCache) (t : model_type) (db : D) (client : C)
    : ModelCache * result (D * C * ModelInfo) :=
  let t := match t with MTPtr t => t | t => t end in
  match t with
  | MTStruct d =>
      match (_ ← set_thing_field "db"; _ ← set_thing_field "cache"; set_thing_field "ctx") with
      | Ok _ =>
          let '(cache, r) := load_info cache (MTStruct d) in
          (cache, info ← r; _ ← set_thing_field "info"; Ok (db, client, info))
      | Err e => (cache, Err e)
      | Panic m => (cache, Panic m)
      end
  | MTPtr _ | MTOther _ => (cache, Err (ErrMsg "NewThingByType: modelType must be struct or *struct"))
  end.

(** The states of the table: what the calls so far left. *)
Inductive loads : ModelCache → ModelCache → Prop :=
  | loads_call cache t : loads cache (load_info cache t).1.

End types.

(** ** Facts *)

(** The methods in the sets of a type, from the ones it declares itself (with
    their receiver and file) and the ones promoted from an embedded field ([true]
    when the set of the type itself has it).  The compiler writes the wrapper of
    a promoted method, and the pointer version of a method on values. *)
Inductive receiver := OnValue | OnPointer.

Definition compiled_methods (declared : string → option (receiver * string)) (promoted : string → option bool)
    (ptr : bool) (name : string) : option string :=
  match declared name with
  | Some (OnValue, file) => Some (if ptr then autogenerated else file)
  | Some (OnPointer, file) => if ptr then Some file else None
  | None =>
      match promoted name with
      | Some in_value_set => if ptr || in_value_set then Some autogenerated else None
      | None => None
      end
  end.

(** The files of declared methods are source files. *)
Definition source_files (declared : string → option (receiver * string)) : Prop :=
  ∀ name r file, declared name = Some (r, file) → Contains file autogenerated = false.

Lemma hasCustomMethod_declared declared promoted name : source_files declared →
  hasCustomMethod (compiled_methods declared promoted) name = bool_decide (is_Some (declared name)).
Proof.
  intros S. unfold hasCustomMethod, methodIsCustom, compiled_methods.
  destruct (declared name) as [[[] file]|] eqn:D; cbn [mbind option_bind].
  - by rewrite (S _ _ _ D).
  - by rewrite (S _ _ _ D).
  - by destruct (promoted name) as [[]|].
Qed.

(** The values of the [Indexes] method, all of them well formed. *)
Definition declared_indexes (t : struct_type) (idxs : list IndexInfo) : Prop :=
  match rm_Indexes t with
  | None => idxs = []
  | Some (sig, vs) => sig = true ∧ Forall2 (λ v idx, indexInfoFromValue v = Ok idx) vs idxs
  end.

Lemma append_declared_Ok n tn m i vs plain uniq p :
  append_declared n tn m i vs plain uniq = Ok p ↔
  ∃ idxs, Forall2 (λ v idx, indexInfoFromValue v = Ok idx) vs idxs ∧
    appendProgrammaticIndexes tn m idxs plain uniq = Ok p.
Proof.
  revert i plain uniq. induction vs as [|v vs IH]; intros i plain uniq; simpl.
  { split; [intros E; exists []; by split|]. by intros (idxs&->%Forall2_nil_inv_l&E). }
  split.
  - destruct (indexInfoFromValue v) as [idx| |] eqn:V; simpl; try done.
    destruct (validateProgrammaticIndex m idx) eqn:W; simpl; try done.
    destruct (appendIndex tn idx plain uniq) as [q| |] eqn:A; try done.
    intros (idxs&F&E)%IH. exists (idx :: idxs). split; [by constructor|]. simpl. by rewrite W, A.
  - intros (idxs&F&E). apply Forall2_cons_inv_l in F as (idx&idxs'&V&F&->). rewrite V. simpl in *.
    destruct (validateProgrammaticIndex m idx) eqn:W; simpl in *; try done.
    destruct (appendIndex tn idx plain uniq) as [q| |] eqn:A; simpl in *; try done.
    apply IH. by exists idxs'.
Qed.

Definition methods_of (t : struct_type) (idxs : list IndexInfo) : model_methods :=
  MkMethods (default "" (rm_TableName t)) idxs (HasCustomKeepItem t) (HasCustomKeepItemFields t).

Lemma compute_info_Ok t info :
  compute_info t = Ok info ↔
  ∃ idxs, declared_indexes t idxs ∧ GetCachedModelInfo (rm_name t) (methods_of t idxs) (rm_fields t) = Ok info.
Proof.
  unfold compute_info, GetCachedModelInfo, append_programmatic, declared_indexes. cbn zeta.
  destruct (rm_Indexes t) as [[[] vs]|]; simpl.
  - rewrite result_bind_Ok. split.
    + intros (p&(idxs&F&E)%append_declared_Ok&[= <-]). exists idxs. split; [done|]. by rewrite E.
    + intros (idxs&[_ F]&(p&E&[= <-])%result_bind_Ok). exists p. split; [|done].
      apply append_declared_Ok. eauto.
  - split; [done|]. by intros (?&[? _]&_).
  - split; [intros [= <-]; by exists []|]. by intros (?&->&[= <-]).
Qed.

Section table.
Context `{ModelTypes}.

(** What the table has is what would be computed. *)
Definition table_ok (cache : ModelCache) : Prop :=
  ∀ d info, cache !! d = Some info → compute_info (struct_types d) = Ok info.

Lemma load_info_table_ok cache t : table_ok cache → table_ok (load_info cache t).1.
Proof.
  intros T. unfold load_info. destruct (match t with MTPtr t => t | _ => t end) as [d| |]; try done.
  destruct (cache !! d) eqn:L; [done|]. destruct (compute_info _) eqn:C; try done.
  simpl. intros d' info'. rewrite lookup_insert_Some. intros [[<- <-]|[_ ?]]; auto.
Qed.

Lemma reachable_table_ok cache : rtc loads ∅ cache → table_ok cache.
Proof.
  intros R. refine (rtc_ind_r table_ok _ _ _ _ R); [by intros ? ? ?%lookup_empty_Some|].
  intros c1 c2 _ [c t]. apply load_info_table_ok.
Qed.

Lemma load_info_struct cache d t : table_ok cache → t = MTStruct d ∨ t = MTPtr (MTStruct d) →
  (load_info cache t).2 = compute_info (struct_types d).
Proof.
  intros T Ht. assert ((match t with MTPtr t => t | _ => t end) = MTStruct d) as E by by destruct Ht as [-> | ->].
  unfold load_info. rewrite E. destruct (cache !! d) eqn:L; [by rewrite (T _ _ L)|].
  by destruct (compute_info _).
Qed.
End table.


(** [NewThingByType] never gives a Thing: the fields it sets are not exported,
    so that it panics for every struct type and refuses the others. *)
Theorem NewThingByType_fails `{ModelTypes} {D C : Type} (cache : ModelCache) (t : model_type) (db : D) (client : C) :
  (NewThingByType cache t db client).1 = cache ∧
  match t with
  | MTStruct _ | MTPtr (MTStruct _) => ∃ m, (NewThingByType cache t db client).2 = Panic m
  | _ => ∃ e, (NewThingByType cache t db client).2 = Err e
  end.
Proof. unfold NewThingByType. destruct t as [d|[d| |]|]; simpl; eauto. Qed.
