(* ===== verification/MetadataFacts.v ===== *)
(** * The metadata describes the models of its type

    For a struct type made of plain fields and an embedded [BaseModel], the
    [ModelInfo] that [GetCachedModelInfo] computes leads, by index and by name,
    to the same field of every struct of that type. *)

From S2P Require Import Prelude GoStrings GoValues Metadata LocalCache CacheClient Predicate QueryMatch.
From S2P Require Import CacheIndex Invalidate InvalidateFacts.

Open Scope string_scope.

(** ** The columns a type declares *)

Definition column_entry (index : list nat) (embedded : bool) (name : string) (t : gotype)
    (dbTag diffTag : string) : option ComparableFieldInfo :=
  let '(parts, dflt) := parse_db_tag dbTag in
  if bool_decide (head parts = Some "-") || negb (IsExported name) then None
  else
    let tagName := default "" (head parts) in
    Some (MkCF name (if tagName =? "" then ToSnakeCase name else tagName) index t embedded (diffTag =? "-") dflt).

(** A build state, seen through its list of compared fields. *)
Definition build_ok (b : build_state) : Prop :=
  b_Columns b = DBColumn <$> b_Compare b ∧ b_Fields b = GoName <$> b_Compare b ∧
  (NoDup (b_Columns b) → ∀ f, f ∈ b_Compare b → b_ColumnToField b !! DBColumn f = Some (GoName f)).

Lemma index_tag_keeps c b part :
  b_Compare (parseIndexTagFromDb c b part) = b_Compare b ∧
  (build_ok b → build_ok (parseIndexTagFromDb c b part)).
Proof. unfold parseIndexTagFromDb, build_ok. repeat case_match; simpl; auto. Qed.

Lemma index_tags_keep c parts b :
  b_Compare (foldl (parseIndexTagFromDb c) b parts) = b_Compare b ∧
  (build_ok b → build_ok (foldl (parseIndexTagFromDb c) b parts)).
Proof.
  revert b. induction parts as [|part parts IH]; intros b; simpl; [auto|].
  destruct (index_tag_keeps c b part) as [E1 H1].
  destruct (IH (parseIndexTagFromDb c b part)) as [E2 H2]. rewrite E2, E1. auto.
Qed.

Lemma process_column_spec index embedded name t dbTag diffTag b :
  b_Compare (process_column index embedded name t dbTag diffTag b) =
    (b_Compare b ++ option_list (column_entry index embedded name t dbTag diffTag))%list ∧
  (build_ok b → build_ok (process_column index embedded name t dbTag diffTag b)).
Proof.
  unfold process_column, column_entry. destruct (parse_db_tag dbTag) as [parts dflt].
  destruct (_ || _); simpl; [by rewrite app_nil_r|].
  match goal with |- context [foldl (parseIndexTagFromDb ?c) ?b ?ps] =>
    destruct (index_tags_keep c ps b) as [E Hk] end.
  rewrite E. split; [done|]. intros (Hc&Hf&Hm). apply Hk. unfold build_ok. simpl.
  rewrite !fmap_app, Hc, Hf. split; [done|]. split; [done|].
  rewrite <-Hc, NoDup_app. intros (Hnd&Hnew&_) f.
  rewrite elem_of_app. intros [Hin|Hin]; simpl;
    [|apply list_elem_of_singleton in Hin as ->; apply lookup_insert_eq].
  rewrite lookup_insert_ne; [by apply Hm|]. intros Heq. apply (Hnew (DBColumn f)).
  - rewrite Hc. by apply list_elem_of_fmap_2.
  - rewrite <-Heq. by left.
Qed.

(** The entries of a type's fields, in order. *)
Definition base_entries (i : nat) (fs : list sfield) : nat → list ComparableFieldInfo :=
  (fix go (fs : list sfield) (j : nat) :=
     match fs with
     | [] => []
     | f :: fs => (match f with
                   | SField n t db diff => option_list (column_entry [i; j] true n t db diff)
                   | SEmbed n tn _ => option_list (column_entry [i; j] true n (TOpaque OStruct tn) "" "")
                   end ++ go fs (S j))%list
     end) fs.

Lemma process_base_spec i j fs b :
  b_Compare (process_base i j fs b) = (b_Compare b ++ base_entries i fs j)%list ∧
  (build_ok b → build_ok (process_base i j fs b)).
Proof.
  revert j b. induction fs as [|f fs IH]; intros j b; simpl; [by rewrite app_nil_r|].
  destruct (IH (S j) (process_base_field i j f b)) as [E Hk]. rewrite E.
  destruct f as [n t db diff|n tn sub]; simpl in *;
    [destruct (process_column_spec [i; j] true n t db diff b) as [E1 Hk1]
    |destruct (process_column_spec [i; j] true n (TOpaque OStruct tn) "" "" b) as [E1 Hk1]];
    rewrite E1, <-app_assoc; auto.
Qed.

(** Types whose only embedded struct is [BaseModel], with plain fields. *)
Definition is_plain (f : sfield) : bool := match f with SField _ _ _ _ => true | _ => false end.
Definition simple_field (f : sfield) : bool :=
  match f with
  | SField _ _ _ _ => true
  | SEmbed n tn fs => (n =? "BaseModel") && (tn =? "BaseModel") && forallb is_plain fs
  end.

Definition field_entries (i : nat) (f : sfield) : list ComparableFieldInfo :=
  match f with
  | SField n t db diff => option_list (column_entry [i] false n t db diff)
  | SEmbed _ _ fs => base_entries i fs 0
  end.
Fixpoint type_entries (i : nat) (fs : list sfield) : list ComparableFieldInfo :=
  match fs with
  | [] => []
  | f :: fs => (field_entries i f ++ type_entries (S i) fs)%list
  end.

Lemma processFields_spec i fs b :
  forallb simple_field fs = true →
  b_Compare (processFields i false fs b) = (b_Compare b ++ type_entries i fs)%list ∧
  (build_ok b → build_ok (processFields i false fs b)).
Proof.
  revert i b. induction fs as [|f fs IH]; intros i b Hs; simpl in *; [by rewrite app_nil_r|].
  apply andb_true_iff in Hs as [Hf Hs].
  destruct (IH (S i) (process_field i false f b) Hs) as [E Hk]. rewrite E.
  destruct f as [n t db diff|n tn sub]; simpl in *.
  - destruct (process_column_spec [i] false n t db diff b) as [E1 Hk1]. rewrite E1, <-app_assoc. auto.
  - bools. subst. simpl in *. destruct (process_base_spec i 0 sub b) as [E1 Hk1].
    rewrite E1, <-app_assoc. auto.
Qed.

(** ** Structs of a type *)

Definition gofield_name (f : gofield) : string := match f with FVal n _ | FEmbed n _ => n end.

Inductive field_typed : gofield → sfield → Prop :=
  | ft_val n v db diff : field_typed (FVal n v) (SField n (typeof v) db diff)
  | ft_embed n tn fs sfs : Forall2 field_typed fs sfs → field_typed (FEmbed n fs) (SEmbed n tn sfs).

Definition has_type (m : gostruct) (fs : list sfield) : Prop := Forall2 field_typed m fs.

Definition sub_fields (f : sfield) : list sfield := match f with SEmbed _ _ fs => fs | _ => [] end.

(** The names a struct type declares, promoted ones included, are distinct. *)
Definition all_names (fs : list sfield) : list string :=
  ((sfield_name <$> fs) ++ (sfield_name <$> (fs ≫= sub_fields)))%list.

Lemma field_typed_name f s : field_typed f s → gofield_name f = sfield_name s.
Proof. by destruct 1. Qed.

Lemma has_type_names m fs : has_type m fs → gofield_name <$> m = sfield_name <$> fs.
Proof. induction 1; simpl; [done|]. f_equal; [by apply field_typed_name|done]. Qed.

Lemma flat_map_one {A B} (g : A → list B) l k x :
  l !! k = Some x → (∀ k' y, k' ≠ k → l !! k' = Some y → g y = []) → flat_map g l = g x.
Proof.
  revert k. induction l as [|a l IH]; intros k Hk Hne; [done|]. simpl.
  assert (Hnil : (∀ k' y, l !! k' = Some y → g y = []) → flat_map g l = []).
  { clear. intros Hall. induction l as [|b l IH]; simpl; [done|].
    rewrite (Hall 0%nat b eq_refl). apply IH. intros k' y. apply (Hall (S k')). }
  destruct k as [|k]; simpl in Hk.
  - simplify_eq. rewrite Hnil, app_nil_r; [done|]. intros k' y. by apply (Hne (S k')).
  - rewrite (Hne 0%nat a), (IH k); [done|done| |done|done].
    intros k' y ?. apply (Hne (S k')). lia.
Qed.

Lemma flat_map_none {A B} (g : A → list B) l : (∀ y, y ∈ l → g y = []) → flat_map g l = [].
Proof.
  induction l as [|a l IH]; intros Hall; simpl; [done|].
  rewrite (Hall a) by (by left). apply IH. intros y Hy. apply Hall. by right.
Qed.

(** A field at its own level. *)
Lemma fields_at_0 m k n v :
  NoDup (gofield_name <$> m) → m !! k = Some (FVal n v) → fields_at 0 m n = [v].
Proof.
  intros Hnd Hk. simpl. erewrite flat_map_one; [|exact Hk|].
  - simpl. by rewrite String.eqb_refl.
  - intros k' y Hne Hy.
    assert (gofield_name y ≠ n) as Hname.
    { intros Heq. apply Hne. eapply NoDup_lookup; [exact Hnd| |]; rewrite list_lookup_fmap.
      - by rewrite Hy; simpl; rewrite Heq.
      - by rewrite Hk. }
    destruct y as [n' v'|n' fs]; simpl in *; by destruct (String.eqb_spec n' n).
Qed.

Lemma fields_at_0_none m n : n ∉ gofield_name <$> m → fields_at 0 m n = [].
Proof.
  intros Hn. apply flat_map_none. intros y Hy.
  assert (gofield_name y ≠ n) by (intros <-; apply Hn; by apply list_elem_of_fmap_2).
  destruct y as [n' v'|n' fs]; simpl in *; by destruct (String.eqb_spec n' n).
Qed.

Lemma FieldByName_0 m k n v :
  NoDup (gofield_name <$> m) → m !! k = Some (FVal n v) → FieldByName m n = Some v.
Proof.
  intros Hnd Hk. unfold FieldByName. cbn [seq field_search]. by rewrite (fields_at_0 m k n v).
Qed.

Lemma depth_embed m k n fs : m !! k = Some (FEmbed n fs) → (1 <= struct_depth m)%nat.
Proof.
  intros Hk. unfold struct_depth. revert k Hk.
  induction m as [|f m IH]; intros k Hk; [done|]. simpl.
  destruct k as [|k]; simpl in Hk; [simplify_eq; simpl; lia|]. specialize (IH k Hk). lia.
Qed.

Lemma FieldByName_1 m k j bn sub n v :
  m !! k = Some (FEmbed bn sub) → sub !! j = Some (FVal n v) →
  NoDup (gofield_name <$> sub) → n ∉ gofield_name <$> m →
  (∀ k' n' sub', k' ≠ k → m !! k' = Some (FEmbed n' sub') → n ∉ gofield_name <$> sub') →
  FieldByName m n = Some v.
Proof.
  intros Hk Hj Hnd Htop Hother. unfold FieldByName.
  pose proof (depth_embed m k bn sub Hk) as Hdepth.
  destruct (struct_depth m) as [|d]; [lia|]. cbn [seq field_search].
  rewrite fields_at_0_none by done.
  assert (fields_at 1 m n = [v]) as ->; [|done].
  change (fields_at 1 m n) with
    (flat_map (λ f, match f with FVal _ _ => [] | FEmbed _ fs => fields_at 0 fs n end) m).
  erewrite flat_map_one; [|exact Hk|]; [by eapply fields_at_0|].
  intros k' [n' v'|n' sub'] Hne Hy; [done|]. apply fields_at_0_none. by eapply Hother.
Qed.

(** ** Where the entries come from *)

Lemma column_entry_Some index embedded name t db diff f :
  column_entry index embedded name t db diff = Some f →
  Index f = index ∧ GoName f = name ∧ CFType f = t ∧ DBColumn f ≠ "".
Proof.
  unfold column_entry. destruct (parse_db_tag db) as [parts dflt].
  destruct (_ || _) eqn:E; intros; simplify_eq; simpl. split_and!; try done.
  apply orb_false_iff in E as [_ Hex%negb_false_iff].
  destruct (String.eqb_spec (default "" (head parts)) ""); [|done].
  destruct name as [|a s]; [done|]. unfold ToSnakeCase.
  assert (Hlow : ∀ s, s ≠ "" → ToLower s ≠ "") by (by intros []).
  apply Hlow.
  assert (Hall : ∀ s, s ≠ "" → all_cap s ≠ "").
  { intros [|x [|y r]]; simpl; try done. by destruct (_ && _). }
  apply Hall. simpl. destruct s as [|b [|c r]]; try done. by destruct (_ && _).
Qed.

(** An entry is a plain field of the type or a field of its [BaseModel]. *)
Inductive entry_from (i : nat) (fs : list sfield) (f : ComparableFieldInfo) : Prop :=
  | from_plain k t db diff :
      fs !! k = Some (SField (GoName f) t db diff) → Index f = [(i + k)%nat] → CFType f = t →
      entry_from i fs f
  | from_base k j bn tn sub t db diff :
      fs !! k = Some (SEmbed bn tn sub) → sub !! j = Some (SField (GoName f) t db diff) →
      Index f = [(i + k)%nat; j] → CFType f = t → entry_from i fs f.

Lemma base_entries_from i fs j f :
  forallb is_plain fs = true → f ∈ base_entries i fs j →
  DBColumn f ≠ "" ∧
  ∃ k t db diff, fs !! k = Some (SField (GoName f) t db diff) ∧ Index f = [i; (j + k)%nat] ∧ CFType f = t.
Proof.
  revert j. induction fs as [|s fs IH]; intros j Hp Hf; simpl in *; [by apply elem_of_nil in Hf|].
  apply andb_true_iff in Hp as [Hs Hp]. destruct s as [n t db diff|]; [|done].
  apply elem_of_app in Hf as [Hf|Hf].
  - destruct (column_entry [i; j] true n t db diff) as [e|] eqn:E; simpl in Hf; [|by apply elem_of_nil in Hf].
    apply list_elem_of_singleton in Hf as ->. apply column_entry_Some in E as (Hi&Hn&Ht&Hc).
    split; [done|]. exists 0%nat, t, db, diff. rewrite Hn, Nat.add_0_r. done.
  - destruct (IH (S j) Hp Hf) as (Hc&k&t'&db'&diff'&Hk&Hi&Ht). split; [done|].
    exists (S k), t', db', diff'. split_and!; try done. replace (j + S k)%nat with (S j + k)%nat by lia. done.
Qed.

Lemma type_entries_from i fs f :
  forallb simple_field fs = true → f ∈ type_entries i fs → DBColumn f ≠ "" ∧ entry_from i fs f.
Proof.
  revert i. induction fs as [|s fs IH]; intros i Hp Hf; simpl in *; [by apply elem_of_nil in Hf|].
  apply andb_true_iff in Hp as [Hs Hp]. apply elem_of_app in Hf as [Hf|Hf].
  - destruct s as [n t db diff|bn tn sub]; simpl in *.
    + destruct (column_entry [i] false n t db diff) as [e|] eqn:E; simpl in Hf; [|by apply elem_of_nil in Hf].
      apply list_elem_of_singleton in Hf as ->. apply column_entry_Some in E as (Hi&Hn&Ht&Hc).
      split; [done|]. apply (from_plain _ _ _ 0 t db diff); [by rewrite Hn|by rewrite Nat.add_0_r|done].
    + bools. apply base_entries_from in Hf as (Hc&k&t&db&diff&Hk&Hi&Ht); [|done].
      split; [done|]. apply (from_base _ _ _ 0 k bn tn sub t db diff); try done. by rewrite Nat.add_0_r.
  - destruct (IH (S i) Hp Hf) as [Hc Hfrom]. split; [done|].
    destruct Hfrom as [k t db diff Hk Hi Ht|k j bn tn sub t db diff Hk Hj Hi Ht].
    + apply (from_plain _ _ _ (S k) t db diff); try done. replace (i + S k)%nat with (S i + k)%nat by lia. done.
    + apply (from_base _ _ _ (S k) j bn tn sub t db diff); try done. replace (i + S k)%nat with (S i + k)%nat by lia. done.
Qed.

(** ** Reading an entry of a struct *)

Lemma names_sub_disjoint fs n k bn tn sub :
  NoDup (all_names fs) → fs !! k = Some (SEmbed bn tn sub) → n ∈ sfield_name <$> sub →
  n ∉ sfield_name <$> fs ∧ NoDup (sfield_name <$> sub) ∧
  ∀ k' n' tn' sub', k' ≠ k → fs !! k' = Some (SEmbed n' tn' sub') → n ∉ sfield_name <$> sub'.
Proof.
  intros (Htop&Hdis&Hsub)%NoDup_app Hk Hn.
  assert (Hin : n ∈ sfield_name <$> (fs ≫= sub_fields)).
  { apply list_elem_of_fmap in Hn as (s&->&Hs). apply list_elem_of_fmap_2, list_elem_of_bind.
    exists (SEmbed bn tn sub). split; [done|]. by eapply list_elem_of_lookup_2. }
  split; [intros Hx; by apply (Hdis n)|]. clear Htop Hdis Hin.
  revert k Hk. induction fs as [|s fs IH]; intros k Hk; [done|].
  rewrite bind_cons, fmap_app in Hsub. apply NoDup_app in Hsub as (H1&H2&H3).
  destruct k as [|k]; simpl in Hk.
  - simplify_eq. simpl in *. split; [done|]. intros [|k'] n' tn' sub' Hne Hk'; [done|]. simpl in Hk'.
    intros Hn'. apply (H2 n Hn). apply list_elem_of_fmap in Hn' as (s&->&Hs).
    apply list_elem_of_fmap_2, list_elem_of_bind. exists (SEmbed n' tn' sub').
    split; [done|]. by eapply list_elem_of_lookup_2.
  - destruct (IH H3 k Hk) as [Hnd Hoth]. split; [done|].
    intros [|k'] n' tn' sub' Hne Hk'; simpl in Hk'; [|eapply (Hoth k'); [lia|done]].
    simplify_eq. simpl in *. intros Hn'. apply (H2 n Hn').
    apply list_elem_of_fmap in Hn as (s&->&Hs). apply list_elem_of_fmap_2, list_elem_of_bind.
    exists (SEmbed bn tn sub). split; [done|]. by eapply list_elem_of_lookup_2.
Qed.

Lemma has_type_lookup m fs k s : has_type m fs → fs !! k = Some s → ∃ f, m !! k = Some f ∧ field_typed f s.
Proof. intros Ht Hk. by eapply Forall2_lookup_r. Qed.

Lemma entry_reads fs m f :
  NoDup (all_names fs) → has_type m fs → entry_from 0 fs f →
  field_in_range f m = true ∧
  ∃ v, FieldByIndex m (Index f) = Some v ∧ FieldByName m (GoName f) = Some v ∧ typeof v = CFType f.
Proof.
  intros Hnd Hty Hfrom. unfold field_in_range.
  assert (Hlen : ∀ k s, fs !! k = Some s → (k <? length m)%nat = true).
  { intros k s Hk. apply Nat.ltb_lt. rewrite (Forall2_length _ _ _ Hty). by eapply lookup_lt_Some. }
  destruct Hfrom as [k t db diff Hk Hi Ht|k j bn tn sub t db diff Hk Hj Hi Ht]; rewrite Hi; simpl.
  - split; [by eapply Hlen|]. destruct (has_type_lookup _ _ _ _ Hty Hk) as (g&Hg&Hgt).
    inversion Hgt; subst. rewrite Hg. eexists. split; [done|]. split; [|done].
    eapply FieldByName_0; [|exact Hg]. rewrite (has_type_names _ _ Hty).
    by apply NoDup_app in Hnd as (?&_).
  - split; [by eapply Hlen|]. destruct (has_type_lookup _ _ _ _ Hty Hk) as (g&Hg&Hgt).
    inversion Hgt as [|n tn' gsub ? Hsub]; subst. rewrite Hg.
    destruct (has_type_lookup _ _ _ _ Hsub Hj) as (h&Hh&Hht). inversion Hht; subst. simpl. rewrite Hh.
    eexists. split; [done|]. split; [|done].
    destruct (names_sub_disjoint fs (GoName f) k bn tn sub) as (Hn1&Hn2&Hn3); [done..| |].
    { apply list_elem_of_fmap. eexists. split; [|by eapply list_elem_of_lookup_2]. done. }
    eapply FieldByName_1; [exact Hg|exact Hh| | |].
    + by rewrite (has_type_names _ _ Hsub).
    + by rewrite (has_type_names _ _ Hty).
    + intros k' n' sub' Hne Hk'.
      destruct (Forall2_lookup_l _ _ _ _ _ Hty Hk') as (s'&Hs'&Hst). inversion Hst as [|? ? ? ? Hsub']; subst.
      rewrite (has_type_names _ _ Hsub'). by eapply Hn3.
Qed.

Lemma info_entries typeName mm fs info :
  forallb simple_field fs = true → GetCachedModelInfo typeName mm fs = Ok info →
  CompareFields info = type_entries 0 fs ∧
  (NoDup (Columns info) → ∀ f, f ∈ CompareFields info → ColumnToFieldMap info !! DBColumn f = Some (GoName f)).
Proof.
  intros Hs Hi. unfold GetCachedModelInfo in Hi.
  destruct (processFields_spec 0 fs build_empty Hs) as [E Hk].
  destruct (appendProgrammaticIndexes _ _ _ _ _); simplify_eq/=. split; [done|].
  apply Hk. unfold build_ok; simpl. split_and!; try done. intros _ f Hf. by apply elem_of_nil in Hf.
Qed.

Lemma metadata_describes_lemma typeName mm fs info m :
  forallb simple_field fs = true → NoDup (all_names fs) → has_type m fs →
  GetCachedModelInfo typeName mm fs = Ok info → NoDup (Columns info) → describes info m.
Proof.
  intros Hs Hnd Hty Hi Hcols f [Hf _]%elem_compared.
  destruct (info_entries _ _ _ _ Hs Hi) as [E Hmap]. specialize (Hmap Hcols f Hf).
  rewrite E in Hf. apply type_entries_from in Hf as [Hc Hfrom]; [|done].
  destruct (entry_reads fs m f Hnd Hty Hfrom) as (Hr&v&Hv1&Hv2&_). eauto 10.
Qed.

(** C35: the metadata computed for a struct type describes its values, for types of plain fields
    that embed nothing but BaseModel, with distinct field names and columns: each compared
    column has a name and an index path that reaches a field of the model, and the column map
    leads to the same field by name. *)
Theorem metadata_describes typeName mm fs info m :
  forallb simple_field fs = true → NoDup (all_names fs) → has_type m fs →
  GetCachedModelInfo typeName mm fs = Ok info → NoDup (Columns info) → describes info m.
Proof. apply metadata_describes_lemma. Qed.

Lemma metadata_same_types typeName mm fs info m o :
  forallb simple_field fs = true → NoDup (all_names fs) → has_type m fs → has_type o fs →
  GetCachedModelInfo typeName mm fs = Ok info → same_types info m o.
Proof.
  intros Hs Hnd Hm Ho Hi f x y [Hf _]%elem_compared Hx Hy.
  destruct (info_entries _ _ _ _ Hs Hi) as [E _]. rewrite E in Hf.
  apply type_entries_from in Hf as [_ Hfrom]; [|done].
  destruct (entry_reads fs m f Hnd Hm Hfrom) as (_&v&Hv&_&Ht).
  destruct (entry_reads fs o f Hnd Ho Hfrom) as (_&v'&Hv'&_&Ht'). congruence.
Qed.
