(* ===== verification/Freshness.v ===== *)
(** * Invalidation on the local cache

    The completeness of invalidation, instantiated: the model's metadata is the
    one the ORM computes for its struct type, and the cache is the local cache,
    whose deletions never fail. *)

From S2P Require Import Prelude GoStrings GoValues GoValuesFacts Predicate QueryMatch QueryMatchFacts.
From S2P Require Import CacheIndex CacheIndexFacts Metadata LocalCache CacheClient Invalidate.
From S2P Require Import InvalidateFacts MetadataFacts.

Open Scope string_scope.

Section local.
Context `{GoPlatform} `{Gob} `{ModelOps} {D : Type}.

Lemma local_deletes_reliably : deletes_reliably (C := local_client).
Proof. intros c k. done. Qed.

(** Entries are only dropped while lists are read and keys deleted. *)
Lemma local_shrinks_store (c c' : local_client) k v :
  shrinks c c' → store (lc c') !! k = Some v → store (lc c) !! k = Some v.
Proof.
  induction 1 as [|c c' x _ IH|c c' x _ IH]; [done|..]; intros Hv; apply IH;
    cbn [cc_Delete cc_GetQueryIDs local_CacheClient] in Hv; rewrite local_op_1 in Hv; simpl in Hv.
  - by apply lookup_delete_Some in Hv as [_ ?].
  - unfold GetQueryIDs in Hv. simpl in Hv. destruct (store (lc c') !! x) as [w|] eqn:Ex; [|done].
    destruct (isExpired _ _ _); simpl in Hv; [by apply lookup_delete_Some in Hv as [_ ?]|].
    by destruct w as [|[]].
Qed.

(** List keys hold lists of ids. *)
Definition lists_typed (m : localCache) : Prop :=
  ∀ k v, is_list_key k = true → store m !! k = Some v → ∃ ids, v = PBytes (GobIDs ids).

Lemma read_of_local (c : local_client) k :
  is_list_key k = true → lists_typed (lc c) →
  match read_of c k with
  | ReadIDs ids => ids = [] ∨ store (lc c) !! k = Some (PBytes (GobIDs ids))
  | ReadError _ => False
  end.
Proof.
  intros Hk Hty. unfold read_of.
  cbn [cc_GetQueryIDs local_CacheClient]. rewrite local_op_2. unfold GetQueryIDs. simpl.
  destruct (store (lc c) !! k) as [v|] eqn:Ev; simpl; [|by left].
  destruct (isExpired _ _ _); simpl; [by left|].
  destruct (Hty k v Hk Ev) as [ids ->]. simpl. destruct ids; simpl; [by left|by right].
Qed.

Lemma lists_typed_shrinks (c c' : local_client) : shrinks c c' → lists_typed (lc c) → lists_typed (lc c').
Proof. intros Hs Hty k v Hk Hv. eapply Hty; [done|]. by eapply local_shrinks_store. Qed.

(** What a write by a model of a simple struct type needs. *)
Record local_setting (key_table : string → string) (typeName : string) (mm : model_methods)
    (fs : list sfield) (info : ModelInfo) (model : gostruct) (wk : write_kind)
    (w : world local_client D) : Prop := {
  ls_simple : forallb simple_field fs = true;
  ls_names : NoDup (all_names fs);
  ls_info : GetCachedModelInfo typeName mm fs = Ok info;
  ls_columns : NoDup (Columns info);
  ls_model : has_type model fs;
  ls_original o : wk = Updated o → has_type o fs;
  ls_id : GetID model ≠ 0%Z;
  ls_index : index_reachable key_table (w_index w);
  ls_lists : lists_typed (lc (w_cache w));
  ls_panic k p : keyToParams (w_index w) !! k = Some p → key_table k = TableName info →
    no_panic info p (checked_models model wk)
}.

Lemma local_inv_setting key_table typeName mm fs info model wk w :
  local_setting key_table typeName mm fs info model wk w → inv_setting key_table info model wk w.
Proof.
  intros []. split; [done|done|by eapply metadata_describes_lemma| |done].
  intros o ->. split; [by eapply metadata_describes_lemma; eauto|by eapply metadata_same_types; eauto].
Qed.

Lemma local_invalidation_lemma key_table typeName mm fs info model wk w k p changed :
  local_setting key_table typeName mm fs info model wk w →
  keyToParams (w_index w) !! k = Some p → key_table k = TableName info →
  is_list_key k = true ∨ is_count_key k = true → compared_query info k p wk →
  changedModelColumns info model (wk_original model wk) = Ok changed →
  affected info model k p wk →
  let w' := (invalidate info model wk w).1 in
  (invalidate info model wk w).2 = Ok () ∧
  (store (lc (w_cache w')) !! k = None ∨
   is_list_key k = true ∧ enters info p model wk ∧
     (∃ ids, store (lc (w_cache w)) !! k = Some (PBytes (GobIDs ids)) ∧ GetID model ∈ ids) ∨
   missed info model changed k p wk).
Proof.
  intros Hs Hp Ht Hk Hcl Hch Haff w'.
  destruct (invalidation_complete_lemma local_deletes_reliably key_table info model wk w k p changed)
    as [Hok [Hn|[(Hl&c&Hc&Hsurv)|Hmiss]]]; try done; [by eapply local_inv_setting|..|by auto].
  - split; [done|]. left. apply eq_None_not_Some. exact Hn.
  - split; [done|]. right. left. split; [done|].
    pose proof (read_of_local c k Hl (lists_typed_shrinks _ _ Hc (ls_lists _ _ _ _ _ _ _ _ Hs))) as Hr.
    destruct Hsurv as [(Hm&ids&Hread&Hid)|[e Hread]]; rewrite Hread in Hr; [|done].
    split; [done|]. exists ids. split; [|done].
    destruct Hr as [->|Hst]; [by apply elem_of_nil in Hid|]. by eapply local_shrinks_store.
Qed.

(** On the local cache and with the metadata the ORM computes for the struct type, an
    invalidation after a create, update or delete ends without panic and removes the entry of
    every registered query the write affects, unless the row enters a cached list that already
    has its id, or a hidden row is restored and nothing else tells phase 1. *)
Theorem local_invalidation_complete key_table typeName mm fs info model wk w k p changed :
  local_setting key_table typeName mm fs info model wk w →
  keyToParams (w_index w) !! k = Some p → key_table k = TableName info →
  is_list_key k = true ∨ is_count_key k = true → compared_query info k p wk →
  changedModelColumns info model (wk_original model wk) = Ok changed →
  affected info model k p wk →
  let w' := (invalidate info model wk w).1 in
  (invalidate info model wk w).2 = Ok () ∧
  (store (lc (w_cache w')) !! k = None ∨
   is_list_key k = true ∧ enters info p model wk ∧
     (∃ ids, store (lc (w_cache w)) !! k = Some (PBytes (GobIDs ids)) ∧ GetID model ∈ ids) ∨
   missed info model changed k p wk).
Proof. apply local_invalidation_lemma. Qed.
End local.
