(* ===== verification/SqlBuilder.v ===== *)
(** * SQL text (internal/sqlbuilder/sqlbuilder.go and the dialects of the drivers)

    A SQL text is a string.  [ExpandInClauses] looks to the left and to the
    right of each [?]: here the bytes already read are a reversed list. *)

From S2P Require Import Prelude GoStrings GoValues.

Open Scope string_scope.

(** ** Dialects *)

Class Dialector := {
  Quote : string → string;
  Placeholder : nat → string
}.

Definition dquote (s : string) : string := String "034" (s +:+ String "034" "").

Definition SQLiteDialector : Dialector := {| Quote := dquote; Placeholder := λ _, "?" |}.
Definition MySQLDialector : Dialector :=
  {| Quote := λ s, String "`" (s +:+ "`"); Placeholder := λ _, "?" |}.
Definition PostgresDialector : Dialector :=
  {| Quote := dquote; Placeholder := λ i, "$" +:+ FormatInt (Z.of_nat i) |}.

(** ** IN clauses *)

Definition sql_blank (c : ascii) : bool := byte_in c (String " " (String "009" (String "010" (String "013" "")))).

Fixpoint skip_blanks (l : list ascii) : list ascii :=
  match l with
  | c :: l' => if sql_blank c then skip_blanks l' else l
  | [] => []
  end.

Fixpoint skip_blanks_str (s : string) : string :=
  match s with
  | String c s' => if sql_blank c then skip_blanks_str s' else s
  | "" => ""
  end.

Definition ident_byte (c : ascii) : bool :=
  bool_decide (c = "_"%char) || is_digit c || is_upper c || is_lower c.

(** Whether the [?] between [before] (reversed) and [after] is the operand of
    [IN (?)]. *)
Definition in_clause (before : list ascii) (after : string) : bool :=
  match skip_blanks before, skip_blanks_str after with
  | "("%char :: before, String ")" _ =>
      match skip_blanks before with
      | c2 :: c1 :: before =>
          EqualFold (String c1 (String c2 "")) "IN" &&
          match before with [] => true | c :: _ => negb (ident_byte c) end
      | _ => false
      end
  | _, _ => false
  end.

(** The elements of a slice or array argument. *)
Definition slice_elems (arg : option goval) : option (list (option goval)) :=
  match under <$> arg with
  | Some (VSlice _ l) => Some (value_Interface <$> default [] l)
  | Some (VArray _ l) => Some (value_Interface <$> l)
  | _ => None
  end.

Fixpoint placeholders (n : nat) : string :=
  match n with
  | O => ""
  | S O => "?"
  | S n => "?, " +:+ placeholders n
  end.

Fixpoint expand_loop (before : list ascii) (where_ : string) (args : list (option goval))
    : string * list (option goval) :=
  match where_ with
  | "" => ("", [])
  | String c rest =>
      if negb (bool_decide (c = "?"%char)) then
        let '(w, a) := expand_loop (c :: before) rest args in (String c w, a)
      else
        match args with
        | arg :: args' =>
            match (if in_clause before rest then slice_elems arg else None) with
            | Some elems =>
                let '(w, a) := expand_loop (c :: before) rest args' in
                ((if bool_decide (length elems = 0%nat) then "NULL" else placeholders (length elems)) +:+ w,
                 (elems ++ a)%list)
            | None =>
                let '(w, a) := expand_loop (c :: before) rest args' in (String "?" w, arg :: a)
            end
        | [] => let '(w, a) := expand_loop (c :: before) rest [] in (String "?" w, a)
        end
  end.

Definition ExpandInClauses (where_ : string) (args : list (option goval)) : string * list (option goval) :=
  expand_loop [] where_ args.

(** ** Statements *)

Section builder.
Context `{Dialector}.

Definition BuildSelectSQL (tableName : string) (columns : list string) : string :=
  if (tableName =? "") || bool_decide (columns = []) then ""
  else "SELECT " +:+ Join (Quote <$> columns) ", " +:+ " FROM " +:+ Quote tableName.

Definition BuildSelectIDsSQL (tableName pkName where_ : string) (args : list (option goval)) (order : string)
    : string * list (option goval) :=
  if (tableName =? "") || (pkName =? "") then ("", [])
  else
    let query := "SELECT " +:+ Quote pkName +:+ " FROM " +:+ Quote tableName in
    let '(query, args) :=
      if where_ =? "" then (query, args)
      else let '(w, a) := ExpandInClauses where_ args in (query +:+ " WHERE " +:+ w, a) in
    ((if order =? "" then query else query +:+ " ORDER BY " +:+ order), args).

Fixpoint numbered (i : nat) (n : nat) : list string :=
  match n with O => [] | S n => Placeholder i :: numbered (S i) n end.

Definition BuildInsertSQL (tableName : string) (columns : list string) : string :=
  if (tableName =? "") || bool_decide (columns = []) then ""
  else "INSERT INTO " +:+ Quote tableName +:+ " (" +:+ Join (Quote <$> columns) ", " +:+ ") VALUES (" +:+
       Join (numbered 1 (length columns)) ", " +:+ ")".

(** [strings.Replace(s, "?", p, 1)]. *)
Fixpoint replace_first (p s : string) : string :=
  match s with
  | "" => ""
  | String c s' => if bool_decide (c = "?"%char) then p +:+ s' else String c (replace_first p s')
  end.

Fixpoint set_parts (i : nat) (clauses : list string) : list string :=
  match clauses with
  | [] => []
  | c :: clauses => replace_first (Placeholder i) c :: set_parts (S i) clauses
  end.

Definition BuildUpdateSQL (tableName : string) (setClauses : list string) (pkName : string) : string :=
  if (tableName =? "") || bool_decide (setClauses = []) || (pkName =? "") then ""
  else "UPDATE " +:+ Quote tableName +:+ " SET " +:+ Join (set_parts 1 setClauses) ", " +:+ " WHERE " +:+
       Quote pkName +:+ " = " +:+ Placeholder (S (length setClauses)).

Definition BuildDeleteSQL (tableName pkName : string) : string :=
  if (tableName =? "") || (pkName =? "") then ""
  else "DELETE FROM " +:+ Quote tableName +:+ " WHERE " +:+ Quote pkName +:+ " = " +:+ Placeholder 1.

Definition BuildCountSQL (tableName whereClause : string) : string :=
  if tableName =? "" then ""
  else
    let query := "SELECT COUNT(*) FROM " +:+ Quote tableName in
    if whereClause =? "" then query else query +:+ " WHERE " +:+ whereClause.

Fixpoint rebind_loop (idx : nat) (query : string) : string :=
  match query with
  | "" => ""
  | String c q => if bool_decide (c = "?"%char) then Placeholder idx +:+ rebind_loop (S idx) q
                  else String c (rebind_loop idx q)
  end.
Definition Rebind (query : string) : string := rebind_loop 1 query.
End builder.

(** ** Placeholders and arguments *)

Fixpoint count_q (s : string) : nat :=
  match s with
  | "" => 0
  | String c s' => (if bool_decide (c = "?"%char) then 1 else 0) + count_q s'
  end.

Lemma count_q_app a b : count_q (a +:+ b) = (count_q a + count_q b)%nat.
Proof. induction a as [|c a IH]; simpl; [done|]. rewrite IH. lia. Qed.

Lemma count_q_placeholders n : count_q (placeholders n) = n.
Proof.
  induction n as [|[|n] IH]; [done|done|].
  change (placeholders (S (S n))) with ("?, " +:+ placeholders (S n)). rewrite count_q_app, IH. done.
Qed.

Lemma expand_loop_count before s args :
  (count_q s <= length args)%nat →
  count_q (expand_loop before s args).1 = length (expand_loop before s args).2.
Proof.
  revert before args. induction s as [|c s IH]; intros before args Hle; cbn [expand_loop count_q] in *; [done|].
  case_bool_decide as Hc; cbn [negb].
  - destruct args as [|arg args]; [simpl in Hle; lia|]. simpl in Hle.
    assert (IH' := IH (c :: before) args ltac:(lia)).
    destruct (expand_loop (c :: before) s args) as [w a]. simpl in IH'.
    destruct (if in_clause before s then slice_elems arg else None) as [elems|]; cbn [fst snd].
    + rewrite count_q_app, length_app, IH'. case_bool_decide as He; [by rewrite He|].
      by rewrite count_q_placeholders.
    + cbn [count_q]. rewrite bool_decide_true by done. simpl. lia.
  - assert (IH' := IH (c :: before) args ltac:(lia)).
    destruct (expand_loop (c :: before) s args) as [w a]. cbn [fst snd] in *. cbn [count_q].
    by rewrite bool_decide_false.
Qed.

(** After IN clauses are expanded, a WHERE clause has as many placeholders as arguments,
    provided it had at most as many as arguments before. *)
Theorem ExpandInClauses_counts where_ args :
  (count_q where_ <= length args)%nat →
  count_q (ExpandInClauses where_ args).1 = length (ExpandInClauses where_ args).2.
Proof. apply expand_loop_count. Qed.

(** Without slice arguments nothing changes. *)
Lemma expand_loop_id before s args :
  count_q s = length args → Forall (λ a, slice_elems a = None) args →
  expand_loop before s args = (s, args).
Proof.
  revert before args. induction s as [|c s IH]; intros before args Hq Hs; cbn [expand_loop count_q] in *.
  { by destruct args. }
  case_bool_decide as Hc; cbn [negb].
  - destruct args as [|arg args]; [done|]. apply Forall_cons in Hs as [Ha Hs].
    rewrite Ha. assert ((if in_clause before s then None else None) = @None (list (option goval))) as -> by (by case_match).
    rewrite IH by (simpl in Hq; lia || done). by rewrite Hc.
  - rewrite IH by (simpl in Hq; lia || done). done.
Qed.

(** The pieces between the [?]s, joined by numbered placeholders. *)
Fixpoint join_numbered `{Dialector} (i : nat) (pieces : list string) : string :=
  match pieces with
  | [] => ""
  | [p] => p
  | p :: pieces => p +:+ Placeholder i +:+ join_numbered (S i) pieces
  end.

Lemma Split_cons s sep : ∃ p ps, Split s sep = p :: ps.
Proof.
  induction s as [|c s (p&ps&IH)]; simpl; [eauto|]. case_bool_decide; [eauto|]. rewrite IH. eauto.
Qed.

(** Rebind replaces the placeholders of a statement, in order, by those of the dialect
    numbered from 1, and nothing else. *)
Theorem Rebind_spec `{Dialector} query :
  Rebind query = join_numbered 1 (Split query "?") ∧ length (Split query "?") = S (count_q query).
Proof.
  unfold Rebind. split.
  - generalize 1%nat. induction query as [|c q IH]; intros i; [done|]. cbn [rebind_loop Split].
    destruct (Split_cons q "?") as (p&ps&E). case_bool_decide as Hc; rewrite IH, E; [done|].
    by destruct ps.
  - induction query as [|c q IH]; [done|]. cbn [Split count_q]. destruct (Split_cons q "?") as (p&ps&E).
    case_bool_decide; simpl; [by rewrite IH|]. rewrite E in *. simpl in *. lia.
Qed.
