(* ===== verification/Hooks.v ===== *)
(** * Lifecycle events (hooks.go)

    A listener is user code: it may change the model it is given, and may fail.
    Functions cannot be compared in the model: a registered listener carries
    the code pointer that [UnregisterListener] compares. *)

From S2P Require Import Prelude GoStrings GoValues.

Open Scope string_scope.

Record EventListener := MkListener {
  l_pointer : Z;
  l_run : string → gostruct → gostruct * option goerr
}.

Abbreviation registry := (gmap string (list EventListener)).

Definition RegisterListener (eventType : string) (l : EventListener) (r : registry) : registry :=
  <[eventType := (default [] (r !! eventType) ++ [l])%list]> r.

(** The first listener with the pointer is removed. *)
Fixpoint remove_listener (ptr : Z) (ls : list EventListener) : option (list EventListener) :=
  match ls with
  | [] => None
  | l :: ls => if (l_pointer l =? ptr)%Z then Some ls
               else match remove_listener ptr ls with Some ls' => Some (l :: ls') | None => None end
  end.

Definition UnregisterListener (eventType : string) (toRemove : EventListener) (r : registry) : registry :=
  match r !! eventType with
  | Some ls => match remove_listener (l_pointer toRemove) ls with
               | Some ls' => <[eventType := ls']> r
               | None => r
               end
  | None => r
  end.

Definition ResetListeners (r : registry) : registry := ∅.

Fixpoint run_listeners (eventType : string) (ls : list EventListener) (model : gostruct)
    : gostruct * option goerr :=
  match ls with
  | [] => (model, None)
  | l :: ls =>
      let '(model, e) := l_run l eventType model in
      match e with
      | Some e => (model, Some (ErrWrap "event listener failed" e))
      | None => run_listeners eventType ls model
      end
  end.

Definition triggerEvent (r : registry) (eventType : string) (model : gostruct) : gostruct * option goerr :=
  run_listeners eventType (default [] (r !! eventType)) model.

(** ** Properties *)

Lemma run_listeners_app ev ls1 ls2 m :
  run_listeners ev (ls1 ++ ls2) m =
  match run_listeners ev ls1 m with
  | (m', None) => run_listeners ev ls2 m'
  | r => r
  end.
Proof.
  revert m. induction ls1 as [|l ls1 IH]; intros m; simpl; [done|].
  destruct (l_run l ev m) as [m' [e|]]; [done|]. apply IH.
Qed.

Lemma remove_listener_app ptr ls l :
  l_pointer l = ptr → Forall (λ x, l_pointer x ≠ ptr) ls → remove_listener ptr (ls ++ [l]) = Some ls.
Proof.
  intros Hl. induction 1 as [|x ls Hx _ IH]; simpl; [by rewrite Hl, Z.eqb_refl|].
  destruct (Z.eqb_spec (l_pointer x) ptr); [done|]. by rewrite IH.
Qed.

(** A listener registered last runs last, on the model the earlier listeners left and only
    if none of them failed, for its own event only; unregistering it restores the registry it
    was added to. *)
Theorem registered_listener_runs_last r ev l m :
  triggerEvent (RegisterListener ev l r) ev m =
    (match triggerEvent r ev m with
     | (m', None) => match l_run l ev m' with
                     | (m'', Some e) => (m'', Some (ErrWrap "event listener failed" e))
                     | (m'', None) => (m'', None)
                     end
     | r => r
     end) ∧
  (∀ ev', ev' ≠ ev → triggerEvent (RegisterListener ev l r) ev' m = triggerEvent r ev' m) ∧
  (∀ ls, r !! ev = Some ls → Forall (λ x, l_pointer x ≠ l_pointer l) ls →
         UnregisterListener ev l (RegisterListener ev l r) = r).
Proof.
  unfold triggerEvent, RegisterListener, UnregisterListener. split_and!.
  - rewrite lookup_insert_eq. simpl. rewrite run_listeners_app.
    destruct (run_listeners ev (default [] (r !! ev)) m) as [m' [e|]]; [done|]. simpl.
    by destruct (l_run l ev m') as [m'' [e|]].
  - intros ev' Hne. by rewrite lookup_insert_ne.
  - intros ls Hls Hall. rewrite lookup_insert_eq, Hls. simpl. rewrite remove_listener_app by done.
    rewrite insert_insert_eq. by apply insert_id.
Qed.
