(* ===== verification/Crud.v ===== *)
(** * Reading and writing records (crud.go, model.go, internal/utils/diff.go)

    The database is a parameter: what an adapter answers to a SQL text and its
    arguments ([DBAdapter]).  A Thing is its metadata, the zero value of its
    struct type and the cache TTL.  Relations (preloads) are not modelled here.
    The order in which Go ranges over the map of changed fields is unspecified:
    [map_to_list]'s order stands for it. *)

From S2P Require Import Prelude GoStrings GoValues Predicate QueryMatch CacheIndex Metadata LocalCache.
From S2P Require Import CacheClient Invalidate SqlBuilder Hooks.

Open Scope string_scope.

(** ** The database *)

Record exec_result := MkExec { LastInsertId : result Z; RowsAffected : Z }.

(** [thing.DBAdapter] and [thing.Tx]: a transaction's statements go through the
    same functions, between [db_Begin] and [db_Commit] or [db_Rollback].  An
    adapter answers with a value or an error; a [Panic] answer of a query is
    treated as an error. *)
Class DBAdapter (D : Type) := {
  db_dialect :: Dialector;
  db_SelectIDs : string → list (option goval) → D → D * result (list Z);
  db_SelectModels : string → list (option goval) → D → D * result (list gostruct);
  db_GetModel : string → list (option goval) → D → D * result gostruct;
  db_GetCount : string → string → list (option goval) → D → D * result Z;
  db_Exec : string → list (option goval) → D → D * result exec_result;
  db_Begin : D → D * result unit;
  db_Commit : D → D * result unit;
  db_Rollback : D → D * result unit
}.

Definition on_db {C D A} (f : D → D * A) (w : world C D) : world C D * A :=
  let '(d, r) := f (w_db w) in (MkWorld (w_cache w) (w_index w) d, r).

(** ** Model helpers (model.go) *)

(** [getBaseModelPtr]: the [BaseModel] a model embeds directly, changed in
    place. *)
Definition on_base_model (f : list gofield → list gofield) (m : gostruct) : gostruct :=
  (λ fld, match fld with
          | FEmbed n fs => FEmbed n (if n =? "BaseModel" then f fs else fs)
          | fld => fld
          end) <$> m.

Definition has_base_model (m : gostruct) : bool :=
  existsb (λ fld, match fld with FEmbed n _ => n =? "BaseModel" | _ => false end) m.

Definition setNewRecordFlagIfBaseModel (isNew : bool) (m : gostruct) : gostruct :=
  on_base_model (λ fs, set_at 0 fs "isNewRecord" (VBool isNew)) m.

(** A [time.Time] field set on the base model, or on the struct itself. *)
Definition set_time (name : string) (t : goval) (m : gostruct) : gostruct :=
  if has_base_model m then on_base_model (λ fs, set_at 0 fs name t) m
  else match FieldByName m name with
       | Some (VTime _ _) => set_field m name t
       | _ => m
       end.
Definition setCreatedAtTimestamp (t : goval) (m : gostruct) : gostruct := set_time "CreatedAt" t m.
Definition setUpdatedAtTimestamp (t : goval) (m : gostruct) : gostruct := set_time "UpdatedAt" t m.

(** [BaseModel.SetID]. *)
Definition SetID (id : Z) (m : gostruct) : gostruct :=
  on_base_model (λ fs, set_at 0 fs "ID" (VInt W64 id)) m.

(** ** Changed fields (internal/utils/diff.go) *)

Fixpoint FindChangedFieldsSimple (pk : string) (fs : list ComparableFieldInfo) (original updated : gostruct)
    : result (gmap string (option goval)) :=
  match fs with
  | [] => Ok ∅
  | f :: fs =>
      if IgnoreInDiff f || (DBColumn f =? pk) || negb (field_in_range f original) || negb (field_in_range f updated)
      then FindChangedFieldsSimple pk fs original updated
      else match FieldByIndex original (Index f), FieldByIndex updated (Index f) with
      | Some o, Some u =>
          changed ← FindChangedFieldsSimple pk fs original updated;
          Ok (if DeepEqual (value_Interface o) (value_Interface u) then changed
              else if bool_decide (is_Some (changed !! DBColumn f)) then changed
              else <[DBColumn f := value_Interface u]> changed)
      | _, _ => Panic field_index_panic
      end
  end.

(** ** Reading by id *)

Definition ByIDBatchSize : nat := 100.

Fixpoint question_marks (n : nat) : string :=
  match n with O => "" | S O => "?" | S n => "?," +:+ question_marks n end.

Section crud.
Context `{GoPlatform} `{ModelOps} {C D : Type} `{CacheClient C} `{DBAdapter D}.
Context (info : ModelInfo) (zero : gostruct) (ttl : Z).

Definition model_key (id : Z) : string := generateCacheKey (TableName info) id.

(** Step 1: what the cache has, and the ids it misses. *)
Fixpoint split_cached (ids : list Z) (rs : list (result gostruct)) : gmap Z gostruct * list Z :=
  match ids, rs with
  | id :: ids, r :: rs =>
      let '(found, missing) := split_cached ids rs in
      match r with
      | Ok m => (if bool_decide (is_Some (found !! id)) then found
                 else <[id := setNewRecordFlagIfBaseModel false m]> found, missing)
      | Err e => if errors_Is e ErrCacheNoneResult then (found, missing) else (found, id :: missing)
      | Panic _ => (found, id :: missing)
      end
  | _, _ => (∅, [])
  end.

Definition select_by_ids (ids : list Z) : string :=
  BuildSelectSQL (TableName info) (Columns info) +:+ " WHERE " +:+ dquote (PkName info) +:+
  " IN (" +:+ question_marks (length ids) +:+ ")".

(** Step 3 for one batch: rows go to the result and to the cache; the ids the
    database did not return are marked. *)
Fixpoint take_rows (rows : list gostruct) (c : C) (found : gmap Z gostruct) (fetched : gset Z)
    : C * gmap Z gostruct * gset Z :=
  match rows with
  | [] => (c, found, fetched)
  | row :: rows =>
      let id := GetID row in
      if (id =? 0)%Z then take_rows rows c found fetched
      else
        let row := setNewRecordFlagIfBaseModel false row in
        let c := (cc_SetModel (model_key id) row (Fields_ info) ttl c).1 in
        take_rows rows c (<[id := row]> found) ({[id]} ∪ fetched)
  end.

Fixpoint mark_missing (ids : list Z) (fetched : gset Z) (c : C) : C :=
  match ids with
  | [] => c
  | id :: ids =>
      mark_missing ids fetched
        (if decide (id ∈ fetched) then c else (cc_Set (model_key id) NoneResult ttl c).1)
  end.

Definition fetch_batch (batch : list Z) (w : world C D) (found : gmap Z gostruct) : world C D * gmap Z gostruct :=
  let '(w, r) := on_db (db_SelectModels (select_by_ids batch) ((λ id, Some (VInt W64 id)) <$> batch)) w in
  match r with
  | Ok rows =>
      let '(c, found, fetched) := take_rows rows (w_cache w) found ∅ in
      (MkWorld (mark_missing batch fetched c) (w_index w) (w_db w), found)
  | _ => (w, found)
  end.

(** The batches of at most [ByIDBatchSize] ids; [fuel] bounds their number. *)
Fixpoint fetch_batches (fuel : nat) (ids : list Z) (w : world C D) (found : gmap Z gostruct)
    : world C D * gmap Z gostruct :=
  match fuel, ids with
  | S fuel, _ :: _ =>
      let '(w, found) := fetch_batch (take ByIDBatchSize ids) w found in
      fetch_batches fuel (drop ByIDBatchSize ids) w found
  | _, _ => (w, found)
  end.

Definition is_Panic {A} (r : result A) : bool := match r with Panic _ => true | _ => false end.

(** The error result of the code is only for a model type that is no pointer. *)
Definition fetchModelsByIDsInternal (ids : list Z) (w : world C D) : world C D * result (gmap Z gostruct) :=
  if bool_decide (ids = []) then (w, Ok ∅)
  else
    let '(w, rs) := on_cache (cc_MGetModel ((λ id, (model_key id, zero)) <$> ids)) w in
    if existsb is_Panic rs then (w, Panic "MGetModel")
    else
      let '(found, missing) := split_cached ids rs in
      let '(w, found) := fetch_batches (length missing) missing w found in
      (w, Ok found).

Definition byIDInternal (id : Z) (w : world C D) : world C D * result gostruct :=
  if (id <=? 0)%Z then (w, Err (ErrMsg "invalid ID provided (must be > 0)"))
  else
    let '(w, r) := fetchModelsByIDsInternal [id] w in
    (w, found ← r; match found !! id with Some m => Ok m | None => Err ErrNotFound end).

Definition ByID (id : Z) (w : world C D) : world C D * result gostruct := byIDInternal id w.
Definition ByIDs (ids : list Z) (w : world C D) : world C D * result (gmap Z gostruct) :=
  fetchModelsByIDsInternal ids w.

(** ** Saving *)

Context (reg : registry).

Record saveMutation := MkMutation {
  mu_value : gostruct;
  mu_original : option gostruct;
  mu_isNew : bool;
  mu_changed : gmap string (option goval);
  mu_applied : bool
}.

(** The columns and values of an INSERT. *)
Fixpoint insert_columns (fields : list string) (value : gostruct) : list (string * option goval) :=
  match fields with
  | [] => []
  | f :: fields =>
      let col := default "" (FieldToColumnMap info !! f) in
      if col =? PkName info then insert_columns fields value
      else match FieldByName value f with
           | Some v => (col, value_Interface v) :: insert_columns fields value
           | None => insert_columns fields value
           end
  end.

Definition insert_row (now : goval) (value : gostruct) : list (string * option goval) :=
  let cols := insert_columns (Fields_ info) value in
  match FieldToColumnMap info !! "UpdatedAt" with
  | Some col =>
      if bool_decide (col ∈ cols.*1) then cols
      else (cols ++ [(col, match FieldByName value "UpdatedAt" with
                           | Some v => value_Interface v
                           | None => Some now
                           end)])%list
  | None => cols
  end.

(** The state of the model after a successful statement. *)
Definition after_exec (isNew : bool) (res : exec_result) (value : gostruct) : gostruct :=
  match FieldByName value "ID" with
  | Some _ =>
      let value := if isNew then match LastInsertId res with Ok id => SetID id value | _ => value end else value in
      setNewRecordFlagIfBaseModel false value
  | None => value
  end.

Definition db_save_failed (e : goerr) : goerr := ErrWrap "database save operation failed" e.

(** The INSERT and UPDATE paths after the hooks. *)
Definition save_create (now : goval) (model : gostruct) (w : world C D)
    : world C D * saveMutation * result unit :=
  let model := setUpdatedAtTimestamp now (setCreatedAtTimestamp now model) in
  let row := insert_row now model in
  let mu := MkMutation model None true ∅ false in
  if bool_decide (row = []) then (w, mu, Err (ErrMsg "no columns to insert"))
  else
    let '(w, r) := on_db (db_Exec (BuildInsertSQL (TableName info) row.*1) row.*2) w in
    match r with
    | Ok res => (w, MkMutation (after_exec true res model) None true ∅ true, Ok ())
    | Err e => (w, mu, Err (db_save_failed e))
    | Panic m => (w, mu, Panic m)
    end.

Definition getOriginalForSave (id : Z) : world C D → world C D * result gostruct :=
  on_db (db_GetModel (BuildSelectSQL (TableName info) (Columns info) +:+ " WHERE " +:+
                      dquote (PkName info) +:+ " = ?") [Some (VInt W64 id)]).

Definition save_update (now : goval) (id : Z) (model : gostruct) (readOriginalFromExecutor : bool) (w : world C D)
    : world C D * saveMutation * result unit :=
  let '(w, r) := (if readOriginalFromExecutor then getOriginalForSave id w else byIDInternal id w) in
  match r with
  | Panic m => (w, MkMutation model None false ∅ false, Panic m)
  | _ =>
      let original := match r with Ok o => o | _ => zero end in
      match FindChangedFieldsSimple (PkName info) (CompareFields info) original model with
      | Panic m => (w, MkMutation model None false ∅ false, Panic m)
      | Err e => (w, MkMutation model None false ∅ false, Err (ErrWrap "failed to find changed fields" e))
      | Ok changed =>
          let updatedAt := FieldToColumnMap info !! "UpdatedAt" in
          let changed := match updatedAt with Some col => delete col changed | None => changed end in
          if decide (changed = ∅) then (w, MkMutation model (Some original) false ∅ false, Ok ())
          else
            let model := setUpdatedAtTimestamp now model in
            let changed := match updatedAt, FieldByName model "UpdatedAt" with
                           | Some col, Some v => <[col := value_Interface v]> changed
                           | _, _ => changed
                           end in
            let cols := map_to_list changed in
            let query := BuildUpdateSQL (TableName info) ((λ c, c +:+ " = ?") <$> cols.*1) (PkName info) in
            let mu := MkMutation model (Some original) false ∅ false in
            let '(w, r) := on_db (db_Exec query (cols.*2 ++ [Some (VInt W64 id)])%list) w in
            match r with
            | Ok res => (w, MkMutation (after_exec false res model) (Some original) false changed true, Ok ())
            | Err e => (w, mu, Err (db_save_failed e))
            | Panic m => (w, mu, Panic m)
            end
      end
  end.

Definition saveWithExecutor (now : goval) (model : gostruct) (readOriginalFromExecutor : bool) (w : world C D)
    : world C D * saveMutation * result unit :=
  let id := GetID model in
  let isNew := (id =? 0)%Z in
  let model := setNewRecordFlagIfBaseModel isNew model in
  let '(model, e) := triggerEvent reg "BeforeSave" model in
  match e with
  | Some e => (w, MkMutation model None isNew ∅ false, Err (ErrWrap "BeforeSave hook failed" e))
  | None =>
      if isNew then
        let '(model, e) := triggerEvent reg "BeforeCreate" model in
        match e with
        | Some e => (w, MkMutation model None isNew ∅ false, Err (ErrWrap "BeforeCreate hook failed" e))
        | None => save_create now model w
        end
      else save_update now id model readOriginalFromExecutor w
  end.

(** Errors of the cache and of hooks that the code only logs. *)
Definition swallow {A} (r : result A) : result unit :=
  match r with Panic m => Panic m | _ => Ok () end.

Definition set_model_action (cacheKey : string) (value : gostruct) (w : world C D) : world C D * result unit :=
  let '(w, r) := on_cache (cc_SetModel cacheKey value (Fields_ info) ttl) w in (w, swallow r).

Definition lock_key (cacheKey : string) : string := cacheKey +:+ ":lock".

(** The hooks after a save: their errors are logged. *)
Definition after_save_hooks (isNew : bool) (value : gostruct) : gostruct :=
  let value := if isNew then (triggerEvent reg "AfterCreate" value).1 else value in
  (triggerEvent reg "AfterSave" value).1.

Definition finalizeSave (mu : saveMutation) (w : world C D) : world C D * gostruct * result unit :=
  let value := mu_value mu in
  if negb (mu_applied mu) then (w, value, Ok ())
  else
    let cacheKey := model_key (GetID value) in
    let '(w, r) := WithLock (lock_key cacheKey) (set_model_action cacheKey value) w in
    match r with
    | Panic m => (w, value, Panic m)
    | _ =>
        let '(w, r) := invalidateAffectedQueryCaches info value (mu_original mu) (mu_isNew mu) false w in
        match r with
        | Panic m => (w, value, Panic m)
        | _ => (w, after_save_hooks (mu_isNew mu) value, Ok ())
        end
    end.

(** The model is changed in place: the operations return its final state. *)
Definition saveInternal (now : goval) (value : gostruct) (w : world C D) : world C D * gostruct * result unit :=
  let '(w, mu, r) := saveWithExecutor now value false w in
  match r with
  | Ok _ => finalizeSave mu w
  | r => (w, mu_value mu, r)
  end.

Definition Save : goval → gostruct → world C D → world C D * gostruct * result unit := saveInternal.

(** *** [SaveMany]

    The models are distinct objects; [now i] is the time at item [i]. *)

(** The loop: the mutations of the items done, the failing one last. *)
Fixpoint save_items (now : nat → goval) (i : nat) (values : list gostruct) (w : world C D)
    : world C D * list saveMutation * result unit :=
  match values with
  | [] => (w, [], Ok ())
  | value :: values =>
      let '(w, mu, r) := saveWithExecutor (now i) value true w in
      match r with
      | Ok _ => let '(w, mus, r) := save_items now (S i) values w in (w, mu :: mus, r)
      | Err e => (w, [mu], Err (ErrWrap "SaveMany item failed" e))
      | Panic m => (w, [mu], Panic m)
      end
  end.

(** After the commit, in order; a panic ends the loop. *)
Fixpoint finalize_items (mus : list saveMutation) (w : world C D) : world C D * list gostruct * result unit :=
  match mus with
  | [] => (w, [], Ok ())
  | mu :: mus =>
      let '(w, value, r) := finalizeSave mu w in
      match r with
      | Panic m => (w, value :: (mu_value <$> mus), Panic m)
      | _ => let '(w, values, r) := finalize_items mus w in (w, value :: values, r)
      end
  end.

(** The deferred rollback; its error is logged. *)
Definition rollback (w : world C D) : world C D := (on_db db_Rollback w).1.

Definition SaveMany (now : nat → goval) (values : list gostruct) (w : world C D)
    : world C D * list gostruct * result unit :=
  if bool_decide (values = []) then (w, [], Ok ())
  else
    let '(w, r) := on_db db_Begin w in
    match r with
    | Err e => (w, values, Err (ErrWrap "SaveMany begin transaction failed" e))
    | Panic m => (w, values, Panic m)
    | Ok _ =>
        let '(w, mus, r) := save_items now 0 values w in
        let saved := ((mu_value <$> mus) ++ drop (length mus) values)%list in
        match r with
        | Ok _ =>
            let '(w, r) := on_db db_Commit w in
            match r with
            | Ok _ => finalize_items mus w
            | Err e => (rollback w, saved, Err (ErrWrap "SaveMany commit failed" e))
            | Panic m => (rollback w, saved, Panic m)
            end
        | r => (rollback w, saved, r)
        end
    end.

(** *** [SoftDelete] *)

(** [Value.SetBool] and [Value.Set] of a [time.Time] panic on other types. *)
Definition set_bool_field (m : gostruct) (name : string) (b : bool) : result gostruct :=
  match FieldByName m name with
  | None => Err (ErrMsg "SoftDelete: could not set Deleted field via reflection")
  | Some v => if decide (kindof v = KBool) then Ok (set_field m name (rename (typeof v) (VBool b)))
              else Panic "reflect: call of reflect.Value.SetBool"
  end.
Definition set_time_field (m : gostruct) (name : string) (t : goval) : result gostruct :=
  match FieldByName m name with
  | None => Ok m
  | Some (VTime _ _) => Ok (set_field m name t)
  | Some (VIface _) => Ok (set_field m name (VIface (Some t)))
  | Some _ => Panic "reflect.Set: value of type time.Time is not assignable"
  end.

(** [t0] is the time [SoftDelete] reads, [now] the one the save reads. *)
Definition SoftDelete (t0 now : goval) (value : gostruct) (w : world C D) : world C D * gostruct * result unit :=
  if (GetID value =? 0)%Z then (w, value, Err (ErrMsg "SoftDelete: cannot soft delete record with zero ID"))
  else
    let '(value, e) := triggerEvent reg "BeforeSoftDelete" value in
    match e with
    | Some e => (w, value, Err (ErrWrap "BeforeSoftDelete hook failed" e))
    | None =>
        match set_bool_field value "Deleted" true with
        | Err e => (w, value, Err e)
        | Panic m => (w, value, Panic m)
        | Ok value =>
            match set_time_field value "UpdatedAt" t0 with
            | Err e => (w, value, Err e)
            | Panic m => (w, value, Panic m)
            | Ok value =>
                let '(w, value, r) := saveInternal now value w in
                match r with
                | Ok _ => (w, (triggerEvent reg "AfterSoftDelete" value).1, Ok ())
                | Err e => (w, value, Err (ErrWrap "SoftDelete failed during save operation" e))
                | Panic m => (w, value, Panic m)
                end
            end
        end
    end.

(** ** Deleting *)

Definition delete_row (id : Z) : world C D → world C D * result exec_result :=
  on_db (db_Exec (BuildDeleteSQL (TableName info) (PkName info)) [Some (VInt W64 id)]).

(** What [deleteInternal] does under the lock. *)
Definition delete_action (id : Z) (value : gostruct) (w : world C D) : world C D * result unit :=
  let '(w, r) := delete_row id w in
  match r with
  | Err e => (w, Err (ErrWrap "database delete failed" e))
  | Panic m => (w, Panic m)
  | Ok res =>
      let '(w, rd) := on_cache (cc_Delete (model_key id)) w in
      match rd with
      | Panic m => (w, Panic m)
      | _ =>
          if (RowsAffected res =? 0)%Z then (w, Err ErrNotFound)
          else let '(w, r) := invalidateAffectedQueryCaches info value (Some value) false true w in
               (w, swallow r)
      end
  end.

Definition deleteInternal (value : gostruct) (w : world C D) : world C D * gostruct * result unit :=
  let id := GetID value in
  if (id =? 0)%Z then (w, value, Err (ErrMsg "deleteInternal: cannot delete record with zero ID"))
  else
    let '(value, e) := triggerEvent reg "BeforeDelete" value in
    match e with
    | Some e => (w, value, Err (ErrWrap "BeforeDelete hook failed" e))
    | None =>
        let '(w, r) := WithLock (lock_key (model_key id)) (delete_action id value) w in
        match r with
        | Ok _ => (w, (triggerEvent reg "AfterDelete" value).1, Ok ())
        | Err e => (w, value, Err (if errors_Is e ErrNotFound then ErrNotFound
                                   else ErrWrap "delete operation failed (lock or db/cache exec)" e))
        | Panic m => (w, value, Panic m)
        end
    end.

Definition Delete_ : gostruct → world C D → world C D * gostruct * result unit := deleteInternal.

(** What [finalizeDelete] does under the lock. *)
Definition clear_action (value : gostruct) (w : world C D) : world C D * result unit :=
  let '(w, r) := on_cache (cc_Delete (model_key (GetID value))) w in
  match r with
  | Panic m => (w, Panic m)
  | Err e =>
      if errors_Is e ErrNotFound
      then let '(w, r) := invalidateAffectedQueryCaches info value (Some value) false true w in (w, swallow r)
      else (w, Err e)
  | Ok _ => let '(w, r) := invalidateAffectedQueryCaches info value (Some value) false true w in (w, swallow r)
  end.

Definition finalizeDelete (value : gostruct) (w : world C D) : world C D * gostruct * result unit :=
  let '(w, r) := WithLock (lock_key (model_key (GetID value))) (clear_action value) w in
  match r with
  | Panic m => (w, value, Panic m)
  | r => (w, (triggerEvent reg "AfterDelete" value).1, r)
  end.

(** *** [DeleteMany] *)

(** One item of the loop. *)
Definition delete_item (value : gostruct) (w : world C D) : world C D * gostruct * result unit :=
  let id := GetID value in
  if (id =? 0)%Z then (w, value, Err (ErrMsg "DeleteMany item failed: cannot delete record with zero ID"))
  else
    let '(value, e) := triggerEvent reg "BeforeDelete" value in
    match e with
    | Some e => (w, value, Err (ErrWrap "DeleteMany item BeforeDelete hook failed" e))
    | None =>
        let '(w, r) := delete_row id w in
        (w, value,
         match r with
         | Err e => Err (ErrWrap "DeleteMany item database delete failed" e)
         | Panic m => Panic m
         | Ok res => if (RowsAffected res =? 0)%Z then Err (ErrWrap "DeleteMany item failed" ErrNotFound) else Ok ()
         end)
    end.

(** The models of the items done, the failing one last. *)
Fixpoint delete_items (values : list gostruct) (w : world C D) : world C D * list gostruct * result unit :=
  match values with
  | [] => (w, [], Ok ())
  | value :: values =>
      let '(w, value, r) := delete_item value w in
      match r with
      | Ok _ => let '(w, vs, r) := delete_items values w in (w, value :: vs, r)
      | r => (w, [value], r)
      end
  end.

(** After the commit, every item is finalized; the first error is returned. *)
Fixpoint finalize_deletes (values : list gostruct) (firstErr : option goerr) (w : world C D)
    : world C D * list gostruct * result unit :=
  match values with
  | [] => (w, [], match firstErr with Some e => Err e | None => Ok () end)
  | value :: values =>
      let '(w, value, r) := finalizeDelete value w in
      match r with
      | Panic m => (w, value :: values, Panic m)
      | _ =>
          let firstErr := match r, firstErr with Err e, None => Some e | _, o => o end in
          let '(w, vs, r) := finalize_deletes values firstErr w in (w, value :: vs, r)
      end
  end.

Definition DeleteMany (values : list gostruct) (w : world C D) : world C D * list gostruct * result unit :=
  if bool_decide (values = []) then (w, [], Ok ())
  else
    let '(w, r) := on_db db_Begin w in
    match r with
    | Err e => (w, values, Err (ErrWrap "DeleteMany begin transaction failed" e))
    | Panic m => (w, values, Panic m)
    | Ok _ =>
        let '(w, vs, r) := delete_items values w in
        let left := (vs ++ drop (length vs) values)%list in
        match r with
        | Ok _ =>
            let '(w, r) := on_db db_Commit w in
            match r with
            | Ok _ => finalize_deletes vs None w
            | Err e => (rollback w, left, Err (ErrWrap "DeleteMany commit failed" e))
            | Panic m => (rollback w, left, Panic m)
            end
        | r => (rollback w, left, r)
        end
    end.
End crud.
