(* ===== verification/CrudFacts.v ===== *)
(** * Reading and writing records: properties

    Batch writes are transactions: nothing reaches the cache before the commit,
    and an error leaves the committed rows as they were.  Reads by id return
    the rows of the table, whatever part of them is cached.  A deleted record
    has no cache entry left. *)

From S2P Require Import Prelude GoStrings GoValues Predicate QueryMatch CacheIndex Metadata LocalCache.
From S2P Require Import CacheClient Invalidate SqlBuilder Hooks InvalidateFacts Crud.

Open Scope string_scope.

(** ** Transactions *)

(** What [database/sql] documents about a transaction: what other readers see
    ([committed]) changes when the transaction commits, and not before; an
    aborted transaction leaves it as it was. *)
Class TxLaws (D X : Type) `{DBAdapter D} := {
  committed : D → X;
  in_tx : D → Prop;
  law_Begin d : (db_Begin d).2 = Ok () → in_tx (db_Begin d).1;
  law_Begin_committed d : committed (db_Begin d).1 = committed d;
  law_tx_Exec q args d : in_tx d → in_tx (db_Exec q args d).1 ∧ committed (db_Exec q args d).1 = committed d;
  law_tx_Get q args d : in_tx d → in_tx (db_GetModel q args d).1 ∧ committed (db_GetModel q args d).1 = committed d;
  law_Commit_fails d : in_tx d → (db_Commit d).2 ≠ Ok () → committed (db_Commit d).1 = committed d;
  law_Rollback d : committed (db_Rollback d).1 = committed d
}.

Section transactions.
Context `{GoPlatform} `{ModelOps} {C D : Type} `{CacheClient C} `{DBAdapter D}.
Context (info : ModelInfo) (zero : gostruct) (ttl : Z) (reg : registry).

(** The statements of a transaction leave the cache and the index alone. *)
Definition same_cache (w w' : world C D) : Prop := w_cache w' = w_cache w ∧ w_index w' = w_index w.

Lemma same_cache_refl w : same_cache w w.
Proof. done. Qed.
Lemma same_cache_trans w1 w2 w3 : same_cache w1 w2 → same_cache w2 w3 → same_cache w1 w3.
Proof. intros [? ?] [? ?]. split; congruence. Qed.
Lemma same_cache_on_db {A} (f : D → D * A) w : same_cache w (on_db f w).1.
Proof. unfold on_db. by destruct (f (w_db w)). Qed.
Lemma on_db_db {A} (f : D → D * A) (w : world C D) : w_db (on_db f w).1 = (f (w_db w)).1.
Proof. unfold on_db. by destruct (f (w_db w)). Qed.
Lemma on_db_result {A} (f : D → D * A) (w : world C D) : (on_db f w).2 = (f (w_db w)).2.
Proof. unfold on_db. by destruct (f (w_db w)). Qed.
Hint Resolve same_cache_refl same_cache_on_db : thing.

Context {X : Type} `{!TxLaws D X}.

(** A step inside a transaction: the cache, the index and the committed rows
    are the same after it. *)
Definition tx_step (w w' : world C D) : Prop :=
  same_cache w w' ∧
  (in_tx (w_db w) → in_tx (w_db w') ∧ committed (w_db w') = committed (w_db w)).

Lemma tx_step_refl w : tx_step w w.
Proof. done. Qed.
Lemma tx_step_trans w1 w2 w3 : tx_step w1 w2 → tx_step w2 w3 → tx_step w1 w3.
Proof.
  intros [Hs1 Ht1] [Hs2 Ht2]. split; [by eapply same_cache_trans|]. intros [Hi Hc]%Ht1.
  destruct (Ht2 Hi). split; [done|congruence].
Qed.
Lemma tx_step_exec q args w : tx_step w (on_db (db_Exec q args) w).1.
Proof. split; [auto with thing|]. rewrite on_db_db. apply law_tx_Exec. Qed.
Lemma tx_step_get q args w : tx_step w (on_db (db_GetModel q args) w).1.
Proof. split; [auto with thing|]. rewrite on_db_db. apply law_tx_Get. Qed.
Hint Resolve tx_step_refl : thing.

(** Destruct a statement, keeping that it is a step. *)
Ltac tx_stmt :=
  match goal with
  | |- context [on_db (db_Exec ?q ?a) ?w] =>
      pose proof (tx_step_exec q a w); destruct (on_db (db_Exec q a) w) as [? []]; simpl in *
  | |- context [on_db (db_GetModel ?q ?a) ?w] =>
      pose proof (tx_step_get q a w); destruct (on_db (db_GetModel q a) w) as [? []]; simpl in *
  end.

Lemma tx_step_create now model w : tx_step w (save_create info now model w).1.1.
Proof.
  unfold save_create. cbv zeta. destruct (bool_decide _); [done|]. tx_stmt; done.
Qed.

Lemma tx_step_update now id model w : tx_step w (save_update info zero ttl now id model true w).1.1.
Proof.
  unfold save_update, getOriginalForSave. tx_stmt; [| |done]; cbv zeta;
    (destruct (FindChangedFieldsSimple _ _ _ _); [|done..]; destruct (decide _); [done|];
     tx_stmt; by eapply tx_step_trans).
Qed.

Lemma tx_step_save now model w : tx_step w (saveWithExecutor info zero ttl reg now model true w).1.1.
Proof.
  unfold saveWithExecutor. cbv zeta. destruct (triggerEvent reg "BeforeSave" _) as [m1 [e|]]; [done|].
  destruct (_ =? 0)%Z; [|apply tx_step_update].
  destruct (triggerEvent reg "BeforeCreate" _) as [m2 [e|]]; [done|]. apply tx_step_create.
Qed.

Lemma tx_step_items now i values w : tx_step w (save_items info zero ttl reg now i values w).1.1.
Proof.
  revert i w. induction values as [|v vs IH]; intros i w; simpl; [done|].
  pose proof (tx_step_save (now i) v w) as Hs.
  destruct (saveWithExecutor _ _ _ _ _ _ _ _) as [[w1 mu] []]; [|done..]. simpl in Hs.
  specialize (IH (S i) w1). destruct (save_items _ _ _ _ _ _ _ _) as [[w2 mus] r]. simpl in *.
  by eapply tx_step_trans.
Qed.

Lemma tx_step_delete_items values w : tx_step w (delete_items info reg values w).1.1.
Proof.
  revert w. induction values as [|v vs IH]; intros w; [apply tx_step_refl|].
  assert (Hs : tx_step w (delete_item info reg v w).1.1).
  { unfold delete_item, delete_row. cbv zeta. destruct (_ =? 0)%Z; [done|].
    destruct (triggerEvent _ _ _) as [? []]; [done|]. by tx_stmt. }
  cbn [delete_items]. destruct (delete_item info reg v w) as [[w1 v1] []]; [|done..]. simpl in Hs.
  specialize (IH w1). destruct (delete_items info reg vs w1) as [[w2 ms] r]. by eapply tx_step_trans.
Qed.

(** What an aborted batch leaves behind. *)
Definition untouched (w w' : world C D) : Prop :=
  same_cache w w' ∧ committed (w_db w') = committed (w_db w).

Lemma untouched_begin w : untouched w (on_db db_Begin w).1.
Proof. split; [auto with thing|]. rewrite on_db_db. apply law_Begin_committed. Qed.

(** The two ways to abort: an item fails, or the commit does. *)
Lemma untouched_rollback w w1 :
  (db_Begin (w_db w)).2 = Ok () → tx_step (on_db db_Begin w).1 w1 → untouched w (rollback w1).
Proof.
  intros Hb [Hs Ht]. unfold rollback. split.
  - do 2 (eapply same_cache_trans; [|eauto with thing]). auto with thing.
  - rewrite on_db_db, law_Rollback. rewrite on_db_db in Ht. destruct (Ht (law_Begin _ Hb)) as [_ ->].
    apply law_Begin_committed.
Qed.
Lemma untouched_commit_fails w w1 :
  (db_Begin (w_db w)).2 = Ok () → tx_step (on_db db_Begin w).1 w1 → (on_db db_Commit w1).2 ≠ Ok () →
  untouched w (rollback (on_db db_Commit w1).1).
Proof.
  intros Hb [Hs Ht] Hc. rewrite on_db_result in Hc. unfold rollback. split.
  - do 3 (eapply same_cache_trans; [|eauto with thing]). auto with thing.
  - rewrite on_db_db, law_Rollback, on_db_db. rewrite on_db_db in Ht.
    destruct (Ht (law_Begin _ Hb)) as [Hi He]. rewrite law_Commit_fails by done. rewrite He.
    apply law_Begin_committed.
Qed.

(** The statements after a commit do not fail: the loop ends or panics. *)
Lemma finalizeSave_no_error mu (w : world C D) e : (finalizeSave info ttl reg mu w).2 ≠ Err e.
Proof.
  unfold finalizeSave. cbv zeta. destruct (negb _); [done|].
  destruct (WithLock _ _ _) as [w1 []]; [| |done];
    (destruct (invalidateAffectedQueryCaches _ _ _ _ _ _) as [w2 []]; done).
Qed.
Lemma finalize_items_no_error mus (w : world C D) e : (finalize_items info ttl reg mus w).2 ≠ Err e.
Proof.
  revert w. induction mus as [|mu mus IH]; intros w; [done|]. cbn [finalize_items].
  destruct (finalizeSave info ttl reg mu w) as [[w1 v] r].
  destruct r; [| |done]; (specialize (IH w1); by destruct (finalize_items info ttl reg mus w1) as [[? ?] ?]).
Qed.

(** C12: SaveMany is atomic: an error leaves the cache, the index and the committed rows as they
    were, and on success nothing reached the cache before the transaction committed, after which
    the mutations are finalized in order. *)
Theorem SaveMany_atomic now values w :
  let r := SaveMany info zero ttl reg now values w in
  (∀ e, r.2 = Err e → untouched w r.1.1) ∧
  (r.2 = Ok () → values ≠ [] → ∃ w1 mus,
     save_items info zero ttl reg now 0 values (on_db db_Begin w).1 = (w1, mus, Ok ()) ∧
     same_cache w w1 ∧ (on_db db_Commit w1).2 = Ok () ∧
     r = finalize_items info ttl reg mus (on_db db_Commit w1).1).
Proof.
  unfold SaveMany. simpl. destruct (bool_decide_reflect (values = [])) as [->|Hne]; [done|].
  pose proof (untouched_begin w) as Hu.
  pose proof (untouched_rollback w) as Hroll. pose proof (untouched_commit_fails w) as Hfail.
  rewrite <-(on_db_result db_Begin) in Hroll, Hfail.
  destruct (on_db db_Begin w) as [w0 [[]|e|m]]; [|done..]. simpl in *.
  pose proof (tx_step_items now 0 values w0) as Ht.
  destruct (save_items info zero ttl reg now 0 values w0) as [[w1 mus] r] eqn:Ei. simpl in Ht.
  destruct r as [[]|e|m]; [|split; [intros; by apply Hroll|done]..].
  specialize (Hfail w1 eq_refl Ht).
  destruct (on_db db_Commit w1) as [w2 [[]|e|m]] eqn:Ec; [|split; [intros; by apply Hfail|done]..].
  split; [intros e He; by apply finalize_items_no_error in He|].
  intros _ _. exists w1, mus. rewrite Ec. split_and!; [done| |done..].
  destruct Hu as [Hu _], Ht as [Ht _]. by eapply same_cache_trans.
Qed.

(** C13: DeleteMany either fails with the cache, the index and the committed rows untouched, or
    deletes every row in one committed transaction before any cache entry is touched; only the
    finalization can then report an error. *)
Theorem DeleteMany_atomic values w :
  values ≠ [] →
  let r := DeleteMany info reg values w in
  (untouched w r.1.1 ∧ r.2 ≠ Ok ()) ∨
  (∃ w1 vs, delete_items info reg values (on_db db_Begin w).1 = (w1, vs, Ok ()) ∧
     same_cache w w1 ∧ (on_db db_Commit w1).2 = Ok () ∧
     r = finalize_deletes info reg vs None (on_db db_Commit w1).1).
Proof.
  intros Hne. unfold DeleteMany. rewrite bool_decide_eq_false_2 by done. cbv zeta.
  pose proof (untouched_begin w) as Hu.
  pose proof (untouched_rollback w) as Hroll. pose proof (untouched_commit_fails w) as Hfail.
  rewrite <-(on_db_result db_Begin) in Hroll, Hfail.
  destruct (on_db db_Begin w) as [w0 [[]|e|m]]; [|by left..]. cbn [fst snd] in *.
  pose proof (tx_step_delete_items values w0) as Ht.
  destruct (delete_items info reg values w0) as [[w1 vs] r] eqn:Ei. cbn [fst snd] in Ht.
  destruct r as [[]|e|m]; [|left; split; [by apply Hroll|done]..].
  specialize (Hfail w1 eq_refl Ht).
  destruct (on_db db_Commit w1) as [w2 [[]|e|m]] eqn:Ec; [|left; split; [by apply Hfail|done]..].
  right. exists w1, vs. rewrite Ec. split_and!; [done| |done..].
  destruct Hu as [Hu _], Ht as [Ht _]. by eapply same_cache_trans.
Qed.
End transactions.

(** ** Reading by id *)

Section fetch.
Context `{GoPlatform} `{ModelOps} {C D : Type} `{CacheClient C} `{DBAdapter D}.
Context (info : ModelInfo) (zero : gostruct) (ttl : Z).

(** The rows of the table by primary key, and the states of the database in
    which it answers with them. *)
Context (rows : gmap Z gostruct) (db_ok : D → Prop).

Definition table_answers : Prop :=
  ∀ d batch, db_ok d → batch ≠ [] →
    let a := db_SelectModels (select_by_ids info batch) ((λ id, Some (VInt W64 id)) <$> batch) d in
    db_ok a.1 ∧ ∃ rs, a.2 = Ok rs ∧ ∀ r, r ∈ rs ↔ ∃ id, id ∈ batch ∧ rows !! id = Some r.

Definition table_keyed : Prop := ∀ id r, rows !! id = Some r → GetID r = id ∧ id ≠ 0%Z.

(** What a caller gets for an id: the row, marked as stored. *)
Definition row_of (id : Z) : option gostruct := setNewRecordFlagIfBaseModel false <$> rows !! id.

(** A cached answer agrees with the table. *)
Definition cached_right (id : Z) (r : result gostruct) : Prop :=
  match r with
  | Ok m => row_of id = Some (setNewRecordFlagIfBaseModel false m)
  | Err e => errors_Is e ErrCacheNoneResult = true → rows !! id = None
  | Panic _ => False
  end.

(** Only right rows, of requested ids. *)
Definition found_right (ids : list Z) (found : gmap Z gostruct) : Prop :=
  ∀ id m, found !! id = Some m → id ∈ ids ∧ row_of id = Some m.

Lemma row_of_None id : rows !! id = None → row_of id = None.
Proof. unfold row_of. by intros ->. Qed.

Lemma found_right_done ids found id :
  found_right ids found → row_of id = None → found !! id = row_of id.
Proof.
  intros Hf Hn. rewrite Hn. destruct (found !! id) as [m|] eqn:E; [|done].
  apply Hf in E as [_ E]. congruence.
Qed.

Lemma split_cached_spec ids rs :
  Forall2 cached_right ids rs →
  let '(found, missing) := split_cached ids rs in
  found_right ids found ∧ (∀ id, id ∈ missing → id ∈ ids) ∧
  (∀ id, id ∈ ids → id ∈ missing ∨ found !! id = row_of id).
Proof.
  induction 1 as [|id r ids rs Hr _ IH]; simpl.
  { split_and!; [intros id m; by rewrite lookup_empty|by intros ? ?%elem_of_nil..]. }
  destruct (split_cached ids rs) as [found missing] eqn:Es. destruct IH as (Hf&Hm&Ha).
  assert (Hf' : found_right (id :: ids) found).
  { intros i m Hi%Hf. set_solver. }
  destruct r as [m|e|msg]; simpl in Hr; [| |done].
  - split_and!.
    + destruct (bool_decide_reflect (is_Some (found !! id))) as [_|Hn]; [done|].
      intros i x. rewrite lookup_insert. case_decide as Hi; [subst i|apply Hf'].
      intros [= <-]. split; [left|done].
    + set_solver.
    + intros i Hi. destruct (bool_decide_reflect (is_Some (found !! id))) as [[y Hy]|Hn].
      * apply elem_of_cons in Hi as [->|Hi]; [|auto]. right. rewrite Hy. by apply Hf' in Hy as [_ ->].
      * rewrite lookup_insert. case_decide as Hi'; [subst i; by right|]. set_solver.
  - destruct (errors_Is e ErrCacheNoneResult); split_and!; [done|set_solver| |done|set_solver..].
    intros i [->|Hi]%elem_of_cons; [right|auto].
    eapply found_right_done; [done|]. by apply row_of_None, Hr.
Qed.

Lemma take_rows_spec ids rs c found fetched :
  table_keyed → found_right ids found →
  (∀ r, r ∈ rs → ∃ id, id ∈ ids ∧ rows !! id = Some r) →
  let '(_, found', _) := take_rows info ttl rs c found fetched in
  found_right ids found' ∧
  (∀ id, found !! id = row_of id → found' !! id = row_of id) ∧
  (∀ r, r ∈ rs → found' !! GetID r = row_of (GetID r)).
Proof.
  intros Hkey. revert c found fetched. induction rs as [|r rs IH]; intros c found fetched Hf Hrs.
  { simpl. split_and!; [done|done|by intros ? ?%elem_of_nil]. }
  destruct (Hrs r) as (id&Hid&Hr); [left|]. destruct (Hkey _ _ Hr) as [Hg Hnz].
  cbn [take_rows]. cbv zeta. rewrite Hg. destruct (Z.eqb_spec id 0); [done|].
  assert (Hrow : row_of id = Some (setNewRecordFlagIfBaseModel false r)) by (unfold row_of; by rewrite Hr).
  match goal with |- context [take_rows info ttl rs ?c' ?f' ?s'] =>
    specialize (IH c' f' s'); destruct (take_rows info ttl rs c' f' s') as [[c1 found1] s1] end.
  destruct IH as (Hf1&Hk1&Hr1).
  - intros i m. rewrite lookup_insert. case_decide as Hi; [subst i|apply Hf]. by intros [= <-].
  - intros x Hx. apply Hrs. by right.
  - split_and!; [done| |].
    + intros i Hi. apply Hk1. rewrite lookup_insert. by case_decide as Hi'; [subst i|].
    + intros x [->|Hx]%elem_of_cons; [|auto]. rewrite Hg. apply Hk1. by rewrite lookup_insert_eq.
Qed.

Lemma fetch_batch_spec ids batch (w : world C D) found :
  table_answers → table_keyed → db_ok (w_db w) → batch ≠ [] → batch ⊆ ids → found_right ids found →
  let '(w', found') := fetch_batch info ttl batch w found in
  db_ok (w_db w') ∧ found_right ids found' ∧
  (∀ id, found !! id = row_of id → found' !! id = row_of id) ∧
  (∀ id, id ∈ batch → found' !! id = row_of id).
Proof.
  intros Hans Hkey Hdb Hne Hsub Hf. unfold fetch_batch.
  destruct (Hans _ _ Hdb Hne) as (Hdb'&rs&Hrs&Hin).
  rewrite <-on_db_db in Hdb'. rewrite <-on_db_result in Hrs.
  destruct (on_db _ w) as [w1 a]. simpl in Hdb', Hrs. subst a.
  pose proof (take_rows_spec ids rs (w_cache w1) found ∅ Hkey Hf) as Ht.
  destruct (take_rows info ttl rs (w_cache w1) found ∅) as [[c1 found1] s1].
  destruct Ht as (Hf1&Hk1&Hr1).
  { intros r (id&Hb&Hr)%Hin. exists id. split; [by apply Hsub|done]. }
  split_and!; [done..|]. intros id Hid. destruct (rows !! id) as [r|] eqn:Er.
  - assert (GetID r = id) as <- by (by apply Hkey). apply Hr1, Hin. eauto.
  - eapply found_right_done; [done|]. by apply row_of_None.
Qed.

(** The batches cover the missing ids. *)
Lemma fetch_batches_spec ids fuel missing (w : world C D) found :
  table_answers → table_keyed → db_ok (w_db w) → (length missing ≤ fuel)%nat → missing ⊆ ids → found_right ids found →
  let found' := (fetch_batches info ttl fuel missing w found).2 in
  found_right ids found' ∧
  (∀ id, found !! id = row_of id → found' !! id = row_of id) ∧
  (∀ id, id ∈ missing → found' !! id = row_of id).
Proof.
  intros Hans Hkey. revert missing w found.
  induction fuel as [|fuel IH]; intros [|i missing] w found Hdb Hlen Hsub Hf; cbn [fetch_batches];
    try (cbn [snd]; split_and!; [done|done|by intros ? ?%elem_of_nil]).
  { simpl in Hlen. lia. }
  set (all := i :: missing) in *.
  assert (Hsplit : ∀ x, x ∈ all ↔ x ∈ take ByIDBatchSize all ∨ x ∈ drop ByIDBatchSize all).
  { intros x. rewrite <-(take_drop ByIDBatchSize all) at 1. apply elem_of_app. }
  pose proof (fetch_batch_spec ids (take ByIDBatchSize all) w found Hans Hkey Hdb) as Hb.
  destruct (fetch_batch info ttl (take ByIDBatchSize all) w found) as [w1 found1].
  destruct Hb as (Hdb1&Hf1&Hk1&Hr1); [done|set_solver|done|].
  destruct (IH (drop ByIDBatchSize all) w1 found1) as (Hf2&Hk2&Hr2); [done| |set_solver|done|].
  { rewrite length_drop. unfold all, ByIDBatchSize in *. simpl in *. lia. }
  cbv zeta. split_and!; [done|auto|]. intros x [Hx|Hx]%Hsplit; auto.
Qed.

Lemma fetchModelsByIDs_lemma ids (w : world C D) :
  table_answers → table_keyed → db_ok (w_db w) →
  Forall2 cached_right ids (cc_MGetModel ((λ id, (model_key info id, zero)) <$> ids) (w_cache w)).2 →
  ∃ found, (fetchModelsByIDsInternal info zero ttl ids w).2 = Ok found ∧
    ∀ id, found !! id = if bool_decide (id ∈ ids) then row_of id else None.
Proof.
  intros Hans Hkey Hdb Hc. unfold fetchModelsByIDsInternal.
  destruct (bool_decide_reflect (ids = [])) as [->|Hne].
  { exists ∅. split; [done|]. intros id. by rewrite lookup_empty, bool_decide_eq_false_2 by apply not_elem_of_nil. }
  assert (Hon : ∀ A (f : C → C * A), on_cache f w = (MkWorld (f (w_cache w)).1 (w_index w) (w_db w), (f (w_cache w)).2)).
  { intros A f. unfold on_cache. by destruct (f (w_cache w)). }
  rewrite Hon. destruct (cc_MGetModel _ (w_cache w)) as [c rs]. cbn [fst snd] in *.
  assert (existsb is_Panic rs = false) as ->.
  { clear -Hc. induction Hc as [|id r ids rs Hr _ IH]; [done|]. by destruct r. }
  pose proof (split_cached_spec ids rs Hc) as Hs. destruct (split_cached ids rs) as [found missing].
  destruct Hs as (Hf&Hm&Ha).
  pose proof (fetch_batches_spec ids (length missing) missing (MkWorld c (w_index w) (w_db w)) found) as Hb.
  destruct (fetch_batches info ttl (length missing) missing _ found) as [w' found'].
  destruct Hb as (Hf'&Hk'&Hr'); [done..|]. cbn [snd] in *. exists found'. split; [done|].
  intros id. destruct (bool_decide_reflect (id ∈ ids)) as [Hid|Hn].
  - destruct (Ha id Hid); auto.
  - destruct (found' !! id) as [m|] eqn:E; [|done]. by apply Hf' in E as [? _].
Qed.

(** C11: fetching by ids returns exactly the rows of the table for the requested ids, whatever
    part of them the cache answers, however many batches are needed and whatever ids repeat,
    provided what the cache answers agrees with the table. *)
Theorem fetchModelsByIDs_correct ids (w : world C D) :
  table_answers → table_keyed → db_ok (w_db w) →
  Forall2 cached_right ids (cc_MGetModel ((λ id, (model_key info id, zero)) <$> ids) (w_cache w)).2 →
  ∃ found, (fetchModelsByIDsInternal info zero ttl ids w).2 = Ok found ∧
    ∀ id, found !! id = if bool_decide (id ∈ ids) then row_of id else None.
Proof. apply fetchModelsByIDs_lemma. Qed.
End fetch.
