(* ===== verification/WriteFacts.v ===== *)
(** * Writes on the local cache

    What [Save] and [Delete] leave in the local cache: the entries of the
    queries a write affects are gone, a deleted record has no entry, and a
    record just saved is read back from the cache. *)

From S2P Require Import Prelude GoStrings GoValues GoValuesFacts Predicate QueryMatch QueryMatchFacts.
From S2P Require Import CacheIndex CacheIndexFacts Metadata LocalCache CacheClient LocalCacheFacts.
From S2P Require Import Invalidate InvalidateFacts MetadataFacts Freshness SqlBuilder Hooks Crud.
From S2P Require Import CrudFacts.

Open Scope string_scope.

Section writes.
Context `{GoPlatform} `{Gob} `{ModelOps} {D : Type} `{DBAdapter D}.
Notation lworld := (world local_client D).

(** ** What locks leave alone *)

Record same_entries (w w' : lworld) : Prop := {
  se_store : store (lc (w_cache w')) = store (lc (w_cache w));
  se_expiry : expiryStore (lc (w_cache w')) = expiryStore (lc (w_cache w));
  se_env : lc_env (w_cache w') = lc_env (w_cache w);
  se_index : w_index w' = w_index w;
  se_db : w_db w' = w_db w
}.

Lemma same_entries_refl w : same_entries w w.
Proof. done. Qed.
Lemma same_entries_trans w1 w2 w3 : same_entries w1 w2 → same_entries w2 w3 → same_entries w1 w3.
Proof. intros [] []. split; congruence. Qed.

Lemma local_op_env {A} (f : env_step → localCache → localCache * A) c : lc_env (local_op f c).1 = lc_env c.
Proof. unfold local_op. by destruct (f (env_now c) (lc c)). Qed.
Lemma expiry_AcquireLock br k d m m' r : AcquireLock br k d m = Some (m', r) → expiryStore m' = expiryStore m.
Proof. unfold AcquireLock, getLock; simpl. intros. break; done. Qed.
Lemma expiry_ReleaseLock br k m m' r : ReleaseLock br k m = Some (m', r) → expiryStore m' = expiryStore m.
Proof. unfold ReleaseLock, getLock; simpl. intros. break; done. Qed.
Lemma expiry_local_acquire k d e m : expiryStore (local_acquire k d e m).1 = expiryStore m.
Proof.
  unfold local_acquire.
  destruct (AcquireLock (es_branch e) k d m) as [[]|] eqn:E; [by eapply expiry_AcquireLock|].
  destruct (AcquireLock OnChannel k d m) as [[]|] eqn:E1; simpl; [by eapply expiry_AcquireLock|].
  destruct (AcquireLock OnTimeout k d m) as [[]|] eqn:E2; simpl; [by eapply expiry_AcquireLock|done].
Qed.
Lemma expiry_local_release k e m : expiryStore (local_release k e m).1 = expiryStore m.
Proof.
  unfold local_release.
  destruct (ReleaseLock (es_branch e) k m) as [[]|] eqn:E; [by eapply expiry_ReleaseLock|].
  destruct (ReleaseLock OnChannel k m) as [[]|] eqn:E1; simpl; [by eapply expiry_ReleaseLock|].
  destruct (ReleaseLock OnDefault k m) as [[]|] eqn:E2; simpl; [by eapply expiry_ReleaseLock|done].
Qed.

(** The client after an operation that keeps the entries. *)
Definition same_client (c c' : local_client) : Prop :=
  store (lc c') = store (lc c) ∧ expiryStore (lc c') = expiryStore (lc c) ∧ lc_env c' = lc_env c.

Lemma same_client_acquire k d c : same_client c (cc_AcquireLock k d c).1.
Proof.
  cbn [cc_AcquireLock local_CacheClient]. unfold same_client. rewrite local_op_1, local_op_env.
  by rewrite store_local_acquire, expiry_local_acquire.
Qed.
Lemma same_client_release k c : same_client c (cc_ReleaseLock k c).1.
Proof.
  cbn [cc_ReleaseLock local_CacheClient]. unfold same_client. rewrite local_op_1, local_op_env.
  by rewrite store_local_release, expiry_local_release.
Qed.
Lemma same_client_wait c : same_client c (cc_Wait c).1.
Proof. cbn [cc_Wait local_CacheClient]. unfold same_client. by rewrite local_op_1, local_op_env. Qed.
Lemma same_client_trans c1 c2 c3 : same_client c1 c2 → same_client c2 c3 → same_client c1 c3.
Proof. intros (?&?&?) (?&?&?). split_and!; congruence. Qed.

Lemma same_client_loop n k c : same_client c (acquire_loop n k c).1.
Proof.
  revert c. induction n as [|n IH]; intros c; cbn [acquire_loop]; [done|].
  pose proof (same_client_acquire k LockDuration c) as Ha.
  destruct (cc_AcquireLock k LockDuration c) as [c1 [[]|e|m]]; try done. cbn [fst] in Ha.
  pose proof (same_client_wait c1) as Hw. destruct (cc_Wait c1) as [c2 [e|]]; cbn [fst] in Hw.
  - by eapply same_client_trans.
  - do 2 (eapply same_client_trans; [done|]). apply IH.
Qed.

(** The local cache never panics while it acquires a lock. *)
Lemma acquire_loop_no_panic n k (c : local_client) m : (acquire_loop n k c).2 ≠ Panic m.
Proof.
  revert c. induction n as [|n IH]; intros c; cbn [acquire_loop]; [done|].
  assert (Hp : ∀ x, (cc_AcquireLock k LockDuration c).2 ≠ Panic x).
  { intros x. cbn [cc_AcquireLock local_CacheClient]. rewrite local_op_2. unfold local_acquire, AcquireLock, getLock.
    simpl. break; done. }
  destruct (cc_AcquireLock k LockDuration c) as [c1 [[]|e|x]]; [done| |done|by destruct (Hp x)].
  destruct (cc_Wait c1) as [c2 [e|]]; [done|apply IH].
Qed.

(** [WithLock] either gives up, or runs the action between two steps that keep
    the entries; it does run it when the lock is obtained. *)
Lemma WithLock_cases k action (w : lworld) :
  (same_entries w (WithLock k action w).1 ∧ (∃ e, (WithLock k action w).2 = Err e) ∧
   (acquire_loop LockMaxRetries k (w_cache w)).2 ≠ Ok true) ∨
  (∃ w1, same_entries w w1 ∧ (WithLock k action w).2 = (action w1).2 ∧
         same_entries (action w1).1 (WithLock k action w).1).
Proof.
  unfold WithLock, on_cache.
  pose proof (same_client_loop LockMaxRetries k (w_cache w)) as (Hs&He&Hv).
  pose proof (acquire_loop_no_panic LockMaxRetries k (w_cache w)) as Hp.
  destruct (acquire_loop LockMaxRetries k (w_cache w)) as [c1 r]. cbn [fst snd] in *.
  destruct r as [[]|e|m]; [right|left|left|by destruct (Hp m)].
  - exists (MkWorld c1 (w_index w) (w_db w)). split; [by split|].
    destruct (action (MkWorld c1 (w_index w) (w_db w))) as [w2 r2]. cbn [fst snd].
    pose proof (same_client_release k (w_cache w2)) as (Hs2&He2&Hv2).
    destruct (cc_ReleaseLock k (w_cache w2)) as [c3 r3]. split; [done|]. by split.
  - split; [by split|]. split; [eauto|done].
  - split; [by split|]. split; [eauto|done].
Qed.

(** ** What an invalidation leaves alone *)

Definition query_key (k : string) : bool := is_list_key k || is_count_key k.

(** The entry of [k] is the same in both. *)
Definition keeps (k : string) (c c' : local_client) : Prop :=
  store (lc c') !! k = store (lc c) !! k ∧ expiryStore (lc c') !! k = expiryStore (lc c) !! k ∧
  lc_env c' = lc_env c.

Lemma keeps_refl k c : keeps k c c.
Proof. done. Qed.
Lemma keeps_trans k c1 c2 c3 : keeps k c1 c2 → keeps k c2 c3 → keeps k c1 c3.
Proof. intros (?&?&?) (?&?&?). split_and!; congruence. Qed.
Lemma keeps_remove k k' c : k ≠ k' → keeps k c (cc_Delete k' c).1.
Proof.
  intros Hne. cbn [cc_Delete local_CacheClient]. unfold keeps. rewrite local_op_1, local_op_env. simpl.
  by rewrite !lookup_delete_ne by done.
Qed.
Lemma keeps_read k k' c : k ≠ k' → keeps k c (cc_GetQueryIDs k' c).1.
Proof.
  intros Hne. cbn [cc_GetQueryIDs local_CacheClient]. unfold keeps. rewrite local_op_1, local_op_env.
  unfold GetQueryIDs. simpl. destruct (store (lc c) !! k') as [v|]; [|done].
  destruct (isExpired _ _ _); simpl; [by rewrite !lookup_delete_ne by done|]. by destruct v as [|[]].
Qed.

Lemma verdict_query_key inp ctx k :
  match gather_key inp ctx k with
  | VTask t => cacheKey t = k ∧ query_key k = true
  | VDrop => query_key k = true
  | _ => True
  end.
Proof.
  unfold gather_key, query_key. destruct (is_list_key k) eqn:El, (is_count_key k) eqn:Ec; simpl; try done;
    (destruct (KeyToParams ctx !! k); [|done]; destruct (check_match _ _ _ _) as [mc| |]; try done;
     destruct (in_isDelete inp); [by destruct mc|];
     match goal with |- context [match ?r with Ok _ => _ | _ => _ end] => destruct r as [mo| |] end; try done;
     match goal with |- context [decide_task ?i ?x ?d ?mo ?mc] =>
       pose proof (decide_task_Some i x d mo mc) as Hd; destruct (decide_task i x d mo mc) end; [|done];
     split; [by apply Hd|done]).
Qed.

(** The tasks are for keys phase 1 did not skip. *)
Lemma keeps_gather k inp ctx keys c :
  (k ∈ keys → gather_key inp ctx k = VSkip) →
  keeps k c (gather inp ctx keys c).1 ∧
  (∀ tasks t, (gather inp ctx keys c).2 = Ok tasks → t ∈ tasks → cacheKey t ≠ k).
Proof.
  revert c. induction keys as [|x keys IH]; intros c Hk; cbn [gather].
  { split; [done|]. by intros ? ? [= <-] ?%elem_of_nil. }
  assert (Hk' : k ∈ keys → gather_key inp ctx k = VSkip) by (intros; apply Hk; by right).
  assert (Hx0 : gather_key inp ctx x = VSkip ∨ x ≠ k) by (destruct (decide (x = k)) as [->|]; [left; apply Hk; left|by right]).
  specialize (λ c, IH c Hk').
  pose proof (verdict_query_key inp ctx x) as Hv. destruct (gather_key inp ctx x) as [t| | |m] eqn:Ex.
  - destruct Hv as [Ht Hx]. specialize (IH c). destruct (gather inp ctx keys c) as [c1 r]. cbn [fst snd] in *.
    destruct IH as [Hkeep Hts]. split; [done|]. intros tasks t'. destruct r as [ts| |]; cbn; try done.
    intros [= <-] [->|Hin]%elem_of_cons; [destruct Hx0; congruence|]. by eapply Hts.
  - destruct (IH (cc_Delete x c).1) as [Hkeep Hts]. split; [|done].
    eapply keeps_trans; [|done]. apply keeps_remove. destruct Hx0; congruence.
  - apply IH.
  - done.
Qed.

Lemma keeps_reads k tasks seen c :
  (∀ t, t ∈ tasks → cacheKey t ≠ k) → keeps k c (read_lists tasks seen c).1.
Proof.
  revert seen c. induction tasks as [|t tasks IH]; intros seen c Hts; cbn [read_lists]; [done|].
  assert (Hrest : ∀ t', t' ∈ tasks → cacheKey t' ≠ k) by (intros ??; apply Hts; by right).
  case_match; [|by apply IH].
  assert (Hr : keeps k c (cc_GetQueryIDs (cacheKey t) c).1).
  { apply keeps_read. intros ->. by apply (Hts t (list_elem_of_here _ _)). }
  destruct (cc_GetQueryIDs (cacheKey t) c) as [c1 r]. eapply keeps_trans; [done|]. by apply IH.
Qed.

Lemma keeps_writes k keys c :
  (∀ x, x ∈ keys → x ≠ k) → keeps k c (foldl write_one c keys).
Proof.
  revert c. induction keys as [|x keys IH]; intros c Hks; [done|]. cbn [foldl].
  eapply keeps_trans; [|apply IH; intros ??; apply Hks; by right].
  unfold write_one. pose proof (keeps_remove k x c) as Hr.
  assert (k ≠ x) as Hne by (intros ->; by apply (Hks x (list_elem_of_here _ _))). specialize (Hr Hne).
  destruct (cc_Delete x c) as [c1 [|e|]]; try done. destruct (errors_Is _ _); [done|].
  eapply keeps_trans; [done|]. by apply keeps_remove.
Qed.

Lemma keeps_process k inp ctx c :
  (k ∈ CacheKeys ctx → gather_key inp ctx k = VSkip) → keeps k c (process_candidates inp ctx c).1.
Proof.
  intros Hk. unfold process_candidates. destruct (keeps_gather k inp ctx (CacheKeys ctx) c Hk) as [Hg Hts].
  destruct (gather inp ctx (CacheKeys ctx) c) as [c1 [tasks| |]]; [|done..]. cbn [fst snd] in *.
  eapply keeps_trans; [exact Hg|]. unfold run_tasks.
  pose proof (keeps_reads k tasks ∅ c1 (λ t, Hts tasks t eq_refl)) as Hr.
  destruct (read_lists tasks ∅ c1) as [c2 reads]. eapply keeps_trans; [exact Hr|].
  apply keeps_writes. intros x Hx%elem_of_elements%elem_of_list_to_set.
  apply list_elem_of_fmap in Hx as (t&->&[_ Ht]%list_elem_of_filter). by eapply Hts.
Qed.

(** An entry phase 1 would skip is kept; the index and the database are not
    touched. *)
Lemma invalidate_keeps_gen info model original isCreate isDelete (w : lworld) k :
  (∀ changed fv cols, changedModelColumns info model original = Ok changed →
     let ctx := GetInvalidationContext (w_index w) (TableName info) fv cols in
     k ∈ CacheKeys ctx →
     gather_key (MkInput info model original isCreate isDelete changed (keepItemFieldChanged model changed)) ctx k = VSkip) →
  let w' := (invalidateAffectedQueryCaches info model original isCreate isDelete w).1 in
  keeps k (w_cache w) (w_cache w') ∧ w_index w' = w_index w ∧ w_db w' = w_db w.
Proof.
  intros Hk. unfold invalidateAffectedQueryCaches. destruct (_ =? 0)%Z; [done|].
  destruct (changedModelColumns info model original) as [changed| |] eqn:Hch,
    (field_values (CompareFields info) model) as [values| |]; try done.
  unfold on_cache. cbv zeta.
  match goal with |- context [process_candidates ?i ?x ?c] =>
    pose proof (keeps_process k i x c) as Hp; destruct (process_candidates i x c) as [c' r] end.
  cbn [fst w_cache w_index w_db] in *. split; [|done]. apply Hp. by apply Hk.
Qed.

(** Only entries of queries are removed. *)
Lemma invalidate_keeps info model original isCreate isDelete (w : lworld) k :
  query_key k = false →
  let w' := (invalidateAffectedQueryCaches info model original isCreate isDelete w).1 in
  keeps k (w_cache w) (w_cache w') ∧ w_index w' = w_index w ∧ w_db w' = w_db w.
Proof.
  intros [Hl Hc]%orb_false_iff. apply invalidate_keeps_gen. intros changed fv cols _ ctx _.
  unfold gather_key. by rewrite Hl, Hc.
Qed.

(** ** Precision *)

(** C9: invalidation is precise: a registered query whose clause rejects the row before and
    after the write (the row being kept, or deleted) keeps its cache entry and its expiry. *)
Theorem invalidation_precise key_table info model wk (w : lworld) k p :
  index_reachable key_table (w_index w) → keyToParams (w_index w) !! k = Some p →
  KeepItem model = true ∨ wk = Deleted → checks info p model = Ok false →
  (∀ o, wk = Updated o → checks info p o = Ok false) →
  let w' := (invalidate info model wk w).1 in
  store (lc (w_cache w')) !! k = store (lc (w_cache w)) !! k ∧
  expiryStore (lc (w_cache w')) !! k = expiryStore (lc (w_cache w)) !! k.
Proof.
  intros Hwf%index_wf_reachable Hp Hkeep Hm Ho.
  destruct (invalidate_keeps_gen info model (wk_original model wk) (wk_create wk) (wk_delete wk) w k) as ((?&?&_)&_);
    [|done].
  intros changed fv cols _ ctx Hin.
  assert (Hctx : in_context ctx k p) by (by apply (GetInvalidationContext_entry key_table)).
  destruct (query_key k) eqn:Hq; [|apply orb_false_iff in Hq as [Hl Hc]; unfold gather_key; by rewrite Hl, Hc].
  apply orb_true_iff in Hq. change (MkInput _ _ _ _ _ _ _) with (input_of info model wk changed).
  rewrite (gather_key_unfold info model wk changed ctx k p), Hm by done.
  assert (Hd : KeepItem model = true → decide_task (input_of info model wk changed) k (deps_of k p) false false = None).
  { intros Hk. unfold decide_task, determineCacheAction, input_of. simpl. rewrite Hk. simpl.
    rewrite !andb_false_r. by destruct (wk_create wk). }
  destruct wk as [| |o]; [|done|rewrite (Ho o) by done]; (destruct Hkeep as [Hk|]; [by rewrite Hd|done]).
Qed.

(** The queries of a restored row phase 1 does not notice keep their entries. *)
Lemma missed_kept key_table info model wk (w : lworld) k p changed :
  index_reachable key_table (w_index w) → keyToParams (w_index w) !! k = Some p → query_key k = true →
  changedModelColumns info model (wk_original model wk) = Ok changed → missed info model changed k p wk →
  keeps k (w_cache w) (w_cache (invalidate info model wk w).1).
Proof.
  intros Hwf%index_wf_reachable Hp Hq Hch (Hr&Hki&Hord). apply orb_true_iff in Hq.
  destruct wk as [| |o]; [done..|]. destruct Hr as (_&Hk&Hm&Ho).
  apply (invalidate_keeps_gen info model (Some o) false false w k).
  intros changed' fv cols Hch' ctx Hin. assert (changed' = changed) as -> by (cbn [wk_original] in Hch; congruence).
  assert (Hctx : in_context ctx k p) by (by apply (GetInvalidationContext_entry key_table)).
  change (MkInput _ _ _ _ _ _ _) with (input_of info model (Updated o) changed).
  rewrite (gather_key_unfold info model (Updated o) changed ctx k p), Hm, Ho by done.
  unfold decide_task, determineCacheAction, input_of. simpl. rewrite Hk, Hki. simpl.
  destruct (is_list_key k); [|done]. by rewrite Hord.
Qed.

(** ** The setting of a write, after steps that keep the index *)

Lemma local_setting_entries key_table typeName mm fs info model wk (w w' : lworld) :
  w_index w' = w_index w → lists_typed (lc (w_cache w')) →
  local_setting key_table typeName mm fs info model wk w →
  local_setting key_table typeName mm fs info model wk w'.
Proof. intros Hi Hl []. split; try done; by rewrite Hi. Qed.

Lemma lists_typed_sub (m m' : localCache) :
  (∀ k v, is_list_key k = true → store m' !! k = Some v → store m !! k = Some v) →
  lists_typed m → lists_typed m'.
Proof. intros Hs Hty k v Hk Hv. eapply Hty; [done|]. by apply Hs. Qed.

(** The world after the entry of the record is removed. *)
Lemma delete_entry (w : lworld) key :
  let w' := (on_cache (cc_Delete key) w).1 in
  store (lc (w_cache w')) = delete key (store (lc (w_cache w))) ∧ (on_cache (cc_Delete key) w).2 = Ok () ∧
  w_index w' = w_index w ∧ w_db w' = w_db w.
Proof.
  unfold on_cache. pose proof (local_op_1 (λ _, Delete key) (w_cache w)) as Hop.
  pose proof (local_op_2 (λ _, Delete key) (w_cache w)) as Hr.
  cbn [cc_Delete local_CacheClient].
  destruct (local_op (λ _, Delete key) (w_cache w)) as [c r]. cbn [fst snd] in *. subst r.
  cbn [w_cache w_index w_db fst snd]. by rewrite Hop.
Qed.

(** Two values agree on the columns of a clause. *)
Definition clause_agrees (info : ModelInfo) (p : QueryParams) (m r : gostruct) : Prop :=
  ∀ q c, pred_of p = Some q → c ∈ predicate_Fields q → same_column m r (ColumnToFieldMap info) c.

Lemma agrees_checks info p m r :
  clause_agrees info p m r → checks info p r ≠ Ok false → checks info p m ≠ Ok false.
Proof.
  intros Ha Hr. destruct (pred_of p) as [q|] eqn:Hq.
  - rewrite (checks_frame info p q m r Hq); [done|]. intros c. by apply Ha.
  - pose proof (checks_unparsed info p m Hq) as Hu. by destruct (checks info p m).
Qed.

(** What [deleteInternal] does under the lock. *)
Lemma delete_action_fresh key_table typeName mm fs info id value (w : lworld) :
  local_setting key_table typeName mm fs info value Deleted w →
  query_key (model_key info id) = false →
  (delete_action info id value w).2 = Ok () →
  let w' := (delete_action info id value w).1 in
  (∃ res, (delete_row info id w).2 = Ok res ∧ RowsAffected res ≠ 0%Z) ∧
  w_db w' = w_db (delete_row info id w).1 ∧
  store (lc (w_cache w')) !! model_key info id = None ∧
  ∀ k p, keyToParams (w_index w) !! k = Some p → key_table k = TableName info → query_key k = true →
    clause_known info p → checks info p value ≠ Ok false → store (lc (w_cache w')) !! k = None.
Proof.
  intros Hs Hk. unfold delete_action.
  pose proof (same_cache_on_db (db_Exec (BuildDeleteSQL (TableName info) (PkName info)) [Some (VInt W64 id)]) w) as [Hc Hi].
  fold (delete_row (C := local_client) info id) in Hc, Hi.
  destruct (delete_row info id w) as [w1 [res| |]]; [|done..]. cbn [fst snd] in *.
  pose proof (delete_entry w1 (model_key info id)) as (Hst&Hok&Hi1&Hd1).
  destruct (on_cache (cc_Delete (model_key info id)) w1) as [w2 r2]. cbn [fst snd] in *. subst r2.
  destruct (Z.eqb_spec (RowsAffected res) 0); [done|].
  assert (Hs2 : local_setting key_table typeName mm fs info value Deleted w2).
  { eapply local_setting_entries; [| |done]; [congruence|].
    eapply lists_typed_sub; [|apply (ls_lists _ _ _ _ _ _ _ _ Hs)].
    intros k v _. rewrite Hst, Hc. by intros [_ ?]%lookup_delete_Some. }
  pose proof (invalidate_keeps info value (Some value) false true w2 (model_key info id) Hk) as (Hkeep&_&Hd2).
  pose proof (λ k p changed, local_invalidation_lemma key_table typeName mm fs info value Deleted w2 k p changed Hs2) as Hinv.
  unfold invalidate in Hinv. cbn [wk_original wk_create wk_delete] in Hinv.
  destruct (invalidateAffectedQueryCaches info value (Some value) false true w2) as [w3 r3] eqn:E3.
  cbn [fst snd] in *. intros _. split; [by eauto|]. split; [congruence|]. split.
  { destruct Hkeep as [-> _]. by rewrite Hst, lookup_delete_eq. }
  intros k p Hp Ht Hq Hcl Hch.
  destruct (changedModelColumns_Ok info value (Some value)) as [changed Hchg].
  { apply (local_inv_setting _ _ _ _ _ _ _ _ Hs2). }
  { intros o [= <-]. apply (local_inv_setting _ _ _ _ _ _ _ _ Hs2). }
  destruct (Hinv k p changed) as [_ [?|[(_&(_&_&[])&_)|[[] _]]]]; try done.
  - by rewrite Hi1, Hi.
  - by apply orb_true_iff in Hq.
  - by apply aff_deleted.
Qed.

(** C4: when Delete returns without error on the local cache, the DELETE affected a row, the
    record's own cache entry is gone, and so is the entry of every registered list or count
    query of the table whose clause the caller's copy (after the BeforeDelete hooks) matches or
    cannot be evaluated on; the same holds with the stored row, or any row, in place of the copy
    when the two agree on the columns of the clause. It does not hold of a copy that differs
    there (crud.go:513). Assumed: the clause names only columns that the code compares, none
    tagged diff:"-" (cache.go:194); the metadata is the one computed for a struct type whose
    only embedded struct is BaseModel; no check of a registered clause panics. *)
Theorem Delete_fresh key_table typeName mm fs info reg value value1 (w : lworld) :
  triggerEvent reg "BeforeDelete" value = (value1, None) →
  local_setting key_table typeName mm fs info value1 Deleted w →
  query_key (model_key info (GetID value)) = false →
  (deleteInternal info reg value w).2 = Ok () →
  let w' := (deleteInternal info reg value w).1.1 in
  (∃ res, (delete_row info (GetID value) w).2 = Ok res ∧ RowsAffected res ≠ 0%Z) ∧
  w_db w' = w_db (delete_row info (GetID value) w).1 ∧
  store (lc (w_cache w')) !! model_key info (GetID value) = None ∧
  ∀ k p, keyToParams (w_index w) !! k = Some p → key_table k = TableName info → query_key k = true →
    clause_known info p →
    checks info p value1 ≠ Ok false ∨ (∃ r, clause_agrees info p value1 r ∧ checks info p r ≠ Ok false) →
    store (lc (w_cache w')) !! k = None.
Proof.
  intros Hev Hs Hk. unfold deleteInternal. destruct (_ =? 0)%Z; [done|]. rewrite Hev.
  pose proof (WithLock_cases (lock_key (model_key info (GetID value)))
    (delete_action info (GetID value) value1) w) as Hlock.
  destruct (WithLock _ _ w) as [w3 r3]. cbn [fst snd] in Hlock.
  destruct r3 as [[]| |]; [|done..]. intros _. cbn [fst snd].
  destruct Hlock as [(_&[e He]&_)|(w1&Hw1&Hr&Hw3)]; [done|].
  destruct (delete_action_fresh key_table typeName mm fs info (GetID value) value1 w1) as (Hres&Hdb&Hown&Hq); [|done..|].
  { eapply local_setting_entries; [apply Hw1| |done].
    eapply lists_typed_sub; [|apply (ls_lists _ _ _ _ _ _ _ _ Hs)]. intros k v _. by rewrite (se_store _ _ Hw1). }
  unfold delete_row in *. rewrite !on_db_db, !on_db_result in *. rewrite (se_db _ _ Hw1) in *.
  split; [done|]. split; [rewrite <-Hdb; apply Hw3|]. rewrite (se_store _ _ Hw3). split; [done|].
  intros k p. rewrite <-(se_index _ _ Hw1). intros Hp Ht Hqk Hcl Hch. apply (Hq k p); [done..|].
  destruct Hch as [?|(r&?&?)]; [done|by eapply agrees_checks].
Qed.

(** ** Saving *)

(** The kind of write a mutation is. *)
Definition wk_of (mu : saveMutation) : write_kind :=
  if mu_isNew mu then Created else Updated (default [] (mu_original mu)).

Lemma saveWithExecutor_kind info zero ttl reg now value ro (w w1 : lworld) mu :
  saveWithExecutor info zero ttl reg now value ro w = (w1, mu, Ok ()) → mu_applied mu = true →
  mu_original mu = wk_original (mu_value mu) (wk_of mu) ∧ mu_isNew mu = wk_create (wk_of mu) ∧
  wk_delete (wk_of mu) = false.
Proof.
  unfold saveWithExecutor, save_create, save_update. cbv zeta.
  destruct (triggerEvent reg "BeforeSave" _) as [m1 [e|]]; [done|]. destruct (_ =? 0)%Z.
  - destruct (triggerEvent reg "BeforeCreate" _) as [m2 [e|]]; [done|]. destruct (bool_decide _); [done|].
    destruct (on_db _ _) as [? [| |]]; [|done..]. by intros [= <- <-].
  - match goal with |- context [let '(_, _) := ?x in _] => destruct x as [w2 r] end.
    destruct r as [o| |]; [| |done]; (destruct (FindChangedFieldsSimple _ _ _ _); [|done..];
      destruct (decide _); [by intros [= <- <-]|]; destruct (on_db _ _) as [? [| |]]; [|done..];
      by intros [= <- <-]).
Qed.

(** The model's entry is written, or its encoding fails; nothing else changes. *)
Lemma set_model_action_spec info ttl key value (w : lworld) :
  let w' := (set_model_action info ttl key value w).1 in
  (set_model_action info ttl key value w).2 = Ok () ∧ w_index w' = w_index w ∧ w_db w' = w_db w ∧
  lc_env (w_cache w') = lc_env (w_cache w) ∧
  lc (w_cache w') = (SetModel (es_now (env_now (w_cache w))) key value (Fields_ info) ttl (lc (w_cache w))).1.
Proof.
  unfold set_model_action, on_cache. cbn [cc_SetModel local_CacheClient].
  set (f := λ e, SetModel (es_now e) key value (Fields_ info) ttl).
  pose proof (local_op_1 f (w_cache w)) as Hop. pose proof (local_op_2 f (w_cache w)) as Hr.
  pose proof (local_op_env f (w_cache w)) as He.
  destruct (local_op f (w_cache w)) as [c r]. cbn [fst snd w_cache w_index w_db] in *.
  split_and!; try done. subst r. unfold f, SetModel. by destruct (gob_map _).
Qed.

Lemma store_SetModel_ne now key model fields ttl m k :
  k ≠ key → store (SetModel now key model fields ttl m).1 !! k = store m !! k.
Proof.
  intros Hne. unfold SetModel. destruct (gob_map _); [|done]. cbn [fst].
  rewrite store_set_expiration. by apply lookup_insert_ne.
Qed.

(** The first part of [finalizeSave]: the lock and the model's own entry. *)
Lemma save_entry_spec info ttl (w : lworld) value :
  let key := model_key info (GetID value) in
  let l := WithLock (lock_key key) (set_model_action info ttl key value) w in
  (∀ m, l.2 ≠ Panic m) ∧ w_index l.1 = w_index w ∧ w_db l.1 = w_db w ∧
  ∀ k, k ≠ key → store (lc (w_cache l.1)) !! k = store (lc (w_cache w)) !! k.
Proof.
  cbv zeta. set (key := model_key info (GetID value)).
  destruct (WithLock_cases (lock_key key) (set_model_action info ttl key value) w)
    as [(Hsame&[e ->]&_)|(wa&Ha&Hr&Hb)].
  - split; [done|]. split; [apply Hsame|]. split; [apply Hsame|]. intros k _. by rewrite (se_store _ _ Hsame).
  - destruct (set_model_action_spec info ttl key value wa) as (Hok&Hi&Hd&_&Hst). rewrite Hr, Hok. split; [done|].
    rewrite (se_index _ _ Hb), (se_db _ _ Hb), (se_store _ _ Hb), Hi, Hd, Hst.
    split; [apply Ha|]. split; [apply Ha|]. intros k Hk. rewrite store_SetModel_ne by done.
    by rewrite (se_store _ _ Ha).
Qed.

(** C3: a Save that wrote the row succeeds, does not touch the database after the statement,
    and, on the local cache, leaves no entry of any registered list or count query of the table
    that the write affects: the clause matches the new row and not the old one or the other way
    round, cannot be parsed or evaluated, holds of both while an order column of the list or a
    column named by KeepItemFields differs, or the row is saved hidden, or a hidden row is
    restored. Two exceptions, both stated: a list the row enters that already had its id is
    left, and the entry of a restored row's query is kept as it was when neither an order column
    nor a KeepItemFields column differs (missed; cache.go:533). Assumed: the clause and, for an
    update of a list, the order name only columns that the code compares, since it skips columns
    tagged diff:"-" (cache.go:194, shown to matter by Witnesses.ignored_column_not_invalidated);
    the metadata is the one computed for a struct type whose only embedded struct is BaseModel;
    no check of a registered clause panics. *)
Theorem Save_fresh key_table typeName mm fs info zero ttl reg now value (w w1 : lworld) mu k p changed :
  saveWithExecutor info zero ttl reg now value false w = (w1, mu, Ok ()) → mu_applied mu = true →
  local_setting key_table typeName mm fs info (mu_value mu) (wk_of mu) w1 →
  query_key (model_key info (GetID (mu_value mu))) = false →
  keyToParams (w_index w1) !! k = Some p → key_table k = TableName info → query_key k = true →
  compared_query info k p (wk_of mu) → changedModelColumns info (mu_value mu) (mu_original mu) = Ok changed →
  affected info (mu_value mu) k p (wk_of mu) →
  let r := Save info zero ttl reg now value w in
  r.2 = Ok () ∧ w_db r.1.1 = w_db w1 ∧
  (store (lc (w_cache r.1.1)) !! k = None ∨
   is_list_key k = true ∧ enters info p (mu_value mu) (wk_of mu) ∧
     (∃ ids, store (lc (w_cache w1)) !! k = Some (PBytes (GobIDs ids)) ∧ GetID (mu_value mu) ∈ ids) ∨
   missed info (mu_value mu) changed k p (wk_of mu) ∧
     store (lc (w_cache r.1.1)) !! k = store (lc (w_cache w1)) !! k).
Proof.
  intros Hsave Happ Hs Hkey Hp Ht Hq Hcl Hch Haff.
  destruct (saveWithExecutor_kind _ _ _ _ _ _ _ _ _ _ Hsave Happ) as (Ho&Hn&Hdel).
  unfold Save, saveInternal. rewrite Hsave. unfold finalizeSave. rewrite Happ. cbn [negb]. cbv zeta.
  pose proof (save_entry_spec info ttl w1 (mu_value mu)) as (Hpan&Hi&Hd&Hst). cbv zeta in *.
  destruct (WithLock _ _ w1) as [w2 r2]. cbn [fst snd] in *.
  assert (Hs2 : local_setting key_table typeName mm fs info (mu_value mu) (wk_of mu) w2).
  { eapply local_setting_entries; [done| |done].
    eapply lists_typed_sub; [|apply (ls_lists _ _ _ _ _ _ _ _ Hs)]. intros x v Hx. rewrite Hst; [done|].
    intros ->. unfold query_key in Hkey. by rewrite Hx in Hkey. }
  pose proof (invalidate_keeps info (mu_value mu) (mu_original mu) (mu_isNew mu) false w2 _ Hkey) as (_&_&Hd2).
  pose proof (local_invalidation_lemma key_table typeName mm fs info (mu_value mu) (wk_of mu) w2 k p changed Hs2) as Hinv.
  pose proof (missed_kept key_table info (mu_value mu) (wk_of mu) w2 k p changed (ls_index _ _ _ _ _ _ _ _ Hs2)) as Hkept.
  unfold invalidate in Hinv, Hkept. rewrite <-Ho, <-Hn, Hdel in Hinv, Hkept. rewrite Hi in Hkept. cbv zeta in *.
  destruct (invalidateAffectedQueryCaches _ _ _ _ _ w2) as [w3 r3]. cbn [fst snd] in *.
  destruct Hinv as [-> Hinv]; try done; [by rewrite Hi|by apply orb_true_iff in Hq|].
  rewrite (Hst k) in Hinv by (intros ->; congruence).
  assert (Hfate : missed info (mu_value mu) changed k p (wk_of mu) →
                  store (lc (w_cache w3)) !! k = store (lc (w_cache w1)) !! k).
  { intros Hm. destruct (Hkept Hp Hq Hch Hm) as [-> _]. apply Hst. intros ->. congruence. }
  destruct r2 as [| |m]; [| |by destruct (Hpan m)]; (split; [done|]; cbn [fst]; split; [congruence|naive_solver]).
Qed.

(** ** Reading back *)

(** What [GetModel] answers depends on the entry of the key only. *)
Lemma GetModel_entry now key dest m m' :
  store m' !! key = store m !! key → expiryStore m' !! key = expiryStore m !! key →
  (GetModel now key dest m').2 = (GetModel now key dest m).2.
Proof.
  intros Hs He. unfold GetModel, isExpired. simpl. rewrite Hs, He.
  destruct (store m !! key) as [v|]; [|done]. set (b := match expiryStore m !! key with Some _ => _ | None => _ end). destruct b; [done|].
  destruct v as [|[]]; try done. destruct (gob_map _); [|done]. by destruct (populate _ _).
Qed.

Lemma FieldByName_flag b m name :
  name ≠ "isNewRecord" → FieldByName (setNewRecordFlagIfBaseModel b m) name = FieldByName m name.
Proof.
  intros Hne. unfold FieldByName, setNewRecordFlagIfBaseModel.
  set (m' := on_base_model _ m).
  assert (Hat : ∀ d, fields_at d m' name = fields_at d m name).
  { intros [|d]; unfold m', on_base_model; cbn [fields_at]; apply flat_map_fmap; intros [n x|n fs]; try done.
    destruct (n =? "BaseModel")%string; [|done]. by apply (fields_at_set_ne 0). }
  assert (Hdepth : struct_depth m' = struct_depth m).
  { unfold m', on_base_model, struct_depth. clear. induction m as [|f m IH]; [done|]. rewrite fmap_cons. cbn [map foldr].
    rewrite IH. f_equal. destruct f as [n x|n fs]; [done|]. cbn [field_depth]. f_equal.
    destruct (n =? "BaseModel")%string; [|done]. apply (struct_depth_set 0). }
  rewrite Hdepth. generalize (seq 0 (S (struct_depth m))). intros ds.
  induction ds as [|d ds IH]; [done|]. cbn [field_search]. by rewrite Hat, IH.
Qed.

(** A record whose cached fields survive gob, read into a zero value of its
    type. *)
Definition cacheable (fields : list string) (value zero : gostruct) : Prop :=
  ∀ f, f ∈ fields → exported f = true ∧ ∃ v v' old,
    FieldByName value f = Some v ∧ gob_keeps v v' ∧ FieldByName zero f = Some old ∧ typeof old = typeof v.

(** A read that hits the cache does not ask the database. *)
Lemma ByID_hit info zero ttl id (w : lworld) m :
  (0 < id)%Z →
  (GetModel (es_now (env_now (w_cache w))) (model_key info id) zero (lc (w_cache w))).2 = Ok m →
  (ByID info zero ttl id w).2 = Ok (setNewRecordFlagIfBaseModel false m) ∧
  w_db (ByID info zero ttl id w).1 = w_db w.
Proof.
  intros Hid Hget. unfold ByID, byIDInternal. destruct (Z.leb_spec id 0); [lia|].
  unfold fetchModelsByIDsInternal. rewrite bool_decide_eq_false_2 by done.
  unfold on_cache. cbn [cc_MGetModel local_CacheClient fmap list_fmap]. unfold local_op. cbn [MGetModel].
  destruct (GetModel _ (model_key info id) zero (lc (w_cache w))) as [c r]. cbn [snd] in Hget. subst r.
  cbn [existsb is_Panic orb split_cached].
  rewrite bool_decide_eq_false_2 by (rewrite lookup_empty; by intros ?%is_Some_None).
  cbn. by rewrite lookup_insert_eq.
Qed.

Lemma acquire_loop_free k (c : local_client) :
  ¬ held (lc c) k → (∀ e, es_branch (env_now c) ≠ OnCancel e) → es_branch (env_now c) ≠ OnTimeout →
  (acquire_loop LockMaxRetries k c).2 = Ok true.
Proof.
  intros Hh Hc Ht. unfold LockMaxRetries. cbn [acquire_loop cc_AcquireLock local_CacheClient].
  destruct (local_acquire_free k LockDuration (env_now c) (lc c)) as [Hr _]; [done..|].
  unfold local_op. destruct (local_acquire k LockDuration (env_now c) (lc c)) as [m r].
  cbn [snd] in Hr. by subst r.
Qed.

(** The entry [finalizeSave] leaves for the record, the lock being free. *)
Lemma save_entry_written info ttl (w : lworld) value :
  let key := model_key info (GetID value) in
  let w' := (WithLock (lock_key key) (set_model_action info ttl key value) w).1 in
  ¬ held (lc (w_cache w)) (lock_key key) →
  (∀ n e, es_branch (lc_env (w_cache w) n) ≠ OnCancel e) → (∀ n, es_branch (lc_env (w_cache w) n) ≠ OnTimeout) →
  lc_env (w_cache w') = lc_env (w_cache w) ∧
  ∃ n m0, store (lc (w_cache w')) = store (SetModel (es_now (lc_env (w_cache w) n)) key value (Fields_ info) ttl m0).1 ∧
    expiryStore (lc (w_cache w')) = expiryStore (SetModel (es_now (lc_env (w_cache w) n)) key value (Fields_ info) ttl m0).1.
Proof.
  cbv zeta. set (key := model_key info (GetID value)). intros Hh Hc Ht.
  destruct (WithLock_cases (lock_key key) (set_model_action info ttl key value) w)
    as [(_&_&Hn)|(wa&Ha&_&Hb)].
  { destruct Hn. apply acquire_loop_free; [done|intros e; apply Hc|apply Ht]. }
  destruct (set_model_action_spec info ttl key value wa) as (_&_&_&Henv&Hst).
  rewrite (se_env _ _ Hb), Henv, (se_env _ _ Ha). split; [done|].
  exists (lc_pos (w_cache wa)), (lc (w_cache wa)).
  rewrite (se_store _ _ Hb), (se_expiry _ _ Hb), Hst. unfold env_now. by rewrite (se_env _ _ Ha).
Qed.

(** The entry that [finalizeSave] writes is read back, from the cache alone. *)
Lemma finalize_then_ByID info zero ttl reg mu (w : lworld) :
  mu_applied mu = true →
  let id := GetID (mu_value mu) in
  let r := finalizeSave info ttl reg mu w in
  (0 < id)%Z → query_key (model_key info id) = false →
  cacheable (Fields_ info) (mu_value mu) zero →
  ¬ held (lc (w_cache w)) (lock_key (model_key info id)) →
  (∀ n e, es_branch (lc_env (w_cache w) n) ≠ OnCancel e) → (∀ n, es_branch (lc_env (w_cache w) n) ≠ OnTimeout) →
  (∀ n n', expired_at (es_now (lc_env (w_cache w) n)) ttl (es_now (lc_env (w_cache w) n')) = false) →
  r.2 = Ok () →
  ∃ m, (ByID info zero ttl id r.1.1).2 = Ok m ∧ w_db (ByID info zero ttl id r.1.1).1 = w_db r.1.1 ∧
       ∀ f, f ∈ Fields_ info → FieldByName m f = FieldByName (mu_value mu) f ≫= gob_iface.
Proof.
  intros Happ id r Hid Hkey Hcache Hh Hc Ht Hexp. unfold r.
  unfold finalizeSave. rewrite Happ. cbn [negb]. cbv zeta. fold id.
  destruct (save_entry_written info ttl w (mu_value mu) Hh Hc Ht) as (Henv&n&m0&Hst&Hex). cbv zeta in *. fold id in Hst, Hex, Henv.
  destruct (WithLock _ _ w) as [w2 r2]. cbn [fst] in *.
  pose proof (invalidate_keeps info (mu_value mu) (mu_original mu) (mu_isNew mu) false w2 _ Hkey) as ((Hk1&Hk2&Hk3)&_&_).
  destruct (invalidateAffectedQueryCaches _ _ _ _ _ w2) as [w3 r3]. cbn [fst] in *.
  assert (Hread : ∃ m, (GetModel (es_now (env_now (w_cache w3))) (model_key info id) zero (lc (w_cache w3))).2 = Ok m ∧
     ∀ f, f ∈ Fields_ info → FieldByName m f = FieldByName (mu_value mu) f ≫= gob_iface).
  { destruct (SetModel_GetModel_lemma (es_now (lc_env (w_cache w) n)) (es_now (env_now (w_cache w3)))
      (model_key info id) (mu_value mu) zero (Fields_ info) ttl m0) as (_&m&Hm&Hf&_); [done| |].
    - unfold env_now. rewrite Hk3, Henv. apply Hexp.
    - exists m. split; [|done]. rewrite <-Hm. apply GetModel_entry; by rewrite ?Hk1, ?Hk2, ?Hst, ?Hex. }
  destruct Hread as (m&Hm&Hf). destruct (ByID_hit info zero ttl id w3 m Hid Hm) as [Hb Hd].
  assert (Hflag : ∀ f, f ∈ Fields_ info →
    FieldByName (setNewRecordFlagIfBaseModel false m) f = FieldByName (mu_value mu) f ≫= gob_iface).
  { intros f Hin. rewrite FieldByName_flag; [by apply Hf|]. intros ->. by destruct (Hcache _ Hin). }
  destruct r2; [| |done]; (destruct r3; [| |done]; intros _; cbn [fst]; by eauto).
Qed.

End writes.
