(* ===== verification/Query.v ===== *)
(** * List and count queries (query.go; cache keys in cache.go)

    A [CachedResult] is the record of the query and of what it has loaded; its
    methods change it in place and return its new state.  The text [json.Marshal]
    gives for the parameters and the cache version are parameters.  Relations
    ([Preloads]) are part of the key and are not loaded here. *)

From S2P Require Import Prelude GoStrings GoValues Predicate QueryMatch CacheIndex Metadata LocalCache CacheClient.
From S2P Require Import Invalidate SqlBuilder Hooks Crud.

Open Scope string_scope.

(** ** Cache keys (cache.go) *)

(** [json_Marshal] is [None] on an error; the key is then made from the clock,
    which Go reads at each call and [marshal_failed_at] gives once per query: a
    query that fails to marshal has one key here, and a new one per call in Go,
    where its entries are then never read back. *)
Class QueryEnv := {
  json_Marshal : QueryParams → option string;
  marshal_failed_at : QueryParams → Z;
  GetCacheVersion : Z
}.

(** [hash/fnv]: 64-bit FNV-1a. *)
Definition fnv64a (s : string) : Z :=
  fold_left (λ h c, (Z.lxor h (code c) * 1099511628211) mod 2 ^ 64)%Z
    (String.list_ascii_of_string s) 14695981039346656037%Z.

(** [strconv.FormatUint(n, 16)]. *)
Definition hex_digit (n : Z) : ascii :=
  ascii_of_N (Z.to_N (if (n <? 10)%Z then 48 + n else 87 + n)).
Fixpoint hex_digits (fuel : nat) (n : Z) (acc : string) : string :=
  match fuel with
  | O => acc
  | S fuel =>
      let acc := String (hex_digit (n mod 16)) acc in
      if (n / 16 =? 0)%Z then acc else hex_digits fuel (n / 16) acc
  end.
Definition FormatHex64 (n : Z) : string := hex_digits 16 n "".

(** internal/utils [NormalizeValue]: a slice of interfaces is copied (a nil one
    becomes empty), other values are kept. *)
Fixpoint NormalizeValue (v : goval) : goval :=
  match v with
  | VSlice TIface (Some l) =>
      VSlice TIface (Some (map (λ e, match e with
                                     | VIface (Some x) => VIface (Some (NormalizeValue x))
                                     | e => e
                                     end) l))
  | VSlice TIface None => VSlice TIface (Some [])
  | v => v
  end.

Section keys.
Context `{QueryEnv}.

Definition GenerateQueryHash (params : QueryParams) : string :=
  match json_Marshal params with
  | Some text => FormatHex64 (fnv64a text)
  | None => "error_hash_" +:+ FormatInt (marshal_failed_at params)
  end.

Definition GenerateCacheKey (prefix tableName : string) (params : QueryParams) : string :=
  let normalized := MkQueryParams (Where params) (fmap (M := option) NormalizeValue <$> Args params) (Order params)
                      (Preloads params) (IncludeDeleted params) in
  prefix +:+ ":v" +:+ FormatInt GetCacheVersion +:+ ":" +:+ tableName +:+ ":" +:+ GenerateQueryHash normalized.
End keys.

(** ** State *)

Definition cacheListCountLimit : nat := 200.

Record CachedResult := MkCR {
  cr_params : QueryParams;
  cr_cachedIDs : list Z;
  cr_cachedCount : Z;
  cr_hasLoadedIDs : bool;
  cr_hasLoadedCount : bool;
  cr_hasLoadedAll : bool;
  cr_all : list gostruct;
  cr_Err : option goerr
}.

Definition no_params : QueryParams := MkQueryParams "" [] "" [] false.

Definition Query (params : QueryParams) : CachedResult := MkCR params [] 0 false false false [] None.

(** *** Builders: a copy with other parameters and nothing loaded *)

Definition with_params (cr : CachedResult) (params : QueryParams) : CachedResult :=
  MkCR params [] 0 false false false [] (cr_Err cr).

Definition WithDeleted (cr : CachedResult) : CachedResult :=
  let p := cr_params cr in with_params cr (MkQueryParams (Where p) (Args p) (Order p) (Preloads p) true).
Definition Where_ (where_ : string) (args : list (option goval)) (cr : CachedResult) : CachedResult :=
  let p := cr_params cr in with_params cr (MkQueryParams where_ args (Order p) (Preloads p) (IncludeDeleted p)).
Definition Order_ (order : string) (cr : CachedResult) : CachedResult :=
  let p := cr_params cr in with_params cr (MkQueryParams (Where p) (Args p) order (Preloads p) (IncludeDeleted p)).
Definition Preload (preloads : list string) (cr : CachedResult) : CachedResult :=
  let p := cr_params cr in
  with_params cr (MkQueryParams (Where p) (Args p) (Order p) (Preloads p ++ preloads)%list (IncludeDeleted p)).

(** *** Starting a chain on a [Thing] *)

Definition Thing_Where (where_ : string) (args : list (option goval)) : CachedResult :=
  Query (MkQueryParams where_ args "" [] false).
Definition Thing_Order (order : string) : CachedResult := Query (MkQueryParams "" [] order [] false).
Definition Thing_Preload (preloads : list string) : CachedResult := Query (MkQueryParams "" [] "" preloads false).

Definition set_count (n : Z) (cr : CachedResult) : CachedResult :=
  MkCR (cr_params cr) (cr_cachedIDs cr) n (cr_hasLoadedIDs cr) true (cr_hasLoadedAll cr) (cr_all cr) (cr_Err cr).
Definition set_ids (ids : list Z) (cr : CachedResult) : CachedResult :=
  MkCR (cr_params cr) ids (cr_cachedCount cr) true (cr_hasLoadedCount cr) (cr_hasLoadedAll cr) (cr_all cr) (cr_Err cr).
Definition set_all (ms : list gostruct) (cr : CachedResult) : CachedResult :=
  MkCR (cr_params cr) (cr_cachedIDs cr) (cr_cachedCount cr) (cr_hasLoadedIDs cr) (cr_hasLoadedCount cr) true ms (cr_Err cr).
Definition forget_loaded (cr : CachedResult) : CachedResult :=
  MkCR (cr_params cr) [] 0 false false (cr_hasLoadedAll cr) (cr_all cr) (cr_Err cr).

(** The clause with the implicit soft-delete condition. *)
Definition visible_where (params : QueryParams) : string :=
  if IncludeDeleted params then Where params
  else if Where params =? "" then dquote "deleted" +:+ " = false"
  else "(" +:+ Where params +:+ ") AND " +:+ dquote "deleted" +:+ " = false".

Section query.
Context `{GoPlatform} `{ModelOps} `{QueryEnv} {C D : Type} `{CacheClient C} `{DBAdapter D}.
Context (info : ModelInfo) (zero : gostruct) (ttl : Z).

Definition generateCountCacheKey (cr : CachedResult) : string :=
  GenerateCacheKey "count" (TableName info) (cr_params cr).
Definition generatePreciseCountCacheKey (cr : CachedResult) : string :=
  GenerateCacheKey "count_precise" (TableName info) (cr_params cr).
Definition generateListCacheKey (cr : CachedResult) : string :=
  GenerateCacheKey "list" (TableName info) (cr_params cr).

(** ** Counts *)

(** A cached count; a text that is no number is deleted. *)
Definition read_count (key : string) (w : world C D) : world C D * option Z :=
  let '(w, r) := on_cache (cc_Get key) w in
  match r with
  | Ok s => match ParseInt s with
            | Some n => (w, Some n)
            | None => ((on_cache (cc_Delete key) w).1, None)
            end
  | _ => (w, None)
  end.

(** A cached list that holds the whole answer. *)
Definition read_short_list (key : string) (w : world C D) : world C D * option (list Z) :=
  let '(w, r) := on_cache (cc_GetQueryIDs key) w in
  (w, match r with
      | Ok ids => if (length (default [] ids) <? cacheListCountLimit)%nat then Some (default [] ids) else None
      | _ => None
      end).

Definition register (key : string) (params : QueryParams) (w : world C D) : world C D :=
  on_index (RegisterQuery (TableName info) key params) w.

(** A failed write to the cache is logged. *)
Definition store_count (key : string) (n : Z) (params : QueryParams) (w : world C D) : world C D :=
  register key params (on_cache (cc_Set key (FormatInt n) ttl) w).1.

Definition Count (cr : CachedResult) (w : world C D) : world C D * CachedResult * result Z :=
  if cr_hasLoadedCount cr then (w, cr, Ok (cr_cachedCount cr))
  else
    let key := generateCountCacheKey cr in
    let '(w, o) := read_count key w in
    match o with
    | Some n => (w, set_count n cr, Ok n)
    | None =>
        let '(w, o) := read_short_list (generateListCacheKey cr) w in
        match o with
        | Some ids =>
            let n := Z.of_nat (length ids) in
            (store_count key n (cr_params cr) w, set_count n cr, Ok n)
        | None =>
            let '(w, r) := on_db (db_GetCount (TableName info) (visible_where (cr_params cr)) (Args (cr_params cr))) w in
            match r with
            | Ok n => (store_count key n (cr_params cr) w, set_count n cr, Ok n)
            | Err e => (w, cr, Err (ErrWrap "database count query failed" e))
            | Panic m => (w, cr, Panic m)
            end
        end
    end.

Definition ids_query (params : QueryParams) (offset limit : Z) : string * list (option goval) :=
  let '(query, args) := BuildSelectIDsSQL (TableName info) (PkName info) (visible_where params) (Args params) (Order params) in
  (query +:+ " LIMIT " +:+ FormatInt limit +:+ " OFFSET " +:+ FormatInt offset, args).

Definition fetch_ids_from_db (params : QueryParams) (offset limit : Z) (w : world C D) : world C D * result (list Z) :=
  let '(query, args) := ids_query params offset limit in
  let '(w, r) := on_db (db_SelectIDs query args) w in
  (w, match r with Err e => Err (ErrWrap "database query for IDs failed" e) | r => r end).

(** Whether a row is part of the answer. *)
Definition keep_model (params : QueryParams) (models : gmap Z gostruct) (id : Z) : bool :=
  match models !! id with
  | Some m => IncludeDeleted params || KeepItem m
  | None => false
  end.

Definition scanBatchSize : nat := 500.

(** The loop of [countByFullScan]; nothing in the code bounds the number of
    batches, so it takes fuel. *)
Fixpoint scan_loop (fuel : nat) (params : QueryParams) (offset : nat) (count : nat) (w : world C D)
    : world C D * option (result nat) :=
  match fuel with
  | O => (w, None)
  | S fuel =>
      let '(w, r) := fetch_ids_from_db params (Z.of_nat offset) (Z.of_nat scanBatchSize) w in
      match r with
      | Err e => (w, Some (Err (ErrWrap "CountPrecise: failed to fetch IDs from database" e)))
      | Panic m => (w, Some (Panic m))
      | Ok [] => (w, Some (Ok count))
      | Ok batch =>
          let '(w, r) := ByIDs info zero ttl batch w in
          match r with
          | Err e => (w, Some (Err (ErrWrap "CountPrecise: failed to fetch models for IDs" e)))
          | Panic m => (w, Some (Panic m))
          | Ok models =>
              let count := (count + length (filter (λ id, keep_model params models id = true) batch))%nat in
              if (length batch <? scanBatchSize)%nat then (w, Some (Ok count))
              else scan_loop fuel params (offset + length batch) count w
          end
      end
  end.

Definition countByFullScan (fuel : nat) (cr : CachedResult) (w : world C D) : world C D * option (result nat) :=
  scan_loop fuel (cr_params cr) 0 0 w.

(** [None] only when the fuel of the scan runs out. *)
Definition CountPrecise (fuel : nat) (cr : CachedResult) (w : world C D)
    : world C D * CachedResult * option (result Z) :=
  if negb (HasCustomKeepItem info) then
    let '(w, cr, r) := Count cr w in (w, cr, Some r)
  else
    let key := generatePreciseCountCacheKey cr in
    let '(w, o) := read_count key w in
    match o with
    | Some n => (w, cr, Some (Ok n))
    | None =>
        let '(w, o) := read_short_list (generateListCacheKey cr) w in
        match o with
        | Some ids =>
            let n := Z.of_nat (length ids) in (store_count key n (cr_params cr) w, cr, Some (Ok n))
        | None =>
            let '(w, r) := countByFullScan fuel cr w in
            match r with
            | Some (Ok n) => (store_count key (Z.of_nat n) (cr_params cr) w, cr, Some (Ok (Z.of_nat n)))
            | Some (Err e) => (w, cr, Some (Err e))
            | Some (Panic m) => (w, cr, Some (Panic m))
            | None => (w, cr, None)
            end
        end
    end.

(** ** Lists *)

Definition listBatchSize : nat := 300.
Definition maxIterations : nat := 20.

(** Append the valid ids of a batch, up to the limit. *)
Definition collect (valid ids : list Z) : list Z :=
  (valid ++ take (cacheListCountLimit - length valid) ids)%list.

(** The loop of [_fetch_data], with [n] iterations left. *)
Fixpoint fetch_loop (n : nat) (params : QueryParams) (offset : nat) (valid : list Z) (w : world C D)
    : world C D * result (list Z) :=
  if (cacheListCountLimit <=? length valid)%nat then (w, Ok valid)
  else match n with
  | O => (w, Ok valid)
  | S n =>
      let '(w, r) := fetch_ids_from_db params (Z.of_nat offset) (Z.of_nat listBatchSize) w in
      match r with
      | Err e => (w, Err (ErrWrap "failed to fetch IDs from database" e))
      | Panic m => (w, Panic m)
      | Ok [] => (w, Ok valid)
      | Ok batch =>
          let offset := (offset + length batch)%nat in
          let next valid w :=
            if (length batch <? listBatchSize)%nat then (w, Ok valid)
            else fetch_loop n params offset valid w in
          if negb (HasCustomKeepItem info) && negb (IncludeDeleted params)
          then next (collect valid batch) w
          else
            let '(w, r) := ByIDs info zero ttl batch w in
            match r with
            | Ok models => next (collect valid (filter (λ id, keep_model params models id = true) batch)) w
            | Err _ => fetch_loop n params offset valid w
            | Panic m => (w, Panic m)
            end
      end
  end.

Definition fetch_data (cr : CachedResult) (w : world C D) : world C D * result (list Z) :=
  let key := generateListCacheKey cr in
  let '(w, r) := on_cache (cc_GetQueryIDs key) w in
  match r with
  | Ok ids => (w, Ok (default [] ids))
  | _ =>
      let '(w, r) := fetch_loop maxIterations (cr_params cr) 0 [] w in
      match r with
      | Ok valid =>
          let w := register key (cr_params cr) (on_cache (cc_SetQueryIDs key (Some valid) ttl) w).1 in
          let w := if (length valid <? cacheListCountLimit)%nat
                   then store_count (generateCountCacheKey cr) (Z.of_nat (length valid)) (cr_params cr) w
                   else w in
          (w, Ok valid)
      | r => (w, r)
      end
  end.

(** [_fetch]. *)
Definition fetch_ids (cr : CachedResult) (w : world C D) : world C D * CachedResult * result unit :=
  if cr_hasLoadedIDs cr then (w, cr, Ok ())
  else
    let '(w, r) := fetch_data cr w in
    match r with
    | Ok ids => (w, set_ids ids cr, Ok ())
    | Err e => (w, cr, Err e)
    | Panic m => (w, cr, Panic m)
    end.

(** Errors of the deletions are logged. *)
Definition invalidateCache (cr : CachedResult) (w : world C D) : world C D * CachedResult :=
  let w := (on_cache (cc_Delete (generateListCacheKey cr)) w).1 in
  let w := (on_cache (cc_Delete (generateCountCacheKey cr)) w).1 in
  (w, forget_loaded cr).

(** ** [Fetch] *)

(** One pass over the ids of an iteration: the models kept, how many ids were
    looked at, and whether an id had no model or was not kept. *)
Fixpoint take_kept (params : QueryParams) (models : gmap Z gostruct) (ids : list Z) (needed : nat)
    : list gostruct * nat * bool :=
  match ids with
  | [] => ([], 0%nat, false)
  | id :: ids =>
      match models !! id with
      | Some m =>
          if IncludeDeleted params || KeepItem m then
            match needed with
            | S O | O => ([m], 1%nat, false)
            | S needed =>
                let '(ms, n, bad) := take_kept params models ids needed in (m :: ms, S n, bad)
            end
          else let '(ms, n, _) := take_kept params models ids needed in (ms, S n, true)
      | None => let '(ms, n, _) := take_kept params models ids needed in (ms, S n, true)
      end
  end.

(** Where an iteration takes its ids from. *)
Inductive fetch_source := FromCache | FromDatabase.

(** The ids of an iteration: [None] when there is nothing left.  A negative
    offset makes the slice expression panic. *)
Definition ids_to_check (cr : CachedResult) (total offset : Z) (limit : nat) (w : world C D)
    : world C D * option (result (fetch_source * list Z)) :=
  if (offset <? Z.of_nat (length (cr_cachedIDs cr)))%Z then
    if (offset <? 0)%Z then (w, Some (Panic "slice bounds out of range"))
    else (w, Some (Ok (FromCache, take limit (drop (Z.to_nat offset) (cr_cachedIDs cr)))))
  else if (offset <? total)%Z then
    let '(w, r) := fetch_ids_from_db (cr_params cr) offset (Z.of_nat limit) w in
    match r with
    | Ok ids => (w, Some (Ok (FromDatabase, ids)))
    | Err e => (w, Some (Err (ErrWrap "failed to fetch additional IDs from database" e)))
    | Panic m => (w, Some (Panic m))
    end
  else (w, None).

(** The main loop: [needed] results are missing, which is also the limit of the
    next iteration.  The fuel is the number of offsets left. *)
Fixpoint fetch_pages (fuel : nat) (cr : CachedResult) (total offset : Z) (needed : nat) (invalidated : bool)
    (w : world C D) : world C D * CachedResult * option (result (list gostruct)) :=
  match needed with
  | O => (w, cr, Some (Ok []))
  | _ =>
      match fuel with
      | O => (w, cr, None)
      | S fuel =>
          let '(w, o) := ids_to_check cr total offset needed w in
          match o with
          | None => (w, cr, Some (Ok []))
          | Some (Err e) => (w, cr, Some (Err e))
          | Some (Panic m) => (w, cr, Some (Panic m))
          | Some (Ok (_, [])) => (w, cr, Some (Ok []))
          | Some (Ok (source, ids)) =>
              let cached := match source with FromCache => true | FromDatabase => false end in
              let '(w, r) := ByIDs info zero ttl ids w in
              match r with
              | Panic m => (w, cr, Some (Panic m))
              | Err _ =>
                  let '(w, cr) := if cached && negb invalidated then invalidateCache cr w else (w, cr) in
                  fetch_pages fuel cr total (offset + Z.of_nat (length ids)) needed (invalidated || cached) w
              | Ok models =>
                  let '(ms, processed, bad) := take_kept (cr_params cr) models ids needed in
                  let stale := cached && bad && negb invalidated in
                  let '(w, cr) := if stale then invalidateCache cr w else (w, cr) in
                  let '(w, cr, r) :=
                    fetch_pages fuel cr total (offset + Z.of_nat processed) (needed - length ms)
                      (invalidated || stale) w in
                  (w, cr, match r with Some (Ok rest) => Some (Ok (ms ++ rest)%list) | r => r end)
              end
          end
      end
  end.

Definition page_fuel (cr : CachedResult) (total offset : Z) : nat :=
  S (Z.to_nat (Z.max (Z.of_nat (length (cr_cachedIDs cr))) total - offset)).

Definition Fetch (cr : CachedResult) (offset limit : Z) (w : world C D)
    : world C D * CachedResult * option (result (list gostruct)) :=
  match cr_Err cr with
  | Some e => (w, cr, Some (Err e))
  | None =>
      let '(w, cr, r) := fetch_ids cr w in
      match r with
      | Err e => (w, cr, Some (Err (ErrWrap "failed to fetch underlying IDs" e)))
      | Panic m => (w, cr, Some (Panic m))
      | Ok _ =>
          if bool_decide (cr_cachedIDs cr = []) then (w, cr, Some (Ok []))
          else
            let '(w, cr, r) := Count cr w in
            match r with
            | Panic m => (w, cr, Some (Panic m))
            | _ =>
                let total := match r with Ok n => n | _ => Z.of_nat (length (cr_cachedIDs cr)) end in
                if (limit <? 0)%Z then (w, cr, Some (Panic "makeslice: cap out of range"))
                else fetch_pages (page_fuel cr total offset) cr total offset (Z.to_nat limit) false w
            end
      end
  end.

Definition All (cr : CachedResult) (w : world C D) : world C D * CachedResult * option (result (list gostruct)) :=
  if cr_hasLoadedAll cr then (w, cr, Some (Ok (cr_all cr)))
  else
    let '(w, cr, r) := Count cr w in
    match r with
    | Err e => (w, cr, Some (Err (ErrWrap "failed to get count for All()" e)))
    | Panic m => (w, cr, Some (Panic m))
    | Ok count =>
        if (count =? 0)%Z then (w, cr, Some (Ok []))
        else
          let '(w, cr, r) := Fetch cr 0 count w in
          match r with
          | Some (Ok ms) => (w, set_all ms cr, Some (Ok ms))
          | Some (Err e) => (w, cr, Some (Err (ErrWrap "failed to fetch records for All()" e)))
          | r => (w, cr, r)
          end
    end.

Definition First (cr : CachedResult) (w : world C D) : world C D * CachedResult * option (result gostruct) :=
  let '(w, cr, r) := Fetch cr 0 1 w in
  (w, cr, match r with
          | Some (Ok (m :: _)) => Some (Ok m)
          | Some (Ok []) => Some (Err ErrNotFound)
          | Some (Err e) => Some (Err e)
          | Some (Panic m) => Some (Panic m)
          | None => None
          end).

(** [Thing.All]. *)
Definition Thing_All : world C D → world C D * CachedResult * option (result (list gostruct)) :=
  All (Query no_params).
End query.
