(* ===== verification/QueryFacts.v ===== *)
(** * List and count queries: properties

    [Fetch] returns on every input.  When the database answers pages of one
    list of ids and the cache agrees with the table, [Count] is the length of
    the list and [Fetch] returns the rows of the requested page. *)

From S2P Require Import Prelude GoStrings GoStringsFacts GoValues Predicate QueryMatch CacheIndex Metadata LocalCache.
From S2P Require Import CacheClient Invalidate SqlBuilder Hooks Crud CrudFacts Query.

Open Scope string_scope.

(** ** Termination *)

Section total.
Context `{GoPlatform} `{ModelOps} `{QueryEnv} {C D : Type} `{CacheClient C} `{DBAdapter D}.
Context (info : ModelInfo) (zero : gostruct) (ttl : Z).

Lemma take_kept_processed params models ids needed :
  ids ≠ [] → (0 < (take_kept params models ids needed).1.2)%nat.
Proof.
  intros Hne. destruct ids as [|id ids]; [done|]. cbn [take_kept].
  destruct (models !! id) as [m|]; [destruct (_ || _); [destruct needed as [|[|n]]|]|]; simpl; try lia;
    match goal with |- context [take_kept ?p ?ms ?l ?n] => destruct (take_kept p ms l n) as [[? ?] ?] end; simpl; lia.
Qed.

Definition offsets_left (cr : CachedResult) (total offset : Z) : Z :=
  Z.max (Z.of_nat (length (cr_cachedIDs cr))) total - offset.

(** An iteration that finds ids has offsets left. *)
Lemma ids_to_check_left cr total offset limit (w w' : world C D) o :
  ids_to_check info cr total offset limit w = (w', Some o) → (0 < offsets_left cr total offset)%Z.
Proof.
  unfold ids_to_check, offsets_left.
  destruct (Z.ltb_spec offset (Z.of_nat (length (cr_cachedIDs cr)))); [lia|].
  destruct (Z.ltb_spec offset total); [lia|done].
Qed.

Lemma offsets_left_invalidate b cr total offset (w : world C D) :
  (offsets_left (if b : bool then invalidateCache info cr w else (w, cr)).2 total offset <= offsets_left cr total offset)%Z.
Proof. destruct b; [|done]. unfold offsets_left. simpl. lia. Qed.

Lemma fetch_pages_total fuel cr total offset needed inv (w : world C D) :
  (0 < fuel)%nat → (offsets_left cr total offset < Z.of_nat fuel)%Z →
  is_Some (fetch_pages info zero ttl fuel cr total offset needed inv w).2.
Proof.
  revert cr offset needed inv w. induction fuel as [|fuel IH]; intros cr offset needed inv w Hf Hleft; [lia|].
  destruct needed as [|needed]; [by eexists|]. cbn [fetch_pages].
  destruct (ids_to_check info cr total offset (S needed) w) as [w1 o] eqn:Ei.
  destruct o as [o|]; [|by eexists]. apply ids_to_check_left in Ei.
  destruct o as [[source ids]|e|m]; [|by eexists..]. destruct ids as [|id ids]; [by eexists|].
  set (cached := match source with FromCache => true | FromDatabase => false end).
  destruct (ByIDs info zero ttl (id :: ids) w1) as [w2 r]. destruct r as [models|e|m]; [| |by eexists].
  - pose proof (take_kept_processed (cr_params cr) models (id :: ids) (S needed) ltac:(done)) as Hp.
    destruct (take_kept _ models (id :: ids) (S needed)) as [[ms processed] bad]. cbn [fst snd] in Hp.
    pose proof (offsets_left_invalidate (cached && bad && negb inv) cr total (offset + Z.of_nat processed) w2) as Hi.
    destruct (if cached && bad && negb inv then _ else _) as [w3 cr3]. cbn [snd] in Hi.
    specialize (IH cr3 (offset + Z.of_nat processed)%Z (S needed - length ms)%nat (inv || (cached && bad && negb inv)) w3).
    destruct IH as [x Hx]; [unfold offsets_left in *; lia..|].
    destruct (fetch_pages info zero ttl fuel cr3 total _ _ _ w3) as [[w4 cr4] r4]. cbn [snd] in *. subst r4.
    destruct x; by eexists.
  - pose proof (offsets_left_invalidate (cached && negb inv) cr total (offset + Z.of_nat (length (id :: ids))) w2) as Hi.
    destruct (if cached && negb inv then _ else _) as [w3 cr3]. cbn [snd] in Hi.
    apply IH; unfold offsets_left in *; simpl length in *; lia.
Qed.

(** C19: Fetch, All and First return on every input, cache and database, whatever they answer:
    each iteration of the main loop advances the offset, which stays below the count or the
    cached list. *)
Theorem Fetch_returns cr offset limit (w : world C D) :
  is_Some (Fetch info zero ttl cr offset limit w).2 ∧
  is_Some (All info zero ttl cr w).2 ∧ is_Some (First info zero ttl cr w).2.
Proof.
  assert (Hfetch : ∀ cr offset limit w, is_Some (Fetch info zero ttl cr offset limit w).2).
  { clear. intros cr offset limit w. unfold Fetch. destruct (cr_Err cr); [by eexists|].
    destruct (fetch_ids info zero ttl cr w) as [[w1 cr1] [[]| |]]; [|by eexists..].
    destruct (bool_decide _); [by eexists|]. destruct (Count info ttl cr1 w1) as [[w2 cr2] r].
    destruct r as [n| |m]; [| |by eexists]; cbv zeta; (destruct (_ <? 0)%Z; [by eexists|]);
      apply fetch_pages_total; unfold page_fuel, offsets_left; lia. }
  split_and!; [apply Hfetch| |].
  - unfold All. destruct (cr_hasLoadedAll cr); [by eexists|].
    destruct (Count info ttl cr w) as [[w1 cr1] [n| |]]; [|by eexists..]. destruct (n =? 0)%Z; [by eexists|].
    destruct (Hfetch cr1 0%Z n w1) as [x Hx]. destruct (Fetch info zero ttl cr1 0 n w1) as [[w2 cr2] r].
    cbn [snd] in Hx. subst r. destruct x; by eexists.
  - unfold First. destruct (Hfetch cr 0%Z 1%Z w) as [x Hx]. destruct (Fetch info zero ttl cr 0 1 w) as [[w2 cr2] r].
    cbn [snd] in *. subst r. destruct x as [[|? ?]| |]; by eexists.
Qed.
End total.

(** ** Reads keep an agreeing cache *)

Section agree.
Context `{GoPlatform} `{ModelOps} `{QueryEnv} {C D : Type} `{CacheClient C} `{DBAdapter D}.
Context (info : ModelInfo) (zero : gostruct) (ttl : Z).
Context (rows : gmap Z gostruct) (db_ok : D → Prop) (cache_ok : C → Prop).

(** What the cache promises about records: it answers with the rows of the
    table, before and after a row or the marker of a missing one is stored. *)
Record caches_rows : Prop := {
  cr_MGetModel c ids : cache_ok c →
    let a := cc_MGetModel ((λ id, (model_key info id, zero)) <$> ids) c in
    cache_ok a.1 ∧ Forall2 (cached_right rows) ids a.2;
  cr_SetModel c id r : cache_ok c → rows !! id = Some r →
    cache_ok (cc_SetModel (model_key info id) (setNewRecordFlagIfBaseModel false r) (Fields_ info) ttl c).1;
  cr_SetNone c id : cache_ok c → rows !! id = None → cache_ok (cc_Set (model_key info id) NoneResult ttl c).1
}.

Definition world_ok (w : world C D) : Prop := db_ok (w_db w) ∧ cache_ok (w_cache w).

Context (Hcache : caches_rows) (Hans : table_answers info rows db_ok) (Hkey : table_keyed rows).

Lemma take_rows_ok rs c found fetched :
  cache_ok c → (∀ r, r ∈ rs → ∃ id, rows !! id = Some r) →
  let '(c', _, fetched') := take_rows info ttl rs c found fetched in
  cache_ok c' ∧ (∀ r, r ∈ rs → GetID r ∈ fetched') ∧ fetched ⊆ fetched'.
Proof.
  revert c found fetched. induction rs as [|r rs IH]; intros c found fetched Hc Hrs.
  { simpl. split_and!; [done|by intros ? ?%elem_of_nil|done]. }
  destruct (Hrs r) as [id Hr]; [left|]. destruct (Hkey _ _ Hr) as [Hg Hnz].
  cbn [take_rows]. cbv zeta. rewrite Hg. destruct (Z.eqb_spec id 0); [done|].
  match goal with |- context [take_rows info ttl rs ?c' ?f' ?s'] =>
    specialize (IH c' f' s'); destruct (take_rows info ttl rs c' f' s') as [[c1 f1] s1] end.
  destruct IH as (?&Hin&Hsub); [by apply Hcache|intros x Hx; apply Hrs; by right|].
  split_and!; [done| |set_solver]. intros x [->|Hx]%elem_of_cons; [rewrite Hg; set_solver|auto].
Qed.

Lemma mark_missing_ok ids fetched c :
  cache_ok c → (∀ id, id ∈ ids → id ∉ fetched → rows !! id = None) → cache_ok (mark_missing info ttl ids fetched c).
Proof.
  revert c. induction ids as [|id ids IH]; intros c Hc Hn; cbn [mark_missing]; [done|].
  apply IH; [|intros x Hx; apply Hn; by right].
  case_decide; [done|]. apply Hcache; [done|]. apply Hn; [left|done].
Qed.

Lemma fetch_batch_ok batch (w : world C D) found :
  world_ok w → batch ≠ [] → world_ok (fetch_batch info ttl batch w found).1.
Proof.
  intros [Hdb Hc] Hne. unfold fetch_batch. destruct (Hans _ _ Hdb Hne) as (Hdb'&rs&Hrs&Hin).
  pose proof (same_cache_on_db (db_SelectModels (select_by_ids info batch) ((λ id, Some (VInt W64 id)) <$> batch)) w) as [Hsame _].
  rewrite <-(on_db_db (C := C) _ w) in Hdb'. rewrite <-(on_db_result (C := C) _ w) in Hrs.
  destruct (on_db _ w) as [w1 a]. cbn [fst snd] in *. subst a. rewrite Hsame.
  pose proof (take_rows_ok rs (w_cache w) found ∅ Hc) as Ht.
  destruct (take_rows info ttl rs (w_cache w) found ∅) as [[c1 f1] s1].
  destruct Ht as (Hc1&Hfet&_); [intros r (id&_&?)%Hin; eauto|].
  split; [done|]. cbn [w_cache fst]. apply mark_missing_ok; [done|].
  intros id Hb Hnf. destruct (rows !! id) as [r|] eqn:Er; [|done]. destruct Hnf.
  destruct (Hkey _ _ Er) as [<- _]. apply Hfet, Hin. eauto.
Qed.

Lemma fetch_batches_ok fuel missing (w : world C D) found :
  world_ok w → world_ok (fetch_batches info ttl fuel missing w found).1.
Proof.
  revert missing w found. induction fuel as [|fuel IH]; intros [|i missing] w found Hw; cbn [fetch_batches]; try done.
  pose proof (fetch_batch_ok (take ByIDBatchSize (i :: missing)) w found Hw ltac:(done)) as Hb.
  destruct (fetch_batch info ttl (take ByIDBatchSize (i :: missing)) w found) as [w1 f1]. by apply IH.
Qed.

(** [ByIDs] returns the rows and keeps the agreement. *)
Lemma ByIDs_ok ids (w : world C D) :
  world_ok w →
  let a := ByIDs info zero ttl ids w in
  world_ok a.1 ∧ ∃ found, a.2 = Ok found ∧ ∀ id, id ∈ ids → found !! id = row_of rows id.
Proof.
  intros Hw. destruct Hw as [Hdb Hc]. split.
  - unfold ByIDs, fetchModelsByIDsInternal. destruct (bool_decide _); [done|]. unfold on_cache.
    destruct (cr_MGetModel Hcache (w_cache w) ids Hc) as [Hc1 _].
    destruct (cc_MGetModel _ (w_cache w)) as [c1 rs]. cbn [fst snd] in *.
    destruct (existsb is_Panic rs); [done|]. destruct (split_cached ids rs) as [found missing].
    pose proof (fetch_batches_ok (length missing) missing (MkWorld c1 (w_index w) (w_db w)) found) as Hb.
    destruct (fetch_batches _ _ _ _ _ _) as [w2 f2]. cbn [fst] in *. by apply Hb.
  - destruct (fetchModelsByIDs_lemma info zero ttl rows db_ok ids w) as (found&Hf&Hl); [done..| |].
    + by apply (cr_MGetModel Hcache).
    + exists found. split; [done|]. intros id Hid. by rewrite Hl, bool_decide_eq_true_2.
Qed.
End agree.

(** ** Counts and pages of a default model *)

Section pages.
Context `{GoPlatform} `{ModelOps} `{QueryEnv} {C D : Type} `{CacheClient C} `{DBAdapter D}.
Context (info : ModelInfo) (zero : gostruct) (ttl : Z).
Context (rows : gmap Z gostruct) (db_ok : D → Prop) (cache_ok : C → Prop).

(** The query, and the ids of the rows it selects, in its order. *)
Context (params : QueryParams) (ids : list Z).

Definition list_key : string := GenerateCacheKey "list" (TableName info) params.
Definition count_key : string := GenerateCacheKey "count" (TableName info) params.
Definition cached_list_of : list Z := take cacheListCountLimit ids.

(** What the database answers: rows by id, pages of [ids], their number. *)
Record db_answers : Prop := {
  da_rows : table_answers info rows db_ok;
  da_keyed : table_keyed rows;
  da_ids d off lim : db_ok d →
    let q := ids_query info params (Z.of_nat off) (Z.of_nat lim) in
    let a := db_SelectIDs q.1 q.2 d in
    db_ok a.1 ∧ a.2 = Ok (take lim (drop off ids));
  da_count d : db_ok d →
    let a := db_GetCount (TableName info) (visible_where params) (Args params) d in
    db_ok a.1 ∧ a.2 = Ok (Z.of_nat (length ids))
}.

(** What the cache promises about the query: its entries are the right ones. *)
Record caches_query : Prop := {
  cq_rows : caches_rows info zero ttl rows cache_ok;
  cq_GetQueryIDs c : cache_ok c →
    cache_ok (cc_GetQueryIDs list_key c).1 ∧
    ∀ l, (cc_GetQueryIDs list_key c).2 = Ok l → default [] l = cached_list_of;
  cq_SetQueryIDs c : cache_ok c → cache_ok (cc_SetQueryIDs list_key (Some cached_list_of) ttl c).1;
  cq_Get c : cache_ok c →
    cache_ok (cc_Get count_key c).1 ∧
    ∀ s n, (cc_Get count_key c).2 = Ok s → ParseInt s = Some n → n = Z.of_nat (length ids);
  cq_Set c : cache_ok c → cache_ok (cc_Set count_key (FormatInt (Z.of_nat (length ids))) ttl c).1;
  cq_Delete c : cache_ok c → cache_ok (cc_Delete count_key c).1
}.

(** A model without its own [KeepItem]: SQL filters all there is to filter. *)
Record default_query : Prop := {
  dq_model : HasCustomKeepItem info = false;
  dq_visible : IncludeDeleted params = false;
  dq_kept id : id ∈ ids → ∃ m, row_of rows id = Some m ∧ KeepItem m = true
}.

(** What a [CachedResult] of the query has loaded is right. *)
Record result_ok (cr : CachedResult) : Prop := {
  ro_params : cr_params cr = params;
  ro_err : cr_Err cr = None;
  ro_ids : cr_hasLoadedIDs cr = true → cr_cachedIDs cr = cached_list_of;
  ro_count : cr_hasLoadedCount cr = true → cr_cachedCount cr = Z.of_nat (length ids)
}.

Context (Hdb : db_answers) (Hcache : caches_query) (Hdef : default_query).
Notation wok := (world_ok db_ok cache_ok).

Lemma Query_ok : result_ok (Query params).
Proof. by split. Qed.

Lemma on_cache_ok {A} (f : C → C * A) (w : world C D) :
  wok w → cache_ok (f (w_cache w)).1 → wok (on_cache f w).1.
Proof. intros [Hd _] Hc. unfold on_cache. by destruct (f (w_cache w)). Qed.
Lemma on_cache_result {A} (f : C → C * A) (w : world C D) : (on_cache f w).2 = (f (w_cache w)).2.
Proof. unfold on_cache. by destruct (f (w_cache w)). Qed.
Lemma on_db_ok {A} (f : D → D * A) (w : world C D) : wok w → db_ok (f (w_db w)).1 → wok (on_db f w).1.
Proof. intros [_ Hc] Hd. unfold on_db. by destruct (f (w_db w)). Qed.
Lemma register_ok key p (w : world C D) : wok w → wok (register info key p w).
Proof. done. Qed.

Lemma store_count_ok (w : world C D) :
  wok w → wok (store_count info ttl count_key (Z.of_nat (length ids)) params w).
Proof. intros Hw. apply register_ok, on_cache_ok; [done|]. apply Hcache, Hw. Qed.

Lemma read_count_ok (w : world C D) :
  wok w → wok (read_count count_key w).1 ∧
  ∀ n, (read_count count_key w).2 = Some n → n = Z.of_nat (length ids).
Proof.
  intros Hw. unfold read_count. destruct (cq_Get Hcache (w_cache w)) as [Hc Hn]; [apply Hw|].
  pose proof (on_cache_ok (cc_Get count_key) w Hw Hc) as Hw1.
  rewrite <-on_cache_result in Hn. destruct (on_cache (cc_Get count_key) w) as [w1 r]. cbn [fst snd] in *.
  destruct r as [s| |]; [|done..]. destruct (ParseInt s) as [n|] eqn:Ep; cbn [fst snd].
  - split; [done|]. intros ? [= <-]. by eapply Hn.
  - split; [|done]. apply on_cache_ok; [done|]. apply Hcache, Hw1.
Qed.

Lemma read_short_list_ok (w : world C D) :
  wok w → wok (read_short_list list_key w).1 ∧
  ∀ l, (read_short_list list_key w).2 = Some l → length l = length ids.
Proof.
  intros Hw. unfold read_short_list. destruct (cq_GetQueryIDs Hcache (w_cache w)) as [Hc Hn]; [apply Hw|].
  pose proof (on_cache_ok (cc_GetQueryIDs list_key) w Hw Hc) as Hw1.
  rewrite <-on_cache_result in Hn. destruct (on_cache (cc_GetQueryIDs list_key) w) as [w1 r]. cbn [fst snd] in *.
  split; [done|]. destruct r as [l| |]; [|done..]. intros l'. specialize (Hn l eq_refl).
  destruct (Nat.ltb_spec (length (default [] l)) cacheListCountLimit) as [Hlt|]; [|done]. intros [= <-].
  rewrite Hn in *. unfold cached_list_of in *. rewrite length_take in *. lia.
Qed.

Lemma Count_ok cr (w : world C D) :
  wok w → result_ok cr →
  ∃ w' cr', Count info ttl cr w = (w', cr', Ok (Z.of_nat (length ids))) ∧ wok w' ∧ result_ok cr' ∧
    cr_cachedIDs cr' = cr_cachedIDs cr ∧ cr_hasLoadedIDs cr' = cr_hasLoadedIDs cr.
Proof.
  intros Hw Hro. pose proof Hro as [Hp He Hids Hcnt]. unfold Count. destruct (cr_hasLoadedCount cr) eqn:El.
  { rewrite Hcnt by done. eexists _, _. by split_and!. }
  unfold generateCountCacheKey, generateListCacheKey. rewrite Hp. fold count_key list_key.
  assert (Hset : result_ok (set_count (Z.of_nat (length ids)) cr)) by (by split).
  destruct (read_count_ok w Hw) as [Hw1 Hn]. destruct (read_count count_key w) as [w1 [n|]]; cbn [fst snd] in *.
  { rewrite (Hn n) by done. eexists _, _. by split. }
  destruct (read_short_list_ok w1 Hw1) as [Hw2 Hl]. destruct (read_short_list list_key w1) as [w2 [l|]]; cbn [fst snd] in *.
  { rewrite (Hl l) by done. eexists _, _. split; [done|]. split; [by apply store_count_ok|done]. }
  destruct (da_count Hdb (w_db w2)) as [Hd Hr]; [apply Hw2|].
  pose proof (on_db_ok (db_GetCount (TableName info) (visible_where params) (Args params)) w2 Hw2 Hd) as Hw3.
  rewrite <-(on_db_result (C := C) _ w2) in Hr.
  destruct (on_db _ w2) as [w3 r]. cbn [fst snd] in *. subst r.
  eexists _, _. split; [done|]. split; [by apply store_count_ok|done].
Qed.

Lemma fetch_ids_from_db_ok off lim (w : world C D) :
  wok w → wok (fetch_ids_from_db info params (Z.of_nat off) (Z.of_nat lim) w).1 ∧
          (fetch_ids_from_db info params (Z.of_nat off) (Z.of_nat lim) w).2 = Ok (take lim (drop off ids)).
Proof.
  intros Hw. unfold fetch_ids_from_db. destruct (da_ids Hdb (w_db w) off lim) as [Hd Hr]; [apply Hw|].
  destruct (ids_query info params (Z.of_nat off) (Z.of_nat lim)) as [q args]. cbn [fst snd] in *.
  pose proof (on_db_ok (db_SelectIDs q args) w Hw Hd) as Hw1. rewrite <-(on_db_result (C := C) _ w) in Hr.
  destruct (on_db _ w) as [w1 r]. cbn [fst snd] in *. by subst r.
Qed.

(** SQL filters everything: the list is filled by the first batch. *)
Lemma fetch_loop_ok (w : world C D) :
  wok w → wok (fetch_loop info zero ttl maxIterations params 0 [] w).1 ∧
          (fetch_loop info zero ttl maxIterations params 0 [] w).2 = Ok cached_list_of.
Proof.
  intros Hw. change maxIterations with (S (S 18)). generalize 18%nat as n. intros n.
  cbn [fetch_loop length].
  destruct (fetch_ids_from_db_ok 0 listBatchSize w Hw) as [Hw1 Hr].
  change (cacheListCountLimit <=? 0)%nat with false. cbv iota.
  destruct (fetch_ids_from_db info params (Z.of_nat 0) (Z.of_nat listBatchSize) w) as [w1 r]. cbn [fst snd] in *. subst r.
  rewrite drop_0. destruct (take listBatchSize ids) as [|i batch] eqn:Eb.
  { split; [done|]. apply (f_equal length) in Eb. rewrite length_take in Eb. unfold listBatchSize in Eb.
    unfold cached_list_of. rewrite (nil_length_inv ids) by (cbn [length] in Eb; lia). by rewrite take_nil. }
  rewrite (dq_model Hdef), (dq_visible Hdef). cbn [negb andb]. rewrite <-Eb.
  assert (Hcol : collect [] (take listBatchSize ids) = cached_list_of).
  { unfold collect, cached_list_of. rewrite app_nil_l, take_take. f_equal. }
  rewrite Hcol. destruct (Nat.ltb_spec (length (take listBatchSize ids)) listBatchSize) as [|Hge]; [done|].
  assert (Hlen : (cacheListCountLimit <= length cached_list_of)%nat).
  { unfold cached_list_of. rewrite length_take in *. unfold listBatchSize, cacheListCountLimit in *. lia. }
  apply Nat.leb_le in Hlen. by rewrite Hlen.
Qed.

Lemma fetch_ids_ok cr (w : world C D) :
  wok w → result_ok cr →
  ∃ w' cr', fetch_ids info zero ttl cr w = (w', cr', Ok ()) ∧ wok w' ∧ result_ok cr' ∧ cr_hasLoadedIDs cr' = true.
Proof.
  intros Hw Hro. pose proof Hro as [Hp He Hids Hcnt]. unfold fetch_ids. destruct (cr_hasLoadedIDs cr) eqn:El.
  { eexists _, _. by split_and!. }
  assert (Hset : result_ok (set_ids cached_list_of cr)) by (by split).
  unfold fetch_data, generateListCacheKey, generateCountCacheKey. rewrite Hp. fold list_key count_key.
  destruct (cq_GetQueryIDs Hcache (w_cache w)) as [Hc Hn]; [apply Hw|].
  pose proof (on_cache_ok (cc_GetQueryIDs list_key) w Hw Hc) as Hw1. rewrite <-on_cache_result in Hn.
  destruct (on_cache (cc_GetQueryIDs list_key) w) as [w1 r]. cbn [fst snd] in *.
  assert (Hmiss : ∃ w' cr',
    (let '(w, r) :=
       let '(w, r) := fetch_loop info zero ttl maxIterations params 0 [] w1 in
       match r with
       | Ok valid =>
           let w := register info list_key params (on_cache (cc_SetQueryIDs list_key (Some valid) ttl) w).1 in
           let w := if (length valid <? cacheListCountLimit)%nat
                    then store_count info ttl count_key (Z.of_nat (length valid)) params w else w in
           (w, Ok valid)
       | r => (w, r)
       end in
     match r with
     | Ok ids => (w, set_ids ids cr, Ok ())
     | Err e => (w, cr, Err e)
     | Panic m => (w, cr, Panic m)
     end) = (w', cr', Ok ()) ∧ wok w' ∧ result_ok cr' ∧ cr_hasLoadedIDs cr' = true).
  { destruct (fetch_loop_ok w1 Hw1) as [Hw2 Hr]. destruct (fetch_loop info zero ttl maxIterations params 0 [] w1) as [w2 r2].
    cbn [fst snd] in *. subst r2. eexists _, _. split; [done|]. split; [|done].
    assert (Hw3 : wok (register info list_key params (on_cache (cc_SetQueryIDs list_key (Some cached_list_of) ttl) w2).1)).
    { apply register_ok, on_cache_ok; [done|]. apply Hcache, Hw2. }
    destruct (Nat.ltb_spec (length cached_list_of) cacheListCountLimit) as [Hlt|]; [|done].
    replace (length cached_list_of) with (length ids); [by apply store_count_ok|].
    unfold cached_list_of in *. rewrite length_take in *. lia. }
  destruct r as [l| |]; [|done..]. rewrite (Hn l) by done. eexists _, _. by split.
Qed.

(** The rows of a list of ids. *)
Definition page (l : list Z) : list gostruct := omap (row_of rows) l.

Lemma page_app l1 l2 : page (l1 ++ l2) = (page l1 ++ page l2)%list.
Proof. apply omap_app. Qed.

Lemma take_kept_all models l needed :
  (∀ id, id ∈ l → models !! id = row_of rows id) → (∀ id, id ∈ l → id ∈ ids) →
  (0 < needed)%nat → (length l ≤ needed)%nat →
  take_kept params models l needed = (page l, length l, false) ∧ length (page l) = length l.
Proof.
  revert needed. induction l as [|id l IH]; intros needed Hm Hin Hpos Hlen; [done|].
  destruct (dq_kept Hdef id) as (m&Hrow&Hkeep); [apply Hin; left|].
  assert (Hp : page (id :: l) = m :: page l) by (unfold page; simpl; by rewrite Hrow).
  cbn [take_kept]. rewrite (Hm id) by left. rewrite Hrow, Hkeep, orb_true_r, Hp. cbn [length] in *.
  destruct needed as [|[|needed]]; [lia| |].
  - destruct l; [done|simpl in Hlen; lia].
  - destruct (IH (S needed)) as [Hk Hl]; [intros ??; apply Hm; by right|intros ??; apply Hin; by right|lia|lia|].
    rewrite Hk. by rewrite Hl.
Qed.

(** An iteration at [off]: a non-empty prefix of what is left, from the cache
    or from the database. *)
Lemma ids_to_check_ok cr off needed (w : world C D) :
  wok w → result_ok cr → cr_hasLoadedIDs cr = true → (0 < needed)%nat →
  ∃ w', wok w' ∧
  ((ids_to_check info cr (Z.of_nat (length ids)) (Z.of_nat off) needed w = (w', None) ∧ drop off ids = []) ∨
   ∃ source k, (0 < k ≤ needed)%nat ∧ take k (drop off ids) ≠ [] ∧
     ids_to_check info cr (Z.of_nat (length ids)) (Z.of_nat off) needed w = (w', Some (Ok (source, take k (drop off ids))))).
Proof.
  intros Hw Hro Hload Hpos. pose proof Hro as [Hp _ Hids _]. specialize (Hids Hload). unfold ids_to_check.
  rewrite Hp, Hids. assert (Hlen : length cached_list_of = (cacheListCountLimit `min` length ids)%nat) by apply length_take.
  destruct (Z.ltb_spec (Z.of_nat off) (Z.of_nat (length cached_list_of))) as [Hlt|Hge].
  - destruct (Z.ltb_spec (Z.of_nat off) 0); [lia|]. exists w. split; [done|]. right.
    exists FromCache, (needed `min` (cacheListCountLimit - off))%nat. rewrite Nat2Z.id.
    split; [unfold cacheListCountLimit in *; lia|]. split.
    + intros E%(f_equal length). rewrite length_take, length_drop in E. cbn [length] in E. lia.
    + do 4 f_equal. rewrite <-take_take, (take_drop_commute ids (cacheListCountLimit - off) off).
      by replace (off + (cacheListCountLimit - off))%nat with cacheListCountLimit by lia.
  - destruct (Z.ltb_spec (Z.of_nat off) (Z.of_nat (length ids))) as [Hlt|Hge'].
    + destruct (fetch_ids_from_db_ok off needed w Hw) as [Hw1 Hr].
      destruct (fetch_ids_from_db info params (Z.of_nat off) (Z.of_nat needed) w) as [w1 r]. cbn [fst snd] in *. subst r.
      exists w1. split; [done|]. right. exists FromDatabase, needed. split; [lia|]. split; [|done].
      intros E%(f_equal length). rewrite length_take, length_drop in E. cbn [length] in E. lia.
    + exists w. split; [done|]. left. split; [done|]. apply drop_ge. lia.
Qed.

Lemma fetch_pages_ok fuel cr off needed inv (w : world C D) :
  wok w → result_ok cr → cr_hasLoadedIDs cr = true → (0 < fuel)%nat → (length ids < off + fuel)%nat →
  ∃ w' cr', fetch_pages info zero ttl fuel cr (Z.of_nat (length ids)) (Z.of_nat off) needed inv w =
    (w', cr', Some (Ok (page (take needed (drop off ids))))) ∧ wok w' ∧ result_ok cr'.
Proof.
  revert cr off needed inv w. induction fuel as [|fuel IH]; intros cr off needed inv w Hw Hro Hload Hf Hfuel; [lia|].
  destruct needed as [|needed]; [eexists _, _; by split|]. cbn [fetch_pages].
  destruct (ids_to_check_ok cr off (S needed) w Hw Hro Hload) as (w1&Hw1&[[-> Hnil]|(source&k&Hk&Hne&->)]); [lia|..].
  { rewrite Hnil, take_nil. eexists _, _. by split. }
  destruct (take k (drop off ids)) as [|id l] eqn:Ec; [done|]. set (chunk := id :: l) in *.
  assert (Hin : ∀ x, x ∈ chunk → x ∈ ids).
  { rewrite <-Ec. intros x (i&Hi&_)%elem_of_take. apply list_elem_of_lookup_2 in Hi. by apply subseteq_drop in Hi. }
  assert (Hlen : (0 < length chunk ≤ S needed)%nat) by (split; [simpl; lia|rewrite <-Ec, length_take; lia]).
  assert (Hleft : (length chunk ≤ length ids - off)%nat) by (rewrite <-Ec, length_take, length_drop; lia).
  destruct (ByIDs_ok info zero ttl rows db_ok cache_ok (cq_rows Hcache) (da_rows Hdb) (da_keyed Hdb) chunk w1 Hw1)
    as (Hw2&models&Hm&Hrows).
  destruct (take_kept_all models chunk (S needed)) as [Htk Hpl]; [done|done|lia|lia|].
  destruct (ByIDs info zero ttl chunk w1) as [w2 r]. cbn [fst snd] in *. subst r.
  rewrite (ro_params cr Hro), Htk, andb_false_r. cbn [andb].
  destruct (IH cr (off + length chunk)%nat (S needed - length chunk)%nat (inv || false) w2) as (w3&cr3&Heq&Hw3&Hro3);
    [done..|lia|lia|].
  rewrite Hpl, <-Nat2Z.inj_add, Heq. eexists _, _. split; [|done]. do 3 f_equal.
  rewrite <-page_app. f_equal.
  assert (Hk' : chunk = take (length chunk) (drop off ids)).
  { rewrite <-Ec, length_take. rewrite <-(take_take _ k). by rewrite (take_ge (drop off ids) (length (drop off ids))). }
  rewrite Hk' at 1. rewrite <-drop_drop, take_take_drop. f_equal. lia.
Qed.

Lemma Fetch_page_lemma cr off lim (w : world C D) :
  wok w → result_ok cr →
  ∃ w' cr', Fetch info zero ttl cr (Z.of_nat off) (Z.of_nat lim) w =
    (w', cr', Some (Ok (page (take lim (drop off ids))))) ∧ wok w' ∧ result_ok cr'.
Proof.
  intros Hw Hro. unfold Fetch. rewrite (ro_err cr Hro).
  destruct (fetch_ids_ok cr w Hw Hro) as (w1&cr1&->&Hw1&Hro1&Hload).
  pose proof (ro_ids cr1 Hro1 Hload) as Hids.
  destruct (bool_decide_reflect (cr_cachedIDs cr1 = [])) as [Hnil|Hne].
  { assert (ids = []) as Hempty.
    { rewrite Hids in Hnil. apply (f_equal length) in Hnil. unfold cached_list_of, cacheListCountLimit in Hnil.
      rewrite length_take in Hnil. apply nil_length_inv. cbn [length] in Hnil. lia. }
    rewrite Hempty, drop_nil, take_nil. eexists _, _. by split. }
  destruct (Count_ok cr1 w1 Hw1 Hro1) as (w2&cr2&->&Hw2&Hro2&Hsame&Hload2). cbv zeta.
  destruct (Z.ltb_spec (Z.of_nat lim) 0); [lia|]. rewrite Nat2Z.id.
  apply fetch_pages_ok; [done|done|congruence|unfold page_fuel; lia|].
  unfold page_fuel. rewrite Hsame, Hids. unfold cached_list_of. rewrite length_take. lia.
Qed.

(** The ids the scan counts. *)
Definition kept_row (id : Z) : bool :=
  match row_of rows id with Some m => IncludeDeleted params || KeepItem m | None => false end.
Definition kept_ids (l : list Z) : list Z := filter (λ id, kept_row id = true) l.

Lemma keep_model_rows models l :
  (∀ id, id ∈ l → models !! id = row_of rows id) →
  filter (λ id, keep_model params models id = true) l = kept_ids l.
Proof.
  unfold kept_ids. induction l as [|id l IH]; intros Hm; [done|]. rewrite !filter_cons, IH by (intros ??; apply Hm; by right).
  unfold keep_model, kept_row. by rewrite (Hm id) by left.
Qed.

(** Each batch but the last is full, so [fuel] batches reach the end. *)
Lemma scan_loop_ok fuel off count (w : world C D) :
  wok w → (length ids < off + fuel)%nat → (0 < fuel)%nat →
  ∃ w', scan_loop info zero ttl fuel params off count w =
    (w', Some (Ok (count + length (kept_ids (drop off ids)))%nat)) ∧ wok w'.
Proof.
  revert off count w. induction fuel as [|fuel IH]; intros off count w Hw Hfuel Hpos; [lia|]. cbn [scan_loop].
  destruct (fetch_ids_from_db_ok off scanBatchSize w Hw) as [Hw1 Hr].
  destruct (fetch_ids_from_db info params (Z.of_nat off) (Z.of_nat scanBatchSize) w) as [w1 r]. cbn [fst snd] in *. subst r.
  pose proof (take_drop scanBatchSize (drop off ids)) as Hsplit. rewrite drop_drop in Hsplit.
  pose proof (length_take (drop off ids) scanBatchSize) as Hlen. rewrite length_drop in Hlen.
  destruct (take scanBatchSize (drop off ids)) as [|id l] eqn:Eb.
  { exists w1. split; [|done]. rewrite drop_ge; [by rewrite Nat.add_0_r|]. cbn [length] in Hlen.
    unfold scanBatchSize in Hlen. lia. }
  set (batch := id :: l) in *.
  destruct (ByIDs_ok info zero ttl rows db_ok cache_ok (cq_rows Hcache) (da_rows Hdb) (da_keyed Hdb) batch w1 Hw1)
    as (Hw2&models&Hm&Hrows).
  destruct (ByIDs info zero ttl batch w1) as [w2 r]. cbn [fst snd] in *. subst r.
  rewrite (keep_model_rows models batch Hrows), <-Hsplit. unfold kept_ids at 3. rewrite filter_app, length_app.
  destruct (Nat.ltb_spec (length batch) scanBatchSize) as [Hshort|Hfull].
  - exists w2. split; [|done]. rewrite (drop_ge ids); [|lia]. rewrite Nat.add_0_r. done.
  - assert (length batch = scanBatchSize) as -> by lia.
    destruct (IH (off + scanBatchSize)%nat (count + length (kept_ids batch))%nat w2) as (w3&Heq&Hw3);
      [done|unfold scanBatchSize in *; lia|unfold scanBatchSize in *; lia|].
    exists w3. split; [|done]. rewrite Heq. do 3 f_equal. unfold kept_ids. lia.
Qed.

(** The full scan behind CountPrecise ends after the last batch and counts exactly the rows
    KeepItem keeps, for every KeepItem; batches as many as there are rows are enough. *)
Theorem countByFullScan_correct fuel cr (w : world C D) :
  wok w → result_ok cr → (length ids < fuel)%nat →
  ∃ w', countByFullScan info zero ttl fuel cr w = (w', Some (Ok (length (kept_ids ids)))) ∧ wok w'.
Proof.
  intros Hw Hro Hf. unfold countByFullScan. rewrite (ro_params cr Hro).
  destruct (scan_loop_ok fuel 0 0 w Hw) as (w'&Heq&?); [lia..|]. exists w'. by rewrite Heq.
Qed.

(** Where the loaded result, the cached count and the cached list agree with the list of ids, and
    the database counts it, Count returns its length and keeps the agreement. *)
Theorem Count_correct cr (w : world C D) :
  wok w → result_ok cr →
  ∃ w' cr', Count info ttl cr w = (w', cr', Ok (Z.of_nat (length ids))) ∧ wok w' ∧ result_ok cr'.
Proof. intros Hw Hro. destruct (Count_ok cr w Hw Hro) as (w'&cr'&?&?&?&_). eauto. Qed.

(** C15: for a model that does not override KeepItem and a query without IncludeDeleted (for
    other models pages can repeat or skip rows, query.go:577): over a database that answers
    pages of one list of ids, all of visible rows, and with any cache client whose cached list,
    count and records of the query agree with it, Fetch returns the rows of the requested page
    in the order of the query, whatever mixture of cached list, cached records and database
    answers it, and keeps that agreement; the list it caches is the prefix of at most 200 ids.
    An empty cache agrees (LocalQuery.local_ok_empty). *)
Theorem Fetch_page cr off lim (w : world C D) :
  wok w → result_ok cr →
  ∃ w' cr', Fetch info zero ttl cr (Z.of_nat off) (Z.of_nat lim) w =
    (w', cr', Some (Ok (page (take lim (drop off ids))))) ∧ wok w' ∧ result_ok cr'.
Proof. apply Fetch_page_lemma. Qed.
End pages.
