(* ===== verification/FetchFacts.v ===== *)
(** * What [Fetch] can return

    Whatever the cache and the database answer, and whatever other programs did
    to either, [Fetch], [First] and [All] return only models that the query may
    show: [KeepItem] is asked of every model before it is returned, and a page has
    no more models than were asked for. *)

From S2P Require Import Prelude GoStrings GoStringsFacts GoValues Predicate QueryMatch CacheIndex Metadata LocalCache.
From S2P Require Import CacheClient Invalidate SqlBuilder Hooks Crud CrudFacts Query QueryFacts.

Open Scope string_scope.

Section visible.
Context `{GoPlatform} `{ModelOps} `{QueryEnv} {C D : Type} `{CacheClient C} `{DBAdapter D}.
Context (info : ModelInfo) (zero : gostruct) (ttl : Z).
Implicit Types (w : world C D) (cr : CachedResult).

(** A query may show the model. *)
Definition may_show (params : QueryParams) (m : gostruct) : Prop := IncludeDeleted params = true ∨ KeepItem m = true.

Lemma take_kept_shows params models ids needed :
  (0 < needed)%nat →
  let ms := (take_kept params models ids needed).1.1 in (length ms ≤ needed)%nat ∧ Forall (may_show params) ms.
Proof.
  revert needed. induction ids as [|id ids IH]; intros needed Hn; cbn [take_kept]; [split; [simpl; lia|constructor]|].
  pose proof (IH needed Hn) as Hskip. cbv zeta in *.
  destruct (models !! id) as [m|]; [|by destruct (take_kept params models ids needed) as [[ms n] bad]].
  destruct (IncludeDeleted params || KeepItem m) eqn:Hk; [|by destruct (take_kept params models ids needed) as [[ms n] bad]].
  assert (may_show params m) as Hm by by apply orb_true_iff in Hk.
  destruct needed as [|[|needed]]; [lia|split; [simpl; lia|by constructor]|].
  destruct (IH (S needed) ltac:(lia)) as [Hl Hall].
  destruct (take_kept params models ids (S needed)) as [[ms n] bad]. cbn [fst] in *. split; [simpl; lia|by constructor].
Qed.

Lemma cr_params_invalidate (b : bool) cr w : cr_params (if b then invalidateCache info cr w else (w, cr)).2 = cr_params cr.
Proof. by destruct b. Qed.

Lemma cr_params_Count cr w : cr_params (Count info ttl cr w).1.2 = cr_params cr.
Proof.
  unfold Count. destruct (cr_hasLoadedCount cr); [done|]. destruct (read_count _ w) as [w1 [n|]]; [done|].
  destruct (read_short_list _ w1) as [w2 [ids|]]; [done|]. by destruct (on_db _ w2) as [w3 [| |]].
Qed.

Lemma cr_params_fetch_ids cr w : cr_params (fetch_ids info zero ttl cr w).1.2 = cr_params cr.
Proof. unfold fetch_ids. destruct (cr_hasLoadedIDs cr); [done|]. by destruct (fetch_data _ _ _ _ _) as [w1 [| |]]. Qed.

Lemma fetch_pages_shows fuel cr total offset needed inv w ms :
  (fetch_pages info zero ttl fuel cr total offset needed inv w).2 = Some (Ok ms) →
  (length ms ≤ needed)%nat ∧ Forall (may_show (cr_params cr)) ms.
Proof.
  revert cr offset needed inv w ms. induction fuel as [|fuel IH]; intros cr offset needed inv w ms;
    (destruct needed as [|needed]; cbn [fetch_pages snd]; [intros [= <-]; split; [simpl; lia|constructor]|]); [done|].
  assert (Hnil : Some (Ok []) = Some (Ok ms) → (length ms ≤ S needed)%nat ∧ Forall (may_show (cr_params cr)) ms)
    by (intros [= <-]; split; [simpl; lia|constructor]).
  destruct (ids_to_check info cr total offset (S needed) w) as [w1 [[[source ids]|e|m]|]]; [|done|done|exact Hnil].
  destruct ids as [|id ids]; [exact Hnil|].
  set (cached := match source with FromCache => true | FromDatabase => false end).
  destruct (ByIDs info zero ttl (id :: ids) w1) as [w2 [models|e|m]]; [| |done].
  - destruct (take_kept_shows (cr_params cr) models (id :: ids) (S needed) ltac:(lia)) as [Hlen Hall]. cbv zeta in *.
    destruct (take_kept _ models (id :: ids) (S needed)) as [[ms1 processed] bad]. cbn [fst] in Hlen, Hall.
    pose proof (cr_params_invalidate (cached && bad && negb inv) cr w2) as Hp.
    destruct (if cached && bad && negb inv then _ else _) as [w3 cr3]. cbn [snd] in Hp.
    specialize (IH cr3 (offset + Z.of_nat processed)%Z (S needed - length ms1)%nat (inv || (cached && bad && negb inv)) w3).
    destruct (fetch_pages info zero ttl fuel cr3 total _ _ _ w3) as [[w4 cr4] [[rest| |]|]]; [|done..]. cbn [snd] in *.
    intros [= <-]. destruct (IH rest eq_refl) as [Hl2 Hall2]. rewrite Hp in Hall2.
    split; [rewrite length_app; lia|by apply Forall_app].
  - pose proof (cr_params_invalidate (cached && negb inv) cr w2) as Hp.
    destruct (if cached && negb inv then _ else _) as [w3 cr3]. cbn [snd] in Hp. rewrite <-Hp. apply IH.
Qed.

Lemma Fetch_shows cr offset limit w ms :
  (Fetch info zero ttl cr offset limit w).2 = Some (Ok ms) →
  (length ms ≤ Z.to_nat limit)%nat ∧ Forall (may_show (cr_params cr)) ms.
Proof.
  unfold Fetch. destruct (cr_Err cr); [done|]. pose proof (cr_params_fetch_ids cr w) as Hp.
  destruct (fetch_ids info zero ttl cr w) as [[w1 cr1] [[]| |]]; [|done..]. cbn [fst snd] in Hp.
  destruct (bool_decide _); [intros [= <-]; split; [simpl; lia|constructor]|].
  pose proof (cr_params_Count cr1 w1) as Hp2. destruct (Count info ttl cr1 w1) as [[w2 cr2] r]. cbn [fst snd] in Hp2.
  rewrite <-Hp, <-Hp2. destruct r as [n| |m]; [| |done]; (destruct (_ <? 0)%Z; [done|]); apply fetch_pages_shows.
Qed.

(** C16: for every cache, database and state of either, whatever they answer: the models that
    Fetch returns are at most as many as the limit, and each is one that the query may show,
    that is, KeepItem holds of it or the query includes deleted records; the same holds of
    First, and of All on a query that has not been loaded. A stale cached list, or ids that the
    database should not have returned, can not make a hidden record visible. *)
Theorem Fetch_visible cr offset limit w :
  (∀ ms, (Fetch info zero ttl cr offset limit w).2 = Some (Ok ms) →
     (Z.of_nat (length ms) <= Z.max 0 limit)%Z ∧ Forall (may_show (cr_params cr)) ms) ∧
  (∀ m, (First info zero ttl cr w).2 = Some (Ok m) → may_show (cr_params cr) m) ∧
  (∀ ms, cr_hasLoadedAll cr = false → (All info zero ttl cr w).2 = Some (Ok ms) → Forall (may_show (cr_params cr)) ms).
Proof.
  split_and!.
  - intros ms [Hl Hall]%Fetch_shows. split; [lia|done].
  - intros m. unfold First. pose proof (Fetch_shows cr 0 1 w) as Hf.
    destruct (Fetch info zero ttl cr 0 1 w) as [[w1 cr1] [[[|m' ms]| |]|]]; try done. cbn [snd] in *. intros [= <-].
    destruct (Hf _ eq_refl) as [_ Hall]. by apply Forall_cons in Hall as [? _].
  - intros ms Hn. unfold All. rewrite Hn. pose proof (cr_params_Count cr w) as Hp.
    destruct (Count info ttl cr w) as [[w1 cr1] [n| |]]; [|done..]. cbn [fst snd] in Hp.
    destruct (n =? 0)%Z; [intros [= <-]; constructor|]. pose proof (Fetch_shows cr1 0 n w1) as Hf. rewrite Hp in Hf.
    destruct (Fetch info zero ttl cr1 0 n w1) as [[w2 cr2] [[ms'| |]|]]; [|done..]. cbn [snd] in *. intros [= <-]. by apply Hf.
Qed.
End visible.
