(* ===== verification/LocalQuery.v ===== *)
(** * Queries on the local cache

    The local cache keeps the agreement the query layer relies on: what it
    holds for a record is its row, for a query the right list or count.  It
    starts empty, so [Fetch] and [Count] are right from the start.  [Count] reads
    through the cache whatever it holds. *)

From S2P Require Import Prelude GoStrings GoStringsFacts GoValues Predicate QueryMatch CacheIndex CacheIndexFacts Metadata LocalCache.
From S2P Require Import CacheClient LocalCacheFacts Invalidate InvalidateFacts Freshness SqlBuilder Hooks Crud CrudFacts.
From S2P Require Import Query QueryFacts.

Open Scope string_scope.

Section local_query.
Context `{GoPlatform} `{Gob} `{ModelOps} `{QueryEnv}.
Context (info : ModelInfo) (zero : gostruct) (ttl : Z).
Context (rows : gmap Z gostruct) (params : QueryParams) (ids : list Z).

Notation lkey := (list_key info params).
Notation ckey := (count_key info params).
Notation data_of r := (model_data (setNewRecordFlagIfBaseModel false r) (Fields_ info)).

(** Rows come back from gob as they were (up to the mark of new records). *)
Definition rows_survive : Prop :=
  ∀ id r d, rows !! id = Some r → gob_map (data_of r) = Some d →
    ∃ m, populate (map_to_list d) zero = Ok m ∧ row_of rows id = Some (setNewRecordFlagIfBaseModel false m).

(** The keys of records are not keys of queries. *)
Definition plain_keys : Prop :=
  ∀ id, is_list_key (model_key info id) = false ∧ is_count_key (model_key info id) = false.

(** What an entry may be. *)
Record entry_right (k : string) (v : payload) : Prop := {
  er_model id : k = model_key info id →
    match v with PBytes (GobMap d) => ∃ r, rows !! id = Some r ∧ d = data_of r | _ => True end;
  er_list : k = lkey → v = PBytes (GobIDs (cached_list_of ids));
  er_count s n : k = ckey → v = PString s → ParseInt s = Some n → n = Z.of_nat (length ids)
}.

Definition store_right (m : localCache) : Prop := ∀ k v, store m !! k = Some v → entry_right k v.
Definition local_ok (c : local_client) : Prop := store_right (lc c).

Lemma lkey_list : is_list_key lkey = true.
Proof. done. Qed.
Lemma ckey_count : is_count_key ckey = true.
Proof. done. Qed.
Lemma lkey_ckey : lkey ≠ ckey.
Proof. done. Qed.

Lemma model_key_inj id id' : model_key info id = model_key info id' → id = id'.
Proof.
  unfold model_key, generateCacheKey. intros E. apply FormatInt_inj.
  induction (TableName info) as [|c t IH]; [by injection E|]. apply IH. by injection E.
Qed.

Lemma store_right_sub m m' :
  (∀ k v, store m' !! k = Some v → store m !! k = Some v) → store_right m → store_right m'.
Proof. intros Hs Hr k v Hv. by apply Hr, Hs. Qed.

Lemma store_right_insert k v m : entry_right k v → store_right m → store_right (with_store (insert k v) m).
Proof.
  intros Hk Hr k' v'. rewrite lookup_with_store. case_decide; [subst k'; by intros [= <-]|apply Hr].
Qed.

Lemma store_right_expiration now k m : store_right m → store_right (set_expiration now k ttl m).
Proof. intros Hr. eapply store_right_sub; [|done]. intros k' v. by rewrite store_set_expiration. Qed.

Lemma local_ok_op {A} (f : env_step → localCache → localCache * A) c :
  store_right (f (env_now c) (lc c)).1 → local_ok (local_op f c).1.
Proof. unfold local_ok. by rewrite local_op_1. Qed.

Context (Hplain : plain_keys) (Hsurv : rows_survive).

Lemma model_key_not_list id : model_key info id ≠ lkey.
Proof. intros E. pose proof lkey_list as Hl. rewrite <-E in Hl. destruct (Hplain id). congruence. Qed.
Lemma model_key_not_count id : model_key info id ≠ ckey.
Proof. intros E. pose proof ckey_count as Hl. rewrite <-E in Hl. destruct (Hplain id). congruence. Qed.

(** An entry under the key of a record. *)
Lemma entry_right_model id v :
  match v with PBytes (GobMap d) => ∃ r, rows !! id = Some r ∧ d = data_of r | _ => True end →
  entry_right (model_key info id) v.
Proof.
  intros Hv. split.
  - intros id' <-%model_key_inj. done.
  - by intros ?%model_key_not_list.
  - by intros s n ?%model_key_not_count.
Qed.

Lemma GetModel_right now id m :
  store_right m →
  store_right (GetModel now (model_key info id) zero m).1 ∧
  cached_right rows id (GetModel now (model_key info id) zero m).2.
Proof.
  intros Hr. split.
  { eapply store_right_sub; [|done]. intros k v. unfold GetModel. simpl.
    destruct (store m !! model_key info id) as [v0|]; [|done]. destruct (isExpired _ _ _).
    - simpl. by intros [_ ?]%lookup_delete_Some.
    - destruct v0 as [|[]]; try done. destruct (gob_map _); [|done]. by destruct (populate _ _). }
  unfold GetModel. simpl. destruct (store m !! model_key info id) as [v|] eqn:Ev; [|done].
  destruct (isExpired _ _ _); [done|]. pose proof (er_model _ _ (Hr _ _ Ev) id eq_refl) as He.
  destruct v as [|[d|]]; try done. destruct He as (r&Hrow&->).
  destruct (gob_map (data_of r)) as [d|] eqn:Eg; [|done].
  destruct (Hsurv id r d Hrow Eg) as (m'&->&Hm). exact Hm.
Qed.

Lemma MGetModel_right now l m :
  store_right m →
  store_right (MGetModel now ((λ id, (model_key info id, zero)) <$> l) m).1 ∧
  Forall2 (cached_right rows) l (MGetModel now ((λ id, (model_key info id, zero)) <$> l) m).2.
Proof.
  revert m. induction l as [|id l IH]; intros m Hr; [by split; [|constructor]|].
  rewrite fmap_cons. cbn [MGetModel]. destruct (GetModel_right now id m Hr) as [Hr1 Hc].
  destruct (GetModel now (model_key info id) zero m) as [m1 r1]. destruct (IH m1 Hr1) as [Hr2 Hcs].
  destruct (MGetModel now _ m1) as [m2 rs]. split; [done|by constructor].
Qed.

Lemma Set_right now k s m :
  entry_right k (PString s) → store_right m → store_right (Set_ now k s ttl m).1.
Proof.
  intros He Hr. unfold Set_. simpl.
  destruct (s =? NoneResult)%string; [|by apply store_right_expiration, store_right_insert].
  destruct (store m !! k) as [[s'|]|]; [destruct (s' =? NoneResult)%string; [done|]|..];
    by apply store_right_expiration, store_right_insert.
Qed.

(** The promises of the query layer, kept by the local cache. *)
Lemma local_caches_query : caches_query info zero ttl rows local_ok params ids.
Proof.
  split; [split|..]; unfold local_ok; cbn [cc_MGetModel cc_SetModel cc_Set cc_Get cc_Delete cc_GetQueryIDs cc_SetQueryIDs local_CacheClient];
    intros c; intros *; rewrite ?local_op_1, ?local_op_2; intros Hc; intros *.
  - by apply MGetModel_right.
  - intros Hrow. unfold SetModel. destruct (gob_map _); [|done]. cbn [fst].
    apply store_right_expiration, store_right_insert; [|done]. apply entry_right_model. eauto.
  - intros _. apply Set_right; [|done]. by apply entry_right_model.
  - split.
    + eapply store_right_sub; [|done]. intros k v. unfold GetQueryIDs. simpl.
      destruct (store (lc c) !! lkey) as [v0|]; [|done].
      destruct (isExpired _ _ _); [simpl; by intros [_ ?]%lookup_delete_Some|by destruct v0 as [|[]]].
    + intros l. unfold GetQueryIDs. simpl. destruct (store (lc c) !! lkey) as [v|] eqn:Ev; [|done].
      destruct (isExpired _ _ _); [done|]. rewrite (er_list _ _ (Hc _ _ Ev) eq_refl). intros [= <-].
      by destruct (cached_list_of ids).
  - unfold SetQueryIDs. cbn [fst]. apply store_right_expiration, store_right_insert; [|done].
    split; [by intros id ?%eq_sym%model_key_not_list|done|by intros s n ?%lkey_ckey].
  - split.
    + eapply store_right_sub; [|done]. intros k v. unfold Get. simpl.
      destruct (store (lc c) !! ckey) as [v0|]; [|done].
      destruct (isExpired _ _ _); [simpl; by intros [_ ?]%lookup_delete_Some|by destruct v0].
    + intros s n. unfold Get. simpl. destruct (store (lc c) !! ckey) as [v|] eqn:Ev; [|done].
      destruct (isExpired _ _ _); [done|]. destruct v as [s'|]; [|done]. intros [= <-].
      by eapply (er_count _ _ (Hc _ _ Ev)).
  - apply Set_right; [|done]. split; [by intros id ?%eq_sym%model_key_not_count|by intros ?%eq_sym%lkey_ckey|].
    intros s n _ [= <-]. rewrite ParseInt_FormatInt. by destruct (int64_range _); [intros [= <-]|].
  - unfold Delete. cbn [fst]. eapply store_right_sub; [|done]. intros k v. simpl.
    by intros [_ ?]%lookup_delete_Some.
Qed.

Lemma local_ok_empty env n : local_ok (MkClient new_localCache env n).
Proof. intros k v. simpl. by rewrite lookup_empty. Qed.

(** On the local cache, starting from any content that agrees with the table (an empty
    cache does), Fetch returns the rows of the requested page of a query, whatever mixture of
    cached lists, cached records and database reads answers it, and leaves the cache in
    agreement; for models without their own KeepItem, over a database that answers pages of one
    list of ids. *)
Theorem local_Fetch_page {D : Type} `{DBAdapter D} (db_ok : D → Prop) cr off lim (w : world local_client D) :
  db_answers info rows db_ok params ids → default_query info rows params ids →
  db_ok (w_db w) → local_ok (w_cache w) → result_ok params ids cr →
  ∃ w' cr', Fetch info zero ttl cr (Z.of_nat off) (Z.of_nat lim) w =
    (w', cr', Some (Ok (page rows (take lim (drop off ids))))) ∧
    db_ok (w_db w') ∧ local_ok (w_cache w') ∧ result_ok params ids cr'.
Proof.
  intros Hdb Hdef Hd Hc Hro.
  destruct (Fetch_page_lemma info zero ttl rows db_ok local_ok params ids Hdb local_caches_query Hdef cr off lim w)
    as (w'&cr'&Heq&[??]&?); [done..|]. by exists w', cr'.
Qed.
End local_query.

(** ** Counts read through the cache *)

Section count.
Context `{GoPlatform} `{Gob} `{ModelOps} `{QueryEnv} {D : Type} `{DBAdapter D}.
Context (info : ModelInfo) (ttl : Z).
Notation lworld := (world local_client D).

(** Reading a key the cache does not have misses and leaves the entries alone. *)
Lemma read_count_miss key (w : lworld) :
  store (lc (w_cache w)) !! key = None →
  let a := read_count key w in
  a.2 = None ∧ store (lc (w_cache a.1)) = store (lc (w_cache w)) ∧
  expiryStore (lc (w_cache a.1)) = expiryStore (lc (w_cache w)) ∧ lc_env (w_cache a.1) = lc_env (w_cache w) ∧
  w_index a.1 = w_index w ∧ w_db a.1 = w_db w.
Proof.
  intros Hk. unfold read_count, on_cache. cbn [cc_Get local_CacheClient]. unfold local_op, Get. cbn. by rewrite Hk.
Qed.

(** A list that is there and has not expired answers when it is short. *)
Lemma read_list_cached key cached (w : lworld) :
  store (lc (w_cache w)) !! key = (λ l, PBytes (GobIDs l)) <$> cached →
  isExpired (es_now (env_now (w_cache w))) key (lc (w_cache w)) = false →
  let a := read_short_list key w in
  a.2 = (l ← cached; if (length l <? cacheListCountLimit)%nat then Some l else None) ∧
  store (lc (w_cache a.1)) = store (lc (w_cache w)) ∧ lc_env (w_cache a.1) = lc_env (w_cache w) ∧
  w_index a.1 = w_index w ∧ w_db a.1 = w_db w.
Proof.
  intros Hk He. unfold read_short_list, on_cache. cbn [cc_GetQueryIDs local_CacheClient]. unfold local_op, GetQueryIDs. cbn [store incrCounter].
  change (store (incrCounter "GetQueryIDs" (lc (w_cache w)))) with (store (lc (w_cache w))).
  change (isExpired ?n key (incrCounter "GetQueryIDs" ?m)) with (isExpired n key m). rewrite Hk, He.
  destruct cached as [[|i l]|]; cbn; by try case_match.
Qed.

Lemma FormatInt_not_none n : FormatInt n ≠ NoneResult.
Proof. intros E. pose proof (FormatInt_bytes n) as Hb. by rewrite E in Hb. Qed.

(** A count that was stored is read back until it expires. *)
Lemma read_count_stored key n p (w : lworld) :
  int64_range n = true →
  (∀ i j, expired_at (es_now (lc_env (w_cache w) i)) ttl (es_now (lc_env (w_cache w) j)) = false) →
  let w' := store_count info ttl key n p w in
  store (lc (w_cache w')) !! key = Some (PString (FormatInt n)) ∧ w_db w' = w_db w ∧
  w_index w' = RegisterQuery (TableName info) key p (w_index w) ∧
  (read_count key w').2 = Some n ∧ w_db (read_count key w').1 = w_db w.
Proof.
  intros Hn Hexp. unfold store_count, register, on_index, read_count, on_cache.
  cbn [cc_Set cc_Get cc_Delete local_CacheClient w_cache w_index w_db fst]. unfold local_op. cbn [lc lc_env lc_pos fst snd].
  rewrite (surjective_pairing (Set_ _ _ _ _ _)). cbn [fst snd w_cache w_index w_db lc lc_env lc_pos].
  set (m' := (Set_ (es_now (env_now (w_cache w))) key (FormatInt n) ttl (lc (w_cache w))).1).
  set (c' := MkClient m' (lc_env (w_cache w)) (S (lc_pos (w_cache w)))).
  assert (Hget : (Get (es_now (env_now c')) key m').2 = Ok (FormatInt n)).
  { unfold m'. rewrite Set_state by apply FormatInt_not_none.
    rewrite Get_result, store_set_expiration, isExpired_set, lookup_with_store, !decide_True by done.
    unfold env_now, c'. cbn [lc_env lc_pos]. by rewrite Hexp. }
  split; [|split; [done|split; [done|]]].
  - unfold m'. rewrite Set_state by apply FormatInt_not_none. by rewrite store_set_expiration, lookup_with_store, decide_True.
  - destruct (Get (es_now (env_now c')) key m') as [m2 r2]. cbn [snd] in Hget. subst r2.
    cbn [fst snd]. by rewrite ParseInt_FormatInt, Hn.
Qed.

Lemma store_count_db key n p (w : lworld) : w_db (store_count info ttl key n p w) = w_db w.
Proof. unfold store_count, register, on_index, on_cache. by destruct (cc_Set _ _ _ _). Qed.

(** ... and registered, and it answers the next count. *)
Lemma count_stored cr n p (w : lworld) :
  cr_hasLoadedCount cr = false → cr_params cr = p → TableName info ≠ "" → int64_range n = true →
  (∀ i j, expired_at (es_now (lc_env (w_cache w) i)) ttl (es_now (lc_env (w_cache w) j)) = false) →
  let w' := store_count info ttl (count_key info p) n p w in
  store (lc (w_cache w')) !! count_key info p = Some (PString (FormatInt n)) ∧
  keyToParams (w_index w') !! count_key info p = Some p ∧
  let b := Count info ttl cr w' in b.2 = Ok n ∧ w_db b.1.1 = w_db w'.
Proof.
  intros Hl Hp Ht Hn Hexp w'. destruct (read_count_stored (count_key info p) n p w Hn Hexp) as (Hs&Hd&Hi&Hr&Hrd).
  cbv zeta in *. fold w' in Hs, Hd, Hi, Hr, Hrd. split; [done|].
  split; [rewrite Hi, keyToParams_register; [apply lookup_insert_eq|done..]|].
  unfold Count. rewrite Hl. change (generateCountCacheKey info cr) with (count_key info (cr_params cr)). rewrite Hp.
  destruct (read_count (count_key info p) w') as [w1 o1]. cbn [fst snd] in *. subst o1. cbn [fst snd]. split; [done|]. congruence.
Qed.

(** Where a count that is not cached comes from: a cached list shorter than the
    limit is the whole answer, otherwise the database counts. *)
Definition count_source (p : QueryParams) (cached : option (list Z)) (d : D) : D * result Z :=
  match cached with
  | Some l => if (length l <? 200)%nat then (d, Ok (Z.of_nat (length l)))
              else db_GetCount (TableName info) (visible_where p) (Args p) d
  | None => db_GetCount (TableName info) (visible_where p) (Args p) d
  end.

(** C18: Count reads through the local cache, whatever its other entries are: when the result
    has no count loaded and the cache has none under the query's key, the answer is the length
    of the cached list if there is one with fewer than 200 ids (the database is not asked),
    otherwise what the database counts with the clause that hides deleted rows. A count in the
    range of int64 is stored under the query's key and the key is registered with the query, so
    that writes find it, and until it expires a second Count of the same query answers it
    without asking the database; an error of the database is returned and nothing is cached or
    registered. That the cached list is right is not assumed; CoherenceRuns is about that. *)
Theorem Count_reads_through cr cr2 cached (w : lworld) :
  let p := cr_params cr in
  cr_hasLoadedCount cr = false → cr_hasLoadedCount cr2 = false → cr_params cr2 = p → TableName info ≠ "" →
  store (lc (w_cache w)) !! count_key info p = None →
  store (lc (w_cache w)) !! list_key info p = (λ l, PBytes (GobIDs l)) <$> cached →
  (∀ i, isExpired (es_now (lc_env (w_cache w) i)) (list_key info p) (lc (w_cache w)) = false) →
  (∀ i j, expired_at (es_now (lc_env (w_cache w) i)) ttl (es_now (lc_env (w_cache w) j)) = false) →
  let q := count_source p cached (w_db w) in
  let a := Count info ttl cr w in
  w_db a.1.1 = q.1 ∧
  match q.2 with
  | Ok n =>
      a.2 = Ok n ∧ cr_hasLoadedCount a.1.2 = true ∧ cr_cachedCount a.1.2 = n ∧
      (int64_range n = true →
        store (lc (w_cache a.1.1)) !! count_key info p = Some (PString (FormatInt n)) ∧
        keyToParams (w_index a.1.1) !! count_key info p = Some p ∧
        let b := Count info ttl cr2 a.1.1 in b.2 = Ok n ∧ w_db b.1.1 = w_db a.1.1)
  | Err e =>
      a.2 = Err (ErrWrap "database count query failed" e) ∧ cr_hasLoadedCount a.1.2 = false ∧
      store (lc (w_cache a.1.1)) = store (lc (w_cache w)) ∧ w_index a.1.1 = w_index w
  | Panic m => a.2 = Panic m
  end.
Proof.
  intros p Hl Hl2 Hp2 Ht Hck Hlk Hex Hexp q a. set (second := Count info ttl cr2). unfold a, Count. rewrite Hl.
  change (generateCountCacheKey info cr) with (count_key info p). change (generateListCacheKey info cr) with (list_key info p).
  destruct (read_count_miss (count_key info p) w Hck) as (E1&Hs1&Hx1&He1&Hi1&Hd1). cbv zeta in *.
  destruct (read_count (count_key info p) w) as [w1 o1]. cbn [fst snd] in *. subst o1.
  destruct (read_list_cached (list_key info p) cached w1) as (E2&Hs2&He2&Hi2&Hd2).
  { by rewrite Hs1. }
  { unfold isExpired, env_now in *. rewrite Hx1, He1. apply Hex. }
  cbv zeta in *. destruct (read_short_list (list_key info p) w1) as [w2 o2]. cbn [fst snd] in *.
  fold p. assert (Hdb : w_db w2 = w_db w) by congruence.
  destruct o2 as [l|].
  - assert (q = (w_db w, Ok (Z.of_nat (length l)))) as ->.
    { unfold q, count_source. destruct cached as [l'|]; [|done]. cbn [mbind option_bind] in E2. unfold cacheListCountLimit in E2.
      destruct (length l' <? 200)%nat; [|done]. by injection E2 as ->. }
    cbn [fst snd]. split; [by rewrite store_count_db|]. split; [done|]. split; [done|]. split; [done|].
    intros Hn. apply (count_stored cr2 (Z.of_nat (length l)) p w2); try done. by rewrite He2, He1.
  - assert (q = db_GetCount (TableName info) (visible_where p) (Args p) (w_db w)) as ->.
    { unfold q, count_source. destruct cached as [l'|]; [|done]. cbn [mbind option_bind] in E2. unfold cacheListCountLimit in E2.
      by destruct (length l' <? 200)%nat. }
    unfold on_db. rewrite Hdb. destruct (db_GetCount _ _ _ (w_db w)) as [d [n|e|m]]; cbn [fst snd].
    + split; [by rewrite store_count_db|]. split; [done|]. split; [done|]. split; [done|].
      intros Hn. apply (count_stored cr2 n p (MkWorld (w_cache w2) (w_index w2) d)); try done.
      cbn [w_cache]. by rewrite He2, He1.
    + split; [done|]. split; [done|]. split; [done|]. cbn [w_cache w_index]. split; congruence.
    + done.
Qed.
End count.
