(* ===== verification/Coherence.v ===== *)
(** * Reads and writes together: the cache stays coherent

    One invariant for a table, the local cache in front of it and the index of
    its queries, for a family of queries that [Fetch], [Count] and [ByIDs] may run
    in any order between the writes, the batches, the clearing operations and the
    ticks of the cleanup goroutine: what the cache holds is what the table
    answers, and what it holds for a query is registered in the index, so that
    the next write finds it.

    This file has the invariant and the read side: a read changes the
    cache by entries of records, by dropping entries, and by lists and counts of
    its own query that it registers ([reads]). *)

From S2P Require Import Prelude GoStrings GoStringsFacts GoValues GoValuesFacts Predicate QueryMatch QueryMatchFacts.
From S2P Require Import CacheIndex CacheIndexFacts Metadata LocalCache CacheClient LocalCacheFacts.
From S2P Require Import Invalidate InvalidateFacts MetadataFacts Freshness SqlBuilder Hooks Crud CrudFacts.
From S2P Require Import WriteFacts Query QueryFacts LocalQuery.

Open Scope string_scope.

(** ** What a read does to the world *)

Section reads.
Context `{GoPlatform} `{Gob} `{ModelOps} `{QueryEnv} {D : Type} `{DBAdapter D}.
Context (info : ModelInfo) (zero : gostruct) (ttl : Z) (p : QueryParams).
Notation lworld := (world local_client D).

(** Entries are only dropped, or written under the key of a record; locks and
    environment are the same. *)
Record quiet (c c' : local_client) : Prop := {
  qt_store k v : store (lc c') !! k = Some v → store (lc c) !! k = Some v ∨ ∃ id, k = model_key info id;
  qt_locks : lockPool (lc c') = lockPool (lc c);
  qt_env : lc_env c' = lc_env c
}.

Lemma quiet_refl c : quiet c c.
Proof. split; auto. Qed.
Lemma quiet_trans c1 c2 c3 : quiet c1 c2 → quiet c2 c3 → quiet c1 c3.
Proof.
  intros [S1 L1 E1] [S2 L2 E2]. split; [|congruence..].
  intros k v [Hv|?]%S2; [by apply S1|by right].
Qed.

Inductive read_step : lworld → lworld → Prop :=
  | rd_db w w' : same_cache w w' → read_step w w'
  | rd_quiet w c : quiet (w_cache w) c → read_step w (MkWorld c (w_index w) (w_db w))
  | rd_list w ids :
      read_step w (register info (list_key info p) p (on_cache (cc_SetQueryIDs (list_key info p) ids ttl) w).1)
  | rd_count w n : read_step w (store_count info ttl (count_key info p) n p w).
Definition reads : lworld → lworld → Prop := rtc read_step.

Lemma reads_db {A} (f : D → D * A) w : reads w (on_db f w).1.
Proof. apply rtc_once, rd_db, same_cache_on_db. Qed.

Lemma reads_cache {A} (f : local_client → local_client * A) w :
  quiet (w_cache w) (f (w_cache w)).1 → reads w (on_cache f w).1.
Proof.
  intros Hq. unfold on_cache. destruct (f (w_cache w)) as [c r]. apply rtc_once. by apply rd_quiet.
Qed.

(** *** The operations of the client *)

Lemma locks_set_expiration now k d m : lockPool (set_expiration now k d m) = lockPool m.
Proof. unfold set_expiration. by case_match. Qed.

Lemma quiet_op {A} (f : env_step → localCache → localCache * A) c :
  (∀ k v, store (f (env_now c) (lc c)).1 !! k = Some v → store (lc c) !! k = Some v ∨ ∃ id, k = model_key info id) →
  lockPool (f (env_now c) (lc c)).1 = lockPool (lc c) → quiet c (local_op f c).1.
Proof. intros Hs Hl. split; rewrite ?local_op_1; [done|done|apply local_op_env]. Qed.

(** What [remove] leaves of a store. *)
Lemma lookup_remove k m k' v : store (remove k m) !! k' = Some v → store m !! k' = Some v.
Proof. unfold remove, with_store, with_expiry. simpl. by intros [_ ?]%lookup_delete_Some. Qed.

Lemma Get_sub now k m k' v : store (Get now k m).1 !! k' = Some v → store m !! k' = Some v.
Proof.
  unfold Get. simpl. destruct (store m !! k) as [v0|]; [|done].
  destruct (isExpired _ _ _); [apply (lookup_remove k (incrCounter "Get" m))|by destruct v0].
Qed.
Lemma GetQueryIDs_sub now k m k' v : store (GetQueryIDs now k m).1 !! k' = Some v → store m !! k' = Some v.
Proof.
  unfold GetQueryIDs. simpl. destruct (store m !! k) as [v0|]; [|done].
  destruct (isExpired _ _ _); [apply (lookup_remove k (incrCounter "GetQueryIDs" m))|by destruct v0 as [|[]]].
Qed.
Lemma GetModel_sub now k dest m k' v : store (GetModel now k dest m).1 !! k' = Some v → store m !! k' = Some v.
Proof.
  unfold GetModel. simpl. destruct (store m !! k) as [v0|]; [|done].
  destruct (isExpired _ _ _); [apply (lookup_remove k (incrCounter "GetModel" m))|].
  destruct v0 as [|[]]; [done| |done]. destruct (gob_map _); [|done]. by destruct (populate _ _).
Qed.
Lemma MGetModel_sub now ks m k' v : store (MGetModel now ks m).1 !! k' = Some v → store m !! k' = Some v.
Proof.
  revert m. induction ks as [|[k dest] ks IH]; intros m; cbn [MGetModel]; [done|].
  pose proof (GetModel_sub now k dest m k' v) as Hs. destruct (GetModel now k dest m) as [m1 r].
  specialize (IH m1). destruct (MGetModel now ks m1) as [m2 rs]. auto.
Qed.

Lemma Get_locks now k m : lockPool (Get now k m).1 = lockPool m.
Proof. unfold Get. simpl. destruct (store m !! k) as [[]|]; [destruct (isExpired _ _ _)..|]; done. Qed.
Lemma GetQueryIDs_locks now k m : lockPool (GetQueryIDs now k m).1 = lockPool m.
Proof. unfold GetQueryIDs. simpl. destruct (store m !! k) as [[|[]]|]; [destruct (isExpired _ _ _)..|]; done. Qed.
Lemma GetModel_locks now k dest m : lockPool (GetModel now k dest m).1 = lockPool m.
Proof.
  unfold GetModel. simpl. destruct (store m !! k) as [[|[]]|]; [destruct (isExpired _ _ _)..|]; try done.
  destruct (gob_map _); [|done]. by destruct (populate _ _).
Qed.
Lemma MGetModel_locks now ks m : lockPool (MGetModel now ks m).1 = lockPool m.
Proof.
  revert m. induction ks as [|[k dest] ks IH]; intros m; cbn [MGetModel]; [done|].
  pose proof (GetModel_locks now k dest m) as Hs. destruct (GetModel now k dest m) as [m1 r].
  specialize (IH m1). destruct (MGetModel now ks m1) as [m2 rs]. simpl in *. congruence.
Qed.

Lemma quiet_Get k c : quiet c (cc_Get k c).1.
Proof. apply quiet_op; [intros; left; by eapply Get_sub|apply Get_locks]. Qed.
Lemma quiet_GetQueryIDs k c : quiet c (cc_GetQueryIDs k c).1.
Proof. apply quiet_op; [intros; left; by eapply GetQueryIDs_sub|apply GetQueryIDs_locks]. Qed.
Lemma quiet_MGetModel ks c : quiet c (cc_MGetModel ks c).1.
Proof. apply quiet_op; [intros; left; by eapply MGetModel_sub|apply MGetModel_locks]. Qed.
Lemma quiet_Delete k c : quiet c (cc_Delete k c).1.
Proof. apply quiet_op; [|done]. intros k' v. simpl. intros [_ ?]%lookup_delete_Some. by left. Qed.

Lemma quiet_SetModel id m fields c : quiet c (cc_SetModel (model_key info id) m fields ttl c).1.
Proof.
  apply quiet_op; unfold SetModel; destruct (gob_map _); simpl; rewrite ?store_set_expiration, ?locks_set_expiration; auto.
  intros k v. simpl. rewrite lookup_insert. case_decide; [subst; eauto|auto].
Qed.
Lemma quiet_SetNone id c : quiet c (cc_Set (model_key info id) NoneResult ttl c).1.
Proof.
  apply quiet_op; unfold Set_; simpl.
  - intros k v. destruct (store (lc c) !! model_key info id) as [[s|]|] eqn:Es; simpl;
      [destruct (s =? NoneResult)%string; [auto|]|..]; simpl; rewrite ?store_set_expiration; simpl;
      rewrite lookup_insert; (case_decide; [subst; eauto|auto]).
  - destruct (store (lc c) !! model_key info id) as [[s|]|] eqn:Es; simpl;
      [destruct (s =? NoneResult)%string; [done|]|..]; simpl; by rewrite ?locks_set_expiration.
Qed.

(** *** Reading by id *)

Lemma quiet_take_rows rs c found fetched : quiet c (take_rows info ttl rs c found fetched).1.1.
Proof.
  revert c found fetched. induction rs as [|r rs IH]; intros c found fetched; cbn [take_rows]; [apply quiet_refl|].
  cbv zeta. destruct (_ =? 0)%Z; [apply IH|]. eapply quiet_trans; [apply quiet_SetModel|apply IH].
Qed.
Lemma quiet_mark_missing ids fetched c : quiet c (mark_missing info ttl ids fetched c).
Proof.
  revert c. induction ids as [|id ids IH]; intros c; cbn [mark_missing]; [apply quiet_refl|].
  eapply quiet_trans; [|apply IH]. case_decide; [apply quiet_refl|apply quiet_SetNone].
Qed.

Lemma reads_batch batch w found : reads w (fetch_batch info ttl batch w found).1.
Proof.
  unfold fetch_batch. etrans; [apply (reads_db (db_SelectModels (select_by_ids info batch) ((λ id, Some (VInt W64 id)) <$> batch)))|].
  destruct (on_db _ w) as [w1 [rs| |]]; [|done..]. simpl.
  pose proof (quiet_take_rows rs (w_cache w1) found ∅) as Hq.
  destruct (take_rows info ttl rs (w_cache w1) found ∅) as [[c f1] fetched]. simpl in *.
  apply rtc_once, rd_quiet. eapply quiet_trans; [exact Hq|apply quiet_mark_missing].
Qed.

Lemma reads_batches fuel ids w found : reads w (fetch_batches info ttl fuel ids w found).1.
Proof.
  revert ids w found. induction fuel as [|fuel IH]; intros [|i ids] w found; cbn [fetch_batches]; try done.
  pose proof (reads_batch (take ByIDBatchSize (i :: ids)) w found) as Hb.
  destruct (fetch_batch info ttl (take ByIDBatchSize (i :: ids)) w found) as [w1 f1].
  etrans; [exact Hb|apply IH].
Qed.

Lemma reads_ByIDs ids w : reads w (ByIDs info zero ttl ids w).1.
Proof.
  unfold ByIDs, fetchModelsByIDsInternal. destruct (bool_decide _); [done|].
  pose proof (reads_cache (cc_MGetModel ((λ id, (model_key info id, zero)) <$> ids)) w (quiet_MGetModel _ _)) as Hc.
  destruct (on_cache _ w) as [w1 rs]. destruct (existsb is_Panic rs); [exact Hc|].
  destruct (split_cached ids rs) as [found missing].
  pose proof (reads_batches (length missing) missing w1 found) as Hb.
  destruct (fetch_batches _ _ _ _ _ _) as [w2 f2]. by etrans.
Qed.

Lemma reads_byID id w : reads w (byIDInternal info zero ttl id w).1.
Proof.
  unfold byIDInternal. destruct (_ <=? 0)%Z; [done|].
  pose proof (reads_ByIDs [id] w) as Hb. unfold ByIDs in Hb.
  by destruct (fetchModelsByIDsInternal info zero ttl [id] w).
Qed.

(** *** Counts and lists *)

Lemma reads_count_entry key w : reads w (read_count key w).1.
Proof.
  unfold read_count. pose proof (reads_cache (cc_Get key) w (quiet_Get _ _)) as Hc.
  destruct (on_cache (cc_Get key) w) as [w1 [s| |]]; [|exact Hc..].
  destruct (ParseInt s); [exact Hc|]. etrans; [exact Hc|]. apply reads_cache, quiet_Delete.
Qed.
Lemma reads_short_list key w : reads w (read_short_list key w).1.
Proof.
  unfold read_short_list. pose proof (reads_cache (cc_GetQueryIDs key) w (quiet_GetQueryIDs _ _)) as Hc.
  by destruct (on_cache (cc_GetQueryIDs key) w).
Qed.
Lemma reads_ids_from_db off lim w : reads w (fetch_ids_from_db info p off lim w).1.
Proof.
  unfold fetch_ids_from_db. destruct (ids_query info p off lim) as [query args].
  pose proof (reads_db (db_SelectIDs query args) w) as Hd. by destruct (on_db _ w).
Qed.

(** A result of the query: its parameters are [p], before and after. *)
Definition of_query (cr : CachedResult) : Prop := cr_params cr = p.

Lemma reads_Count cr w : of_query cr →
  reads w (Count info ttl cr w).1.1 ∧ of_query (Count info ttl cr w).1.2.
Proof.
  intros Hcr. unfold Count, generateCountCacheKey, generateListCacheKey. rewrite Hcr. destruct (cr_hasLoadedCount cr); [done|].
  fold (count_key info p). fold (list_key info p).
  pose proof (reads_count_entry (count_key info p) w) as R1. destruct (read_count (count_key info p) w) as [w1 [n|]]; [done|].
  pose proof (reads_short_list (list_key info p) w1) as R2. destruct (read_short_list (list_key info p) w1) as [w2 [l|]].
  { split; [|done]. etrans; [exact R1|]. etrans; [exact R2|]. apply rtc_once, rd_count. }
  pose proof (reads_db (db_GetCount (TableName info) (visible_where p) (Args p)) w2) as R3.
  assert (reads w (on_db (db_GetCount (TableName info) (visible_where p) (Args p)) w2).1) as R4.
  { etrans; [exact R1|]. etrans; [exact R2|exact R3]. }
  destruct (on_db _ w2) as [w3 [n| |]]; [|done..]. split; [|done].
  eapply rtc_r; [exact R4|apply rd_count].
Qed.

Lemma reads_loop n off valid w : reads w (fetch_loop info zero ttl n p off valid w).1.
Proof.
  revert off valid w. induction n as [|n IH]; intros off valid w; cbn [fetch_loop]; (destruct (_ <=? _)%nat; [done|]); [done|].
  pose proof (reads_ids_from_db (Z.of_nat off) (Z.of_nat listBatchSize) w) as R1.
  destruct (fetch_ids_from_db _ _ _ _ w) as [w1 [batch| |]]; [|done..]. destruct batch as [|b batch]; [done|]. cbv zeta.
  assert (Hnext : ∀ valid' w', reads w w' →
    reads w (if (length (b :: batch) <? listBatchSize)%nat then (w', Ok valid')
             else fetch_loop info zero ttl n p (off + length (b :: batch)) valid' w').1).
  { intros valid' w' Hw. destruct (_ <? _)%nat; [done|]. etrans; [exact Hw|apply IH]. }
  destruct (_ && _); [by apply Hnext|].
  pose proof (reads_ByIDs (b :: batch) w1) as R2. destruct (ByIDs info zero ttl (b :: batch) w1) as [w2 [models| |]].
  - apply Hnext. by etrans.
  - etrans; [exact R1|]. etrans; [exact R2|apply IH].
  - by etrans.
Qed.

Lemma reads_fetch_data cr w : of_query cr → reads w (fetch_data info zero ttl cr w).1.
Proof.
  intros Hcr. unfold fetch_data, generateListCacheKey, generateCountCacheKey. rewrite Hcr.
  fold (count_key info p). fold (list_key info p).
  pose proof (reads_cache (cc_GetQueryIDs (list_key info p)) w (quiet_GetQueryIDs _ _)) as R1.
  destruct (on_cache (cc_GetQueryIDs (list_key info p)) w) as [w1 r]. simpl in R1.
  assert (Hmiss : reads w (let '(w, r) := fetch_loop info zero ttl maxIterations p 0 [] w1 in
    match r with
    | Ok valid =>
        let w := register info (list_key info p) p (on_cache (cc_SetQueryIDs (list_key info p) (Some valid) ttl) w).1 in
        let w := if (length valid <? cacheListCountLimit)%nat
                 then store_count info ttl (count_key info p) (Z.of_nat (length valid)) p w else w in
        (w, Ok valid)
    | r => (w, r)
    end).1).
  { etrans; [exact R1|]. pose proof (reads_loop maxIterations 0 [] w1) as R2.
    destruct (fetch_loop _ _ _ _ _ _ _ w1) as [w2 [valid| |]]; [|done..]. simpl in *.
    etrans; [exact R2|]. eapply rtc_l; [apply (rd_list w2 (Some valid))|].
    destruct (_ <? _)%nat; [apply rtc_once, rd_count|done]. }
  by destruct r.
Qed.

Lemma reads_fetch_ids cr w : of_query cr →
  reads w (fetch_ids info zero ttl cr w).1.1 ∧ of_query (fetch_ids info zero ttl cr w).1.2.
Proof.
  intros Hcr. unfold fetch_ids. destruct (cr_hasLoadedIDs cr); [done|].
  pose proof (reads_fetch_data cr w Hcr) as R1. by destruct (fetch_data info zero ttl cr w) as [w1 [| |]].
Qed.

Lemma reads_invalidate (b : bool) cr w : of_query cr →
  reads w (if b then invalidateCache info cr w else (w, cr)).1 ∧
  of_query (if b then invalidateCache info cr w else (w, cr)).2.
Proof.
  intros Hcr. destruct b; [|done]. split; [|done]. unfold invalidateCache. cbn [fst].
  etrans; [apply (reads_cache (cc_Delete (generateListCacheKey info cr))), quiet_Delete|].
  apply (reads_cache (cc_Delete (generateCountCacheKey info cr))), quiet_Delete.
Qed.

Lemma reads_to_check cr total off lim w : of_query cr → reads w (ids_to_check info cr total off lim w).1.
Proof.
  intros Hcr. unfold ids_to_check. rewrite Hcr. destruct (_ <? _)%Z; [by destruct (_ <? _)%Z|]. destruct (_ <? _)%Z; [|done].
  pose proof (reads_ids_from_db off (Z.of_nat lim) w) as R1. by destruct (fetch_ids_from_db _ _ _ _ w) as [w1 [| |]].
Qed.

Lemma reads_pages fuel cr total off needed inv w : of_query cr →
  reads w (fetch_pages info zero ttl fuel cr total off needed inv w).1.1.
Proof.
  revert cr off needed inv w. induction fuel as [|fuel IH]; intros cr off needed inv w Hcr; destruct needed as [|needed]; try done.
  cbn [fetch_pages]. pose proof (reads_to_check cr total off (S needed) w Hcr) as R1.
  destruct (ids_to_check info cr total off (S needed) w) as [w1 [[[source ids]| |]|]]; try done.
  destruct ids as [|i ids]; [done|]. cbv zeta.
  pose proof (reads_ByIDs (i :: ids) w1) as R2. destruct (ByIDs info zero ttl (i :: ids) w1) as [w2 [models| |]].
  - destruct (take_kept _ models (i :: ids) (S needed)) as [[ms processed] bad].
    match goal with |- context [if ?b then invalidateCache info cr w2 else _] =>
      destruct (reads_invalidate b cr w2 Hcr) as [R3 Hcr3]; destruct (if b then _ else _) as [w3 cr3] end.
    match goal with |- context [fetch_pages info zero ttl fuel cr3 ?t ?o ?n ?v w3] =>
      pose proof (IH cr3 o n v w3 Hcr3) as R4; destruct (fetch_pages info zero ttl fuel cr3 t o n v w3) as [[w4 cr4] r4] end.
    do 3 (etrans; [eassumption|]). done.
  - match goal with |- context [if ?b then invalidateCache info cr w2 else _] =>
      destruct (reads_invalidate b cr w2 Hcr) as [R3 Hcr3]; destruct (if b then _ else _) as [w3 cr3] end.
    do 3 (etrans; [eassumption|]). by apply IH.
  - by etrans.
Qed.

Lemma reads_Fetch cr off lim w : of_query cr → reads w (Fetch info zero ttl cr off lim w).1.1.
Proof.
  intros Hcr. unfold Fetch. destruct (cr_Err cr); [done|].
  destruct (reads_fetch_ids cr w Hcr) as [R1 Hcr1]. destruct (fetch_ids info zero ttl cr w) as [[w1 cr1] [| |]]; [|done..].
  destruct (bool_decide _); [done|].
  destruct (reads_Count cr1 w1 Hcr1) as [R2 Hcr2]. destruct (Count info ttl cr1 w1) as [[w2 cr2] r]. cbn [fst snd] in *.
  assert (reads w w2) as R3 by by etrans.
  destruct r; [| |done]; cbv zeta; (destruct (_ <? 0)%Z; [done|]; etrans; [exact R3|by apply reads_pages]).
Qed.
End reads.

(** ** The invariant *)

Section coherence.
Context `{GoPlatform} `{Gob} `{ModelOps} `{QueryEnv} {D : Type} `{DBAdapter D}.
Context (typeName : string) (mm : model_methods) (fs : list sfield).
Context (info : ModelInfo) (zero : gostruct) (ttl : Z).
Notation lworld := (world local_client D).

(** The queries that are run, the states of the database that hold a given
    table, and the ids the database selects for a query, in its order. *)
Context (queries : QueryParams → Prop) (db_ok : gmap Z gostruct → D → Prop).
Context (answer : QueryParams → gmap Z gostruct → list Z).

(** A row of the model type, not marked as new, which comes back from gob as it
    was. *)
Definition row_ok (r : gostruct) : Prop :=
  has_type r fs ∧ setNewRecordFlagIfBaseModel false r = r ∧
  ∃ d m, gob_map (model_data r (Fields_ info)) = Some d ∧ populate (map_to_list d) zero = Ok m ∧
    setNewRecordFlagIfBaseModel false m = r.
Definition rows_ok (rows : gmap Z gostruct) : Prop := (∀ id r, rows !! id = Some r → row_ok r) ∧ table_keyed rows.

(** The model: metadata computed from its type, no [KeepItem] of its own. *)
Record model_ok : Prop := {
  mo_simple : forallb simple_field fs = true;
  mo_names : NoDup (all_names fs);
  mo_info : GetCachedModelInfo typeName mm fs = Ok info;
  mo_columns : NoDup (Columns info);
  mo_table : TableName info ≠ "";
  mo_default : HasCustomKeepItem info = false;
  mo_plain : plain_keys info
}.

(** The columns the order of a query depends on. *)
Definition order_columns (p : QueryParams) : gset string :=
  let deps := deps_of (list_key info p) p in
  if HasUncertainOrder deps then columns_of info else OrderFields deps.

(** The queries: visible rows, columns of the model, clauses that can be
    evaluated, and no collision of their hashed keys. *)
Record queries_ok : Prop := {
  qo_some : ∃ p, queries p;
  qo_visible p : queries p → IncludeDeleted p = false;
  qo_list_key p p' : queries p → queries p' → list_key info p = list_key info p' → p = p';
  qo_count_key p p' : queries p → queries p' → count_key info p = count_key info p' → p = p';
  qo_known p : queries p → clause_known info p ∧ order_columns p ⊆ columns_of info;
  qo_checks p r : queries p → has_type r fs → is_Ok (checks info p r) = true
}.

(** A row is selected: its clause holds and it is not hidden. *)
Definition selected (p : QueryParams) (rows : gmap Z gostruct) (id : Z) : Prop :=
  ∃ r, rows !! id = Some r ∧ checks info p r = Ok true ∧ KeepItem r = true.

Definition same_order (p : QueryParams) (r r' : gostruct) : Prop :=
  r = r' ∨ ∀ c, c ∈ order_columns p → same_column r r' (ColumnToFieldMap info) c.

(** The database: it answers reads from its table, selects by the clause, and
    orders by the values of the order columns. *)
Record database_ok : Prop := {
  do_reads rows p : queries p → rows_ok rows → db_answers info rows (db_ok rows) p (answer p rows);
  do_elem rows p id : queries p → rows_ok rows → id ∈ answer p rows ↔ selected p rows id;
  do_nodup rows p : queries p → rows_ok rows → NoDup (answer p rows);
  do_order rows rows' p : queries p → rows_ok rows → rows_ok rows' →
    (∀ id, selected p rows id ↔ selected p rows' id) →
    (∀ id r r', rows !! id = Some r → rows' !! id = Some r' → selected p rows id → same_order p r r') →
    answer p rows = answer p rows'
}.

(** All the entries of the family are right. *)
Definition entries_right (rows : gmap Z gostruct) (c : local_client) : Prop :=
  ∀ p, queries p → local_ok info rows p (answer p rows) c.

(** Entries of queries are registered, and the index has nothing else. *)
Record tracked (c : local_client) (idx : CacheIndex) : Prop := {
  tr_registered p k : queries p → k = list_key info p ∨ k = count_key info p →
    is_Some (store (lc c) !! k) → keyToParams idx !! k = Some p;
  tr_known k p : keyToParams idx !! k = Some p → queries p ∧ (k = list_key info p ∨ k = count_key info p);
  tr_index : index_reachable (λ _, TableName info) idx;
  tr_lists : lists_typed (lc c)
}.

(** Locks are free and contexts do not end. *)
Record unlocked (c : local_client) : Prop := {
  ul_free k : ¬ held (lc c) k;
  ul_cancel n e : es_branch (lc_env c n) ≠ OnCancel e;
  ul_timeout n : es_branch (lc_env c n) ≠ OnTimeout
}.

Record coherent (rows : gmap Z gostruct) (w : lworld) : Prop := {
  co_rows : rows_ok rows;
  co_db : db_ok rows (w_db w);
  co_entries : entries_right rows (w_cache w);
  co_tracked : tracked (w_cache w) (w_index w);
  co_unlocked : unlocked (w_cache w)
}.

Context (Hmodel : model_ok) (Hqueries : queries_ok) (Hdb : database_ok).

(** ** Keys *)

Lemma list_not_count p p' : list_key info p ≠ count_key info p'.
Proof. done. Qed.

Lemma model_not_query id k p :
  k = list_key info p ∨ k = count_key info p → model_key info id ≠ k.
Proof.
  destruct (mo_plain Hmodel id) as [Hl Hc]. intros [-> | ->] E; rewrite E in *; [by rewrite lkey_list in Hl|by rewrite ckey_count in Hc].
Qed.

Lemma model_key_plain id : query_key (model_key info id) = false.
Proof. unfold query_key. by destruct (mo_plain Hmodel id) as [-> ->]. Qed.

(** ** The entries of the family *)

Lemma rows_ok_survive rows : rows_ok rows → rows_survive info zero rows.
Proof.
  intros [Hr _] id r d Hid. destruct (Hr _ _ Hid) as (_&Hs&d'&m&Hd'&Hm&Hf). rewrite Hs, Hd'. intros [= <-].
  exists m. split; [done|]. unfold row_of. rewrite Hid. simpl. by rewrite Hs, Hf.
Qed.

(** Queries of the family are told apart by their keys. *)
Lemma same_query p p' : queries p → queries p' → p = p' ∨ p ≠ p'.
Proof.
  intros Hp Hp'. destruct (decide (list_key info p = list_key info p')) as [E|E]; [left; by apply (qo_list_key Hqueries)|].
  right. congruence.
Qed.

(** An entry of one query is none of another's. *)
Lemma entry_right_other rows ids p p' k v :
  queries p → queries p' → p' ≠ p → k = list_key info p ∨ k = count_key info p →
  entry_right info rows p' ids k v.
Proof.
  intros Hp Hp' Hne Hk. split.
  - intros id ->. by destruct (model_not_query id (model_key info id) p).
  - intros ->. destruct Hk as [E|E]; [by destruct Hne; apply (qo_list_key Hqueries)|by apply list_not_count in E].
  - intros s n ->. destruct Hk as [E|E]; [by apply eq_sym, list_not_count in E|by destruct Hne; apply (qo_count_key Hqueries)].
Qed.

Lemma entries_sub rows c c' :
  (∀ k v, store (lc c') !! k = Some v → store (lc c) !! k = Some v) → entries_right rows c → entries_right rows c'.
Proof. intros Hs Hc p Hp. eapply store_right_sub; [exact Hs|by apply Hc]. Qed.

(** The promises of the query layer, for one query of the family, with all the
    entries of the family. *)
Lemma family_caches_query rows p :
  rows_ok rows → queries p → caches_query info zero ttl rows (entries_right rows) p (answer p rows).
Proof.
  intros Hrows Hp.
  assert (Hq : ∀ p', queries p' → caches_query info zero ttl rows (local_ok info rows p' (answer p' rows)) p' (answer p' rows)).
  { intros p' Hp'. apply local_caches_query; [apply Hmodel|by apply rows_ok_survive]. }
  split; [split|..]; intros c; intros *.
  - intros Hc. cbv zeta. split.
    + intros p' Hp'. by apply (cr_MGetModel _ _ _ _ _ (cq_rows _ _ _ _ _ _ _ (Hq p' Hp'))), Hc.
    + by apply (cr_MGetModel _ _ _ _ _ (cq_rows _ _ _ _ _ _ _ (Hq p Hp))), Hc.
  - intros Hc Hr p' Hp'. apply (cr_SetModel _ _ _ _ _ (cq_rows _ _ _ _ _ _ _ (Hq p' Hp'))); [by apply Hc|done].
  - intros Hc Hr p' Hp'. apply (cr_SetNone _ _ _ _ _ (cq_rows _ _ _ _ _ _ _ (Hq p' Hp'))); [by apply Hc|done].
  - intros Hc. split; [|by apply (cq_GetQueryIDs _ _ _ _ _ _ _ (Hq p Hp)), Hc].
    eapply entries_sub; [|done]. intros k v. cbn [cc_GetQueryIDs local_CacheClient]. rewrite local_op_1. apply GetQueryIDs_sub.
  - intros Hc p' Hp'. destruct (same_query p' p Hp' Hp) as [->|Hne]; [by apply (cq_SetQueryIDs _ _ _ _ _ _ _ (Hq p Hp)), Hc|].
    unfold local_ok. cbn [cc_SetQueryIDs local_CacheClient]. rewrite local_op_1. unfold SetQueryIDs. cbn [fst].
    apply store_right_expiration, store_right_insert; [|by apply Hc]. apply (entry_right_other _ _ p); auto.
  - intros Hc. split; [|by apply (cq_Get _ _ _ _ _ _ _ (Hq p Hp)), Hc].
    eapply entries_sub; [|done]. intros k v. cbn [cc_Get local_CacheClient]. rewrite local_op_1. apply Get_sub.
  - intros Hc p' Hp'. destruct (same_query p' p Hp' Hp) as [->|Hne]; [by apply (cq_Set _ _ _ _ _ _ _ (Hq p Hp)), Hc|].
    unfold local_ok. cbn [cc_Set local_CacheClient]. rewrite local_op_1.
    apply Set_right; [apply (entry_right_other _ _ p); auto|by apply Hc].
  - intros Hc. eapply entries_sub; [|done]. intros k v. cbn [cc_Delete local_CacheClient]. rewrite local_op_1.
    simpl. by intros [_ ?]%lookup_delete_Some.
Qed.

(** ** Reads keep track *)

Lemma Set_entries now k s m :
  (∀ k' v, store (Set_ now k s ttl m).1 !! k' = Some v → store m !! k' = Some v ∨ k' = k) ∧
  lockPool (Set_ now k s ttl m).1 = lockPool m.
Proof.
  assert (Hins : ∀ m', store m' = store m → lockPool m' = lockPool m →
    (∀ k' v, store (set_expiration now k ttl (with_store (insert k (PString s)) m')) !! k' = Some v → store m !! k' = Some v ∨ k' = k) ∧
    lockPool (set_expiration now k ttl (with_store (insert k (PString s)) m')) = lockPool m).
  { intros m' Es El. rewrite locks_set_expiration. split; [|done]. intros k' v. rewrite store_set_expiration, lookup_with_store, Es.
    case_decide; auto. }
  unfold Set_. cbn zeta. destruct (s =? NoneResult)%string; [|by apply Hins].
  destruct (store _ !! k) as [[s'|]|]; [destruct (s' =? NoneResult)%string; [by split; auto|]|..]; by apply Hins.
Qed.

Lemma tracked_quiet c c' idx : quiet info c c' → tracked c idx → tracked c' idx.
Proof.
  intros [Hs Hl He] [T1 T2 T3 T4]. split; try done.
  - intros p k Hp Hk [v Hv]. apply (T1 p k); [done..|]. destruct (Hs _ _ Hv) as [?|[id ->]]; [by eexists|].
    by destruct (model_not_query id (model_key info id) p Hk).
  - intros k v Hk Hv. destruct (Hs _ _ Hv) as [?|[id ->]]; [by eapply T4|].
    pose proof (model_key_plain id) as Hp. unfold query_key in Hp. by rewrite Hk in Hp.
Qed.

Lemma unlocked_same c c' : lockPool (lc c') = lockPool (lc c) → lc_env c' = lc_env c → unlocked c → unlocked c'.
Proof. intros Hl He [U1 U2 U3]. split; unfold held in *; rewrite ?Hl, ?He; done. Qed.

(** An entry of a query is written, and its key is registered. *)
Lemma tracked_write p k c c' idx :
  queries p → k = list_key info p ∨ k = count_key info p →
  (∀ k' v, store (lc c') !! k' = Some v → store (lc c) !! k' = Some v ∨
     (k' = k ∧ (is_list_key k = true → ∃ ids, v = PBytes (GobIDs ids)))) →
  tracked c idx → tracked c' (RegisterQuery (TableName info) k p idx).
Proof.
  intros Hp Hk Hs [T1 T2 T3 T4].
  assert (keyToParams (RegisterQuery (TableName info) k p idx) = <[k := p]> (keyToParams idx)) as Hreg.
  { apply keyToParams_register; [apply Hmodel|]. by destruct Hk as [-> | ->]. }
  split; try done.
  - intros p' k' Hp' Hk' [v Hv]. rewrite Hreg. destruct (decide (k' = k)) as [->|Hne].
    + rewrite lookup_insert_eq. f_equal. destruct Hk as [E|E], Hk' as [E'|E']; rewrite E in E'; [|by apply list_not_count in E'|by apply eq_sym, list_not_count in E'|].
      * by apply (qo_list_key Hqueries).
      * by apply (qo_count_key Hqueries).
    + rewrite lookup_insert_ne by done. apply (T1 p' k'); [done..|].
      destruct (Hs _ _ Hv) as [?|[? _]]; [by eexists|done].
  - intros k' p'. rewrite Hreg, lookup_insert_Some. intros [[<- <-]|[_ ?]]; [done|by apply T2].
  - by apply reach_register.
  - intros k' v Hk' Hv. destruct (Hs _ _ Hv) as [?|[-> Hty]]; [by eapply T4|by apply Hty].
Qed.

Lemma tracked_step p (w w' : lworld) :
  queries p → read_step info ttl p w w' → tracked (w_cache w) (w_index w) → tracked (w_cache w') (w_index w').
Proof.
  intros Hp Hst Ht. destruct Hst as [w w' [-> ->]|w c Hq|w ids|w n]; [done|by eapply tracked_quiet|..].
  - unfold register, on_index, on_cache. cbn [cc_SetQueryIDs local_CacheClient]. unfold local_op, SetQueryIDs. cbn [w_cache w_index fst].
    apply (tracked_write p _ (w_cache w)); [done|by left| |done]. cbn [lc].
    intros k v. rewrite store_set_expiration. cbn [with_store store]. rewrite lookup_insert.
    case_decide; [subst; intros [= <-]; right; eauto|by left].
  - unfold store_count, register, on_index, on_cache. cbn [cc_Set local_CacheClient]. unfold local_op.
    pose proof (Set_entries (es_now (env_now (w_cache w))) (count_key info p) (FormatInt n) (lc (w_cache w))) as [Hs _].
    destruct (Set_ _ _ _ _ _) as [m r]. cbn [w_cache w_index fst lc] in *.
    apply (tracked_write p _ (w_cache w)); [done|by right| |done]. cbn [lc].
    intros k v [Hv| ->]%Hs; [by left|right]. by split.
Qed.

Lemma tracked_reads p (w w' : lworld) :
  queries p → reads info ttl p w w' → tracked (w_cache w) (w_index w) → tracked (w_cache w') (w_index w').
Proof. intros Hp R. induction R; eauto using tracked_step. Qed.

Lemma unlocked_reads p (w w' : lworld) : reads info ttl p w w' → unlocked (w_cache w) → unlocked (w_cache w').
Proof.
  intros R. induction R as [|w w1 w2 Hst _ IH]; [done|]. intros Hu. apply IH. revert Hu.
  destruct Hst as [w w' [-> _]|w c [_ Hl He]|w ids|w n]; [done|by apply unlocked_same|..].
  - unfold register, on_index, on_cache. cbn [cc_SetQueryIDs local_CacheClient]. unfold local_op, SetQueryIDs. cbn [w_cache fst].
    apply unlocked_same; [|done]. cbn [lc]. by rewrite locks_set_expiration.
  - unfold store_count, register, on_index, on_cache. cbn [cc_Set local_CacheClient]. unfold local_op.
    destruct (Set_entries (es_now (env_now (w_cache w))) (count_key info p) (FormatInt n) (lc (w_cache w))) as [_ Hl].
    destruct (Set_ _ _ _ _ _) as [m r]. by apply unlocked_same.
Qed.
End coherence.
