(* ===== verification/CoherenceFacts.v ===== *)
(** * The cache stays coherent: reads, writes and runs

    A read keeps the invariant and answers from the table; a write moves it to
    the new table, because every entry the write makes wrong is registered, so
    that the invalidation removes it, and every entry it leaves has the same
    answer as before. *)

From S2P Require Import Prelude GoStrings GoStringsFacts GoValues GoValuesFacts Predicate QueryMatch QueryMatchFacts.
From S2P Require Import CacheIndex CacheIndexFacts Metadata LocalCache CacheClient LocalCacheFacts.
From S2P Require Import Invalidate InvalidateFacts MetadataFacts Freshness SqlBuilder Hooks Crud CrudFacts.
From S2P Require Import WriteFacts Query QueryFacts LocalQuery Coherence.

Open Scope string_scope.

Section facts.
Context `{GoPlatform} `{Gob} `{ModelOps} `{QueryEnv} {D : Type} `{DBAdapter D}.
Context (typeName : string) (mm : model_methods) (fs : list sfield).
Context (info : ModelInfo) (zero : gostruct) (ttl : Z) (reg : registry).
Context (queries : QueryParams → Prop) (db_ok : gmap Z gostruct → D → Prop).
Context (answer : QueryParams → gmap Z gostruct → list Z).
Notation lworld := (world local_client D).
Notation row_ok := (row_ok fs info zero).
Notation rows_ok := (rows_ok fs info zero).
Notation selected := (selected info).
Notation entries_right := (entries_right info queries answer).
Notation tracked := (tracked info queries).
Notation coherent := (coherent fs info zero queries db_ok answer).
Implicit Types (rows : gmap Z gostruct) (p : QueryParams) (w : lworld).

Context (Hmodel : model_ok typeName mm fs info) (Hqueries : queries_ok fs info queries).
Context (Hdb : database_ok fs info zero queries db_ok answer).

(** ** Reads *)

Lemma row_of_rows rows id : rows_ok rows → row_of rows id = rows !! id.
Proof.
  intros [Hr _]. unfold row_of. destruct (rows !! id) as [r|] eqn:E; [|done].
  destruct (Hr _ _ E) as (_&Hs&_). simpl. by rewrite Hs.
Qed.

Lemma family_default_query rows p : queries p → rows_ok rows → default_query info rows p (answer p rows).
Proof.
  intros Hp Hrows. split; [apply Hmodel|by apply (qo_visible _ _ _ Hqueries)|].
  intros id (r&Hr&_&Hk)%(do_elem _ _ _ _ _ _ Hdb); [|done..]. exists r. by rewrite row_of_rows.
Qed.

(** What a read leaves is coherent when its entries are and it kept track. *)
Lemma coherent_reads p rows w w' : queries p → coherent rows w →
  reads info ttl p w w' → world_ok (db_ok rows) (entries_right rows) w' → coherent rows w'.
Proof.
  intros Hp [Hr Hd He Ht Hu] R [Hd' He']. split; [done..| |].
  - eapply tracked_reads; eauto.
  - by eapply unlocked_reads.
Qed.

Lemma coherent_Fetch p off lim rows w : queries p → coherent rows w →
  let a := Fetch info zero ttl (Query p) (Z.of_nat off) (Z.of_nat lim) w in
  coherent rows a.1.1 ∧ a.2 = Some (Ok (page rows (take lim (drop off (answer p rows))))).
Proof.
  intros Hp Hc. pose proof (reads_Fetch info zero ttl p (Query p) (Z.of_nat off) (Z.of_nat lim) w eq_refl) as R.
  destruct (Fetch_page_lemma info zero ttl rows (db_ok rows) (entries_right rows) p (answer p rows)
    (do_reads _ _ _ _ _ _ Hdb rows p Hp (co_rows _ _ _ _ _ _ _ _ Hc))
    (family_caches_query typeName mm fs info zero ttl queries answer Hmodel Hqueries rows p (co_rows _ _ _ _ _ _ _ _ Hc) Hp)
    (family_default_query rows p Hp (co_rows _ _ _ _ _ _ _ _ Hc)) (Query p) off lim w)
    as (w'&cr'&Heq&Hw'&_); [split; apply Hc|apply Query_ok|].
  cbv zeta. rewrite Heq in *. split; [|done]. by eapply coherent_reads.
Qed.

Lemma coherent_Count p rows w : queries p → coherent rows w →
  let a := Count info ttl (Query p) w in
  coherent rows a.1.1 ∧ a.2 = Ok (Z.of_nat (length (answer p rows))).
Proof.
  intros Hp Hc. destruct (reads_Count info ttl p (Query p) w eq_refl) as [R _].
  destruct (Count_ok info zero ttl rows (db_ok rows) (entries_right rows) p (answer p rows)
    (do_reads _ _ _ _ _ _ Hdb rows p Hp (co_rows _ _ _ _ _ _ _ _ Hc))
    (family_caches_query typeName mm fs info zero ttl queries answer Hmodel Hqueries rows p (co_rows _ _ _ _ _ _ _ _ Hc) Hp)
    (Query p) w) as (w'&cr'&Heq&Hw'&_); [split; apply Hc|apply Query_ok|].
  cbv zeta. rewrite Heq in *. split; [|done]. by eapply coherent_reads.
Qed.

Lemma coherent_ByIDs ids rows w : coherent rows w →
  let a := ByIDs info zero ttl ids w in
  coherent rows a.1 ∧ ∃ found, a.2 = Ok found ∧ ∀ id, id ∈ ids → found !! id = rows !! id.
Proof.
  intros Hc. destruct (qo_some _ _ _ Hqueries) as [p Hp]. pose proof (co_rows _ _ _ _ _ _ _ _ Hc) as Hrows.
  pose proof (do_reads _ _ _ _ _ _ Hdb rows p Hp Hrows) as Hans.
  destruct (ByIDs_ok info zero ttl rows (db_ok rows) (entries_right rows)
    (cq_rows _ _ _ _ _ _ _ (family_caches_query typeName mm fs info zero ttl queries answer Hmodel Hqueries rows p Hrows Hp))
    (da_rows _ _ _ _ _ Hans) (da_keyed _ _ _ _ _ Hans) ids w) as (Hw&found&Heq&Hf); [split; apply Hc|].
  cbv zeta. split.
  - eapply coherent_reads; [exact Hp|exact Hc|apply reads_ByIDs|exact Hw].
  - exists found. split; [done|]. intros id Hid. by rewrite Hf, row_of_rows.
Qed.

Lemma coherent_byID id rows w : (0 < id)%Z → coherent rows w →
  let a := byIDInternal info zero ttl id w in
  coherent rows a.1 ∧ a.2 = match rows !! id with Some r => Ok r | None => Err ErrNotFound end.
Proof.
  intros Hid Hc. unfold byIDInternal. destruct (Z.leb_spec id 0); [lia|].
  destruct (coherent_ByIDs [id] rows w Hc) as (Hw&found&Hf&Hl). unfold ByIDs in *.
  destruct (fetchModelsByIDsInternal info zero ttl [id] w) as [w1 r]. simpl in *. subst r. split; [done|].
  simpl. rewrite Hl by left. done.
Qed.

(** ** What a write does to the table *)

(** The queries of the family match the two values alike.  Values with the same
    columns do ([checks_columns]). *)
Definition seen_alike (value r : gostruct) : Prop :=
  ∀ p, queries p → pred_of p ≠ None → checks info p value = checks info p r.

Inductive write_effect rows : write_kind → gostruct → gmap Z gostruct → Prop :=
  | we_create model : rows !! GetID model = None →
      write_effect rows Created model (<[GetID model := model]> rows)
  | we_update model r : rows !! GetID model = Some r → KeepItem r = true →
      write_effect rows (Updated r) model (<[GetID model := model]> rows)
  | we_delete model r : rows !! GetID model = Some r →
      seen_alike model r →
      write_effect rows Deleted model (delete (GetID model) rows).

Lemma effect_other rows wk model rows' id :
  write_effect rows wk model rows' → id ≠ GetID model → rows' !! id = rows !! id.
Proof. intros [] Hne; by rewrite ?lookup_insert_ne, ?lookup_delete_ne by done. Qed.

Lemma checks_Ok p r : queries p → has_type r fs → ∃ b, checks info p r = Ok b.
Proof.
  intros Hp Hr. pose proof (qo_checks _ _ _ Hqueries p r Hp Hr) as Hc.
  destruct (checks info p r) as [b| |]; [by exists b|done..].
Qed.

(** Rows that agree on the columns of the model are selected alike. *)
Lemma checks_columns r r' :
  (∀ c, c ∈ columns_of info → same_column r r' (ColumnToFieldMap info) c) → seen_alike r r'.
Proof.
  intros Hc p Hp Hpred. destruct (pred_of p) as [q|] eqn:Hq; [|done]. apply (checks_frame _ _ q); [done|].
  intros c Hin. apply Hc. destruct (qo_known _ _ _ Hqueries p Hp) as [[_ Hk] _]. by apply (Hk q).
Qed.

(** The row that is written is selected before and after, or neither, when the
    write does not affect the query. *)
Lemma unaffected_row p k wk model rows rows' :
  queries p → write_effect rows wk model rows' → has_type model fs → rows_ok rows →
  ¬ affected info model k p wk →
  match wk with
  | Created => checks info p model = Ok false
  | Deleted => ∃ r, rows !! GetID model = Some r ∧ checks info p r = Ok false
  | Updated r => rows !! GetID model = Some r ∧ KeepItem r = true ∧ KeepItem model = true ∧
                 checks info p model = checks info p r
  end.
Proof.
  intros Hp He Ht [Hrows _] Hn. destruct (checks_Ok p model Hp Ht) as [b Hb].
  destruct He as [model Hid|model r Hid Hk|model r Hid Hcols].
  - rewrite Hb. destruct b; [|done]. destruct Hn. apply aff_created. congruence.
  - destruct (Hrows _ _ Hid) as [Hr _]. destruct (checks_Ok p r Hp Hr) as [b' Hb'].
    split; [done|]. split; [done|]. split.
    + destruct (KeepItem model) eqn:Km; [done|]. destruct Hn. by apply aff_hidden.
    + rewrite Hb, Hb'. destruct b, b'; try done; destruct Hn; apply aff_match; congruence.
  - exists r. split; [done|]. rewrite <-(Hcols p Hp), Hb.
    + destruct b; [|done]. destruct Hn. apply aff_deleted. congruence.
    + intros Hpred. destruct Hn. by apply aff_unparsed.
Qed.

Lemma unaffected_selected p k wk model rows rows' :
  queries p → write_effect rows wk model rows' → has_type model fs → rows_ok rows →
  ¬ affected info model k p wk → ∀ id, selected p rows id ↔ selected p rows' id.
Proof.
  intros Hp He Ht Hrows Hn id. unfold Coherence.selected.
  destruct (decide (id = GetID model)) as [->|Hne]; [|by rewrite (effect_other _ _ _ _ _ He Hne)].
  pose proof (unaffected_row p k wk model rows rows' Hp He Ht Hrows Hn) as Hr.
  destruct He as [model Hid|model r Hid Hk|model r Hid Hcols].
  - rewrite Hid, lookup_insert_eq. split; [by intros (?&?&_)|]. intros (r&[= <-]&?&_). congruence.
  - destruct Hr as (_&_&Hkm&Hc). rewrite Hid, lookup_insert_eq. split.
    + intros (r'&[= <-]&Hs&_). exists model. split_and!; [done|congruence|done].
    + intros (r'&[= <-]&Hs&_). exists r. split_and!; [done|congruence|done].
  - destruct Hr as (r'&Hr'&Hc). rewrite lookup_delete_eq. split; [|by intros (?&?&_)].
    intros (r''&Hr''&Hs&_). simplify_eq. congruence.
Qed.

Lemma same_column_sym m m' c :
  same_column m m' (ColumnToFieldMap info) c → same_column m' m (ColumnToFieldMap info) c.
Proof.
  unfold same_column. destruct (column_value m _ c), (column_value m' _ c); try done. apply deep_equal_sym.
Qed.

(** An update that moves no order column keeps the order. *)
Lemma unaffected_order p model r :
  checks info p model = Ok true → checks info p r = Ok true →
  ¬ affected info model (list_key info p) p (Updated r) → same_order info p r model.
Proof.
  intros Hm Hr Hn. right. intros c Hc. apply same_column_sym.
  destruct (decide (same_column model r (ColumnToFieldMap info) c)) as [|Hd]; [done|]. destruct Hn. by eapply aff_order.
Qed.

Lemma unaffected_list p wk model rows rows' :
  queries p → write_effect rows wk model rows' → has_type model fs → rows_ok rows → rows_ok rows' →
  ¬ affected info model (list_key info p) p wk → answer p rows = answer p rows'.
Proof.
  intros Hp He Ht Hrows Hrows' Hn. pose proof (unaffected_selected _ _ _ _ _ _ Hp He Ht Hrows Hn) as Hsel.
  apply (do_order _ _ _ _ _ _ Hdb); [done..|]. intros id r r' Hr Hr' Hs.
  destruct (decide (id = GetID model)) as [->|Hne].
  2: { rewrite (effect_other _ _ _ _ _ He Hne), Hr in Hr'. left. congruence. }
  pose proof (unaffected_row _ _ _ _ _ _ Hp He Ht Hrows Hn) as Hrow.
  destruct He as [model Hid|model r0 Hid Hk|model r0 Hid Hcols]; [congruence| |by rewrite lookup_delete_eq in Hr'].
  rewrite lookup_insert_eq in Hr'. simplify_eq. destruct Hrow as (_&_&Hkm&Hc).
  destruct Hs as (r1&?&Hs&_). simplify_eq. apply unaffected_order; [congruence|done|done].
Qed.

Lemma unaffected_count p wk model rows rows' :
  queries p → write_effect rows wk model rows' → has_type model fs → rows_ok rows → rows_ok rows' →
  ¬ affected info model (count_key info p) p wk → length (answer p rows) = length (answer p rows').
Proof.
  intros Hp He Ht Hrows Hrows' Hn. apply Permutation_length, NoDup_Permutation; [by apply (do_nodup _ _ _ _ _ _ Hdb)..|].
  intros id. rewrite !(do_elem _ _ _ _ _ _ Hdb) by done. by eapply unaffected_selected.
Qed.

(** ** The invalidation after a write *)

Lemma write_setting rows wk model rows' w :
  write_effect rows wk model rows' → has_type model fs → GetID model ≠ 0%Z → rows_ok rows →
  tracked (w_cache w) (w_index w) → local_setting (λ _, TableName info) typeName mm fs info model wk w.
Proof.
  intros He Ht Hid [Hrows _] Htr. destruct Hmodel as [Hsimple Hnames Hinfo Hcols _ _ _].
  assert (∀ o, wk = Updated o → has_type o fs) as Ho.
  { intros o ->. inversion He as [|? ? Hr|]; subst. by apply (Hrows _ _ Hr). }
  split; try done; try apply Htr.
  intros k p [Hp _]%(tr_known _ _ _ _ Htr) _ m msg Hm Hc.
  assert (has_type m fs) as Htm.
  { destruct wk as [| |o]; simpl in Hm; apply elem_of_cons in Hm as [->|Hm]; try done; [by apply elem_of_nil in Hm..|].
    apply list_elem_of_singleton in Hm as ->. by apply Ho. }
  destruct (checks_Ok p m Hp Htm). congruence.
Qed.

Lemma shrinks_invalidate model original isCreate isDelete w :
  let w' := (invalidateAffectedQueryCaches info model original isCreate isDelete w).1 in
  shrinks (w_cache w) (w_cache w') ∧ w_index w' = w_index w ∧ w_db w' = w_db w.
Proof.
  unfold invalidateAffectedQueryCaches. destruct (_ =? 0)%Z; [split; [constructor|done]|].
  destruct (changedModelColumns info model original) as [changed| |],
    (field_values (CompareFields info) model) as [values| |]; try (split; [constructor|done]).
  unfold on_cache, process_candidates. cbv zeta.
  match goal with |- context [gather ?i ?x ?k ?c] =>
    pose proof (shrinks_gather i x k c) as Hg; destruct (gather i x k c) as [c1 [tasks| |]] end; [|done..].
  cbn [fst w_cache w_index w_db] in *. split; [|done]. eapply shrinks_trans; [exact Hg|]. unfold run_tasks.
  pose proof (shrinks_reads tasks ∅ c1) as Hr. destruct (read_lists tasks ∅ c1) as [c2 reads0].
  eapply shrinks_trans; [exact Hr|apply shrinks_writes].
Qed.

Lemma quiet_shrinks (c c' : local_client) : shrinks c c' → quiet info c c'.
Proof.
  induction 1 as [c|c c' k _ IH|c c' k _ IH]; [apply quiet_refl|..]; (eapply quiet_trans; [exact IH|]);
    [apply quiet_Delete|apply quiet_GetQueryIDs].
Qed.

(** Before the invalidation the entries of queries are those of the old table,
    and the entries of records those of the new one. *)
Record half_written rows rows' w : Prop := {
  hw_queries p k v : queries p → k = list_key info p ∨ k = count_key info p →
    store (lc (w_cache w)) !! k = Some v → entry_right info rows p (answer p rows) k v;
  hw_records id v : store (lc (w_cache w)) !! model_key info id = Some v →
    match v with
    | PBytes (GobMap d) => ∃ r, rows' !! id = Some r ∧ d = model_data (setNewRecordFlagIfBaseModel false r) (Fields_ info)
    | _ => True
    end;
  hw_tracked : tracked (w_cache w) (w_index w)
}.

(** A query whose entry survives the invalidation is not affected: its entry is
    registered, and a list the row enters does not have its id. *)
Lemma survivor_unaffected rows wk model rows' changed w p k v :
  half_written rows rows' w → write_effect rows wk model rows' → has_type model fs → GetID model ≠ 0%Z → rows_ok rows →
  changedModelColumns info model (wk_original model wk) = Ok changed →
  queries p → k = list_key info p ∨ k = count_key info p →
  store (lc (w_cache (invalidate info model wk w).1)) !! k = Some v → ¬ affected info model k p wk.
Proof.
  intros Hw He Ht Hid Hrows Hch Hp Hk Hv Haff.
  destruct (shrinks_invalidate model (wk_original model wk) (wk_create wk) (wk_delete wk) w) as [Hsh _].
  pose proof (local_shrinks_store _ _ k v Hsh Hv) as Hv2.
  pose proof (tr_registered _ _ _ _ (hw_tracked _ _ _ Hw) p k Hp Hk (mk_is_Some _ _ Hv2)) as Hreg.
  destruct (local_invalidation_lemma (λ _, TableName info) typeName mm fs info model wk w k p changed)
    as [_ [Hn|[(Hl&Hent&ids&Hst&Hin)|[Hr _]]]]; [by eapply write_setting; eauto; apply Hw|done|done| | |done|done|congruence| |].
  { destruct Hk as [-> | ->]; [by left|by right]. }
  { destruct (qo_known _ _ _ Hqueries p Hp) as [Hcl Hord]. split; [done|]. destruct wk; [done..|]. destruct Hk as [-> | ->]; [by intros _|done]. }
  2: { destruct He as [| model r0 Hr0 Hkeep|]; [done| |done]. destruct Hr. congruence. }
  rewrite Hv2 in Hst. injection Hst as ->. destruct Hk as [-> | ->]; [|done].
  pose proof (er_list _ _ _ _ _ _ (hw_queries _ _ _ Hw p (list_key info p) _ Hp (or_introl eq_refl) Hv2) eq_refl) as [= ->].
  unfold cached_list_of in Hin. assert (GetID model ∈ answer p rows) as Hi.
  { rewrite <-(take_drop cacheListCountLimit (answer p rows)). apply elem_of_app. by left. }
  apply (do_elem _ _ _ _ _ _ Hdb) in Hi as (r&Hr&Hc&_); [|done..]. destruct Hent as (_&_&Hwk).
  destruct He as [model Hnone|model r0 Hr0 _|]; [congruence| |done]. congruence.
Qed.

Lemma invalidated rows wk model rows' w :
  half_written rows rows' w → write_effect rows wk model rows' → has_type model fs → GetID model ≠ 0%Z →
  rows_ok rows → rows_ok rows' →
  let w' := (invalidate info model wk w).1 in
  (invalidate info model wk w).2 = Ok () ∧ entries_right rows' (w_cache w') ∧
  tracked (w_cache w') (w_index w') ∧ w_db w' = w_db w ∧ quiet info (w_cache w) (w_cache w').
Proof.
  intros Hw He Ht Hid Hrows Hrows' w'.
  destruct (shrinks_invalidate model (wk_original model wk) (wk_create wk) (wk_delete wk) w) as (Hsh&Hi&Hd).
  pose proof (write_setting rows wk model rows' w He Ht Hid Hrows (hw_tracked _ _ _ Hw)) as Hset.
  destruct (invalidate_unfold _ info model wk w (local_inv_setting _ _ _ _ _ _ _ _ Hset)) as (changed&values&Hch&_&c&tasks&_&Hrun).
  split; [by rewrite Hrun|]. split; [|split; [|split; [done|by apply quiet_shrinks]]].
  - intros p Hp k v Hv. pose proof (local_shrinks_store _ _ k v Hsh Hv) as Hv2.
    pose proof (survivor_unaffected rows wk model rows' changed w p k v Hw He Ht Hid Hrows Hch Hp) as Hun. split.
    + intros id ->. by apply (hw_records _ _ _ Hw).
    + intros ->. rewrite (er_list _ _ _ _ _ _ (hw_queries _ _ _ Hw p _ v Hp (or_introl eq_refl) Hv2) eq_refl).
      unfold cached_list_of. by rewrite (unaffected_list p wk model rows rows') by auto.
    + intros x n -> -> Hn. rewrite (er_count _ _ _ _ _ _ (hw_queries _ _ _ Hw p _ _ Hp (or_intror eq_refl) Hv2) x n eq_refl eq_refl Hn).
      f_equal. apply (unaffected_count p wk model); auto.
  - unfold w', invalidate. rewrite Hi. eapply tracked_quiet; [done|by apply quiet_shrinks|apply Hw].
Qed.

(** ** Locks *)

Lemma local_acquire_locks k d e m : ¬ held m k → (∀ x, es_branch e ≠ OnCancel x) → es_branch e ≠ OnTimeout →
  lockPool (local_acquire k d e m).1 = <[k := true]> (lockPool m).
Proof.
  unfold held, local_acquire, AcquireLock, getLock. simpl. intros Hh Hc Ht.
  destruct (lockPool m !! k) as [[]|] eqn:E; [done|..]; destruct (es_branch e) as [| |x|]; simpl; try done;
    try (by destruct (Hc x)); by rewrite ?insert_insert_eq.
Qed.

Lemma local_release_locks k e m : held m k → (∀ x, es_branch e ≠ OnCancel x) →
  lockPool (local_release k e m).1 = <[k := false]> (lockPool m).
Proof.
  unfold held, local_release, ReleaseLock, getLock. simpl. intros Hh Hc. rewrite Hh.
  destruct (es_branch e) as [| |x|]; simpl; try done. by destruct (Hc x).
Qed.

(** A free lock is taken for the action and free again after it. *)
Lemma WithLock_locks key (action : lworld → lworld * result unit) w :
  ¬ held (lc (w_cache w)) key → (∀ n e, es_branch (lc_env (w_cache w) n) ≠ OnCancel e) →
  (∀ n, es_branch (lc_env (w_cache w) n) ≠ OnTimeout) →
  (∀ w1, lockPool (lc (w_cache (action w1).1)) = lockPool (lc (w_cache w1)) ∧
         lc_env (w_cache (action w1).1) = lc_env (w_cache w1)) →
  lockPool (lc (w_cache (WithLock key action w).1)) = <[key := false]> (lockPool (lc (w_cache w))).
Proof.
  intros Hh Hc Ht Ha. unfold WithLock, on_cache.
  assert (Hacq : lockPool (lc (acquire_loop LockMaxRetries key (w_cache w)).1) = <[key := true]> (lockPool (lc (w_cache w))) ∧
    lc_env (acquire_loop LockMaxRetries key (w_cache w)).1 = lc_env (w_cache w)).
  { split; [|apply (same_client_loop LockMaxRetries key (w_cache w))].
    unfold LockMaxRetries. cbn [acquire_loop cc_AcquireLock local_CacheClient].
    destruct (local_acquire_free key LockDuration (env_now (w_cache w)) (lc (w_cache w))) as [Hr _]; [done|apply Hc|apply Ht|].
    pose proof (local_acquire_locks key LockDuration (env_now (w_cache w)) (lc (w_cache w)) Hh (Hc _) (Ht _)) as Hl.
    unfold local_op. destruct (local_acquire _ _ _ _) as [m r]. simpl in *. by subst r. }
  pose proof (acquire_loop_free key (w_cache w) Hh (Hc _) (Ht _)) as Hok.
  destruct (acquire_loop LockMaxRetries key (w_cache w)) as [c1 r1]. simpl in Hok, Hacq. subst r1. destruct Hacq as [Hl1 He1].
  specialize (Ha (MkWorld c1 (w_index w) (w_db w))). destruct (action _) as [w2 r2]. simpl in Ha. destruct Ha as [Hl2 He2].
  cbn [cc_ReleaseLock local_CacheClient]. unfold local_op.
  pose proof (local_release_locks key (env_now (w_cache w2)) (lc (w_cache w2))) as Hrel.
  destruct (local_release key (env_now (w_cache w2)) (lc (w_cache w2))) as [m3 r3]. simpl in *.
  rewrite Hrel, Hl2, Hl1, insert_insert_eq; [done| |].
  - unfold held. by rewrite Hl2, Hl1, lookup_insert_eq.
  - intros x. unfold env_now. rewrite He2, He1. apply Hc.
Qed.

(** An action under a lock that writes only entries of records keeps track. *)
Lemma tracked_WithLock key (action : lworld → lworld * result unit) w :
  (∀ w1, quiet info (w_cache w1) (w_cache (action w1).1) ∧ w_index (action w1).1 = w_index w1) →
  tracked (w_cache w) (w_index w) →
  tracked (w_cache (WithLock key action w).1) (w_index (WithLock key action w).1).
Proof.
  intros Ha [T1 T2 T3 T4].
  assert (Hq : w_index (WithLock key action w).1 = w_index w ∧
    ∀ k v, store (lc (w_cache (WithLock key action w).1)) !! k = Some v →
      store (lc (w_cache w)) !! k = Some v ∨ ∃ id, k = model_key info id).
  { destruct (WithLock_cases key action w) as [(Hs&_&_)|(w1&Hs1&_&Hs2)].
    - split; [apply Hs|]. intros k v. rewrite (se_store _ _ Hs). by left.
    - destruct (Ha w1) as [[Hst _ _] Hix]. split; [by rewrite (se_index _ _ Hs2), Hix, (se_index _ _ Hs1)|].
      intros k v. rewrite (se_store _ _ Hs2), <-(se_store _ _ Hs1). apply Hst. }
  destruct Hq as [-> Hst]. split; [|done|done|].
  - intros p k Hp Hk [v Hv]. apply (T1 p k); [done..|]. destruct (Hst _ _ Hv) as [?|[id ->]]; [by eexists|].
    by destruct (model_not_query _ _ _ _ Hmodel id (model_key info id) p Hk).
  - intros k v Hk Hv. destruct (Hst _ _ Hv) as [?|[id ->]]; [by eapply T4|].
    pose proof (model_key_plain _ _ _ _ Hmodel id) as Hp. unfold query_key in Hp. by rewrite Hk in Hp.
Qed.

Lemma unlocked_WithLock key (action : lworld → lworld * result unit) w :
  (∀ w1, quiet info (w_cache w1) (w_cache (action w1).1)) →
  unlocked (w_cache w) → unlocked (w_cache (WithLock key action w).1).
Proof.
  intros Ha Hu.
  assert (Hl : lockPool (lc (w_cache (WithLock key action w).1)) = <[key := false]> (lockPool (lc (w_cache w)))).
  { apply WithLock_locks; [apply Hu..|]. intros w1. by destruct (Ha w1). }
  assert (Hev : lc_env (w_cache (WithLock key action w).1) = lc_env (w_cache w)).
  { destruct (WithLock_cases key action w) as [(Hs&_&_)|(w1&Hs1&_&Hs2)]; [apply Hs|].
    destruct (Ha w1) as [_ _ Hev]. by rewrite (se_env _ _ Hs2), Hev, (se_env _ _ Hs1). }
  split; rewrite ?Hev; try apply Hu. intros k. unfold held. rewrite Hl, lookup_insert. case_decide; [done|apply Hu].
Qed.

(** ** [Save] *)

(** A save reads the original by id, if at all, and runs one statement. *)
Lemma save_shape now value w w1 mu r :
  saveWithExecutor info zero ttl reg now value false w = (w1, mu, r) →
  ∃ wr, (wr = w ∨ wr = (byIDInternal info zero ttl (GetID value) w).1) ∧ same_cache wr w1 ∧
  (r = Ok () → mu_applied mu = true → mu_isNew mu = false →
     mu_original mu = Some match (byIDInternal info zero ttl (GetID value) w).2 with Ok o => o | _ => zero end).
Proof.
  unfold saveWithExecutor, save_create, save_update. cbv zeta.
  destruct (triggerEvent reg "BeforeSave" _) as [m1 [e|]]; [intros [= <- <- <-]; exists w; (split; [by left|by split])|].
  destruct (_ =? 0)%Z.
  - destruct (triggerEvent reg "BeforeCreate" _) as [m2 [e|]]; [intros [= <- <- <-]; exists w; (split; [by left|by split])|].
    destruct (bool_decide _); [intros [= <- <- <-]; exists w; (split; [by left|by split])|].
    match goal with |- context [on_db ?f w] => pose proof (same_cache_on_db f w) as Hs; destruct (on_db f w) as [w2 [res| |]] end;
      intros [= <- <- <-]; exists w; (split; [by left|by split]).
  - destruct (byIDInternal info zero ttl (GetID value) w) as [wr rr]. cbn [fst snd].
    assert (∀ (mu' : saveMutation) r', (wr, mu', r') = (w1, mu, r) → mu_applied mu' = false → ∃ wr0, (wr0 = w ∨ wr0 = wr) ∧ same_cache wr0 w1 ∧
      (r = Ok () → mu_applied mu = true → mu_isNew mu = false → mu_original mu = Some match rr with Ok o => o | _ => zero end)) as Hstop.
    { intros mu' r' [= <- <- <-] Hf. exists wr. split; [by right|]. split; [done|]. congruence. }
    destruct rr as [o|e|m]; [| |intros E; by eapply Hstop]; (destruct (FindChangedFieldsSimple _ _ _ _); [|intros E; by eapply Hstop..]);
      (destruct (decide _); [intros E; by eapply Hstop|]);
      (match goal with |- context [on_db ?f wr] => pose proof (same_cache_on_db f wr) as Hs; destruct (on_db f wr) as [w2 [res| |]] end;
       intros [= <- <- <-]; exists wr; (split; [by right|by split])).
Qed.

(** Up to its statement, a save reads. *)
Lemma save_reads now value rows w w1 mu r : coherent rows w →
  saveWithExecutor info zero ttl reg now value false w = (w1, mu, r) →
  entries_right rows (w_cache w1) ∧ tracked (w_cache w1) (w_index w1) ∧ unlocked (w_cache w1).
Proof.
  intros Hc Hs. destruct (save_shape _ _ _ _ _ _ Hs) as (wr&Hwr&[Hsc Hsi]&_). rewrite Hsc, Hsi.
  assert (coherent rows wr) as Hcr; [|split_and!; apply Hcr].
  destruct Hwr as [-> | ->]; [done|]. destruct (Z.leb_spec (GetID value) 0) as [Hz|Hz].
  - unfold byIDInternal. by destruct (Z.leb_spec (GetID value) 0); [|lia].
  - by apply coherent_byID.
Qed.

Lemma quiet_set_model id model w :
  quiet info (w_cache w) (w_cache (set_model_action info ttl (model_key info id) model w).1).
Proof.
  destruct (set_model_action_spec info ttl (model_key info id) model w) as (_&_&_&Hev&Hlc).
  split; [| |done]; rewrite Hlc.
  - intros k v Hv. destruct (decide (k = model_key info id)) as [->|Hne]; [right; by eexists|]. left.
    by rewrite store_SetModel_ne in Hv.
  - unfold SetModel. destruct (gob_map _); [|done]. cbn [fst]. by rewrite locks_set_expiration.
Qed.

(** The record's entry is written under its lock: the entries of queries are
    still those of the old table. *)
Lemma save_half_written rows model w1 :
  entries_right rows (w_cache w1) → tracked (w_cache w1) (w_index w1) → unlocked (w_cache w1) → row_ok model →
  let key := model_key info (GetID model) in
  half_written rows (<[GetID model := model]> rows) (WithLock (lock_key key) (set_model_action info ttl key model) w1).1.
Proof.
  intros He Ht Hu (_&Hflag&d&m&Hgob&_) key. destruct (qo_some _ _ _ Hqueries) as [p0 Hp0].
  destruct (save_entry_spec info ttl w1 model) as (_&_&_&Hoth). cbv zeta in Hoth. fold key in Hoth.
  destruct (save_entry_written info ttl w1 model) as (_&n&m0&Hst&_); [apply Hu..|]. cbv zeta in Hst. fold key in Hst. split.
  - intros p k v Hp Hk Hv. rewrite Hoth in Hv by (intros ->; by eapply (model_not_query _ _ _ _ Hmodel)). by apply He.
  - intros id v Hv. destruct (decide (id = GetID model)) as [->|Hne].
    + fold key in Hv. rewrite Hst in Hv. unfold SetModel in Hv. rewrite Hgob in Hv. cbn [fst] in Hv.
      rewrite store_set_expiration, lookup_with_store, decide_True in Hv by done. injection Hv as <-.
      exists model. by rewrite lookup_insert_eq, Hflag.
    + rewrite Hoth in Hv by (intros E; by apply model_key_inj in E). rewrite lookup_insert_ne by done.
      apply (er_model _ _ _ _ _ _ (He p0 Hp0 _ _ Hv) id eq_refl).
  - apply tracked_WithLock; [|done]. intros w2. split; [apply quiet_set_model|]. apply set_model_action_spec.
Qed.

Lemma rows_ok_insert rows model : rows_ok rows → row_ok model → GetID model ≠ 0%Z → rows_ok (<[GetID model := model]> rows).
Proof.
  intros [Hr Hk] Hm Hid. split; intros id r; rewrite lookup_insert_Some; intros [[<- <-]|[_ ?]]; eauto.
Qed.

(** The mutation as a write of the table. *)
Lemma save_effect now value rows w w1 mu : coherent rows w →
  saveWithExecutor info zero ttl reg now value false w = (w1, mu, Ok ()) → mu_applied mu = true →
  (mu_isNew mu = true → rows !! GetID (mu_value mu) = None) →
  (mu_isNew mu = false → (0 < GetID value)%Z ∧ GetID (mu_value mu) = GetID value ∧
     ∃ r, rows !! GetID value = Some r ∧ KeepItem r = true) →
  write_effect rows (wk_of mu) (mu_value mu) (<[GetID (mu_value mu) := mu_value mu]> rows).
Proof.
  intros Hc Hs Happ Hnew Hold. destruct (save_shape _ _ _ _ _ _ Hs) as (wr&_&_&Ho). unfold wk_of.
  destruct (mu_isNew mu); [by apply we_create, Hnew|]. destruct (Hold eq_refl) as (Hpos&Hid&r&Hr&Hk).
  rewrite Ho by done. destruct (coherent_byID (GetID value) rows w Hpos Hc) as [_ ->]. rewrite Hr. simpl.
  apply we_update; [by rewrite Hid|done].
Qed.

(** What the cache side of a world has of the invariant. *)
Record cached rows w : Prop := {
  ca_entries : entries_right rows (w_cache w);
  ca_tracked : tracked (w_cache w) (w_index w);
  ca_unlocked : unlocked (w_cache w)
}.

(** After the statement, the entry of the record is written and the queries the
    write affects are invalidated: the cache is that of the new table. *)
Lemma finalize_save_cached rows wk mu w : cached rows w → rows_ok rows →
  mu_applied mu = true → row_ok (mu_value mu) → GetID (mu_value mu) ≠ 0%Z →
  write_effect rows wk (mu_value mu) (<[GetID (mu_value mu) := mu_value mu]> rows) →
  mu_original mu = wk_original (mu_value mu) wk → mu_isNew mu = wk_create wk → wk_delete wk = false →
  let a := finalizeSave info ttl reg mu w in
  a.2 = Ok () ∧ cached (<[GetID (mu_value mu) := mu_value mu]> rows) a.1.1 ∧ w_db a.1.1 = w_db w.
Proof.
  intros [He Ht Hu] Hrows Happ Hrow Hid Heff Ho Hn Hdel.
  pose proof (save_half_written rows (mu_value mu) w He Ht Hu Hrow) as Hhw.
  pose proof (rows_ok_insert rows (mu_value mu) Hrows Hrow Hid) as Hrows'.
  unfold finalizeSave. rewrite Happ. cbn [negb]. cbv zeta in *.
  pose proof (save_entry_spec info ttl w (mu_value mu)) as (Hpan&_&Hd2&_). cbv zeta in *.
  pose proof (unlocked_WithLock (lock_key (model_key info (GetID (mu_value mu))))
    (set_model_action info ttl (model_key info (GetID (mu_value mu))) (mu_value mu)) w (quiet_set_model _ _) Hu) as Hu2.
  destruct (WithLock _ _ w) as [w2 r2]. cbn [fst snd] in *.
  destruct (invalidated rows wk (mu_value mu) _ w2 Hhw Heff (proj1 Hrow) Hid Hrows Hrows') as (Hok&He3&Ht3&Hd3&[_ Hl3 Hev3]).
  unfold invalidate in *. rewrite <-Ho, <-Hn, Hdel in *.
  destruct (invalidateAffectedQueryCaches _ _ _ _ _ w2) as [w3 r3]. cbn [fst snd] in *. subst r3.
  destruct r2 as [| |m]; [| |by destruct (Hpan m)]; (split; [done|]; cbn [fst]; split; [|congruence]; split; [done..|]; by eapply unlocked_same).
Qed.

Lemma coherent_cached rows w : coherent rows w ↔ rows_ok rows ∧ db_ok rows (w_db w) ∧ cached rows w.
Proof. split; [intros []; by split_and!|]. by intros (?&?&[]). Qed.

Lemma coherent_Save now value rows w w1 mu : coherent rows w →
  saveWithExecutor info zero ttl reg now value false w = (w1, mu, Ok ()) → mu_applied mu = true →
  row_ok (mu_value mu) → GetID (mu_value mu) ≠ 0%Z →
  (mu_isNew mu = true → rows !! GetID (mu_value mu) = None) →
  (mu_isNew mu = false → (0 < GetID value)%Z ∧ GetID (mu_value mu) = GetID value ∧
     ∃ r, rows !! GetID value = Some r ∧ KeepItem r = true) →
  db_ok (<[GetID (mu_value mu) := mu_value mu]> rows) (w_db w1) →
  (Save info zero ttl reg now value w).2 = Ok () ∧
  coherent (<[GetID (mu_value mu) := mu_value mu]> rows) (Save info zero ttl reg now value w).1.1.
Proof.
  intros Hc Hs Happ Hrow Hid Hnew Hold Hd.
  destruct (save_reads _ _ _ _ _ _ _ Hc Hs) as (He&Ht&Hu).
  pose proof (save_effect _ _ _ _ _ _ Hc Hs Happ Hnew Hold) as Heff.
  destruct (saveWithExecutor_kind _ _ _ _ _ _ _ _ _ _ Hs Happ) as (Ho&Hn&Hdel).
  destruct (finalize_save_cached rows (wk_of mu) mu w1) as (Hok&Hca&Hdb'); try done; [apply Hc|].
  unfold Save, saveInternal. rewrite Hs. split; [done|]. apply coherent_cached. rewrite Hdb'.
  split; [|done]. apply rows_ok_insert; [apply Hc|done..].
Qed.

(** A save that fails, or finds nothing to write, only reads. *)
Lemma coherent_Save_idle now value rows w w1 mu r : coherent rows w →
  saveWithExecutor info zero ttl reg now value false w = (w1, mu, r) → r ≠ Ok () ∨ mu_applied mu = false →
  db_ok rows (w_db w1) → coherent rows (Save info zero ttl reg now value w).1.1.
Proof.
  intros Hc Hs Hr Hd. destruct (save_reads _ _ _ _ _ _ _ Hc Hs) as (He&Ht&Hu).
  assert ((Save info zero ttl reg now value w).1.1 = w1) as ->; [|split; try done; apply Hc].
  unfold Save, saveInternal. rewrite Hs. destruct r as [[]| |]; [|done..].
  destruct Hr as [?|Hf]; [done|]. unfold finalizeSave. by rewrite Hf.
Qed.

(** ** [Delete] *)

Lemma tracked_same_store (c c' : local_client) idx :
  store (lc c') = store (lc c) → tracked c idx → tracked c' idx.
Proof.
  intros Hs [T1 T2 T3 T4]. split; [|done|done|].
  - intros p k. rewrite Hs. apply T1.
  - intros k v. rewrite Hs. apply T4.
Qed.

(** Under the lock a delete only drops entries. *)
Lemma delete_action_drops id value w :
  let w' := (delete_action info id value w).1 in
  (∀ k v, store (lc (w_cache w')) !! k = Some v → store (lc (w_cache w)) !! k = Some v) ∧
  quiet info (w_cache w) (w_cache w') ∧ w_index w' = w_index w.
Proof.
  unfold delete_action, delete_row.
  match goal with |- context [on_db ?f w] => destruct (same_cache_on_db f w) as [Hc Hi]; destruct (on_db f w) as [w1 r1] end.
  cbn [fst] in Hc, Hi. rewrite <-Hc, <-Hi. destruct r1 as [res| |]; [|by split_and!; auto using quiet_refl..].
  destruct (delete_entry w1 (model_key info id)) as (Hs&_&Hi2&_).
  assert (quiet info (w_cache w1) (w_cache (on_cache (cc_Delete (model_key info id)) w1).1)) as Hq.
  { unfold on_cache. pose proof (quiet_Delete info (model_key info id) (w_cache w1)). by destruct (cc_Delete _ _). }
  destruct (on_cache _ w1) as [w2 r2]. cbn [fst] in *.
  assert (∀ k v, store (lc (w_cache w2)) !! k = Some v → store (lc (w_cache w1)) !! k = Some v) as Hsub.
  { intros k v. rewrite Hs. by intros [_ ?]%lookup_delete_Some. }
  destruct r2; [destruct (_ =? 0)%Z; [done|]|destruct (_ =? 0)%Z; [done|]|done];
    (destruct (shrinks_invalidate value (Some value) false true w2) as (Hsh&Hi3&_);
     destruct (invalidateAffectedQueryCaches _ _ _ _ _ w2) as [w3 r3]; cbn [fst] in *; split_and!;
     [intros k v Hv; eapply Hsub, local_shrinks_store; eauto|eapply quiet_trans; [exact Hq|by apply quiet_shrinks]|congruence]).
Qed.

Lemma rows_ok_delete rows id : rows_ok rows → rows_ok (delete id rows).
Proof. intros [Hr Hk]. split; intros i r; rewrite lookup_delete_Some; intros [_ ?]; eauto. Qed.

(** The entry of the record is dropped first. *)
Lemma delete_half_written rows id w :
  entries_right rows (w_cache w) → tracked (w_cache w) (w_index w) →
  half_written rows (delete id rows) (on_cache (cc_Delete (model_key info id)) w).1.
Proof.
  intros He Ht. destruct (qo_some _ _ _ Hqueries) as [p0 Hp0].
  destruct (delete_entry w (model_key info id)) as (Hs&_&Hi2&_). cbv zeta in *. split.
  - intros p k v Hp Hk Hv. rewrite Hs in Hv. apply lookup_delete_Some in Hv as [_ Hv]. by apply He.
  - intros id' v Hv. rewrite Hs in Hv. apply lookup_delete_Some in Hv as [Hne Hv].
    rewrite lookup_delete_ne by (intros <-; done). apply (er_model _ _ _ _ _ _ (He p0 Hp0 _ _ Hv) id' eq_refl).
  - rewrite Hi2. eapply tracked_quiet; [done| |exact Ht]. unfold on_cache.
    pose proof (quiet_Delete info (model_key info id) (w_cache w)). by destruct (cc_Delete _ _).
Qed.

(** Then the queries that had the row. *)
Lemma delete_invalidated rows value r w :
  entries_right rows (w_cache w) → tracked (w_cache w) (w_index w) → rows_ok rows →
  rows !! GetID value = Some r → has_type value fs →
  seen_alike value r →
  let a := invalidateAffectedQueryCaches info value (Some value) false true
             (on_cache (cc_Delete (model_key info (GetID value))) w).1 in
  a.2 = Ok () ∧ entries_right (delete (GetID value) rows) (w_cache a.1).
Proof.
  intros He Ht Hrows Hr Hty Hcols. pose proof (delete_half_written rows (GetID value) w He Ht) as Hhw.
  destruct (invalidated rows Deleted value _ _ Hhw (we_delete rows value r Hr Hcols) Hty) as (Hok&He3&_);
    [by eapply (proj2 Hrows)|done|by apply rows_ok_delete|done].
Qed.

(** A successful delete, under the lock. *)
Lemma delete_action_coherent rows value r w :
  entries_right rows (w_cache w) → tracked (w_cache w) (w_index w) → rows_ok rows →
  rows !! GetID value = Some r → has_type value fs →
  seen_alike value r →
  (delete_action info (GetID value) value w).2 = Ok () →
  entries_right (delete (GetID value) rows) (w_cache (delete_action info (GetID value) value w).1).
Proof.
  intros He Ht Hrows Hr Hty Hcols. unfold delete_action, delete_row.
  match goal with |- context [on_db ?f w] => destruct (same_cache_on_db f w) as [Hc Hi]; destruct (on_db f w) as [w1 [res| |]] end; [|done..].
  cbn [fst] in Hc, Hi. rewrite <-Hc in He, Ht. rewrite <-Hi in Ht.
  destruct (delete_entry w1 (model_key info (GetID value))) as (_&Hr2&_).
  destruct (delete_invalidated rows value r w1 He Ht Hrows Hr Hty Hcols) as [_ He3]. cbv zeta in *.
  destruct (on_cache _ w1) as [w2 r2]. cbn [fst snd] in *. subst r2. destruct (_ =? 0)%Z; [done|].
  by destruct (invalidateAffectedQueryCaches _ _ _ _ _ w2) as [w3 r3].
Qed.

(** An outcome of [Delete]: the row is gone and the queries match the value as they
    matched it, or the table is the same and an error is returned. *)
Inductive deleted rows value w : gmap Z gostruct → Prop :=
  | del_done value1 r :
      triggerEvent reg "BeforeDelete" value = (value1, None) → GetID value1 = GetID value → has_type value1 fs →
      rows !! GetID value = Some r → seen_alike value1 r →
      (deleteInternal info reg value w).2 = Ok () →
      db_ok (delete (GetID value) rows) (w_db (deleteInternal info reg value w).1.1) →
      deleted rows value w (delete (GetID value) rows)
  | del_failed :
      (deleteInternal info reg value w).2 ≠ Ok () → db_ok rows (w_db (deleteInternal info reg value w).1.1) →
      deleted rows value w rows.

(** The world [deleteInternal] leaves: the same, or that of the locked action. *)
Lemma deleteInternal_world value w :
  ((deleteInternal info reg value w).1.1 = w ∧ (deleteInternal info reg value w).2 ≠ Ok ()) ∨
  ∃ value1, triggerEvent reg "BeforeDelete" value = (value1, None) ∧
    let l := WithLock (lock_key (model_key info (GetID value))) (delete_action info (GetID value) value1) w in
    (deleteInternal info reg value w).1.1 = l.1 ∧ ((deleteInternal info reg value w).2 = Ok () → l.2 = Ok ()).
Proof.
  unfold deleteInternal. destruct (_ =? 0)%Z; [by left|].
  destruct (triggerEvent reg "BeforeDelete" value) as [value1 [e|]]; [by left|right]. exists value1. split; [done|].
  by destruct (WithLock _ _ w) as [w1 [[]| |]].
Qed.

Lemma delete_kept value value1 w :
  let l := WithLock (lock_key (model_key info (GetID value))) (delete_action info (GetID value) value1) w in
  tracked (w_cache w) (w_index w) → unlocked (w_cache w) →
  tracked (w_cache l.1) (w_index l.1) ∧ unlocked (w_cache l.1) ∧
  ∀ k v, store (lc (w_cache l.1)) !! k = Some v → store (lc (w_cache w)) !! k = Some v.
Proof.
  intros l Ht Hu. split_and!.
  - apply tracked_WithLock; [|done]. intros w1. by destruct (delete_action_drops (GetID value) value1 w1) as (_&?&?).
  - apply unlocked_WithLock; [|done]. intros w1. by destruct (delete_action_drops (GetID value) value1 w1) as (_&?&?).
  - intros k v. unfold l. destruct (WithLock_cases (lock_key (model_key info (GetID value)))
      (delete_action info (GetID value) value1) w) as [(Hs&_&_)|(w1&Hs1&_&Hs2)]; rewrite (se_store _ _ ltac:(eassumption)); [done|].
    rewrite <-(se_store _ _ Hs1). apply delete_action_drops.
Qed.

Lemma coherent_Delete rows value w rows' : coherent rows w → deleted rows value w rows' →
  coherent rows' (deleteInternal info reg value w).1.1.
Proof.
  intros [Hrows Hd He Ht Hu] Hdel. destruct (deleteInternal_world value w) as [[Hw Hn]|(value1&Hev&Hw&Hres)].
  { destruct Hdel; [done|]. rewrite Hw in *. by split. }
  cbv zeta in *. destruct (delete_kept value value1 w Ht Hu) as (Ht2&Hu2&Hsub). cbv zeta in *. rewrite <-Hw in *.
  destruct Hdel as [v1 r Hev1 Hid Hty Hr Hcols Hok Hd'|Hne Hd'];
    (split; [auto using rows_ok_delete|done| |done|done]); [|eapply entries_sub; [exact Hsub|done]].
  rewrite Hev in Hev1. injection Hev1 as <-. specialize (Hres Hok). rewrite Hw. rewrite <-Hid in *.
  destruct (WithLock_cases (lock_key (model_key info (GetID value1))) (delete_action info (GetID value1) value1) w)
    as [(_&[e Herr]&_)|(w1&Hs1&Hr1&Hs2)]; [congruence|].
  eapply entries_sub; [intros k v; rewrite (se_store _ _ Hs2); exact id|].
  apply (delete_action_coherent _ _ r); try done; [| |congruence].
  - eapply entries_sub; [|exact He]. intros k v. by rewrite (se_store _ _ Hs1).
  - rewrite (se_index _ _ Hs1). eapply tracked_same_store; [|exact Ht]. apply Hs1.
Qed.
End facts.
