(* ===== verification/CoherenceBatch.v ===== *)
(** * Batches keep the cache coherent

    [SaveMany] and [DeleteMany] run their statements in a transaction that does
    not touch the cache, and after the commit bring the cache up to date item by
    item.  The tables the items pass through are virtual: at item [i] the
    database has all the writes, the cache those of the first [i]. *)

From S2P Require Import Prelude GoStrings GoStringsFacts GoValues GoValuesFacts Predicate QueryMatch QueryMatchFacts.
From S2P Require Import CacheIndex CacheIndexFacts Metadata LocalCache CacheClient LocalCacheFacts.
From S2P Require Import Invalidate InvalidateFacts MetadataFacts Freshness SqlBuilder Hooks Crud CrudFacts.
From S2P Require Import WriteFacts Query QueryFacts LocalQuery Coherence CoherenceFacts.

Open Scope string_scope.

Section batch.
Context `{GoPlatform} `{Gob} `{ModelOps} `{QueryEnv} {D : Type} `{DBAdapter D}.
Context (typeName : string) (mm : model_methods) (fs : list sfield).
Context (info : ModelInfo) (zero : gostruct) (ttl : Z) (reg : registry).
Context (queries : QueryParams → Prop) (db_ok : gmap Z gostruct → D → Prop).
Context (answer : QueryParams → gmap Z gostruct → list Z).
Notation lworld := (world local_client D).
Notation row_ok := (row_ok fs info zero).
Notation rows_ok := (rows_ok fs info zero).
Notation coherent := (coherent fs info zero queries db_ok answer).
Notation cached := (cached info queries answer).
Implicit Types (rows : gmap Z gostruct) (w : lworld).

(** ** The transactions *)

(** The statements of a batch in a transaction: the world after the commit with
    the items, or the world after the rollback. *)
Definition in_tx {A} (statements : lworld → lworld * A * result unit) (w : lworld) : lworld * option A :=
  let '(w, r) := on_db db_Begin w in
  match r with
  | Ok _ =>
      let '(w, items, r) := statements w in
      match r with
      | Ok _ => let '(w, r) := on_db db_Commit w in
                match r with Ok _ => (w, Some items) | _ => (rollback w, None) end
      | _ => (rollback w, None)
      end
  | _ => (w, None)
  end.
Definition save_tx (now : nat → goval) (values : list gostruct) : lworld → lworld * option (list saveMutation) :=
  in_tx (save_items info zero ttl reg now 0 values).
Definition delete_tx (values : list gostruct) : lworld → lworld * option (list gostruct) :=
  in_tx (delete_items info reg values).

Lemma SaveMany_tx now values w :
  (SaveMany info zero ttl reg now values w).1.1 =
  match values with
  | [] => w
  | _ => match save_tx now values w with (w', Some mus) => (finalize_items info ttl reg mus w').1.1 | (w', None) => w' end
  end.
Proof.
  destruct values as [|v vs]; [done|]. unfold SaveMany, save_tx, in_tx. rewrite bool_decide_eq_false_2 by done.
  destruct (on_db db_Begin w) as [w1 [| |]]; [|done..].
  destruct (save_items info zero ttl reg now 0 (v :: vs) w1) as [[w2 mus] [| |]]; [|done..].
  by destruct (on_db db_Commit w2) as [w3 [| |]].
Qed.
Lemma DeleteMany_tx values w :
  (DeleteMany info reg values w).1.1 =
  match values with
  | [] => w
  | _ => match delete_tx values w with (w', Some vs) => (finalize_deletes info reg vs None w').1.1 | (w', None) => w' end
  end.
Proof.
  destruct values as [|v vs]; [done|]. unfold DeleteMany, delete_tx, in_tx. rewrite bool_decide_eq_false_2 by done.
  destruct (on_db db_Begin w) as [w1 [| |]]; [|done..].
  destruct (delete_items info reg (v :: vs) w1) as [[w2 ds] [| |]]; [|done..].
  by destruct (on_db db_Commit w2) as [w3 [| |]].
Qed.

(** The statements do not touch the cache. *)
Lemma save_item_cache now value w : same_cache w (saveWithExecutor info zero ttl reg now value true w).1.1.
Proof.
  unfold saveWithExecutor, save_create, save_update, getOriginalForSave. cbv zeta.
  destruct (triggerEvent reg "BeforeSave" _) as [m1 [e|]]; [done|]. destruct (_ =? 0)%Z.
  - destruct (triggerEvent reg "BeforeCreate" _) as [m2 [e|]]; [done|]. destruct (bool_decide _); [done|].
    match goal with |- context [on_db ?f w] => pose proof (same_cache_on_db f w); by destruct (on_db f w) as [w2 [| |]] end.
  - match goal with |- context [on_db ?f w] => pose proof (same_cache_on_db f w) as Hs1; destruct (on_db f w) as [w1 r1] end.
    destruct r1; [| |done]; (destruct (FindChangedFieldsSimple _ _ _ _); [|done..]; destruct (decide _); [done|];
      match goal with |- context [on_db ?f w1] => pose proof (same_cache_on_db f w1) as Hs2; destruct (on_db f w1) as [w2 [| |]] end;
      by eapply same_cache_trans).
Qed.

Lemma save_items_cache now i values w : same_cache w (save_items info zero ttl reg now i values w).1.1.
Proof.
  revert i w. induction values as [|v vs IH]; intros i w; [done|]. cbn [save_items].
  pose proof (save_item_cache (now i) v w) as Hs. destruct (saveWithExecutor _ _ _ _ _ _ _ _) as [[w1 mu] [| |]]; [|done..].
  specialize (IH (S i) w1). destruct (save_items _ _ _ _ _ _ _ w1) as [[w2 mus] r]. by eapply same_cache_trans.
Qed.

Lemma delete_items_cache values w : same_cache w (delete_items info reg values w).1.1.
Proof.
  revert w. induction values as [|v vs IH]; intros w; [done|]. cbn [delete_items].
  assert (same_cache w (delete_item info reg v w).1.1) as Hs.
  { unfold delete_item, delete_row. destruct (_ =? 0)%Z; [done|]. destruct (triggerEvent _ _ _) as [v1 [e|]]; [done|].
    match goal with |- context [on_db ?f w] => pose proof (same_cache_on_db f w); by destruct (on_db f w) end. }
  destruct (delete_item info reg v w) as [[w1 v1] [| |]]; [|done..].
  specialize (IH w1). destruct (delete_items info reg vs w1) as [[w2 ds] r]. by eapply same_cache_trans.
Qed.

Lemma in_tx_cache {A} (statements : lworld → lworld * A * result unit) w :
  (∀ w, same_cache w (statements w).1.1) → same_cache w (in_tx statements w).1.
Proof.
  intros Hst. unfold in_tx. pose proof (same_cache_on_db db_Begin w) as Hb. destruct (on_db db_Begin w) as [w1 [| |]]; [|done..].
  specialize (Hst w1). destruct (statements w1) as [[w2 items] r].
  pose proof (same_cache_trans _ _ _ Hb Hst) as Hbs. cbn [fst] in Hbs.
  destruct r; [|by eapply same_cache_trans; [exact Hbs|apply same_cache_on_db]..].
  pose proof (same_cache_on_db db_Commit w2) as Hc. destruct (on_db db_Commit w2) as [w3 [| |]]; cbn [fst] in *;
    [by eapply same_cache_trans|by do 2 (eapply same_cache_trans; [eassumption|]); apply same_cache_on_db..].
Qed.

(** ** After the commit *)

(** The mutations of a batch as writes of the tables it passes through. *)
Inductive batch_saved : gmap Z gostruct → list saveMutation → gmap Z gostruct → Prop :=
  | bs_nil rows : batch_saved rows [] rows
  | bs_idle rows mu mus rows' : mu_applied mu = false → batch_saved rows mus rows' → batch_saved rows (mu :: mus) rows'
  | bs_insert rows mu mus rows' :
      mu_applied mu = true → mu_isNew mu = true → mu_original mu = None → row_ok (mu_value mu) →
      GetID (mu_value mu) ≠ 0%Z → rows !! GetID (mu_value mu) = None →
      batch_saved (<[GetID (mu_value mu) := mu_value mu]> rows) mus rows' → batch_saved rows (mu :: mus) rows'
  | bs_update rows mu r mus rows' :
      mu_applied mu = true → mu_isNew mu = false → mu_original mu = Some r → row_ok (mu_value mu) →
      GetID (mu_value mu) ≠ 0%Z → rows !! GetID (mu_value mu) = Some r → KeepItem r = true →
      batch_saved (<[GetID (mu_value mu) := mu_value mu]> rows) mus rows' → batch_saved rows (mu :: mus) rows'.

Inductive batch_deleted : gmap Z gostruct → list gostruct → gmap Z gostruct → Prop :=
  | bd_nil rows : batch_deleted rows [] rows
  | bd_item rows value r values rows' :
      rows !! GetID value = Some r → has_type value fs →
      seen_alike info queries value r →
      batch_deleted (delete (GetID value) rows) values rows' → batch_deleted rows (value :: values) rows'.

Context (Hmodel : model_ok typeName mm fs info) (Hqueries : queries_ok fs info queries).
Context (Hdb : database_ok fs info zero queries db_ok answer).

Lemma finalize_items_cached rows mus rows' w : batch_saved rows mus rows' → rows_ok rows → cached rows w →
  let a := finalize_items info ttl reg mus w in
  a.2 = Ok () ∧ cached rows' a.1.1 ∧ w_db a.1.1 = w_db w ∧ rows_ok rows'.
Proof.
  intros Hb. revert w. induction Hb as [rows|rows mu mus rows' Hi _ IH|rows mu mus rows' Ha Hn Ho Hr Hid Hrow _ IH|
    rows mu r mus rows' Ha Hn Ho Hr Hid Hrow Hk _ IH]; intros w Hrows Hca; cbn [finalize_items]; cbv zeta in *; [done|..].
  - assert (finalizeSave info ttl reg mu w = (w, mu_value mu, Ok ())) as -> by (unfold finalizeSave; by rewrite Hi).
    specialize (IH w Hrows Hca). by destruct (finalize_items info ttl reg mus w) as [[w1 vs] r].
  - destruct (finalize_save_cached typeName mm fs info zero ttl reg queries db_ok answer Hmodel Hqueries Hdb rows Created mu w)
      as (Hok&Hca'&Hd); try done; [by apply we_create|].
    destruct (finalizeSave info ttl reg mu w) as [[w1 v1] r1]. cbn [fst snd] in *. subst r1.
    specialize (IH w1 (rows_ok_insert _ _ _ rows (mu_value mu) Hrows Hr Hid) Hca').
    destruct (finalize_items info ttl reg mus w1) as [[w2 vs] r2]. cbn [fst snd] in *. by rewrite <-Hd.
  - destruct (finalize_save_cached typeName mm fs info zero ttl reg queries db_ok answer Hmodel Hqueries Hdb rows (Updated r) mu w)
      as (Hok&Hca'&Hd); try done; [by apply we_update|].
    destruct (finalizeSave info ttl reg mu w) as [[w1 v1] r1]. cbn [fst snd] in *. subst r1.
    specialize (IH w1 (rows_ok_insert _ _ _ rows (mu_value mu) Hrows Hr Hid) Hca').
    destruct (finalize_items info ttl reg mus w1) as [[w2 vs] r2]. cbn [fst snd] in *. by rewrite <-Hd.
Qed.

Lemma clear_action_world value w :
  let w' := (clear_action info value w).1 in
  let wi := (invalidateAffectedQueryCaches info value (Some value) false true
               (on_cache (cc_Delete (model_key info (GetID value))) w).1) in
  w' = wi.1 ∧ (clear_action info value w).2 = swallow wi.2 ∧
  quiet info (w_cache w) (w_cache w') ∧ w_index w' = w_index w ∧ w_db w' = w_db w.
Proof.
  unfold clear_action. cbv zeta. destruct (delete_entry w (model_key info (GetID value))) as (_&Hr&Hi&Hd). cbv zeta in *.
  assert (quiet info (w_cache w) (w_cache (on_cache (cc_Delete (model_key info (GetID value))) w).1)) as Hq.
  { unfold on_cache. pose proof (quiet_Delete info (model_key info (GetID value)) (w_cache w)). by destruct (cc_Delete _ _). }
  destruct (on_cache _ w) as [w1 r1]. cbn [fst snd] in *. subst r1.
  destruct (shrinks_invalidate info value (Some value) false true w1) as (Hsh&Hi2&Hd2).
  destruct (invalidateAffectedQueryCaches _ _ _ _ _ w1) as [w2 r2]. cbn [fst snd] in *.
  split_and!; [done|done| |congruence..]. eapply quiet_trans; [exact Hq|by apply quiet_shrinks].
Qed.

Lemma finalize_delete_cached rows value r w : cached rows w → rows_ok rows →
  rows !! GetID value = Some r → has_type value fs →
  seen_alike info queries value r →
  let a := finalizeDelete info reg value w in
  a.2 = Ok () ∧ cached (delete (GetID value) rows) a.1.1 ∧ w_db a.1.1 = w_db w.
Proof.
  intros [He Ht Hu] Hrows Hr Hty Hcols. unfold finalizeDelete. set (key := lock_key (model_key info (GetID value))).
  pose proof (tracked_WithLock typeName mm fs info queries Hmodel key (clear_action info value) w
    ltac:(intros w1; destruct (clear_action_world value w1) as (_&_&?&?&_); done) Ht) as Ht2.
  pose proof (unlocked_WithLock info key (clear_action info value) w
    ltac:(intros w1; destruct (clear_action_world value w1) as (_&_&?&_); done) Hu) as Hu2.
  destruct (WithLock_cases key (clear_action info value) w) as [(_&_&Hn)|(w1&Hs1&Hres&Hs2)].
  { destruct Hn. apply acquire_loop_free; apply Hu. }
  destruct (clear_action_world value w1) as (Hw&Hr1&_&_&Hd1).
  destruct (delete_invalidated typeName mm fs info zero queries db_ok answer Hmodel Hqueries Hdb rows value r w1) as [Hok He1]; try done.
  { intros p Hp k v. rewrite (se_store _ _ Hs1). by apply He. }
  { rewrite (se_index _ _ Hs1). eapply tracked_same_store; [apply Hs1|done]. }
  rewrite Hr1, Hok in Hres. destruct (WithLock key (clear_action info value) w) as [w2 r2]. cbn [fst snd] in *. subst r2.
  cbn [swallow fst snd]. split; [done|]. split; [|by rewrite (se_db _ _ Hs2), Hd1, (se_db _ _ Hs1)]. split; [|done..].
  intros p Hp k v. rewrite (se_store _ _ Hs2), Hw. by apply He1.
Qed.

Lemma finalize_deletes_cached rows values rows' w : batch_deleted rows values rows' → rows_ok rows → cached rows w →
  let a := finalize_deletes info reg values None w in
  a.2 = Ok () ∧ cached rows' a.1.1 ∧ w_db a.1.1 = w_db w ∧ rows_ok rows'.
Proof.
  intros Hb. revert w. induction Hb as [rows|rows value r values rows' Hr Hty Hcols _ IH]; intros w Hrows Hca;
    cbn [finalize_deletes]; cbv zeta in *; [done|].
  destruct (finalize_delete_cached rows value r w Hca Hrows Hr Hty Hcols) as (Hok&Hca'&Hd).
  destruct (finalizeDelete info reg value w) as [[w1 v1] r1]. cbn [fst snd] in *. subst r1.
  specialize (IH w1 (rows_ok_delete _ _ _ rows (GetID value) Hrows) Hca').
  destruct (finalize_deletes info reg values None w1) as [[w2 vs] r2]. cbn [fst snd] in *. by rewrite <-Hd.
Qed.

(** ** The outcomes of a batch *)

Definition many_saved (rows : gmap Z gostruct) (now : nat → goval) (values : list gostruct) (w : lworld)
    (rows' : gmap Z gostruct) : Prop :=
  match save_tx now values w with
  | (w', Some mus) => batch_saved rows mus rows' ∧ db_ok rows' (w_db w')
  | (w', None) => rows' = rows ∧ db_ok rows (w_db w')
  end.
Definition many_deleted (rows : gmap Z gostruct) (values : list gostruct) (w : lworld) (rows' : gmap Z gostruct) : Prop :=
  match delete_tx values w with
  | (w', Some vs) => batch_deleted rows vs rows' ∧ db_ok rows' (w_db w')
  | (w', None) => rows' = rows ∧ db_ok rows (w_db w')
  end.

Lemma cached_same rows w w' : same_cache w w' → cached rows w → cached rows w'.
Proof. intros [Hc Hi] [He Ht Hu]. split; by rewrite ?Hc, ?Hi. Qed.

Lemma coherent_SaveMany rows now values w rows' : values ≠ [] → coherent rows w → many_saved rows now values w rows' →
  coherent rows' (SaveMany info zero ttl reg now values w).1.1.
Proof.
  intros Hne Hc. rewrite SaveMany_tx. unfold many_saved. destruct values as [|g values]; [done|].
  pose proof (in_tx_cache _ w (save_items_cache now 0 (g :: values))) as Hs. fold (save_tx now (g :: values)) in Hs.
  apply coherent_cached in Hc as (Hrows&_&Hca). apply (cached_same _ _ _ Hs) in Hca.
  destruct (save_tx now (g :: values) w) as [w' [mus|]]; cbn [fst] in *; intros [Hb Hd]; apply coherent_cached.
  - destruct (finalize_items_cached rows mus rows' w' Hb Hrows Hca) as (_&Hca'&Hd'&Hr'). by rewrite Hd'.
  - subst. by split_and!.
Qed.

Lemma coherent_DeleteMany rows values w rows' : values ≠ [] → coherent rows w → many_deleted rows values w rows' →
  coherent rows' (DeleteMany info reg values w).1.1.
Proof.
  intros Hne Hc. rewrite DeleteMany_tx. unfold many_deleted. destruct values as [|g values]; [done|].
  pose proof (in_tx_cache _ w (delete_items_cache (g :: values))) as Hs. fold (delete_tx (g :: values)) in Hs.
  apply coherent_cached in Hc as (Hrows&_&Hca). apply (cached_same _ _ _ Hs) in Hca.
  destruct (delete_tx (g :: values) w) as [w' [vs|]]; cbn [fst] in *; intros [Hb Hd]; apply coherent_cached.
  - destruct (finalize_deletes_cached rows vs rows' w' Hb Hrows Hca) as (_&Hca'&Hd'&Hr'). by rewrite Hd'.
  - subst. by split_and!.
Qed.
End batch.
