(* ===== verification/CoherenceRuns.v ===== *)
(** * Runs of reads and writes

    A step relation over the table and the world in front of it: queries, counts
    and reads by id, [Save], [SaveMany], [SoftDelete], [Delete] and [DeleteMany]
    with whatever the database made of them, the clearing operations, and the passes of the cleanup
    goroutine, in any order.  From an empty cache every run keeps the invariant,
    so that every read of a reached world is answered as the table would answer
    it: the cached world refines the table. *)

From S2P Require Import Prelude GoStrings GoStringsFacts GoValues GoValuesFacts Predicate QueryMatch QueryMatchFacts.
From S2P Require Import CacheIndex CacheIndexFacts Metadata LocalCache CacheClient LocalCacheFacts.
From S2P Require Import Invalidate InvalidateFacts MetadataFacts Freshness SqlBuilder Hooks Crud CrudFacts.
From S2P Require Import WriteFacts Query QueryFacts LocalQuery Coherence CoherenceFacts CoherenceBatch.

Open Scope string_scope.

Section runs.
Context `{GoPlatform} `{Gob} `{ModelOps} `{QueryEnv} {D : Type} `{DBAdapter D}.
Context (typeName : string) (mm : model_methods) (fs : list sfield).
Context (info : ModelInfo) (zero : gostruct) (ttl : Z) (reg : registry).
Context (queries : QueryParams → Prop) (db_ok : gmap Z gostruct → D → Prop).
Context (answer : QueryParams → gmap Z gostruct → list Z).
Notation lworld := (world local_client D).
Notation row_ok := (row_ok fs info zero).
Notation rows_ok := (rows_ok fs info zero).
Notation entries_right := (entries_right info queries answer).
Notation tracked := (tracked info queries).
Notation coherent := (coherent fs info zero queries db_ok answer).
Notation deleted := (deleted fs info reg queries db_ok).
Implicit Types (rows : gmap Z gostruct) (p : QueryParams) (w : lworld).

(** ** The outcomes of a save *)

(** The statement stored the value under a new id, or over a visible row of its
    id; or the save failed or found nothing to write, and the table is the same. *)
Inductive saved rows now value w : gmap Z gostruct → Prop :=
  | sav_done w1 mu :
      saveWithExecutor info zero ttl reg now value false w = (w1, mu, Ok ()) → mu_applied mu = true →
      row_ok (mu_value mu) → GetID (mu_value mu) ≠ 0%Z →
      (mu_isNew mu = true → rows !! GetID (mu_value mu) = None) →
      (mu_isNew mu = false → (0 < GetID value)%Z ∧ GetID (mu_value mu) = GetID value ∧
         ∃ r, rows !! GetID value = Some r ∧ KeepItem r = true) →
      db_ok (<[GetID (mu_value mu) := mu_value mu]> rows) (w_db w1) →
      saved rows now value w (<[GetID (mu_value mu) := mu_value mu]> rows)
  | sav_idle w1 mu r :
      saveWithExecutor info zero ttl reg now value false w = (w1, mu, r) → r ≠ Ok () ∨ mu_applied mu = false →
      db_ok rows (w_db w1) → saved rows now value w rows.

(** The value [SoftDelete] saves. *)
Definition soft_value (t0 : goval) (value : gostruct) : option gostruct :=
  if (GetID value =? 0)%Z then None
  else match triggerEvent reg "BeforeSoftDelete" value with
       | (value, None) =>
           match set_bool_field value "Deleted" true with
           | Ok value => match set_time_field value "UpdatedAt" t0 with Ok value => Some value | _ => None end
           | _ => None
           end
       | _ => None
       end.

(** A pass of the cleanup goroutine at a time of its own. *)
Definition tick (now : Z) (w : lworld) : lworld :=
  let '(m, idx) := cleanup_tick now (lc (w_cache w)) (w_index w) in
  MkWorld (MkClient m (lc_env (w_cache w)) (lc_pos (w_cache w))) idx (w_db w).

(** ** The steps *)

Inductive cstep : gmap Z gostruct * lworld → gmap Z gostruct * lworld → Prop :=
  | cs_fetch p off lim rows w : queries p →
      cstep (rows, w) (rows, (Fetch info zero ttl (Query p) (Z.of_nat off) (Z.of_nat lim) w).1.1)
  | cs_count p rows w : queries p → cstep (rows, w) (rows, (Count info ttl (Query p) w).1.1)
  | cs_ids ids rows w : cstep (rows, w) (rows, (ByIDs info zero ttl ids w).1)
  | cs_save now value rows rows' w : saved rows now value w rows' →
      cstep (rows, w) (rows', (Save info zero ttl reg now value w).1.1)
  | cs_soft t0 now value rows rows' w :
      match soft_value t0 value with Some value' => saved rows now value' w rows' | None => rows' = rows end →
      cstep (rows, w) (rows', (SoftDelete info zero ttl reg t0 now value w).1.1)
  | cs_delete value rows rows' w : deleted rows value w rows' →
      cstep (rows, w) (rows', (Delete_ info reg value w).1.1)
  | cs_save_many now values rows rows' w : values ≠ [] →
      many_saved fs info zero ttl reg db_ok rows now values w rows' →
      cstep (rows, w) (rows', (SaveMany info zero ttl reg now values w).1.1)
  | cs_delete_many values rows rows' w : values ≠ [] → many_deleted fs info reg queries db_ok rows values w rows' →
      cstep (rows, w) (rows', (DeleteMany info reg values w).1.1)
  | cs_clear id rows w : cstep (rows, w) (rows, (ClearCacheByID info id w).1)
  | cs_invalidate rows w : cstep (rows, w) (rows, (InvalidateQueryCaches info w).1)
  | cs_tick now rows w : cstep (rows, w) (rows, tick now w).

(** A world that has just been configured. *)
Record started rows w : Prop := {
  fr_rows : rows_ok rows;
  fr_db : db_ok rows (w_db w);
  fr_store : store (lc (w_cache w)) = ∅;
  fr_locks : lockPool (lc (w_cache w)) = ∅;
  fr_index : w_index w = NewCacheIndex;
  fr_cancel n e : es_branch (lc_env (w_cache w) n) ≠ OnCancel e;
  fr_timeout n : es_branch (lc_env (w_cache w) n) ≠ OnTimeout
}.

Context (Hmodel : model_ok typeName mm fs info) (Hqueries : queries_ok fs info queries).
Context (Hdb : database_ok fs info zero queries db_ok answer).

Lemma started_coherent rows w : started rows w → coherent rows w.
Proof.
  intros [Hr Hd Hc Hl Hi Hca Hti]. split; [done..| | |].
  - intros p _ k v. by rewrite Hc, lookup_empty.
  - rewrite Hi. split.
    + intros p k _ _ [v Hv]. by rewrite Hc, lookup_empty in Hv.
    + intros k p Hk. simpl in Hk; by rewrite lookup_empty in Hk.
    + constructor.
    + intros k v _. by rewrite Hc, lookup_empty.
  - split; [|done..]. intros k. unfold held. by rewrite Hl, lookup_empty.
Qed.

Lemma coherent_saved rows now value w rows' : coherent rows w → saved rows now value w rows' →
  coherent rows' (Save info zero ttl reg now value w).1.1.
Proof.
  intros Hc [w1 mu Hs Ha Hrow Hid Hnew Hold Hd|w1 mu r Hs Hr Hd].
  - eapply coherent_Save; eauto.
  - eapply coherent_Save_idle; eauto.
Qed.

Lemma SoftDelete_world t0 now value w :
  (SoftDelete info zero ttl reg t0 now value w).1.1 =
  match soft_value t0 value with Some value' => (Save info zero ttl reg now value' w).1.1 | None => w end.
Proof.
  unfold SoftDelete, soft_value, Save. destruct (_ =? 0)%Z; [done|].
  destruct (triggerEvent reg "BeforeSoftDelete" value) as [v1 [e|]]; [done|].
  destruct (set_bool_field v1 "Deleted" true) as [v2| |]; [|done..].
  destruct (set_time_field v2 "UpdatedAt" t0) as [v3| |]; [|done..].
  by destruct (saveInternal info zero ttl reg now v3 w) as [[w1 v4] [| |]].
Qed.

(** ** Clearing *)

(** Dropping entries keeps the invariant. *)
Lemma coherent_drop rows w c :
  quiet info (w_cache w) c → (∀ k v, store (lc c) !! k = Some v → store (lc (w_cache w)) !! k = Some v) →
  coherent rows w → coherent rows (MkWorld c (w_index w) (w_db w)).
Proof.
  intros Hq Hs [Hr Hd He Ht Hu]. split; [done..| | |].
  - by eapply entries_sub.
  - by eapply tracked_quiet.
  - destruct Hq as [_ Hl Hv]. by eapply unlocked_same.
Qed.

Lemma shrinks_delete_all keys e (c : local_client) : shrinks c (delete_all keys e c).1.
Proof.
  revert e c. induction keys as [|k keys IH]; intros e c; cbn [delete_all]; [constructor|].
  assert (shrinks c (cc_Delete k c).1) as Hk by (apply shrinks_delete, shrinks_refl).
  destruct (cc_Delete k c) as [c1 r]. eapply shrinks_trans; [exact Hk|apply IH].
Qed.

Lemma coherent_clear id rows w : coherent rows w → coherent rows (ClearCacheByID info id w).1.
Proof.
  intros Hc. unfold ClearCacheByID, on_cache. cbn [cc_DeleteModel local_CacheClient]. unfold local_op, DeleteModel.
  apply coherent_drop; [|intros k v; apply (lookup_remove _ (incrCounter "DeleteModel" (lc (w_cache w))))|done].
  split; [|done..]. intros k v Hv. left. by apply (lookup_remove _ (incrCounter "DeleteModel" (lc (w_cache w)))) in Hv.
Qed.

Lemma coherent_invalidate rows w : coherent rows w → coherent rows (InvalidateQueryCaches info w).1.
Proof.
  intros Hc. unfold InvalidateQueryCaches, on_cache.
  pose proof (shrinks_delete_all (GetQueryKeysForTable (w_index w) (TableName info)) None (w_cache w)) as Hs.
  destruct (delete_all _ _ _) as [c r]. apply coherent_drop; [by apply quiet_shrinks| |done].
  intros k v. by apply local_shrinks_store.
Qed.

(** ** The cleanup goroutine *)

Lemma foldl_remove_locks keys m : lockPool (foldl (λ m key, remove key m) m keys) = lockPool m.
Proof. revert m. induction keys as [|k keys IH]; intros m; [done|]. simpl. by rewrite IH. Qed.

Lemma cleanup_reachable (m : gmap string payload) keys key_table idx : index_reachable key_table idx →
  index_reachable key_table
    (foldl (λ idx key, match m !! key with Some _ => idx | None => DeregisterQuery key idx end) idx keys).
Proof.
  revert idx. induction keys as [|k keys IH]; intros idx Hi; [done|]. simpl. apply IH.
  destruct (m !! k); [done|by constructor].
Qed.

(** Keys that are deregistered have no entry. *)
Lemma tracked_cleanup now (c c' : local_client) idx :
  lc c' = (cleanup_tick now (lc c) idx).1 → tracked c idx → tracked c' (cleanup_tick now (lc c) idx).2.
Proof.
  intros Hm [T1 T2 T3 T4].
  assert (Hs : ∀ k, store (lc c') !! k = (if isExpired now k (lc c) then None else store (lc c) !! k) ∧
    keyToParams (cleanup_tick now (lc c) idx).2 !! k = (if store (lc c') !! k then keyToParams idx !! k else None)).
  { intros k. rewrite Hm. pose proof (cleanup_tick_spec now (lc c) idx k) as Hc.
    destruct (cleanup_tick now (lc c) idx) as [m' idx']. destruct Hc as (?&_&?); [|done].
    apply eq_None_not_Some. intros [p Hp]. by destruct (T2 _ _ Hp) as [_ [E|E]]. }
  split.
  - intros p k Hp Hk Hv. destruct (Hs k) as [Hst ->]. rewrite Hst in *. destruct (isExpired now k (lc c)); [by destruct Hv|].
    destruct Hv as [v Hv]. rewrite Hv. apply T1; eauto.
  - intros k p. destruct (Hs k) as [_ ->]. destruct (store (lc c') !! k); [apply T2|done].
  - apply cleanup_reachable, T3.
  - intros k v Hk. destruct (Hs k) as [-> _]. destruct (isExpired now k (lc c)); [done|by apply T4].
Qed.

Lemma coherent_tick now rows w : coherent rows w → coherent rows (tick now w).
Proof.
  intros [Hr Hd He Ht Hu].
  assert (∀ k v, store (cleanup_tick now (lc (w_cache w)) (w_index w)).1 !! k = Some v → store (lc (w_cache w)) !! k = Some v) as Hsub.
  { intros k v. unfold cleanup_tick. cbn [fst]. destruct (foldl_remove (expired_keys now (lc (w_cache w))) (lc (w_cache w)) k) as [-> _].
    by case_decide. }
  pose proof (tracked_cleanup now (w_cache w)
    (MkClient (cleanup_tick now (lc (w_cache w)) (w_index w)).1 (lc_env (w_cache w)) (lc_pos (w_cache w))) (w_index w) eq_refl Ht) as Ht'.
  assert (lockPool (cleanup_tick now (lc (w_cache w)) (w_index w)).1 = lockPool (lc (w_cache w))) as Hl by apply foldl_remove_locks.
  unfold tick. destruct (cleanup_tick now (lc (w_cache w)) (w_index w)) as [m idx]. cbn [fst snd] in *.
  split; [done..| |done|].
  - by eapply entries_sub.
  - by eapply unlocked_same.
Qed.

(** ** Every run *)

Lemma coherent_step s s' : cstep s s' → coherent s.1 s.2 → coherent s'.1 s'.2.
Proof.
  intros Hst. destruct Hst as [p off lim rows w Hp|p rows w Hp|ids rows w|now value rows rows' w Hs|t0 now value rows rows' w Hs|
    value rows rows' w Hs|now values rows rows' w Hne Hs|values rows rows' w Hne Hs|id rows w|rows w|now rows w]; cbn [fst snd]; intros Hc.
  - by eapply coherent_Fetch.
  - by eapply coherent_Count.
  - by eapply coherent_ByIDs.
  - by eapply coherent_saved.
  - rewrite SoftDelete_world. destruct (soft_value t0 value); [by eapply coherent_saved|by subst].
  - by eapply coherent_Delete.
  - by eapply coherent_SaveMany.
  - by eapply coherent_DeleteMany.
  - by apply coherent_clear.
  - by apply coherent_invalidate.
  - by apply coherent_tick.
Qed.

Lemma coherent_run s s' : rtc cstep s s' → coherent s.1 s.2 → coherent s'.1 s'.2.
Proof. induction 1; eauto using coherent_step. Qed.

End runs.
