(* ===== verification/Overlap.v ===== *)
(** * A write while a list is being read

    [_fetch_data] is two halves: the lookup and the database query, then the
    entry and its registration.  Between them other goroutines may read and
    write.  The cache stays coherent exactly when those operations did not change
    the list that was read: a write that did is not undone by its own
    invalidation, since the entry is written after it. *)

From S2P Require Import Prelude GoStrings GoStringsFacts GoValues GoValuesFacts Predicate QueryMatch QueryMatchFacts.
From S2P Require Import CacheIndex CacheIndexFacts Metadata LocalCache CacheClient LocalCacheFacts.
From S2P Require Import Invalidate InvalidateFacts MetadataFacts Freshness SqlBuilder Hooks Crud CrudFacts.
From S2P Require Import WriteFacts Query QueryFacts LocalQuery Coherence CoherenceFacts CoherenceRuns.

Open Scope string_scope.

Section overlap.
Context `{GoPlatform} `{Gob} `{ModelOps} `{QueryEnv} {D : Type} `{DBAdapter D}.
Context (typeName : string) (mm : model_methods) (fs : list sfield).
Context (info : ModelInfo) (zero : gostruct) (ttl : Z) (reg : registry).
Context (queries : QueryParams → Prop) (db_ok : gmap Z gostruct → D → Prop).
Context (answer : QueryParams → gmap Z gostruct → list Z).
Notation lworld := (world local_client D).
Notation coherent := (coherent fs info zero queries db_ok answer).
Notation entries_right := (entries_right info queries answer).
Implicit Types (rows : gmap Z gostruct) (p : QueryParams) (w : lworld).

(** ** The halves of [_fetch_data] *)

(** A cached list, or what the database gives. *)
Definition list_select p w : lworld * (list Z + result (list Z)) :=
  let '(w, r) := on_cache (cc_GetQueryIDs (list_key info p)) w in
  match r with
  | Ok ids => (w, inl (default [] ids))
  | _ => let '(w, r) := fetch_loop info zero ttl maxIterations p 0 [] w in (w, inr r)
  end.

Definition list_store p (valid : list Z) w : lworld :=
  let w := register info (list_key info p) p (on_cache (cc_SetQueryIDs (list_key info p) (Some valid) ttl) w).1 in
  if (length valid <? cacheListCountLimit)%nat
  then store_count info ttl (count_key info p) (Z.of_nat (length valid)) p w
  else w.

Lemma fetch_data_halves p w :
  fetch_data info zero ttl (Query p) w =
  match list_select p w with
  | (w, inl ids) => (w, Ok ids)
  | (w, inr (Ok valid)) => (list_store p valid w, Ok valid)
  | (w, inr r) => (w, r)
  end.
Proof.
  unfold fetch_data, list_select. change (generateListCacheKey info (Query p)) with (list_key info p).
  destruct (on_cache _ w) as [w1 [ids| |]]; [done|..];
    (change (cr_params (Query p)) with p; by destruct (fetch_loop _ _ _ _ _ _ _ w1) as [w2 [| |]]).
Qed.

Context (Hmodel : model_ok typeName mm fs info) (Hqueries : queries_ok fs info queries).
Context (Hdb : database_ok fs info zero queries db_ok answer).

(** ** The first half reads *)

Lemma list_select_reads p w : reads info ttl p w (list_select p w).1.
Proof.
  unfold list_select.
  pose proof (reads_cache info ttl p (cc_GetQueryIDs (list_key info p)) w (quiet_GetQueryIDs _ _ _)) as R1.
  destruct (on_cache _ w) as [w1 [ids| |]]; cbn [fst] in *; [done|..];
    (pose proof (reads_loop info zero ttl p maxIterations 0 [] w1) as R2; destruct (fetch_loop _ _ _ _ _ _ _ w1) as [w2 r];
     by etrans).
Qed.

Lemma list_select_coherent p rows w : queries p → coherent rows w →
  coherent rows (list_select p w).1 ∧
  match (list_select p w).2 with
  | inl ids => ids = cached_list_of (answer p rows)
  | inr r => r = Ok (cached_list_of (answer p rows))
  end.
Proof.
  intros Hp Hc. pose proof (list_select_reads p w) as R. pose proof (co_rows _ _ _ _ _ _ _ _ Hc) as Hrows.
  pose proof (family_caches_query typeName mm fs info zero ttl queries answer Hmodel Hqueries rows p Hrows Hp) as Hca.
  assert (world_ok (db_ok rows) (entries_right rows) w) as Hw by (split; apply Hc).
  assert (world_ok (db_ok rows) (entries_right rows) (list_select p w).1 ∧
    match (list_select p w).2 with
    | inl ids => ids = cached_list_of (answer p rows)
    | inr r => r = Ok (cached_list_of (answer p rows))
    end) as [Hw' Hr]; [|split; [by eapply coherent_reads|done]]. clear R. unfold list_select.
  destruct (cq_GetQueryIDs _ _ _ _ _ _ _ Hca (w_cache w)) as [Hg Hn]; [apply Hw|].
  pose proof (on_cache_ok (db_ok rows) _ (cc_GetQueryIDs (list_key info p)) w Hw Hg) as Hw1.
  rewrite <-(on_cache_result (D := D)) in Hn. destruct (on_cache _ w) as [w1 r]. cbn [fst snd] in *.
  destruct (fetch_loop_ok info zero ttl rows (db_ok rows) (entries_right rows) p (answer p rows)
    (do_reads _ _ _ _ _ _ Hdb rows p Hp Hrows)
    (family_default_query typeName mm fs info zero queries db_ok answer Hmodel Hqueries Hdb rows p Hp Hrows) w1 Hw1) as [Hw2 Hl].
  destruct r as [ids| |]; [split; [done|by apply Hn]|..];
    (destruct (fetch_loop _ _ _ _ _ _ _ w1) as [w2 r2]; cbn [fst snd] in *; by subst r2).
Qed.

(** ** The second half writes the list that was read *)

Lemma list_store_reads p valid w : reads info ttl p w (list_store p valid w).
Proof.
  unfold list_store. etrans; [apply rtc_once, (rd_list info ttl p w (Some valid))|].
  destruct (_ <? _)%nat; [apply rtc_once, rd_count|done].
Qed.

Lemma Set_other now k s m k' : k' ≠ k → store (Set_ now k s ttl m).1 !! k' = store m !! k'.
Proof.
  intros Hne. assert (Hins : ∀ m', store m' = store m →
    store (set_expiration now k ttl (with_store (insert k (PString s)) m')) !! k' = store m !! k').
  { intros m' <-. by rewrite store_set_expiration, lookup_with_store, decide_False. }
  unfold Set_. cbn zeta. destruct (s =? NoneResult)%string; [|by apply Hins].
  destruct (store _ !! k) as [[s'|]|]; [destruct (s' =? NoneResult)%string; [done|]|..]; by apply Hins.
Qed.

Lemma store_count_other k n p k' w : k' ≠ k →
  store (lc (w_cache (store_count info ttl k n p w))) !! k' = store (lc (w_cache w)) !! k'.
Proof.
  intros Hne. unfold store_count, register, on_index, on_cache. cbn [cc_Set local_CacheClient]. unfold local_op.
  pose proof (Set_other (es_now (env_now (w_cache w))) k (FormatInt n) (lc (w_cache w)) k' Hne) as Hs.
  by destruct (Set_ _ _ _ _ _) as [m r].
Qed.

Lemma list_store_entry p valid w :
  store (lc (w_cache (list_store p valid w))) !! list_key info p = Some (PBytes (GobIDs valid)).
Proof.
  unfold list_store.
  assert (store (lc (w_cache (register info (list_key info p) p (on_cache (cc_SetQueryIDs (list_key info p) (Some valid) ttl) w).1)))
    !! list_key info p = Some (PBytes (GobIDs valid))) as Hs.
  { unfold register, on_index, on_cache. cbn [cc_SetQueryIDs local_CacheClient]. unfold local_op, SetQueryIDs. cbn [w_cache fst lc].
    rewrite store_set_expiration. cbn [with_store store]. by rewrite lookup_insert_eq. }
  destruct (_ <? _)%nat; [|done]. by rewrite store_count_other.
Qed.

Lemma list_store_coherent p rows w : queries p → coherent rows w →
  coherent rows (list_store p (cached_list_of (answer p rows)) w).
Proof.
  intros Hp Hc. eapply coherent_reads; [exact Hmodel|exact Hqueries|exact Hp|exact Hc|apply list_store_reads|].
  pose proof (family_caches_query typeName mm fs info zero ttl queries answer Hmodel Hqueries rows p
    (co_rows _ _ _ _ _ _ _ _ Hc) Hp) as Hca.
  assert (world_ok (db_ok rows) (entries_right rows) w) as Hw by (split; apply Hc). unfold list_store.
  assert (world_ok (db_ok rows) (entries_right rows) (register info (list_key info p) p
    (on_cache (cc_SetQueryIDs (list_key info p) (Some (cached_list_of (answer p rows))) ttl) w).1)) as Hw1.
  { apply (on_cache_ok _ _ (cc_SetQueryIDs (list_key info p) (Some (cached_list_of (answer p rows))) ttl)); [done|]. apply Hca, Hw. }
  destruct (Nat.ltb_spec (length (cached_list_of (answer p rows))) cacheListCountLimit) as [Hlt|]; [|done].
  replace (length (cached_list_of (answer p rows))) with (length (answer p rows)); [by apply (store_count_ok info zero ttl rows)|].
  unfold cached_list_of in *. rewrite length_take in *. lia.
Qed.

(** ** Operations in between *)

End overlap.
