(* ===== verification/SaveRaces.v ===== *)
(** * Overlapping saves of one record

    [Save] executes its statement, and afterwards, under the lock of the record,
    writes the entry of the record and invalidates queries.  The statement is not
    under the lock: two saves of one record may execute their statements in one
    order and finalize in the other.  The entry of the record is then that of the
    save which finalized last, not of the statement that was executed last. *)

From S2P Require Import Prelude GoStrings GoStringsFacts GoValues GoValuesFacts Predicate QueryMatch QueryMatchFacts.
From S2P Require Import CacheIndex CacheIndexFacts Metadata LocalCache CacheClient LocalCacheFacts.
From S2P Require Import Invalidate InvalidateFacts MetadataFacts Freshness SqlBuilder Hooks Crud CrudFacts.
From S2P Require Import WriteFacts Query QueryFacts LocalQuery Coherence CoherenceFacts.

Open Scope string_scope.

Section races.
Context `{GoPlatform} `{Gob} `{ModelOps} `{QueryEnv} {D : Type} `{DBAdapter D}.
Context (fs : list sfield) (info : ModelInfo) (zero : gostruct) (ttl : Z) (reg : registry).
Notation lworld := (world local_client D).
Implicit Types (w : lworld) (mu : saveMutation).

(** A finalization leaves locks free, contexts as they were and the database
    alone. *)
Lemma finalize_unlocked mu w : unlocked (w_cache w) →
  unlocked (w_cache (finalizeSave info ttl reg mu w).1.1) ∧
  lc_env (w_cache (finalizeSave info ttl reg mu w).1.1) = lc_env (w_cache w) ∧
  w_db (finalizeSave info ttl reg mu w).1.1 = w_db w.
Proof.
  intros Hu. unfold finalizeSave. destruct (mu_applied mu); [|done]. cbn [negb]. cbv zeta.
  set (key := model_key info (GetID (mu_value mu))).
  pose proof (unlocked_WithLock info (lock_key key) (set_model_action info ttl key (mu_value mu)) w
    (quiet_set_model info ttl _ _) Hu) as Hu2.
  destruct (save_entry_spec info ttl w (mu_value mu)) as (_&_&Hd2&_).
  destruct (save_entry_written info ttl w (mu_value mu)) as (Henv&_); [apply Hu..|]. cbv zeta in *. fold key in Hd2, Henv.
  destruct (WithLock _ _ w) as [w2 r2]. cbn [fst] in *.
  destruct (shrinks_invalidate info (mu_value mu) (mu_original mu) (mu_isNew mu) false w2) as (Hsh&_&Hd3).
  destruct (quiet_shrinks info _ _ Hsh) as [_ Hl3 Hev3].
  destruct (invalidateAffectedQueryCaches _ _ _ _ _ w2) as [w3 r3]. cbn [fst] in *.
  assert (unlocked (w_cache w3)) as Hu3 by by eapply unlocked_same.
  destruct r2; [| |by split_and!]; (destruct r3; split_and!; cbn [fst]; try done; rewrite ?Hev3, ?Hd3; done).
Qed.

End races.
