(* ===== verification/Relations.v ===== *)
(** * Relations (relationships.go)

    The loading of related records: the [thing] tag, the three kinds of
    relation, [Load] and the preloads of [ByIDs].  Struct values do not nest in
    [gostruct], so an owner is its columns together with the relation fields
    that have been set.  What [reflect] says of the types (the fields of the
    owner with their [thing] tags, the metadata and zero value of a related
    type), SHA-256 and the rows of a raw query are parameters.  The order of Go
    maps is unspecified; sets are read in the order of their elements. *)

From S2P Require Import Prelude GoStrings GoValues Predicate QueryMatch CacheIndex Metadata LocalCache.
From S2P Require Import CacheClient Invalidate SqlBuilder Hooks Crud Query.

Open Scope string_scope.

(** ** The [thing] tag *)

Record RelationshipOpts := MkRel {
  RelationType : string;
  ForeignKey : string;
  LocalKey : string;
  RelatedModel : string;
  JoinTable : string;
  JoinLocalKey : string;
  JoinRelatedKey : string
}.

(** [strings.SplitN(s, ":", 2)], as a pair when there are two parts. *)
Fixpoint cut_at (sep : ascii) (s : string) : option (string * string) :=
  match s with
  | "" => None
  | String c s => if bool_decide (c = sep) then Some ("", s)
                  else match cut_at sep s with Some (a, b) => Some (String c a, b) | None => None end
  end.

Definition thing_part (opts : RelationshipOpts) (part : string) : result RelationshipOpts :=
  match cut_at ":" part with
  | None => Err (ErrMsg "invalid key-value pair in thing tag")
  | Some (k, v) =>
      let key := TrimSpace k in
      let value := TrimSpace v in
      let '(MkRel ty fk lk rm jt jl jr) := opts in
      if (key =? "fk") || (key =? "foreignKey") then Ok (MkRel ty value lk rm jt jl jr)
      else if key =? "localKey" then Ok (MkRel ty fk value rm jt jl jr)
      else if (key =? "model") || (key =? "relatedModel") then Ok (MkRel ty fk lk value jt jl jr)
      else if key =? "joinTable" then Ok (MkRel ty fk lk rm value jl jr)
      else if key =? "joinLocalKey" then Ok (MkRel ty fk lk rm jt value jr)
      else if key =? "joinRelatedKey" then Ok (MkRel ty fk lk rm jt jl value)
      else Err (ErrMsg "unknown key in thing tag")
  end.

Fixpoint thing_parts (opts : RelationshipOpts) (parts : list string) : result RelationshipOpts :=
  match parts with
  | [] => Ok opts
  | p :: parts => opts ← thing_part opts p; thing_parts opts parts
  end.

Definition parseThingTag (tag : string) : result RelationshipOpts :=
  if tag =? "" then Err (ErrMsg "empty thing tag")
  else match Split tag ";" with
  | [] => Err (ErrMsg "invalid thing tag format")
  | ty :: parts =>
      if negb ((ty =? "belongsTo") || (ty =? "hasMany") || (ty =? "manyToMany"))
      then Err (ErrMsg "unsupported relation type in thing tag")
      else
        opts ← thing_parts (MkRel ty "" "" "" "" "" "") parts;
        if ((ty =? "belongsTo") || (ty =? "hasMany")) && (ForeignKey opts =? "")
        then Err (ErrMsg "missing 'fk' (foreignKey) in thing tag")
        else if (ty =? "manyToMany") &&
                ((JoinTable opts =? "") || (JoinLocalKey opts =? "") || (JoinRelatedKey opts =? ""))
        then Err (ErrMsg "missing joinTable/joinLocalKey/joinRelatedKey in thing tag for manyToMany relation")
        else Ok opts
  end.

(** ** JSON lists of ids ([encoding/json] on [[]int64]) *)

Definition MarshalIDs (ids : list Z) : string :=
  match ids with
  | [] => "null"                        (* the slice is nil when no row was read *)
  | _ => "[" +:+ Join (FormatInt <$> ids) "," +:+ "]"
  end.

Definition json_ws : string := String " " (String "009" (String "010" (String "013" ""))).

Fixpoint all_digits (s : string) : bool :=
  match s with "" => true | String c s => is_digit c && all_digits s end.

(** An integer literal of JSON: no leading zero. *)
Definition json_nat (s : string) : bool :=
  match s with
  | "" => false
  | String "0" rest => rest =? ""
  | s => all_digits s
  end.

Definition json_int (s : string) : option Z :=
  let digits := match s with String "-" s => s | s => s end in
  if json_nat digits then ParseInt s else None.

(** An element of the array; [null] leaves the zero value. *)
Definition json_elem (s : string) : option Z :=
  let s := Trim s json_ws in
  if s =? "null" then Some 0%Z else json_int s.

Definition UnmarshalIDs (val : string) : option (list Z) :=
  let s := Trim val json_ws in
  if s =? "null" then Some []
  else match s with
  | String "[" body =>
      if HasSuffix body "]" then
        let body := TrimSuffix body "]" in
        if Trim body json_ws =? "" then Some [] else mapM json_elem (Split body ",")
      else None
  | _ => None
  end.

(** ** Keys of Go maps

    [map[interface{}]...]: equality of dynamic values.  Pointers are compared
    by identity, and the pointers of two fields differ unless both are nil.  A
    slice, map or function is no key: the operation panics. *)
Fixpoint key_eq_val (a b : goval) : bool :=
  match a, b with
  | VPtr t p, VPtr t' p' => bool_decide (t = t') && negb (bool_decide (is_Some p)) && negb (bool_decide (is_Some p'))
  | VNamed n x, VNamed n' y => (n =? n') && key_eq_val x y
  | a, b => deep_equal a b
  end.
Definition key_eq (a b : option goval) : bool :=
  match a, b with
  | None, None => true
  | Some x, Some y => key_eq_val x y
  | _, _ => false
  end.

Definition hashable (a : option goval) : bool :=
  match a with
  | Some v => match kindof v with KSlice | KMap | KFunc => false | _ => true end
  | None => true
  end.

Definition unhashable_panic : string := "runtime error: hash of unhashable type".

Abbreviation kmap A := (list (option goval * A)).
Fixpoint kget {A} (m : kmap A) (k : option goval) : option A :=
  match m with
  | [] => None
  | (k', a) :: m => if key_eq k k' then Some a else kget m k
  end.

(** The keys of a set built by insertion. *)
Fixpoint distinct_keys (seen ks : list (option goval)) : list (option goval) :=
  match ks with
  | [] => []
  | k :: ks => if existsb (key_eq k) seen then distinct_keys seen ks else k :: distinct_keys (k :: seen) ks
  end.

(** [fmt.Sprintf("%v", x)]. *)
Definition fmt_any `{GoPlatform} (x : option goval) : string :=
  match x with Some v => fmt_v v | None => "<nil>" end.

(** ** Owners and relation fields *)

(** A relation field that has been set: a pointer to a record or a slice. *)
Inductive relation_value :=
  | RelPtr (m : gostruct)
  | RelSlice (ms : list gostruct).

Record loaded := MkLoaded { l_model : gostruct; l_rels : gmap string relation_value }.

(** [relationField.CanSet()] holds for exported fields. *)
Definition set_relation (name : string) (v : relation_value) (o : loaded) : loaded :=
  if IsExported name then MkLoaded (l_model o) (<[name := v]> (l_rels o)) else o.

Record related_model := MkRelated { rm_info : result ModelInfo; rm_zero : gostruct }.

(** The rows of a raw query that selects ids. *)
Inductive id_rows :=
  | RowsQueryErr (e : goerr)
  | RowsScanErr (e : goerr)
  | RowsIterErr (e : goerr)
  | RowsIDs (ids : list Z).

Class RelationEnv (D : Type) := {
  sha256_hex : string → string;
  db_QueryIDs : string → list (option goval) → D → D * id_rows
}.

(** [sql.ErrNoRows]. *)
Definition sql_ErrNoRows : goerr := ErrMsg "sql: no rows in result set".

(** ** Preloading *)

Section preload.
Context `{GoPlatform} `{ModelOps} `{QueryEnv} {C D : Type} `{CacheClient C} `{DBAdapter D} `{RelationEnv D}.

(** The owning model: its metadata and the fields of its struct type with their
    types and [thing] tags; the related types; the TTL. *)
Context (info : ModelInfo) (fields : gmap string (gotype * string)) (related : gotype → related_model) (ttl : Z).

Abbreviation outcome := (world C D * list loaded * result unit)%type.

(** [FieldByName] on the owners or on the records, as an interface. *)
Definition field_keys (name : string) (owners : list loaded) : list (option goval) :=
  omap (λ o, value_Interface <$> FieldByName (l_model o) name) owners.

(** *** belongsTo *)

(** A foreign key converted to [int64]. *)
Definition fk_int64 (fkFieldName : string) (m : gostruct) : option Z :=
  match FieldByName m fkFieldName with
  | Some v =>
      if ConvertibleTo (typeof v) (TInt W64) then
        match Convert v (TInt W64) with Some (VInt _ z) => Some z | _ => None end
      else None
  | None => None
  end.

(** The Go field of a column, or the name itself when it is a field. *)
Definition fk_field (columns : gmap string string) (is_field : string → bool) (fk : string) : option string :=
  match columns !! fk with
  | Some f => Some f
  | None => if is_field fk then Some fk else None
  end.

Definition attach_one (name fkField : string) (relatedMap : gmap Z gostruct) (o : loaded) : loaded :=
  match fk_int64 fkField (l_model o) with
  | Some key => match relatedMap !! key with
                | Some m => set_relation name (RelPtr m) o
                | None => o
                end
  | None => o
  end.

Definition preloadBelongsTo (name : string) (t : gotype) (opts : RelationshipOpts) (owners : list loaded)
    (w : world C D) : outcome :=
  match under_type t with
  | TPtr r =>
      if negb (bool_decide (type_kind r = KStruct))
      then (w, owners, Err (ErrMsg "belongsTo field must be a pointer to a struct"))
      else match fk_field (ColumnToFieldMap info) (λ f, bool_decide (is_Some (fields !! f))) (ForeignKey opts) with
      | None => (w, owners, Err (ErrMsg "foreign key field (from tag 'fk') not found in owning model"))
      | Some fkField =>
          let keys : gset Z :=
            list_to_set (filter (λ k, k ≠ 0%Z) (omap (λ o, fk_int64 fkField (l_model o)) owners)) in
          if bool_decide (keys = ∅) then (w, owners, Ok ())
          else match rm_info (related r) with
          | Err e => (w, owners, Err (ErrWrap "failed to get model info for related type" e))
          | Panic m => (w, owners, Panic m)
          | Ok rinfo =>
              let '(w, res) := fetchModelsByIDsInternal rinfo (rm_zero (related r)) ttl (elements keys) w in
              match res with
              | Err e => (w, owners, Err (ErrWrap "failed to fetch related models using internal helper" e))
              | Panic m => (w, owners, Panic m)
              | Ok relatedMap => (w, attach_one name fkField relatedMap <$> owners, Ok ())
              end
          end
      end
  | _ => (w, owners, Err (ErrMsg "belongsTo field must be a pointer to a struct"))
  end.

(** *** hasMany *)

(** The related struct type of a slice field (of structs or of pointers). *)
Definition slice_model (t : gotype) : option gotype :=
  match under_type t with
  | TSlice e =>
      match under_type e with
      | TPtr r => if bool_decide (type_kind r = KStruct) then Some r else None
      | _ => if bool_decide (type_kind e = KStruct) then Some e else None
      end
  | _ => None
  end.

Definition in_where (fkCol : string) (n : nat) : string :=
  dquote fkCol +:+ " IN (" +:+ question_marks n +:+ ")".

(** The key of the cached list of related ids; [None] when marshalling fails. *)
Definition related_list_key (table : string) (params : QueryParams) : option string :=
  let text := json_Marshal (MkQueryParams (Where params) ((λ a, Some (VString (fmt_any a))) <$> Args params)
                              (Order params) (Preloads params) (IncludeDeleted params)) in
  (λ text, "list:" +:+ table +:+ ":" +:+ sha256_hex (table +:+ text)) <$> text.

(** The ids the database gives, cached under the key. *)
Definition related_ids_from_db (rinfo : ModelInfo) (params : QueryParams) (key : option string) (w : world C D)
    : world C D * result (list Z) :=
  let query := BuildSelectSQL (TableName rinfo) [PkName rinfo] +:+ " WHERE " +:+ Where params in
  let '(w, r) := on_db (db_SelectIDs query (Args params)) w in
  let r := match r with Err e => if errors_Is e sql_ErrNoRows then Ok [] else Err e | r => r end in
  match r with
  | Err e => (w, Err (ErrWrap "failed to fetch related IDs" e))
  | Panic m => (w, Panic m)
  | Ok ids =>
      let w := match key with
               | Some key =>
                   if bool_decide (ids = []) then (on_cache (cc_Set key NoneResult ttl) w).1
                   else (on_cache (cc_SetQueryIDs key (Some ids) ttl) w).1
               | None => w
               end in
      (w, Ok ids)
  end.

Definition related_ids (rinfo : ModelInfo) (params : QueryParams) (w : world C D) : world C D * result (list Z) :=
  match related_list_key (TableName rinfo) params with
  | Some key =>
      let '(w, r) := on_cache (cc_GetQueryIDs key) w in
      match r with
      | Ok ids => (w, Ok (default [] ids))
      | Err _ => related_ids_from_db rinfo params (Some key) w
      | Panic m => (w, Panic m)
      end
  | None => related_ids_from_db rinfo params None w
  end.

(** The records with a foreign key equal to [k]; records without the field are
    skipped. *)
Definition fk_matches (fkField : string) (k : option goval) (m : gostruct) : bool :=
  match FieldByName m fkField with
  | Some v => key_eq k (value_Interface v)
  | None => false
  end.
Definition group_of (fkField : string) (records : list gostruct) (k : option goval) : list gostruct :=
  filter (λ m, fk_matches fkField k m = true) records.

Definition attach_many (name lkField fkField : string) (records : list gostruct) (o : loaded) : loaded :=
  set_relation name
    (RelSlice match FieldByName (l_model o) lkField with
              | Some v => group_of fkField records (value_Interface v)
              | None => []
              end) o.

(** A value index entry per owner. *)
Definition register_owner_key (table column : string) (k : option goval) (w : world C D) : world C D :=
  on_index (RegisterQuery table (table +:+ ":" +:+ fmt_any k) (MkQueryParams (column +:+ " = ?") [k] "" [] false)) w.

Definition preloadHasMany (name : string) (t : gotype) (opts : RelationshipOpts) (owners : list loaded)
    (w : world C D) : outcome :=
  match slice_model t with
  | None => (w, owners, Err (ErrMsg "hasMany field must be a slice of structs or pointers to structs"))
  | Some r =>
      match ColumnToFieldMap info !! LocalKey opts with
      | None => (w, owners, Err (ErrMsg "local key column not found in model info"))
      | Some lkField =>
          let all := field_keys lkField owners in
          if negb (forallb hashable all) then (w, owners, Panic unhashable_panic)
          else
            let keys := distinct_keys [] all in
            if bool_decide (keys = []) then (w, set_relation name (RelSlice []) <$> owners, Ok ())
            else match rm_info (related r) with
            | Err e => (w, owners, Err (ErrWrap "failed to get model info for related type" e))
            | Panic m => (w, owners, Panic m)
            | Ok rinfo =>
                match fk_field (ColumnToFieldMap rinfo)
                        (λ f, bool_decide (is_Some (FieldByName (rm_zero (related r)) f))) (ForeignKey opts) with
                | None => (w, owners, Err (ErrMsg "foreign key column (from tag 'fk') not found in related model"))
                | Some fkField =>
                    let params := MkQueryParams (in_where (ForeignKey opts) (length keys)) keys "" [] false in
                    let '(w, res) := related_ids rinfo params w in
                    match res with
                    | Err e => (w, owners, Err e)
                    | Panic m => (w, owners, Panic m)
                    | Ok ids =>
                        let '(w, res) := fetchModelsByIDsInternal rinfo (rm_zero (related r)) ttl ids w in
                        match res with
                        | Panic m => (w, owners, Panic m)
                        | _ =>
                            let records := (map_to_list match res with Ok m => m | _ => ∅ end).*2 in
                            let fks := omap (λ m, value_Interface <$> FieldByName m fkField) records in
                            if negb (forallb hashable fks) then (w, owners, Panic unhashable_panic)
                            else
                              (fold_left (λ w k, register_owner_key (TableName rinfo) (ForeignKey opts) k w) keys w,
                               attach_many name lkField fkField records <$> owners, Ok ())
                        end
                    end
                end
            end
      end
  end.

(** *** manyToMany *)

Definition join_query (opts : RelationshipOpts) : string :=
  "SELECT " +:+ dquote (JoinRelatedKey opts) +:+ " FROM " +:+ dquote (JoinTable opts) +:+
  " WHERE " +:+ dquote (JoinLocalKey opts) +:+ " = ?".

Definition join_key (opts : RelationshipOpts) (k : option goval) : string :=
  JoinTable opts +:+ ":" +:+ JoinLocalKey opts +:+ ":" +:+ fmt_any k.

(** The ids of one owner, and whether they were read from the database (only
    those are collected for loading).  The cached text has no expiry. *)
Definition join_ids (opts : RelationshipOpts) (k : option goval) (w : world C D)
    : world C D * result (list Z * bool) :=
  let '(w, r) := on_cache (cc_Get (join_key opts k)) w in
  match match r with Ok s => UnmarshalIDs s | _ => None end with
  | Some ids => (w, Ok (ids, false))
  | None =>
      let '(w, rows) := on_db (db_QueryIDs (join_query opts) [k]) w in
      match rows with
      | RowsQueryErr e => (w, Err e)
      | RowsScanErr e => (w, Err (ErrWrap "manyToMany scan error" e))
      | RowsIterErr e => (w, Err (ErrWrap "manyToMany rows iteration error" e))
      | RowsIDs ids => ((on_cache (cc_Set (join_key opts k) (MarshalIDs ids) 0%Z) w).1, Ok (ids, true))
      end
  end.

(** The ids per owner and the set of ids to load. *)
Fixpoint join_loop (opts : RelationshipOpts) (keys : list (option goval)) (m : kmap (list Z)) (all : gset Z)
    (w : world C D) : world C D * result (kmap (list Z) * gset Z) :=
  match keys with
  | [] => (w, Ok (m, all))
  | k :: keys =>
      let '(w, r) := join_ids opts k w in
      match r with
      | Err e => (w, Err e)
      | Panic msg => (w, Panic msg)
      | Ok (ids, from_db) =>
          let w := register_owner_key (JoinTable opts) (JoinLocalKey opts) k w in
          if negb (hashable k) then (w, Panic unhashable_panic)
          else join_loop opts keys ((k, ids) :: m) (if from_db : bool then list_to_set ids ∪ all else all) w
      end
  end.

Definition attach_joined (name lkField : string) (m : kmap (list Z)) (records : gmap Z gostruct) (o : loaded) : loaded :=
  match FieldByName (l_model o) lkField with
  | Some v =>
      let ids := default [] (kget m (value_Interface v)) in
      set_relation name (RelSlice (omap (λ id, records !! id) ids)) o
  | None => o
  end.

Definition preloadManyToMany (name : string) (t : gotype) (opts : RelationshipOpts) (owners : list loaded)
    (w : world C D) : outcome :=
  match slice_model t with
  | None => (w, owners, Err (ErrMsg "manyToMany field must be a slice of structs or pointers to structs"))
  | Some r =>
      let localKey := if LocalKey opts =? "" then PkName info else LocalKey opts in
      match ColumnToFieldMap info !! localKey with
      | None => (w, owners, Err (ErrMsg "local key column not found in model info"))
      | Some lkField =>
          let keys := field_keys lkField owners in
          if bool_decide (keys = []) then (w, owners, Ok ())
          else if (JoinTable opts =? "") || (JoinLocalKey opts =? "") || (JoinRelatedKey opts =? "")
          then (w, owners, Err (ErrMsg "manyToMany preload: joinTable/joinLocalKey/joinRelatedKey must be set in tag"))
          else
            let '(w, res) := join_loop opts keys [] ∅ w in
            match res with
            | Err e => (w, owners, Err e)
            | Panic m => (w, owners, Panic m)
            | Ok (m, all) =>
                match rm_info (related r) with
                | Err e => (w, owners, Err (ErrWrap "failed to get model info for related type" e))
                | Panic msg => (w, owners, Panic msg)
                | Ok rinfo =>
                    let '(w, res) := fetchModelsByIDsInternal rinfo (rm_zero (related r)) ttl (elements all) w in
                    match res with
                    | Err e => (w, owners, Err (ErrWrap "failed to fetch related models" e))
                    | Panic msg => (w, owners, Panic msg)
                    | Ok records => (w, attach_joined name lkField m records <$> owners, Ok ())
                    end
                end
            end
      end
  end.

(** *** Dispatch *)

Definition preloadRelations (owners : list loaded) (name : string) (w : world C D) : outcome :=
  if bool_decide (owners = []) then (w, owners, Ok ())
  else match fields !! name with
  | None => (w, owners, Err (ErrMsg "field not found in model"))
  | Some (t, tag) =>
      match parseThingTag tag with
      | Err e => (w, owners, Err (ErrWrap "failed to parse thing tag for field" e))
      | Panic m => (w, owners, Panic m)
      | Ok opts =>
          let '(MkRel ty fk lk rm jt jl jr) := opts in
          let opts := MkRel ty fk (if lk =? "" then PkName info else lk) rm jt jl jr in
          if ty =? "belongsTo" then preloadBelongsTo name t opts owners w
          else if ty =? "hasMany" then preloadHasMany name t opts owners w
          else if ty =? "manyToMany" then preloadManyToMany name t opts owners w
          else (w, owners, Err (ErrMsg "internal error: unsupported relation type in preloadRelations"))
      end
  end.

(** [loadInternal]: stops at the first error. *)
Fixpoint load_relations (owners : list loaded) (relations : list string) (w : world C D) : outcome :=
  match relations with
  | [] => (w, owners, Ok ())
  | name :: relations =>
      let '(w, owners, r) := preloadRelations owners name w in
      match r with
      | Ok _ => load_relations owners relations w
      | Err e => (w, owners, Err (ErrWrap "failed to load relation" e))
      | Panic m => (w, owners, Panic m)
      end
  end.

Definition Load (model : loaded) (relations : list string) (w : world C D) : world C D * loaded * result unit :=
  let '(w, owners, r) := load_relations [model] relations w in
  (w, default model (head owners), r).

(** The preloads of [ByIDs]: errors are logged and the next one is tried. *)
Fixpoint apply_preloads (owners : list loaded) (preloads : list string) (w : world C D) : outcome :=
  match preloads with
  | [] => (w, owners, Ok ())
  | name :: preloads =>
      let '(w, owners, r) := preloadRelations owners name w in
      match r with
      | Panic m => (w, owners, Panic m)
      | _ => apply_preloads owners preloads w
      end
  end.

Definition ByIDs_preload (zero : gostruct) (ids : list Z) (preloads : list string) (w : world C D)
    : world C D * result (gmap Z loaded) :=
  let '(w, r) := fetchModelsByIDsInternal info zero ttl ids w in
  match r with
  | Err e => (w, Err (ErrWrap "ByIDs failed during internal fetch" e))
  | Panic m => (w, Panic m)
  | Ok found =>
      let l := map_to_list found in
      let '(w, owners, r) := apply_preloads ((λ m, MkLoaded m ∅) <$> l.*2) preloads w in
      match r with
      | Panic m => (w, Panic m)
      | _ => (w, Ok (list_to_map (zip l.*1 owners)))
      end
  end.
End preload.
