(* ===== verification/RelationsFacts.v ===== *)
(** * Relations: properties

    The ids cached for a many-to-many relation survive their JSON text.  When
    the database and the cache agree with the related table, each owner gets
    its related records; a many-to-many relation read from the cache is lost. *)

From S2P Require Import Prelude GoStrings GoStringsFacts GoValues GoValuesFacts Predicate QueryMatch CacheIndex Metadata LocalCache.
From S2P Require Import CacheClient Invalidate SqlBuilder Hooks Crud CrudFacts Query QueryFacts Relations.

Open Scope string_scope.

(** ** JSON lists of ids *)

(** Bytes of a list of ids are no blanks. *)
Lemma int_byte_no_ws c : int_byte c = true → byte_in c json_ws = false.
Proof. destruct c as [[] [] [] [] [] [] [] []]; done. Qed.
Lemma int_byte_no_comma c : int_byte c = true → negb (bool_decide (c = ","%char)) = true.
Proof. destruct c as [[] [] [] [] [] [] [] []]; done. Qed.

Lemma Trim_ints s : str_all (λ c, negb (byte_in c json_ws)) s = true → Trim s json_ws = s.
Proof. apply trim_func_none. Qed.

Lemma FormatInt_no_ws z : str_all (λ c, negb (byte_in c json_ws)) (FormatInt z) = true.
Proof. eapply str_all_impl, FormatInt_bytes. intros c Hc. by rewrite int_byte_no_ws. Qed.

Lemma json_nat_FormatUint n : json_nat (FormatUint n) = true.
Proof.
  destruct (decide (n = 0%N)) as [->|Hn]; [done|].
  destruct (format_head_nonzero (S (N.size_nat n)) n "") as (d&s&Hd&Hf); [split; [lia|apply size_bound]|].
  pose proof (FormatUint_digits n) as Hall. unfold FormatUint in *. rewrite Hf in *. destruct Hd as [Hd0 Hd].
  assert (Hs : all_digits s = true).
  { cbn [str_all] in Hall. apply andb_prop in Hall as [_ Hall]. clear -Hall.
    induction s as [|c s IH]; [done|]. cbn in *. apply andb_prop in Hall as [-> ?]. by apply IH. }
  digits d Hd; [lia|..]; exact Hs.
Qed.

Lemma json_elem_FormatInt z : int64_range z = true → json_elem (FormatInt z) = Some z.
Proof.
  intros Hr. unfold json_elem. rewrite Trim_ints by apply FormatInt_no_ws.
  destruct (String.eqb_spec (FormatInt z) "null") as [E|_].
  { pose proof (FormatInt_bytes z) as Hb. by rewrite E in Hb. }
  unfold json_int. rewrite ParseInt_FormatInt, Hr. assert (json_nat _ = true) as ->; [|done].
  destruct z as [|p|p]; [done| |apply json_nat_FormatUint].
  pose proof (json_nat_FormatUint (Npos p)) as Hn. pose proof (FormatUint_digits (Npos p)) as Hd.
  change (FormatInt (Zpos p)) with (FormatUint (Npos p)). destruct (FormatUint (Npos p)) as [|c s]; [done|].
  cbn [str_all] in Hd. apply andb_prop in Hd as [Hd _].
  destruct c as [[] [] [] [] [] [] [] []]; first [discriminate Hd|exact Hn].
Qed.

Lemma Join_ints_bytes f z ids sep :
  str_all f sep = true → (∀ c, int_byte c = true → f c = true) → str_all f (Join (FormatInt <$> z :: ids) sep) = true.
Proof.
  intros Hsep Hf. assert (Hz : ∀ z, str_all f (FormatInt z) = true) by (intros; by eapply str_all_impl, FormatInt_bytes).
  revert z. induction ids as [|z' ids IH]; intros z; [apply Hz|].
  change (str_all f (FormatInt z +:+ sep +:+ Join (FormatInt <$> z' :: ids) sep) = true).
  by rewrite !str_all_app, Hz, Hsep, IH.
Qed.

(** A list of 64-bit ids written to the cache as JSON is read back. *)
Theorem UnmarshalIDs_MarshalIDs ids :
  Forall (λ z, int64_range z = true) ids → UnmarshalIDs (MarshalIDs ids) = Some ids.
Proof.
  destruct ids as [|z ids]; [done|]. intros Hr. unfold MarshalIDs. set (body := Join (FormatInt <$> z :: ids) ",").
  assert (Hb : str_all (λ c, negb (byte_in c json_ws)) body = true).
  { apply Join_ints_bytes; [done|]. intros c Hc. by rewrite int_byte_no_ws. }
  unfold UnmarshalIDs. rewrite Trim_ints by (change (str_all (λ c, negb (byte_in c json_ws)) (body +:+ "]") = true);
    by rewrite str_all_app, Hb).
  change ("[" +:+ body +:+ "]") with (String "[" (body +:+ "]")).
  destruct (String.eqb_spec (String "[" (body +:+ "]")) "null") as [|_]; [discriminate|]. cbv iota.
  rewrite HasSuffix_app, TrimSuffix_app, Trim_ints by done.
  assert (Hcommas : Split body "," = FormatInt <$> z :: ids).
  { apply Split_Join; [done|]. apply Forall_fmap, Forall_true. intros y. cbn. rewrite no_byte_all.
    eapply str_all_impl, FormatInt_bytes. apply int_byte_no_comma. }
  destruct (String.eqb_spec body "") as [E|_].
  { rewrite E in Hcommas. injection Hcommas as Hz _. apply Forall_cons in Hr as [Hr _].
    apply json_elem_FormatInt in Hr. by rewrite <-Hz in Hr. }
  rewrite Hcommas. apply mapM_Some. apply Forall2_fmap_l, Forall_Forall2_diag.
  eapply Forall_impl; [done|]. apply json_elem_FormatInt.
Qed.

(** ** Keys *)

Lemma key_eq_val_sym a b : key_eq_val a b = true → key_eq_val b a = true.
Proof.
  revert b. induction a; intros x; destruct x; try done; try apply deep_equal_sym.
  - cbn. intros [[E%Is_true_true_2%bool_decide_unpack ?]%andb_prop ?]%andb_prop. rewrite bool_decide_eq_true_2 by congruence.
    by apply andb_true_intro.
  - cbn. intros [E%String.eqb_eq ?]%andb_prop. subst. rewrite String.eqb_refl. by apply IHa.
Qed.

Lemma key_eq_val_trans a b c : key_eq_val a b = true → key_eq_val b c = true → key_eq_val a c = true.
Proof.
  revert b c. induction a; intros x y; destruct x; try done; destruct y; try done; try apply deep_equal_trans.
  - cbn. intros [[?%Is_true_true_2%bool_decide_unpack ?]%andb_prop ?]%andb_prop [[?%Is_true_true_2%bool_decide_unpack ?]%andb_prop ?]%andb_prop.
    rewrite bool_decide_eq_true_2 by congruence. by apply andb_true_intro.
  - cbn. intros [E%String.eqb_eq ?]%andb_prop [E'%String.eqb_eq ?]%andb_prop. subst. rewrite String.eqb_refl. by eapply IHa.
Qed.

Lemma key_eq_sym a b : key_eq a b = true → key_eq b a = true.
Proof. destruct a, b; try done. apply key_eq_val_sym. Qed.
Lemma key_eq_trans a b c : key_eq a b = true → key_eq b c = true → key_eq a c = true.
Proof. destruct a, b, c; try done. apply key_eq_val_trans. Qed.

(** Every key is kept or equal to one that is. *)
Lemma distinct_keys_cover seen ks k :
  k ∈ ks → k ∈ distinct_keys seen ks ∨ ∃ k', (k' ∈ seen ∨ k' ∈ distinct_keys seen ks) ∧ key_eq k k' = true.
Proof.
  revert seen. induction ks as [|x ks IH]; intros seen; [by intros ?%elem_of_nil|].
  cbn [distinct_keys]. destruct (existsb (key_eq x) seen) eqn:E.
  - intros [->|Hk]%elem_of_cons; [|by apply IH]. right. apply existsb_exists in E as (k'&Hin%list_elem_of_In&He). eauto.
  - intros [->|Hk]%elem_of_cons; [left; left|].
    destruct (IH (x :: seen) Hk) as [?|(k'&[[->|?]%elem_of_cons|?]&?)]; [left; by right|right..]; eexists; (split; [|done]);
      rewrite ?elem_of_cons; eauto.
Qed.

Lemma distinct_keys_nil ks : distinct_keys [] ks = [] → ks = [].
Proof. destruct ks; [done|]. cbn. done. Qed.

(** ** Values of a restricted map *)
Lemma restricted_values {A} (m m' : gmap Z A) (P : Z → bool) (f : A → bool) :
  (∀ id, m' !! id = if P id then m !! id else None) → (∀ id x, m !! id = Some x → f x = true → P id = true) →
  filter (λ x, f x = true) (map_to_list m').*2 ≡ₚ filter (λ x, f x = true) (map_to_list m).*2.
Proof.
  intros Hm' Hf. assert (m' = filter (λ kv : Z * A, P kv.1 = true) m) as ->.
  { apply map_eq. intros id. rewrite Hm', map_lookup_filter. destruct (m !! id) as [x|], (P id) eqn:EP; cbn; rewrite ?EP; simplify_option_eq; done. }
  rewrite map_filter_alt, map_to_list_to_map.
  2:{ apply (NoDup_fmap_fst); [|apply NoDup_filter, NoDup_map_to_list].
      intros i x y [_ Hx%elem_of_map_to_list]%list_elem_of_filter [_ Hy%elem_of_map_to_list]%list_elem_of_filter. congruence. }
  assert (Hall : ∀ kv, kv ∈ map_to_list m → f kv.2 = true → P kv.1 = true).
  { intros [id x] Hin%elem_of_map_to_list. by apply Hf. }
  induction (map_to_list m) as [|[id x] l IH]; [done|].
  specialize (IH ltac:(intros kv Hkv; apply Hall; by right)). pose proof (Hall (id, x) ltac:(left)) as Hx. cbn [fst snd] in Hx.
  rewrite filter_cons. cbn [fst]. destruct (decide (P id = true)) as [HP|HP]; rewrite ?fmap_cons; cbn [snd]; rewrite !filter_cons.
  - case_decide; [by rewrite IH|done].
  - rewrite (decide_False (P := f x = true)) by auto. done.
Qed.

(** ** Loading related records *)

Section related.
Context `{GoPlatform} `{ModelOps} `{QueryEnv} {C D : Type} `{CacheClient C} `{DBAdapter D} `{RelationEnv D}.
Context (info : ModelInfo) (fields : gmap string (gotype * string)) (related : gotype → related_model) (ttl : Z).

(** The related type, the rows of its table and the states that agree with it. *)
Context (r : gotype) (rinfo : ModelInfo) (rzero : gostruct) (rows : gmap Z gostruct).
Context (db_ok : D → Prop) (cache_ok : C → Prop).
Context (Hrel : related r = MkRelated (Ok rinfo) rzero).
Context (Hcache : caches_rows rinfo rzero ttl rows cache_ok).
Context (Hans : table_answers rinfo rows db_ok) (Hkey : table_keyed rows).
Notation wok := (world_ok db_ok cache_ok).

(** What the owners keep: their columns and the other relations. *)
Definition same_but (name : string) (o o' : loaded) : Prop :=
  l_model o' = l_model o ∧ ∀ other, other ≠ name → l_rels o' !! other = l_rels o !! other.

Lemma same_but_refl name o : same_but name o o.
Proof. done. Qed.

Lemma set_relation_spec name v o :
  IsExported name = true → same_but name o (set_relation name v o) ∧ l_rels (set_relation name v o) !! name = Some v.
Proof.
  intros He. unfold set_relation, same_but. rewrite He. cbn [l_model l_rels]. split; [split; [done|]|].
  - intros other Hne. by rewrite lookup_insert_ne.
  - apply lookup_insert_eq.
Qed.

Lemma fetch_related ids (w : world C D) :
  wok w → ∃ w' found, fetchModelsByIDsInternal rinfo rzero ttl ids w = (w', Ok found) ∧ wok w' ∧
    ∀ id, found !! id = if bool_decide (id ∈ ids) then row_of rows id else None.
Proof.
  intros Hw. destruct (ByIDs_ok rinfo rzero ttl rows db_ok cache_ok Hcache Hans Hkey ids w Hw) as [Hw' _].
  destruct (fetchModelsByIDs_lemma rinfo rzero ttl rows db_ok ids w) as (found&Hf&Hl); [done..|apply Hw| |].
  { by apply (cr_MGetModel _ _ _ _ _ Hcache), Hw. }
  unfold ByIDs in Hw'. destruct (fetchModelsByIDsInternal rinfo rzero ttl ids w) as [w' res]. cbn [fst snd] in *. subst res.
  by exists w', found.
Qed.

(** *** belongsTo *)

(** The record an owner belongs to. *)
Definition owner_row (fkField : string) (o : loaded) : option gostruct :=
  fk_int64 fkField (l_model o) ≫= row_of rows.

Lemma attach_one_spec name fkField found o :
  IsExported name = true → (∀ key, fk_int64 fkField (l_model o) = Some key → found !! key = row_of rows key) →
  let o' := attach_one name fkField found o in
  same_but name o o' ∧
  l_rels o' !! name = match owner_row fkField o with Some m => Some (RelPtr m) | None => l_rels o !! name end.
Proof.
  intros He Hf. unfold attach_one, owner_row. destruct (fk_int64 fkField (l_model o)) as [key|]; [|done]. simpl.
  rewrite (Hf key eq_refl). destruct (row_of rows key) as [m|]; [by apply set_relation_spec|done].
Qed.

(** Preloading a belongsTo relation gives every owner the row its foreign key names and changes
    nothing else of the owners. *)
Theorem preloadBelongsTo_correct name t opts fkField owners (w : world C D) :
  wok w → IsExported name = true → under_type t = TPtr r → type_kind r = KStruct →
  fk_field (ColumnToFieldMap info) (λ f, bool_decide (is_Some (fields !! f))) (ForeignKey opts) = Some fkField →
  ∃ w' owners', preloadBelongsTo info fields related ttl name t opts owners w = (w', owners', Ok ()) ∧ wok w' ∧
    Forall2 (λ o o', same_but name o o' ∧
      l_rels o' !! name = match owner_row fkField o with Some m => Some (RelPtr m) | None => l_rels o !! name end)
      owners owners'.
Proof.
  intros Hw He Ht Hk Hfk. unfold preloadBelongsTo. rewrite Ht, Hk, Hfk, Hrel. cbv zeta.
  set (keys := list_to_set _ : gset Z).
  assert (Hkeys : ∀ o key, o ∈ owners → fk_int64 fkField (l_model o) = Some key → key ∈ keys ∨ row_of rows key = None).
  { intros o key Ho Hf. destruct (decide (key = 0%Z)) as [->|Hnz].
    - right. unfold row_of. destruct (rows !! 0%Z) as [m|] eqn:E; [|done]. by apply Hkey in E as [_ ?].
    - left. unfold keys. rewrite elem_of_list_to_set, list_elem_of_filter, list_elem_of_omap. eauto. }
  cbn [negb bool_decide]. rewrite bool_decide_eq_true_2 by done. cbn [negb].
  destruct (bool_decide_reflect (keys = ∅)) as [Hnil|Hne].
  - exists w, owners. split_and!; [done..|]. apply Forall_Forall2_diag, Forall_forall. intros o Ho. split; [done|].
    unfold owner_row. destruct (fk_int64 fkField (l_model o)) as [key|] eqn:Ef; [|done]. simpl.
    destruct (Hkeys o key Ho Ef) as [Hin| ->]; [by rewrite Hnil in Hin|done].
  - cbn [rm_info rm_zero]. destruct (fetch_related (elements keys) w Hw) as (w'&found&->&Hw'&Hl).
    exists w', (attach_one name fkField found <$> owners). split_and!; [done..|].
    apply Forall2_fmap_r, Forall_Forall2_diag, Forall_forall. intros o Ho.
    apply attach_one_spec; [done|]. intros key Hf. rewrite Hl.
    case_bool_decide as Hin; [done|]. rewrite elem_of_elements in Hin.
    by destruct (Hkeys o key Ho Hf) as [?| ->].
Qed.

(** *** hasMany *)

(** The rows as a caller sees them. *)
Definition stored_rows : gmap Z gostruct := setNewRecordFlagIfBaseModel false <$> rows.

(** The records whose foreign key is [k]. *)
Definition records_of (fkField : string) (k : option goval) : list gostruct :=
  group_of fkField (map_to_list stored_rows).*2 k.

(** A list of the ids of the records whose foreign key is one of [keys]. *)
Definition ids_right (fkField : string) (keys : list (option goval)) (ids : list Z) : Prop :=
  ∀ id, id ∈ ids ↔ ∃ m k, row_of rows id = Some m ∧ k ∈ keys ∧ fk_matches fkField k m = true.

(** The database answers the SELECT of the related ids with the right ones; what
    is cached under the key of the list is not trusted. *)
Record caches_related (fkField : string) (params : QueryParams) : Prop := {
  cl_get c key : cache_ok c → related_list_key (TableName rinfo) params = Some key →
    cache_ok (cc_GetQueryIDs key c).1 ∧ is_Panic (cc_GetQueryIDs key c).2 = false;
  cl_set c key ids : cache_ok c → related_list_key (TableName rinfo) params = Some key →
    ids_right fkField (Args params) ids → cache_ok (cc_SetQueryIDs key (Some ids) ttl c).1;
  cl_none c key : cache_ok c → related_list_key (TableName rinfo) params = Some key →
    ids_right fkField (Args params) [] → cache_ok (cc_Set key NoneResult ttl c).1;
  cl_select d : db_ok d →
    let a := db_SelectIDs (BuildSelectSQL (TableName rinfo) [PkName rinfo] +:+ " WHERE " +:+ Where params) (Args params) d in
    db_ok a.1 ∧ ∃ ids, a.2 = Ok ids ∧ ids_right fkField (Args params) ids
}.

Lemma related_ids_from_db_ok fkField params key (w : world C D) :
  caches_related fkField params → wok w → (∀ k, key = Some k → related_list_key (TableName rinfo) params = Some k) →
  ∃ w' ids, related_ids_from_db ttl rinfo params key w = (w', Ok ids) ∧ wok w' ∧ ids_right fkField (Args params) ids.
Proof.
  intros Hcl Hw Hk. unfold related_ids_from_db.
  destruct (cl_select _ _ Hcl (w_db w)) as (Hd&ids&Hids&Hr); [apply Hw|].
  pose proof (on_db_ok db_ok cache_ok _ w Hw Hd) as Hw1. rewrite <-(on_db_result (C := C) _ w) in Hids.
  destruct (on_db _ w) as [w1 a]. cbn [fst snd] in *. subst a. cbv zeta iota.
  eexists _, ids. split; [done|]. split; [|done]. destruct key as [k|]; [|done]. specialize (Hk k eq_refl).
  case_bool_decide as Hnil; (apply (on_cache_ok db_ok cache_ok); [done|]).
  - subst ids. by apply (cl_none _ _ Hcl); [apply Hw1|..].
  - by apply (cl_set _ _ Hcl); [apply Hw1|..].
Qed.

(** The list of related ids the cache answers with, if it has one. *)
Definition cached_related (params : QueryParams) (c : C) : option (list Z) :=
  key ← related_list_key (TableName rinfo) params;
  match (cc_GetQueryIDs key c).2 with Ok l => Some (default [] l) | _ => None end.

Lemma related_ids_ok fkField params (w : world C D) :
  caches_related fkField params → wok w →
  ∃ w' ids, related_ids ttl rinfo params w = (w', Ok ids) ∧ wok w' ∧
    match cached_related params (w_cache w) with Some l => ids = l | None => ids_right fkField (Args params) ids end.
Proof.
  intros Hcl Hw. unfold related_ids, cached_related. destruct (related_list_key (TableName rinfo) params) as [key|] eqn:Ek; cbn.
  - destruct (cl_get _ _ Hcl (w_cache w) key) as [Hc Hr]; [apply Hw|done|].
    pose proof (on_cache_ok db_ok cache_ok (cc_GetQueryIDs key) w Hw Hc) as Hw1.
    rewrite <-!(on_cache_result (D := D) _ w) in *. destruct (on_cache (cc_GetQueryIDs key) w) as [w1 res]. cbn [fst snd] in *.
    destruct res as [l|e|m]; [eauto| |done]. apply related_ids_from_db_ok; [done..|]. intros k [= <-]. done.
  - by apply related_ids_from_db_ok.
Qed.

Lemma fold_register_ok table column (keys : list (option goval)) (w : world C D) :
  wok w → wok (fold_left (λ w k, register_owner_key table column k w) keys w).
Proof. revert w. induction keys as [|k keys IH]; intros w Hw; [done|]. by apply IH. Qed.

Lemma fk_matches_eq fkField k k' m : key_eq k k' = true → fk_matches fkField k m = true → fk_matches fkField k' m = true.
Proof. unfold fk_matches. destruct (FieldByName m fkField); [|done]. eauto using key_eq_sym, key_eq_trans. Qed.

Lemma field_keys_elem lkField owners o v :
  o ∈ owners → FieldByName (l_model o) lkField = Some v → value_Interface v ∈ field_keys lkField owners.
Proof. intros Ho Hv. apply list_elem_of_omap. exists o. by rewrite Hv. Qed.

(** The records fetched for a right list are those of every owner. *)
Lemma group_of_found fkField keys ids (found : gmap Z gostruct) k :
  ids_right fkField keys ids → (∀ id, found !! id = if bool_decide (id ∈ ids) then row_of rows id else None) →
  k ∈ keys ∨ (∃ k', k' ∈ keys ∧ key_eq k k' = true) →
  group_of fkField (map_to_list found).*2 k ≡ₚ records_of fkField k.
Proof.
  intros Hr Hl Hk. apply (restricted_values stored_rows found (λ id, bool_decide (id ∈ ids))).
  - intros id. rewrite Hl. unfold stored_rows, row_of. by rewrite lookup_fmap.
  - intros id m Hm Hf. unfold stored_rows in Hm. rewrite lookup_fmap in Hm. apply bool_decide_eq_true_2, Hr.
    destruct Hk as [Hk|(k'&Hk&He)]; [by exists m, k|]. exists m, k'. split; [done|]. split; [done|]. by eapply fk_matches_eq.
Qed.

(** The records with one of the ids whose foreign key is [k]. *)
Definition records_among (ids : list Z) (fkField : string) (k : option goval) : list gostruct :=
  group_of fkField (map_to_list (filter (λ kv : Z * gostruct, kv.1 ∈ ids) stored_rows)).*2 k.

Lemma found_among (ids : list Z) (found : gmap Z gostruct) :
  (∀ id, found !! id = if bool_decide (id ∈ ids) then row_of rows id else None) →
  found = filter (λ kv : Z * gostruct, kv.1 ∈ ids) stored_rows.
Proof.
  intros Hl. apply map_eq. intros id. rewrite Hl, map_lookup_filter. unfold stored_rows, row_of. rewrite lookup_fmap.
  destruct (rows !! id) as [m|]; cbn; case_bool_decide; by simplify_option_eq.
Qed.

(** C27: preloading a hasMany relation changes nothing of the owners but the relation and gives
    every owner, when the cache has no list of related ids for these owners, exactly the rows of
    the related table whose foreign key equals the owner's local key; when it has one, which no
    write to the related table invalidates (relationships.go:518), exactly those of them that
    are in the list. Assumed: the database answers the SELECT of the related ids with the ids of
    the rows whose foreign key is one of the keys, cached related records agree with the table,
    and keys can be keys of a Go map. *)
Theorem preloadHasMany_correct name t opts lkField fkField owners (w : world C D) :
  let keys := distinct_keys [] (field_keys lkField owners) in
  let params := MkQueryParams (in_where (ForeignKey opts) (length keys)) keys "" [] false in
  wok w → IsExported name = true → slice_model t = Some r →
  ColumnToFieldMap info !! LocalKey opts = Some lkField →
  fk_field (ColumnToFieldMap rinfo) (λ f, bool_decide (is_Some (FieldByName rzero f))) (ForeignKey opts) = Some fkField →
  forallb hashable (field_keys lkField owners) = true →
  (∀ id m v, row_of rows id = Some m → FieldByName m fkField = Some v → hashable (value_Interface v) = true) →
  caches_related fkField params →
  ∃ w' owners', preloadHasMany info related ttl name t opts owners w = (w', owners', Ok ()) ∧ wok w' ∧
    Forall2 (λ o o', same_but name o o' ∧ ∃ ms, l_rels o' !! name = Some (RelSlice ms) ∧
      match FieldByName (l_model o) lkField, cached_related params (w_cache w) with
      | Some v, None => ms ≡ₚ records_of fkField (value_Interface v)
      | Some v, Some ids => ms = records_among ids fkField (value_Interface v)
      | None, _ => ms = []
      end) owners owners'.
Proof.
  intros keys params Hw He Ht Hlk Hfk Hh Hhr Hcl. unfold preloadHasMany. rewrite Ht, Hlk, Hh. cbn [negb]. fold keys.
  destruct (bool_decide_reflect (keys = [])) as [Hnil|Hne].
  - exists w, (set_relation name (RelSlice []) <$> owners). split_and!; [done..|].
    apply Forall2_fmap_r, Forall_Forall2_diag, Forall_forall. intros o Ho.
    destruct (set_relation_spec name (RelSlice []) o He) as [Hs Hv]. split; [done|]. exists []. split; [done|].
    destruct (FieldByName (l_model o) lkField) as [v|] eqn:Ev; [|done].
    apply (field_keys_elem _ owners) in Ev; [|done]. apply distinct_keys_nil in Hnil. rewrite Hnil in Ev. by apply elem_of_nil in Ev.
  - rewrite Hrel. cbn [rm_info rm_zero]. rewrite Hfk. fold params.
    destruct (related_ids_ok fkField _ w Hcl Hw) as (w1&ids&->&Hw1&Hr).
    destruct (fetch_related ids w1 Hw1) as (w2&found&->&Hw2&Hl).
    assert (forallb hashable (omap (λ m, value_Interface <$> FieldByName m fkField) (map_to_list found).*2) = true) as ->.
    { apply forallb_forall. intros x (m&Hm&Hx)%list_elem_of_In%list_elem_of_omap.
      apply list_elem_of_fmap in Hm as ([id m']&->&Hin%elem_of_map_to_list). rewrite Hl in Hin. cbn [snd] in Hx.
      case_bool_decide; [|done]. apply fmap_Some in Hx as (v&Hv&->). by eapply Hhr. }
    cbn [negb]. eexists _, _. split; [done|]. split; [by apply fold_register_ok|].
    apply Forall2_fmap_r, Forall_Forall2_diag, Forall_forall. intros o Ho.
    destruct (set_relation_spec name _ o He : same_but name o (attach_many name lkField fkField (map_to_list found).*2 o) ∧ _)
      as [Hs Hv]. split; [done|]. eexists. split; [exact Hv|].
    destruct (FieldByName (l_model o) lkField) as [v|] eqn:Ev; [|done].
    destruct (cached_related params (w_cache w)) as [l|];
      [subst l; unfold records_among; by rewrite (found_among ids found Hl)|].
    apply (group_of_found fkField keys ids); [done..|].
    destruct (distinct_keys_cover [] (field_keys lkField owners) (value_Interface v)) as [Hin|(k'&[Hin|Hin]&Heq)].
    + by eapply field_keys_elem.
    + by left.
    + by apply elem_of_nil in Hin.
    + right. eauto.
Qed.
End related.

(** ** manyToMany *)

Section many_to_many.
Context `{GoPlatform} `{ModelOps} `{QueryEnv} {C D : Type} `{CacheLaws C} `{DBAdapter D} `{RelationEnv D}.
Context (info : ModelInfo) (related : gotype → related_model) (ttl : Z).
Context (r : gotype) (rinfo : ModelInfo) (rzero : gostruct) (rows : gmap Z gostruct).
Context (db_ok : D → Prop) (cache_ok : C → Prop).
Context (Hrel : related r = MkRelated (Ok rinfo) rzero).
Notation wok := (world_ok db_ok cache_ok).

(** The related ids of each owner in the join table; reads and writes of the
    cached ids do not disturb what the cache holds of the related records. *)
Context (opts : RelationshipOpts) (joined : option goval → list Z).
Record joins_ok : Prop := {
  jo_query d k : db_ok d →
    db_ok (db_QueryIDs (join_query opts) [k] d).1 ∧ (db_QueryIDs (join_query opts) [k] d).2 = RowsIDs (joined k);
  jo_get c k : cache_ok c → cache_ok (cc_Get (join_key opts k) c).1;
  jo_set c k v : cache_ok c → cache_ok (cc_Set (join_key opts k) v 0%Z c).1
}.

(** Nothing is cached for the owners. *)
Definition cold (keys : list (option goval)) (c : C) : Prop := ∀ k, k ∈ keys → ¬ live c (join_key opts k).

Lemma join_ids_cold k keys (w : world C D) :
  joins_ok → wok w → cold (k :: keys) (w_cache w) → join_key opts k ∉ (join_key opts <$> keys) →
  ∃ w', join_ids opts k w = (w', Ok (joined k, true)) ∧ wok w' ∧ cold keys (w_cache w').
Proof.
  intros Hj Hw Hcold Hnew. unfold join_ids.
  assert (Hmiss : ∀ v, (cc_Get (join_key opts k) (w_cache w)).2 ≠ Ok v) by (intros; apply law_Get_miss, Hcold; left).
  pose proof (on_cache_ok db_ok cache_ok (cc_Get (join_key opts k)) w Hw ltac:(apply (jo_get Hj), Hw)) as Hw1.
  assert (Hlive1 : ∀ x, live (w_cache (on_cache (cc_Get (join_key opts k)) w).1) x → live (w_cache w) x).
  { intros x. unfold on_cache. pose proof (law_Get_live (w_cache w) (join_key opts k) x) as Hl.
    by destruct (cc_Get (join_key opts k) (w_cache w)). }
  rewrite <-(on_cache_result (D := D)) in Hmiss. destruct (on_cache (cc_Get (join_key opts k)) w) as [w1 res].
  cbn [fst snd] in *. assert (match res with Ok s => UnmarshalIDs s | _ => None end = None) as ->.
  { destruct res as [v| |]; [by destruct (Hmiss v)|done..]. }
  destruct (jo_query Hj (w_db w1) k) as [Hd Hq]; [apply Hw1|].
  pose proof (on_db_ok db_ok cache_ok _ w1 Hw1 Hd) as Hw2. rewrite <-(on_db_result (C := C)) in Hq.
  assert (Hc2 : w_cache (on_db (db_QueryIDs (join_query opts) [k]) w1).1 = w_cache w1) by (unfold on_db; by destruct (db_QueryIDs _ _ _)).
  destruct (on_db (db_QueryIDs (join_query opts) [k]) w1) as [w2 rs]. cbn [fst snd] in *. subst rs.
  eexists. split; [done|]. split; [apply (on_cache_ok db_ok cache_ok); [done|]; apply (jo_set Hj), Hw2|].
  intros k' Hk' Hl. assert (Hl' : live (cc_Set (join_key opts k) (MarshalIDs (joined k)) 0 (w_cache w2)).1 (join_key opts k')).
  { revert Hl. unfold on_cache. by destruct (cc_Set _ _ _ (w_cache w2)). }
  apply law_Set_live in Hl' as [Heq|Hl'].
  - apply Hnew. rewrite <-Heq. by apply list_elem_of_fmap_2.
  - rewrite Hc2 in Hl'. apply Hlive1 in Hl'. by apply (Hcold k'); [right|].
Qed.

Lemma join_loop_cold keys m all (w : world C D) :
  joins_ok → wok w → cold keys (w_cache w) → NoDup (join_key opts <$> keys) → forallb hashable keys = true →
  ∃ w' all', join_loop opts keys m all w = (w', Ok (reverse ((λ k, (k, joined k)) <$> keys) ++ m, all')%list) ∧ wok w' ∧
    (∀ id, id ∈ all' ↔ id ∈ all ∨ ∃ k, k ∈ keys ∧ id ∈ joined k).
Proof.
  intros Hj. revert m all w. induction keys as [|k keys IH]; intros m all w Hw Hcold Hnd Hh.
  { exists w, all. split_and!; [done..|]. intros id. split; [by left|]. intros [?|(k&?%elem_of_nil&_)]; done. }
  rewrite fmap_cons in Hnd. apply NoDup_cons in Hnd as [Hnew Hnd]. cbn [forallb] in Hh. apply andb_prop in Hh as [Hk Hh].
  destruct (join_ids_cold k keys w Hj Hw Hcold Hnew) as (w1&Heq&Hw1&Hcold1). cbn [join_loop]. rewrite Heq, Hk. cbn [negb].
  destruct (IH ((k, joined k) :: m) (list_to_set (joined k) ∪ all) (register_owner_key (JoinTable opts) (JoinLocalKey opts) k w1))
    as (w2&all2&->&Hw2&Hall); [done..|].
  exists w2, all2. split; [|split; [done|]].
  - do 3 f_equal. rewrite fmap_cons, reverse_cons. by rewrite <-app_assoc.
  - intros id. rewrite Hall, elem_of_union, elem_of_list_to_set. setoid_rewrite elem_of_cons. naive_solver.
Qed.

(** A key is found with its own ids. *)
Lemma kget_joined keys k :
  k ∈ keys → (∀ k', k' ∈ keys → key_eq k k' = true ↔ k = k') →
  kget (reverse ((λ k, (k, joined k)) <$> keys)) k = Some (joined k).
Proof.
  intros Hin Heq. assert (Hin' : (k, joined k) ∈ reverse ((λ k, (k, joined k)) <$> keys)).
  { apply elem_of_reverse, list_elem_of_fmap. eauto. }
  assert (Hall : ∀ k' l, (k', l) ∈ reverse ((λ k, (k, joined k)) <$> keys) → l = joined k' ∧ k' ∈ keys).
  { intros k' l (x&[= -> ->]&Hx)%elem_of_reverse%list_elem_of_fmap. done. }
  induction (reverse _) as [|[k' l] kvs IH]; [by apply elem_of_nil in Hin'|]. cbn [kget].
  destruct (Hall k' l ltac:(left)) as [-> Hk']. destruct (key_eq k k') eqn:Ek.
  - apply Heq in Ek; [by subst|done].
  - apply IH; [|intros; apply Hall; by right]. apply elem_of_cons in Hin' as [[= -> _]|?]; [|done].
    rewrite (proj2 (Heq k' Hk') eq_refl) in Ek. done.
Qed.

Definition join_tag : Prop := JoinTable opts ≠ "" ∧ JoinLocalKey opts ≠ "" ∧ JoinRelatedKey opts ≠ "".

Lemma join_tag_check : join_tag → (JoinTable opts =? "") || (JoinLocalKey opts =? "") || (JoinRelatedKey opts =? "") = false.
Proof.
  intros (?&?&?). by repeat match goal with |- context [?a =? ""] => destruct (String.eqb_spec a ""); [done|] end.
Qed.

Lemma attach_joined_spec name lkField m records o :
  IsExported name = true →
  let o' := attach_joined name lkField m records o in
  same_but name o o' ∧
  l_rels o' !! name = match FieldByName (l_model o) lkField with
                      | Some v => Some (RelSlice (omap (λ id, records !! id) (default [] (kget m (value_Interface v)))))
                      | None => l_rels o !! name
                      end.
Proof.
  intros He. unfold attach_joined. destruct (FieldByName (l_model o) lkField) as [v|]; [by apply set_relation_spec|done].
Qed.


(** Every owner's ids are in the cache. *)
Definition warm (keys : list (option goval)) (ids : option goval → list Z) : Prop :=
  ∀ c k, cache_ok c → k ∈ keys →
    cache_ok (cc_Get (join_key opts k) c).1 ∧ ∃ s, (cc_Get (join_key opts k) c).2 = Ok s ∧ UnmarshalIDs s = Some (ids k).

Lemma join_loop_warm keys ids m all (w : world C D) :
  warm keys ids → cache_ok (w_cache w) → forallb hashable keys = true →
  ∃ w' m', join_loop opts keys m all w = (w', Ok (m', all)).
Proof.
  revert m w. induction keys as [|k keys IH]; intros m w Hwarm Hc Hh; [by eexists _, _|].
  cbn [forallb] in Hh. apply andb_prop in Hh as [Hk Hh]. cbn [join_loop]. unfold join_ids.
  destruct (Hwarm (w_cache w) k Hc ltac:(left)) as (Hc1&s&Hs&Hu).
  assert (Hon : on_cache (cc_Get (join_key opts k)) w =
    (MkWorld (cc_Get (join_key opts k) (w_cache w)).1 (w_index w) (w_db w), Ok s)).
  { unfold on_cache. destruct (cc_Get _ (w_cache w)). cbn in *. by subst. }
  rewrite Hon, Hu, Hk. cbn [negb]. apply IH; [|done..]. intros c k' ? ?. apply Hwarm; [done|by right].
Qed.

(** When the join lists of all owners come from the cache, their ids are never collected
    for loading: preloadManyToMany succeeds and leaves every owner with an empty relation. *)
Theorem preloadManyToMany_warm name t lkField owners ids (w : world C D) :
  let keys := field_keys lkField owners in
  warm keys ids → cache_ok (w_cache w) → keys ≠ [] → join_tag → IsExported name = true → slice_model t = Some r →
  ColumnToFieldMap info !! (if LocalKey opts =? "" then PkName info else LocalKey opts) = Some lkField →
  forallb hashable keys = true →
  ∃ w' owners', preloadManyToMany info related ttl name t opts owners w = (w', owners', Ok ()) ∧
    Forall2 (λ o o', is_Some (FieldByName (l_model o) lkField) → l_rels o' !! name = Some (RelSlice [])) owners owners'.
Proof.
  intros keys Hwarm Hc Hne Htag He Ht Hlk Hh. unfold preloadManyToMany. rewrite Ht, Hlk, join_tag_check by done. fold keys.
  rewrite bool_decide_eq_false_2 by done.
  destruct (join_loop_warm keys ids [] ∅ w) as (w1&m&->); [done..|]. rewrite Hrel. cbn [rm_info rm_zero].
  rewrite elements_empty. change (fetchModelsByIDsInternal rinfo rzero ttl [] w1) with (w1, Ok (∅ : gmap Z gostruct)).
  eexists _, _. split; [done|]. apply Forall2_fmap_r, Forall_Forall2_diag, Forall_forall. intros o Ho [v Hv].
  destruct (attach_joined_spec name lkField m ∅ o He) as [_ Hrel']. rewrite Hv in Hrel'. rewrite Hrel'. do 2 f_equal.
  clear Hrel'. induction (default [] _) as [|id l IH]; [done|]. cbn. rewrite lookup_empty. exact IH.
Qed.
End many_to_many.
