(* ===== verification/QueryPreload.v ===== *)
(** * Queries with relations

    [Fetch] as query.go writes it: every batch of ids is read with
    [ByIDs(ids, params.Preloads...)], so that the models of a page come with the
    relations the query names.  Without relations it is the [Fetch] of Query.v
    ([Fetch_loaded_plain]); with relations it returns the same page
    ([Fetch_loaded_page]), each model with what its preloads attach. *)

From S2P Require Import Prelude GoStrings GoStringsFacts GoValues Predicate QueryMatch CacheIndex Metadata LocalCache.
From S2P Require Import CacheClient LocalCacheFacts Invalidate InvalidateFacts Freshness SqlBuilder Hooks Crud CrudFacts.
From S2P Require Import Query QueryFacts Relations RelationsFacts.

Open Scope string_scope.

Section fetch.
Context `{GoPlatform} `{ModelOps} `{QueryEnv} {C D : Type} `{CacheClient C} `{DBAdapter D} `{RelationEnv D}.
Context (info : ModelInfo) (fields : gmap string (gotype * string)) (related : gotype → related_model).
Context (zero : gostruct) (ttl : Z).

(** One pass over the ids of an iteration. *)
Fixpoint take_kept_loaded (params : QueryParams) (models : gmap Z loaded) (ids : list Z) (needed : nat)
    : list loaded * nat * bool :=
  match ids with
  | [] => ([], 0%nat, false)
  | id :: ids =>
      match models !! id with
      | Some o =>
          if IncludeDeleted params || KeepItem (l_model o) then
            match needed with
            | S O | O => ([o], 1%nat, false)
            | S needed =>
                let '(os, n, bad) := take_kept_loaded params models ids needed in (o :: os, S n, bad)
            end
          else let '(os, n, _) := take_kept_loaded params models ids needed in (os, S n, true)
      | None => let '(os, n, _) := take_kept_loaded params models ids needed in (os, S n, true)
      end
  end.

(** The main loop, as in Query.v, with the relations of the query. *)
Fixpoint fetch_pages_loaded (fuel : nat) (cr : CachedResult) (total offset : Z) (needed : nat) (invalidated : bool)
    (w : world C D) : world C D * CachedResult * option (result (list loaded)) :=
  match needed with
  | O => (w, cr, Some (Ok []))
  | _ =>
      match fuel with
      | O => (w, cr, None)
      | S fuel =>
          let '(w, o) := ids_to_check info cr total offset needed w in
          match o with
          | None => (w, cr, Some (Ok []))
          | Some (Err e) => (w, cr, Some (Err e))
          | Some (Panic m) => (w, cr, Some (Panic m))
          | Some (Ok (_, [])) => (w, cr, Some (Ok []))
          | Some (Ok (source, ids)) =>
              let cached := match source with FromCache => true | FromDatabase => false end in
              let '(w, r) := ByIDs_preload info fields related ttl zero ids (Preloads (cr_params cr)) w in
              match r with
              | Panic m => (w, cr, Some (Panic m))
              | Err _ =>
                  let '(w, cr) := if cached && negb invalidated then invalidateCache info cr w else (w, cr) in
                  fetch_pages_loaded fuel cr total (offset + Z.of_nat (length ids)) needed (invalidated || cached) w
              | Ok models =>
                  let '(os, processed, bad) := take_kept_loaded (cr_params cr) models ids needed in
                  let stale := cached && bad && negb invalidated in
                  let '(w, cr) := if stale then invalidateCache info cr w else (w, cr) in
                  let '(w, cr, r) :=
                    fetch_pages_loaded fuel cr total (offset + Z.of_nat processed) (needed - length os)
                      (invalidated || stale) w in
                  (w, cr, match r with Some (Ok rest) => Some (Ok (os ++ rest)%list) | r => r end)
              end
          end
      end
  end.

Definition Fetch_loaded (cr : CachedResult) (offset limit : Z) (w : world C D)
    : world C D * CachedResult * option (result (list loaded)) :=
  match cr_Err cr with
  | Some e => (w, cr, Some (Err e))
  | None =>
      let '(w, cr, r) := fetch_ids info zero ttl cr w in
      match r with
      | Err e => (w, cr, Some (Err (ErrWrap "failed to fetch underlying IDs" e)))
      | Panic m => (w, cr, Some (Panic m))
      | Ok _ =>
          if bool_decide (cr_cachedIDs cr = []) then (w, cr, Some (Ok []))
          else
            let '(w, cr, r) := Count info ttl cr w in
            match r with
            | Panic m => (w, cr, Some (Panic m))
            | _ =>
                let total := match r with Ok n => n | _ => Z.of_nat (length (cr_cachedIDs cr)) end in
                if (limit <? 0)%Z then (w, cr, Some (Panic "makeslice: cap out of range"))
                else fetch_pages_loaded (page_fuel cr total offset) cr total offset (Z.to_nat limit) false w
            end
      end
  end.

(** ** Models and their relations *)

Lemma take_kept_models params models ids needed :
  take_kept params (l_model <$> models) ids needed =
  (l_model <$> (take_kept_loaded params models ids needed).1.1, (take_kept_loaded params models ids needed).1.2,
   (take_kept_loaded params models ids needed).2).
Proof.
  revert needed. induction ids as [|id ids IH]; intros needed; [done|]. cbn [take_kept take_kept_loaded].
  rewrite lookup_fmap. destruct (models !! id) as [o|]; cbn [fmap option_fmap option_map].
  2: { rewrite IH. by destruct (take_kept_loaded params models ids needed) as [[os n] b]. }
  destruct (_ || _).
  - destruct needed as [|[|needed]]; [done..|]. rewrite IH. by destruct (take_kept_loaded params models ids (S needed)) as [[os n] b].
  - rewrite IH. by destruct (take_kept_loaded params models ids needed) as [[os n] b].
Qed.

(** The pass hands out models of the batch. *)
Lemma take_kept_from params models ids needed o :
  o ∈ (take_kept_loaded params models ids needed).1.1 → ∃ id, models !! id = Some o.
Proof.
  revert needed. induction ids as [|id ids IH]; intros needed; [by intros ?%elem_of_nil|]. cbn [take_kept_loaded].
  destruct (models !! id) as [o'|] eqn:E.
  2: { specialize (IH needed). by destruct (take_kept_loaded params models ids needed) as [[os n] b]. }
  destruct (_ || _).
  - destruct needed as [|[|needed]]; [intros ->%list_elem_of_singleton; eauto..|]. specialize (IH (S needed)).
    destruct (take_kept_loaded params models ids (S needed)) as [[os n] b]. simpl. intros [->|?]%elem_of_cons; eauto.
  - specialize (IH needed). by destruct (take_kept_loaded params models ids needed) as [[os n] b].
Qed.

(** Keys zipped with as many values are the keys of the map. *)
Lemma zip_models (found : gmap Z gostruct) (owners : list loaded) :
  l_model <$> owners = (map_to_list found).*2 →
  l_model <$> (list_to_map (zip (map_to_list found).*1 owners) : gmap Z loaded) = found.
Proof.
  intros Ho. rewrite <-list_to_map_fmap. rewrite <-(list_to_map_to_list found) at 2. f_equal.
  assert (length owners = length (map_to_list found)) as Hlen by (apply (f_equal length) in Ho; by rewrite !length_fmap in Ho).
  rewrite <-(zip_fst_snd (map_to_list found)) at 2. rewrite <-Ho. generalize ((map_to_list found).*1). clear.
  intros ks. revert owners. induction ks as [|k ks IH]; intros [|o owners]; [done..|]. simpl. f_equal. apply IH.
Qed.

(** ** Without relations *)

Definition bare (m : gostruct) : loaded := MkLoaded m ∅.
Definition bare_page (r : option (result (list gostruct))) : option (result (list loaded)) :=
  match r with
  | Some (Ok ms) => Some (Ok (bare <$> ms))
  | Some (Err e) => Some (Err e)
  | Some (Panic m) => Some (Panic m)
  | None => None
  end.

Lemma fetch_no_error ids (w : world C D) e : (fetchModelsByIDsInternal info zero ttl ids w).2 ≠ Err e.
Proof.
  unfold fetchModelsByIDsInternal. destruct (bool_decide _); [done|]. destruct (on_cache _ w) as [w1 rs].
  destruct (existsb is_Panic rs); [done|]. destruct (split_cached ids rs). by destruct (fetch_batches _ _ _ _ _ _).
Qed.

Lemma ByIDs_preload_nil ids (w : world C D) :
  ByIDs_preload info fields related ttl zero ids [] w =
  ((ByIDs info zero ttl ids w).1,
   match (ByIDs info zero ttl ids w).2 with Ok found => Ok (bare <$> found) | Err e => Err e | Panic m => Panic m end).
Proof.
  unfold ByIDs_preload, ByIDs. pose proof (fetch_no_error ids w) as Hne.
  destruct (fetchModelsByIDsInternal info zero ttl ids w) as [w1 [found|e|]]; [|by destruct (Hne e)|done].
  cbn. do 2 f_equal. rewrite <-(list_to_map_to_list found) at 3. rewrite <-list_to_map_fmap. f_equal.
  generalize (map_to_list found). intros l. induction l as [|[k m] l IH]; [done|]. simpl. f_equal. apply IH.
Qed.

Lemma take_kept_bare params models ids needed :
  take_kept_loaded params (bare <$> models) ids needed =
  (bare <$> (take_kept params models ids needed).1.1, (take_kept params models ids needed).1.2,
   (take_kept params models ids needed).2).
Proof.
  revert needed. induction ids as [|id ids IH]; intros needed; [done|]. cbn [take_kept take_kept_loaded].
  rewrite lookup_fmap. destruct (models !! id) as [m|]; cbn [fmap option_fmap option_map].
  2: { rewrite IH. by destruct (take_kept params models ids needed) as [[ms n] b]. }
  cbn [l_model bare]. destruct (_ || _).
  - destruct needed as [|[|needed]]; [done..|]. rewrite IH. by destruct (take_kept params models ids (S needed)) as [[ms n] b].
  - rewrite IH. by destruct (take_kept params models ids needed) as [[ms n] b].
Qed.

Lemma invalidateCache_params cr (w : world C D) : cr_params (invalidateCache info cr w).2 = cr_params cr.
Proof. done. Qed.

Lemma fetch_pages_plain fuel cr total offset needed invalidated (w : world C D) :
  Preloads (cr_params cr) = [] →
  fetch_pages_loaded fuel cr total offset needed invalidated w =
  let a := fetch_pages info zero ttl fuel cr total offset needed invalidated w in (a.1.1, a.1.2, bare_page a.2).
Proof.
  revert cr offset needed invalidated w. induction fuel as [|fuel IH]; intros cr offset needed invalidated w Hp;
    [by destruct needed|]. destruct needed as [|needed]; [done|]. cbn [fetch_pages_loaded fetch_pages].
  destruct (ids_to_check info cr total offset (S needed) w) as [w1 [[[source [|id ids]]| |]|]]; try done.
  rewrite Hp, ByIDs_preload_nil. destruct (ByIDs info zero ttl (id :: ids) w1) as [w2 [models| |]]; cbn [fst snd]; [| |done].
  - rewrite take_kept_bare. destruct (take_kept (cr_params cr) models (id :: ids) (S needed)) as [[ms n] bad]. cbn [fst snd].
    rewrite length_fmap.
    match goal with |- context [if ?b then invalidateCache info cr w2 else _] =>
      assert (Preloads (cr_params (if b then invalidateCache info cr w2 else (w2, cr)).2) = []) as Hp3 by (by destruct b);
      destruct (if b then _ else _) as [w3 cr3] end.
    rewrite IH by done. cbv zeta. destruct (fetch_pages _ _ _ _ _ _ _ _ _ w3) as [[w4 cr4] [[rest| |]|]]; [|done..].
    cbn. by rewrite fmap_app.
  - match goal with |- context [if ?b then invalidateCache info cr w2 else _] =>
      assert (Preloads (cr_params (if b then invalidateCache info cr w2 else (w2, cr)).2) = []) as Hp3 by (by destruct b);
      destruct (if b then _ else _) as [w3 cr3] end.
    by rewrite IH.
Qed.

Lemma fetch_ids_params cr (w : world C D) : cr_params (fetch_ids info zero ttl cr w).1.2 = cr_params cr.
Proof. unfold fetch_ids. destruct (cr_hasLoadedIDs cr); [done|]. by destruct (fetch_data _ _ _ _ _) as [w1 [| |]]. Qed.
Lemma Count_params cr (w : world C D) : cr_params (Count info ttl cr w).1.2 = cr_params cr.
Proof.
  unfold Count. destruct (cr_hasLoadedCount cr); [done|]. destruct (read_count _ w) as [w1 [|]]; [done|].
  destruct (read_short_list _ w1) as [w2 [|]]; [done|]. by destruct (on_db _ w2) as [w3 [| |]].
Qed.

(** Without relations to load, Fetch with its preloads does what the plain Fetch does: same
    cache, index, database and result, each model without relations. *)
Theorem Fetch_loaded_plain cr offset limit (w : world C D) :
  Preloads (cr_params cr) = [] →
  Fetch_loaded cr offset limit w =
  let a := Fetch info zero ttl cr offset limit w in (a.1.1, a.1.2, bare_page a.2).
Proof.
  intros Hp. unfold Fetch_loaded, Fetch. destruct (cr_Err cr); [done|].
  pose proof (fetch_ids_params cr w) as Hf. destruct (fetch_ids info zero ttl cr w) as [[w1 cr1] [| |]]; [|done..].
  destruct (bool_decide _); [done|]. pose proof (Count_params cr1 w1) as Hc.
  destruct (Count info ttl cr1 w1) as [[w2 cr2] r]. cbn [fst snd] in *.
  destruct r; [| |done]; cbv zeta; (destruct (limit <? 0)%Z; [done|]; apply fetch_pages_plain; by rewrite Hc, Hf).
Qed.
End fetch.

(** ** With relations *)

Section page.
Context `{GoPlatform} `{ModelOps} `{QueryEnv} {C D : Type} `{CacheClient C} `{DBAdapter D} `{RelationEnv D}.
Context (info : ModelInfo) (fields : gmap string (gotype * string)) (related : gotype → related_model).
Context (zero : gostruct) (ttl : Z).
Context (rows : gmap Z gostruct) (db_ok : D → Prop) (cache_ok : C → Prop) (params : QueryParams) (ids : list Z).
Context (Hdb : db_answers info rows db_ok params ids).
Context (Hcache : caches_query info zero ttl rows cache_ok params ids).
Context (Hdef : default_query info rows params ids).
Notation wok := (world_ok db_ok cache_ok).

(** What the relations of the query promise: they keep the agreement of cache and
    database, do not panic, and attach to each model what [post] says. *)
Definition preloads_ok (post : loaded → Prop) : Prop :=
  ∀ models (w : world C D), wok w →
  ∃ w' owners r, apply_preloads info fields related ttl (bare <$> models) (Preloads params) w = (w', owners, r) ∧
    is_Panic r = false ∧ wok w' ∧ Forall2 (λ m o, l_model o = m ∧ post o) models owners.

Context (post : loaded → Prop) (Hpre : preloads_ok post).

Lemma ByIDs_preload_ok batch (w : world C D) : wok w →
  ∃ w' models, ByIDs_preload info fields related ttl zero batch (Preloads params) w = (w', Ok models) ∧ wok w' ∧
    (∀ id, id ∈ batch → l_model <$> models !! id = row_of rows id) ∧ (∀ id o, models !! id = Some o → post o).
Proof.
  intros Hw.
  destruct (ByIDs_ok info zero ttl rows db_ok cache_ok (cq_rows _ _ _ _ _ _ _ Hcache) (da_rows _ _ _ _ _ Hdb)
    (da_keyed _ _ _ _ _ Hdb) batch w Hw) as (Hw1&found&Hf&Hrows).
  unfold ByIDs in *. unfold ByIDs_preload. destruct (fetchModelsByIDsInternal info zero ttl batch w) as [w1 r]. cbn [fst snd] in *. subst r.
  destruct (Hpre (map_to_list found).*2 w1 Hw1) as (w2&owners&r&Ha&Hnp&Hw2&Hall).
  change (λ m, MkLoaded m ∅) with bare. rewrite Ha.
  assert (l_model <$> owners = (map_to_list found).*2) as Hm.
  { clear -Hall. induction Hall as [|m o ms os [E _] _ IH]; [done|]. by rewrite fmap_cons, E, IH. }
  assert (Forall post owners) as Hpost.
  { eapply Forall2_Forall_r; [exact Hall|]. apply Forall_true. naive_solver. }
  destruct r; [| |done]; (exists w2; eexists; split; [done|]; split; [done|]; split).
  1, 3: intros id Hid; rewrite <-lookup_fmap, (zip_models found owners Hm); by apply Hrows.
  all: intros id o Ho%elem_of_list_to_map_2%elem_of_zip_r; by eapply Forall_forall in Hpost.
Qed.

Lemma fetch_pages_loaded_ok fuel cr off needed inv (w : world C D) :
  wok w → result_ok params ids cr → cr_hasLoadedIDs cr = true → (0 < fuel)%nat → (length ids < off + fuel)%nat →
  ∃ w' cr' os, fetch_pages_loaded info fields related zero ttl fuel cr (Z.of_nat (length ids)) (Z.of_nat off) needed inv w =
    (w', cr', Some (Ok os)) ∧ l_model <$> os = page rows (take needed (drop off ids)) ∧ Forall post os ∧
    wok w' ∧ result_ok params ids cr'.
Proof.
  revert cr off needed inv w. induction fuel as [|fuel IH]; intros cr off needed inv w Hw Hro Hload Hf Hfuel; [lia|].
  destruct needed as [|needed]; [by eexists _, _, []|]. cbn [fetch_pages_loaded].
  destruct (ids_to_check_ok info rows db_ok cache_ok params ids Hdb cr off (S needed) w Hw Hro Hload)
    as (w1&Hw1&[[-> Hnil]|(source&k&Hk&Hne&->)]); [lia|..].
  { rewrite Hnil, take_nil. by eexists _, _, []. }
  destruct (take k (drop off ids)) as [|id l] eqn:Ec; [done|]. set (chunk := id :: l) in *.
  assert (Hin : ∀ x, x ∈ chunk → x ∈ ids).
  { rewrite <-Ec. intros x (i&Hi&_)%elem_of_take. apply list_elem_of_lookup_2 in Hi. by apply subseteq_drop in Hi. }
  assert (Hlen : (0 < length chunk ≤ S needed)%nat) by (split; [simpl; lia|rewrite <-Ec, length_take; lia]).
  assert (Hleft : (length chunk ≤ length ids - off)%nat) by (rewrite <-Ec, length_take, length_drop; lia).
  rewrite (ro_params _ _ cr Hro).
  destruct (ByIDs_preload_ok chunk w1 Hw1) as (w2&models&->&Hw2&Hrows&Hpost).
  pose proof (take_kept_models params models chunk (S needed)) as Htm.
  destruct (take_kept_all info rows params ids Hdef (l_model <$> models) chunk (S needed)) as [Htk Hpl];
    [intros; rewrite lookup_fmap; auto|done|lia|lia|].
  pose proof (take_kept_from params models chunk (S needed)) as Hfrom.
  rewrite Htk in Htm. destruct (take_kept_loaded params models chunk (S needed)) as [[os n] bad]. cbn [fst snd] in *.
  assert (page rows chunk = l_model <$> os ∧ length chunk = n ∧ false = bad) as (Hos&<-&<-)
    by (split_and!; [exact (f_equal (λ x, x.1.1) Htm)|exact (f_equal (λ x, x.1.2) Htm)|exact (f_equal snd Htm)]).
  assert (length os = length chunk) as Hlos.
  { transitivity (length (page rows chunk)); [|exact Hpl]. rewrite Hos. by rewrite length_fmap. }
  rewrite andb_false_r, Hlos. cbn [andb].
  destruct (IH cr (off + length chunk)%nat (S needed - length chunk)%nat (inv || false) w2) as (w3&cr3&os3&Heq&Hos3&Hp3&Hw3&Hro3);
    [done..|lia|lia|].
  rewrite <-Nat2Z.inj_add, Heq. eexists _, _, _. split; [done|]. split; [|split; [|done]].
  - rewrite fmap_app, <-Hos, Hos3, <-page_app. f_equal.
    assert (Hk' : chunk = take (length chunk) (drop off ids)).
    { rewrite <-Ec, length_take. rewrite <-(take_take _ k). by rewrite (take_ge (drop off ids) (length (drop off ids))). }
    rewrite Hk' at 1. rewrite <-drop_drop, take_take_drop. f_equal. lia.
  - apply Forall_app. split; [|done]. apply Forall_forall. intros o Ho. destruct (Hfrom o Ho) as [i Hi]. by eapply Hpost.
Qed.

Lemma Fetch_loaded_page cr off lim (w : world C D) :
  wok w → result_ok params ids cr →
  ∃ w' cr' os, Fetch_loaded info fields related zero ttl cr (Z.of_nat off) (Z.of_nat lim) w = (w', cr', Some (Ok os)) ∧
    l_model <$> os = page rows (take lim (drop off ids)) ∧ Forall post os ∧ wok w' ∧ result_ok params ids cr'.
Proof.
  intros Hw Hro. unfold Fetch_loaded. rewrite (ro_err _ _ cr Hro).
  destruct (fetch_ids_ok info zero ttl rows db_ok cache_ok params ids Hdb Hcache Hdef cr w Hw Hro) as (w1&cr1&->&Hw1&Hro1&Hload).
  pose proof (ro_ids _ _ cr1 Hro1 Hload) as Hids.
  destruct (bool_decide_reflect (cr_cachedIDs cr1 = [])) as [Hnil|Hne].
  { assert (ids = []) as Hempty.
    { rewrite Hids in Hnil. apply (f_equal length) in Hnil. unfold cached_list_of, cacheListCountLimit in Hnil.
      rewrite length_take in Hnil. apply nil_length_inv. cbn [length] in Hnil. lia. }
    eexists _, _, []. split_and!; [done|by rewrite Hempty, drop_nil, take_nil|done..]. }
  destruct (Count_ok info zero ttl rows db_ok cache_ok params ids Hdb Hcache cr1 w1 Hw1 Hro1) as (w2&cr2&->&Hw2&Hro2&Hsame&Hload2). cbv zeta.
  destruct (Z.ltb_spec (Z.of_nat lim) 0); [lia|]. rewrite Nat2Z.id.
  apply fetch_pages_loaded_ok; [done|done|congruence|unfold page_fuel; lia|].
  unfold page_fuel. rewrite Hsame, Hids. unfold cached_list_of. rewrite length_take. lia.
Qed.
End page.

(** ** A page with the records its models belong to *)

Section belongs_to.
Context `{GoPlatform} `{ModelOps} `{QueryEnv} {C D : Type} `{CacheClient C} `{DBAdapter D} `{RelationEnv D}.
Context (info : ModelInfo) (fields : gmap string (gotype * string)) (related : gotype → related_model).
Context (zero : gostruct) (ttl : Z).
Context (rows : gmap Z gostruct) (db_ok : D → Prop) (cache_ok : C → Prop) (params : QueryParams) (ids : list Z).
Context (Hdb : db_answers info rows db_ok params ids).
Context (Hcache : caches_query info zero ttl rows cache_ok params ids).
Context (Hdef : default_query info rows params ids).

(** The related table. *)
Context (r : gotype) (rinfo : ModelInfo) (rzero : gostruct) (rrows : gmap Z gostruct).
Context (Hrel : related r = MkRelated (Ok rinfo) rzero).
Context (Hrcache : caches_rows rinfo rzero ttl rrows cache_ok).
Context (Hrans : table_answers rinfo rrows db_ok) (Hrkey : table_keyed rrows).

(** The relation the query names, declared on the model with its tag. *)
Context (name : string) (t : gotype) (tag fkField : string) (opts : RelationshipOpts).
Context (Hname : Preloads params = [name]) (Hexp : IsExported name = true).
Context (Hfield : fields !! name = Some (t, tag)) (Htag : parseThingTag tag = Ok opts).
Context (Htype : RelationType opts = "belongsTo").
Context (Hptr : under_type t = TPtr r) (Hstruct : type_kind r = KStruct).
Context (Hfk : fk_field (ColumnToFieldMap info) (λ f, bool_decide (is_Some (fields !! f))) (ForeignKey opts) = Some fkField).

(** The row a model belongs to is attached to it. *)
Definition belongs (o : loaded) : Prop := l_rels o !! name = RelPtr <$> owner_row rrows fkField o.

Lemma belongs_preloads : preloads_ok info fields related ttl db_ok cache_ok params belongs.
Proof.
  intros models w Hw. rewrite Hname. cbn [apply_preloads]. unfold preloadRelations.
  destruct (bool_decide_reflect (bare <$> models = [])) as [Hnil|_].
  { apply fmap_nil_inv in Hnil as ->. eexists _, _, _. split; [done|]. by split_and!. }
  rewrite Hfield, Htag. destruct opts as [ty fk lk rm jt jl jr]. cbn in Htype, Hfk. subst ty. cbn [String.eqb Ascii.eqb Bool.eqb].
  destruct (preloadBelongsTo_correct info fields related ttl r rinfo rzero rrows db_ok cache_ok Hrel Hrcache Hrans Hrkey name t
    (MkRel "belongsTo" fk (if lk =? "" then PkName info else lk) rm jt jl jr) fkField (bare <$> models) w)
    as (w'&owners&Heq&Hw'&Hall); [done..|]. cbn in Heq |- *. rewrite Heq.
  eexists _, _, _. split; [done|]. split; [done|]. split; [done|].
  apply Forall2_fmap_l in Hall. eapply Forall2_impl; [exact Hall|]. intros m o [[Hm _] Hr]. split; [done|].
  unfold belongs. rewrite Hr. unfold owner_row. rewrite Hm. cbn. by destruct (fk_int64 fkField m ≫= row_of rrows).
Qed.

(** C17: for a query that names exactly one relation, a belongsTo: Fetch with its relation
    returns the same models as the plain Fetch in the same state, which are the rows of the
    requested page in the order of the query, and each carries the related row its foreign key
    names, or nothing when that row does not exist. Assumed: the model does not override
    KeepItem and the query does not set IncludeDeleted; the database answers pages of one list
    of ids; what the cache answers about the query, its records and the related records agrees
    with the two tables (an empty cache does). *)
Theorem Fetch_belongsTo cr off lim (w : world C D) :
  world_ok db_ok cache_ok w → result_ok params ids cr →
  ∃ w' cr' os, Fetch_loaded info fields related zero ttl cr (Z.of_nat off) (Z.of_nat lim) w = (w', cr', Some (Ok os)) ∧
    (Fetch info zero ttl cr (Z.of_nat off) (Z.of_nat lim) w).2 = Some (Ok (l_model <$> os)) ∧
    l_model <$> os = page rows (take lim (drop off ids)) ∧ Forall belongs os ∧
    world_ok db_ok cache_ok w' ∧ result_ok params ids cr'.
Proof.
  intros Hw Hro.
  destruct (Fetch_loaded_page info fields related zero ttl rows db_ok cache_ok params ids Hdb Hcache Hdef belongs belongs_preloads
    cr off lim w Hw Hro) as (w'&cr'&os&Hl&Hm&Hrest).
  destruct (Fetch_page_lemma info zero ttl rows db_ok cache_ok params ids Hdb Hcache Hdef cr off lim w Hw Hro) as (w2&cr2&Hf&_).
  exists w', cr', os. split; [done|]. rewrite Hf. split; [by rewrite Hm|]. split; [done|exact Hrest].
Qed.
End belongs_to.
