(* ===== verification/FieldSelector.v ===== *)
(** * JSON field selection (json.go, internal/utils/orderedmap.go)

    The field selector language, the merging of options, and the serialization
    of a value under options.

    A [JSONOptions] object is a tree with an identity: the same object can hang
    under an included field and under the nested rules of its parent, and
    [serializeValue] may append to its excluded names.  The appended names are
    kept apart, by identity ([grown]).  An object that nothing is ever appended
    to has identity 0. *)

From S2P Require Import Prelude GoStrings GoValues Metadata.

Open Scope string_scope.

(** ** Options *)

#[warnings="-register-all"] Inductive JSONOptions := MkOptions {
  oid : nat;
  OrderedInclude : list (string * option JSONOptions);
  OrderedExclude : list string;
  NestedRules : list (string * JSONOptions)
}.

Definition newJSONOptions (id : nat) : JSONOptions := MkOptions id [] [] [].

(** Case-insensitive membership. *)
Definition contains (slice : list string) (item : string) : bool := existsb (λ s, EqualFold s item) slice.

(** A map lookup. *)
Fixpoint rule_lookup {A} (rules : list (string * A)) (name : string) : option A :=
  match rules with
  | [] => None
  | (n, a) :: rules => if n =? name then Some a else rule_lookup rules name
  end.

(** [snake_case] to an exported Go name. *)
Definition exportedName (s : string) : string :=
  Join ((λ p, match p with "" => "" | String c p => String (to_upper c) p end) <$> Split s "_") "".

(** ** The field selector language *)

Definition is_sep (c : ascii) : bool := byte_in c " ,".
Definition field_end (c : ascii) : bool := byte_in c ",{}".

(** The bytes before the first one satisfying [f]. *)
Fixpoint span_until (f : ascii → bool) (s : string) : string * string :=
  match s with
  | "" => ("", "")
  | String c s' => if f c then ("", s) else let '(a, b) := span_until f s' in (String c a, b)
  end.

(** The text up to the brace that closes [n] open ones, and the text after it. *)
Fixpoint match_brace (n : nat) (s : string) : option (string * string) :=
  match s with
  | "" => None
  | String c s' =>
      if bool_decide (c = "{"%char) then
        match match_brace (S n) s' with Some (a, b) => Some (String c a, b) | None => None end
      else if bool_decide (c = "}"%char) then
        match n with
        | O | S O => Some ("", s')
        | S n => match match_brace n s' with Some (a, b) => Some (String c a, b) | None => None end
        end
      else match match_brace n s' with Some (a, b) => Some (String c a, b) | None => None end
  end.

Definition add_exclude (name : string) (o : JSONOptions) : JSONOptions :=
  if (name =? "") || contains (OrderedExclude o) name then o
  else MkOptions (oid o) (OrderedInclude o) (OrderedExclude o ++ [name]) (NestedRules o).

Definition add_include (name : string) (nested : option JSONOptions) (o : JSONOptions) : JSONOptions :=
  if existsb (λ r : string * option JSONOptions, r.1 =? name) (OrderedInclude o) then o
  else MkOptions (oid o) (OrderedInclude o ++ [(name, nested)]) (OrderedExclude o) (NestedRules o).

Definition add_nested (name : string) (nested : JSONOptions) (o : JSONOptions) : JSONOptions :=
  if (name =? "") || bool_decide (is_Some (rule_lookup (NestedRules o) name)) then o
  else MkOptions (oid o) (OrderedInclude o) (OrderedExclude o) (NestedRules o ++ [(name, nested)]).

(** A field, with its nested options if it has any. *)
Definition add_field (field : string) (nested : option JSONOptions) (o : JSONOptions) : JSONOptions :=
  let isExclude := HasPrefix field "-" in
  let name := TrimPrefix field "-" in
  match nested with
  | Some n =>
      let o := add_nested name n o in
      if isExclude then add_exclude name o else add_include name (Some n) o
  | None => if isExclude then add_exclude name o else add_include field None o
  end.

(** The parser; [fuel] bounds the iterations of its loop, here and in nested
    content, and [next] is the next identity.  [None]: the loop did not end. *)
Fixpoint parse (fuel : nat) (input : string) (o : JSONOptions) (next : nat) : option (result (JSONOptions * nat)) :=
  match fuel with
  | O => None
  | S fuel =>
      let s := trim_left is_sep input in
      if s =? "" then Some (Ok (o, next))
      else
        let '(raw, rest) := span_until field_end s in
        let field := TrimSpace raw in
        if field =? "" then parse fuel rest o next
        else match rest with
        | String "{" body =>
            match match_brace 1 body with
            | None => Some (Err (ErrMsg "unmatched '{' in DSL"))
            | Some (content, rest) =>
                match parse fuel content (newJSONOptions next) (S next) with
                | Some (Ok (nested, next)) => parse fuel rest (add_field field (Some nested) o) next
                | r => r
                end
            end
        | _ => parse fuel rest (add_field field None o) next
        end
  end.

Definition ParseFieldsDSL (fuel : nat) (dsl : string) (next : nat) : option (result (JSONOptions * nat)) :=
  parse fuel dsl (newJSONOptions next) (S next).

(** ** Merging *)

(** Rules of [src] whose name is new. *)
Fixpoint append_new (dst src : list (string * option JSONOptions)) : list (string * option JSONOptions) :=
  match src with
  | [] => dst
  | r :: src => append_new (if existsb (λ d : string * option JSONOptions, d.1 =? r.1) dst then dst else (dst ++ [r])%list) src
  end.

(** One rule per name, whatever its case. *)
Fixpoint dedup_fold (seen : list string) (rules : list (string * option JSONOptions)) : list (string * option JSONOptions) :=
  match rules with
  | [] => []
  | r :: rules =>
      if bool_decide (ToLower r.1 ∈ seen) then dedup_fold seen rules
      else r :: dedup_fold (ToLower r.1 :: seen) rules
  end.

Fixpoint append_names (dst src : list string) : list string :=
  match src with
  | [] => dst
  | n :: src => append_names (if bool_decide (n ∈ dst) then dst else (dst ++ [n])%list) src
  end.

(** The nested rules of [src] are not merged. *)
Definition mergeJSONOptions (dst src : JSONOptions) : JSONOptions :=
  MkOptions (oid dst) (dedup_fold [] (append_new (OrderedInclude dst) (OrderedInclude src)))
    (append_names (OrderedExclude dst) (OrderedExclude src)) (NestedRules dst).

(** An option changes the options of a call; an invalid text changes nothing.
    [None]: the option does not return. *)
Abbreviation JSONOption := (JSONOptions * nat → option (JSONOptions * nat)).

Definition WithFields (fuel : nat) (dsl : string) : JSONOption := λ '(opts, next),
  match ParseFieldsDSL fuel dsl next with
  | Some (Ok (parsed, next)) => Some (mergeJSONOptions opts parsed, next)
  | Some _ => Some (opts, next)
  | None => None
  end.

Definition Include (fuel : nat) (fields : list string) : JSONOption := λ '(opts, next),
  match fields with
  | [] => Some (opts, next)
  | _ => WithFields fuel (Join fields ",") (opts, next)
  end.

Definition Exclude (fuel : nat) (fields : list string) : JSONOption := λ '(opts, next),
  match fields with
  | [] => Some (opts, next)
  | _ => WithFields fuel (Join ((λ f, if HasPrefix f "-" then f else "-" +:+ f) <$> fields) ",") (opts, next)
  end.

(** ** Ordered maps (internal/utils/orderedmap.go) *)

Record OrderedMap (A : Type) := MkOM { om_keys : list string; om_values : gmap string A }.
Arguments MkOM {A} _ _.
Arguments om_keys {A} _.
Arguments om_values {A} _.

Definition NewOrderedMap {A} : OrderedMap A := MkOM [] ∅.
Definition om_Set {A} (key : string) (value : A) (om : OrderedMap A) : OrderedMap A :=
  MkOM (if bool_decide (is_Some (om_values om !! key)) then om_keys om else om_keys om ++ [key])%list
       (<[key := value]> (om_values om)).
Definition om_Get {A} (key : string) (om : OrderedMap A) : option A := om_values om !! key.
Definition om_Keys {A} (om : OrderedMap A) : list string := om_keys om.

(** ** Values seen by the serializer *)

(** A field of a struct type: its name, [json] tag, and whether it is embedded. *)
Record jfield := MkJF { jf_name : string; jf_tag : string; jf_anonymous : bool }.

(** Plain values ([time.Time], interfaces and maps among them), pointers,
    slices and arrays, structs.  The methods of a struct are those without
    argument and with one result, with what they return.  No field embeds
    [time.Time]. *)
#[warnings="-register-all"] Inductive rvalue :=
  | RPlain (v : goval)
  | RNilPtr
  | RPtr (r : rvalue)
  | RList (l : list rvalue)
  | RStruct (fields : list (jfield * rvalue)) (methods : list (string * goval)).

(** What is passed to [json.Marshal]; a pointer behind a pointer is passed as
    it is. *)
#[warnings="-register-all"] Inductive jtree :=
  | JNil
  | JPlain (v : goval)
  | JPointer (r : rvalue)
  | JList (l : list jtree)
  | JObject (om : list (string * jtree)).

(** The keys of an ordered map with their values. *)
Definition om_object (om : OrderedMap jtree) : jtree :=
  JObject (omap (λ k, (λ v, (k, v)) <$> om_values om !! k) (om_keys om)).

Definition is_struct (r : rvalue) : bool := match r with RStruct _ _ => true | _ => false end.

(** The name part of a [json] tag. *)
Definition tag_name (tag : string) : string := default "" (head (Split tag ",")).

(** The fields of the fallback mode, with the Go names processed so far. *)
Fixpoint fallback_fields (exclude : list string) (r : rvalue) (acc : list string * list string)
    : list string * list string :=
  match r with
  | RStruct fs _ =>
      (fix go (fs : list (jfield * rvalue)) (acc : list string * list string) :=
         match fs with
         | [] => acc
         | (f, v) :: fs =>
             let '(rules, processed) := acc in
             if jf_anonymous f && is_struct v then go fs (fallback_fields exclude v acc)
             else if bool_decide (jf_name f ∈ processed) then go fs acc
             else
               let jsonName := if tag_name (jf_tag f) =? "" then jf_name f else tag_name (jf_tag f) in
               if (jsonName =? "-") || contains exclude jsonName
               then go fs (rules, jf_name f :: processed)
               else go fs ((rules ++ [jf_name f])%list, jf_name f :: processed)
         end) fs acc
  | _ => acc
  end.

Definition field_matches (target : string) (f : jfield) : bool :=
  let jsonName := if tag_name (jf_tag f) =? "" then jf_name f else tag_name (jf_tag f) in
  EqualFold jsonName target || EqualFold (jf_name f) target ||
  EqualFold (jf_name f) (exportedName (ToSnakeCase target)).

(** The first field that matches, embedded structs included. *)
Fixpoint findField (target : string) (r : rvalue) : option (jfield * rvalue) :=
  match r with
  | RStruct fs _ =>
      (fix go (fs : list (jfield * rvalue)) :=
         match fs with
         | [] => None
         | (f, v) :: fs =>
             if field_matches target f then Some (f, v)
             else match (if jf_anonymous f && is_struct v then findField target v else None) with
                  | Some x => Some x
                  | None => go fs
                  end
         end) fs
  | _ => None
  end.

(** ** Serialization *)

(** Names appended to the excluded ones of an object, by identity. *)
Abbreviation grown := (gmap nat (list string)).

Definition excluded (st : grown) (o : JSONOptions) : list string :=
  (OrderedExclude o ++ default [] (st !! oid o))%list.

(** [dst.OrderedExclude] takes the names of [src] it does not contain. *)
Fixpoint grow (names : list string) (dst : JSONOptions) (st : grown) : grown :=
  match names with
  | [] => st
  | ex :: names =>
      grow names dst
        (if contains (excluded st dst) ex then st
         else <[oid dst := (default [] (st !! oid dst) ++ [ex])%list]> st)
  end.

(** The options for the value of a field. *)
Definition pass_down (o : JSONOptions) (rule : string * option JSONOptions) (outKey : string) (st : grown)
    : JSONOptions * grown :=
  let '(fieldName, nested) := rule in
  match nested with
  | Some n => (n, st)
  | None =>
      let byKey := rule_lookup (NestedRules o) outKey in
      let byName := rule_lookup (NestedRules o) fieldName in
      let down := match byKey with
                  | Some n => n
                  | None => match byName with
                            | Some n => n
                            | None => if bool_decide (OrderedInclude o = []) then o else newJSONOptions 0
                            end
                  end in
      let st := match byKey with Some n => grow (excluded st n) down st | None => st end in
      let st := match byName with Some n => grow (excluded st n) down st | None => st end in
      (down, st)
  end.

(** The rules of a struct: the included fields, or all fields but the excluded. *)
Definition rules_of (o : JSONOptions) (st : grown) (r : rvalue) : list (string * option JSONOptions) :=
  let useInclude := existsb (λ rule : string * option JSONOptions, negb (EqualFold rule.1 "id")) (OrderedInclude o) in
  let onlyID := negb (bool_decide (OrderedInclude o = [])) && negb useInclude in
  if useInclude || (onlyID && bool_decide (excluded st o = [])) then OrderedInclude o
  else (λ n, (n, None)) <$> (fallback_fields (excluded st o) r ([], [])).1.

(** The output key of a field that was found. *)
Definition out_key (f : jfield) (fieldName : string) : string :=
  if jf_tag f =? "" then ToSnakeCase fieldName
  else if (tag_name (jf_tag f) =? "") || (tag_name (jf_tag f) =? "-") then ToSnakeCase fieldName
  else tag_name (jf_tag f).

Definition plain_tree (v : goval) : jtree :=
  match value_Interface v with Some x => JPlain x | None => JNil end.

(** Serializing the values of a list in turn. *)
Fixpoint serialize_list (ser : rvalue → grown → option (jtree * grown)) (l : list rvalue) (st : grown)
    : option (list jtree * grown) :=
  match l with
  | [] => Some ([], st)
  | r :: l =>
      '(t, st) ← ser r st;
      '(ts, st) ← serialize_list ser l st;
      Some (t :: ts, st)
  end.

(** A field that is not found is a method, or null. *)
Definition virtual (methods : list (string * goval)) (fieldName : string) : jtree :=
  match rule_lookup methods (exportedName fieldName) with
  | Some v => plain_tree v
  | None => JNil
  end.

(** The fields of a struct in the order of the rules; [ser] serializes a value
    under options. *)
Fixpoint serialize_rules (ser : JSONOptions → rvalue → grown → option (jtree * grown)) (o : JSONOptions) (r : rvalue)
    (methods : list (string * goval)) (rules : list (string * option JSONOptions)) (om : OrderedMap jtree) (st : grown)
    : option (OrderedMap jtree * grown) :=
  match rules with
  | [] => Some (om, st)
  | rule :: rules =>
      let fieldName := rule.1 in
      match findField fieldName r with
      | Some (f, v) =>
          if IsExported (jf_name f) then
            let outKey := out_key f fieldName in
            let '(down, st) := pass_down o rule outKey st in
            match v with
            | RPlain x => serialize_rules ser o r methods rules (om_Set outKey (plain_tree x) om) st
            | _ =>
                '(t, st) ← ser down v st;
                serialize_rules ser o r methods rules (om_Set outKey t om) st
            end
          else serialize_rules ser o r methods rules (om_Set (ToSnakeCase fieldName) (virtual methods fieldName) om) st
      | None => serialize_rules ser o r methods rules (om_Set (ToSnakeCase fieldName) (virtual methods fieldName) om) st
      end
  end.

(** [fuel] bounds the nesting of the value. *)
Fixpoint serializeValue (fuel : nat) (o : JSONOptions) (r : rvalue) (st : grown) : option (jtree * grown) :=
  match fuel with
  | O => None
  | S fuel =>
      let inner r :=
        match r with
        | RPlain v => Some (plain_tree v, st)
        | RNilPtr => Some (JPointer RNilPtr, st)
        | RPtr x => Some (JPointer (RPtr x), st)
        | RList l => '(ts, st) ← serialize_list (serializeValue fuel o) l st; Some (JList ts, st)
        | RStruct _ methods =>
            '(om, st) ← serialize_rules (serializeValue fuel) o r methods (rules_of o st r) NewOrderedMap st;
            Some (om_object om, st)
        end in
      match r with
      | RNilPtr => Some (JNil, st)
      | RPtr x => inner x
      | r => inner r
      end
  end.

Fixpoint rsize (r : rvalue) : nat :=
  match r with
  | RPlain _ | RNilPtr => 1
  | RPtr r => S (rsize r)
  | RList l => S (foldr Nat.max 0%nat (map rsize l))
  | RStruct fs _ => S (foldr Nat.max 0%nat (map (λ fv, rsize fv.2) fs))
  end.

Fixpoint apply_options (opts : list JSONOption) (s : JSONOptions * nat) : option (JSONOptions * nat) :=
  match opts with
  | [] => Some s
  | opt :: opts => s ← opt s; apply_options opts s
  end.

(** The tree given to [json.Marshal]; [None] model is the untyped nil. *)
Definition ToJSON (model : option rvalue) (opts : list JSONOption) : option (result jtree) :=
  match model with
  | None => Some (Err (ErrMsg "cannot serialize nil model"))
  | Some model =>
      '(options, _) ← apply_options opts (newJSONOptions 1, 2%nat);
      match model with
      | RNilPtr => Some (Err (ErrMsg "cannot serialize nil pointer"))
      | _ =>
          let val := match model with RPtr r => r | r => r end in
          match val with
          | RList l =>
              '(ts, _) ← serialize_list (λ r, serializeValue (S (rsize val)) options match r with RPtr r => r | r => r end) l ∅;
              Some (Ok (JList ts))
          | RStruct _ _ | RPlain (VTime _ _) => '(t, _) ← serializeValue (S (rsize val)) options val ∅; Some (Ok t)
          | _ => Some (Err (ErrMsg "ToJSON: unsupported type (must be struct, pointer to struct, or slice/array of struct/pointer)"))
          end
      end
  end.
