(* ===== verification/FieldSelectorFacts.v ===== *)
(** * JSON field selection: properties

    The parser inverts a printer of field lists; an unmatched closing brace
    keeps it from returning.  Merging keeps one rule per name and is
    idempotent.  Serialization returns, and an object has the selected keys,
    each once and in order. *)

From S2P Require Import Prelude GoStrings GoStringsFacts GoValues Metadata FieldSelector.

Open Scope string_scope.

(** ** Field lists and their text *)

#[warnings="-register-all"] Inductive spec := Spec (exclude : bool) (name : string) (nested : option (list spec)).

Section spec_ind.
Context (P : spec → Prop).
Context (Hnone : ∀ e n, P (Spec e n None)) (Hsome : ∀ e n l, Forall P l → P (Spec e n (Some l))).
Fixpoint spec_ind' (s : spec) : P s :=
  match s with
  | Spec e n None => Hnone e n
  | Spec e n (Some l) =>
      Hsome e n l ((fix go (l : list spec) : Forall P l :=
                      match l with [] => Forall_nil_2 P | s :: l => Forall_cons_2 P s l (spec_ind' s) (go l) end) l)
  end.
End spec_ind.

Definition field_text (e : bool) (n : string) : string := if e then "-" +:+ n else n.

Fixpoint print_spec (s : spec) : string :=
  match s with
  | Spec e n None => field_text e n
  | Spec e n (Some l) => field_text e n +:+ "{" +:+ Join (map print_spec l) "," +:+ "}"
  end.
Definition print_specs (l : list spec) : string := Join (map print_spec l) ",".

(** Names without separators, braces, blanks or a leading minus sign. *)
Definition name_byte (c : ascii) : bool := negb (field_end c) && negb (is_space c).
Definition name_ok (n : string) : bool := negb (n =? "") && str_all name_byte n && negb (HasPrefix n "-").
Fixpoint spec_ok (s : spec) : bool :=
  match s with
  | Spec _ n None => name_ok n
  | Spec _ n (Some l) => name_ok n && forallb spec_ok l
  end.

(** The fields of a list added in order, as the parser's loop adds them; what
    they amount to is [specs_meaning] below. *)
Fixpoint build_spec (s : spec) (o : JSONOptions) (next : nat) : JSONOptions * nat :=
  match s with
  | Spec e n None => (add_field (field_text e n) None o, next)
  | Spec e n (Some l) =>
      let '(nested, next) :=
        (fix go (l : list spec) (o : JSONOptions) (next : nat) :=
           match l with
           | [] => (o, next)
           | s :: l => let '(o, next) := build_spec s o next in go l o next
           end) l (newJSONOptions next) (S next) in
      (add_field (field_text e n) (Some nested) o, next)
  end.
Fixpoint build_specs (l : list spec) (o : JSONOptions) (next : nat) : JSONOptions * nat :=
  match l with
  | [] => (o, next)
  | s :: l => let '(o, next) := build_spec s o next in build_specs l o next
  end.

Lemma build_spec_nested e n l o next :
  build_spec (Spec e n (Some l)) o next =
  let '(nested, next) := build_specs l (newJSONOptions next) (S next) in (add_field (field_text e n) (Some nested) o, next).
Proof.
  cbn [build_spec]. match goal with |- context [?go l (newJSONOptions next) (S next)] => set (f := go) end.
  assert (Hf : ∀ l o next, f l o next = build_specs l o next).
  { intros l'. induction l' as [|s l' IH]; intros o' next'; [done|]. cbn [f build_specs].
    destruct (build_spec s o' next'). apply IH. }
  by rewrite Hf.
Qed.

(** *** Braces *)

(** Text that match_brace passes over. *)
Definition neutral (t : string) : Prop :=
  ∀ n s, match_brace (S n) (t +:+ s) = match match_brace (S n) s with Some (a, b) => Some (t +:+ a, b) | None => None end.

Lemma neutral_nil : neutral "".
Proof. intros n s. change ("" +:+ s) with s. by destruct (match_brace (S n) s) as [[a b]|]. Qed.

Lemma neutral_app t u : neutral t → neutral u → neutral (t +:+ u).
Proof.
  intros Ht Hu n s. rewrite string_app_assoc, Ht, Hu. destruct (match_brace (S n) s) as [[a b]|]; [|done].
  by rewrite string_app_assoc.
Qed.

Lemma neutral_char c t : c ≠ "{"%char → c ≠ "}"%char → neutral t → neutral (String c t).
Proof.
  intros H1 H2 Ht n s. change (String c t +:+ s) with (String c (t +:+ s)). cbn [match_brace].
  rewrite !bool_decide_eq_false_2, Ht by done. by destruct (match_brace (S n) s) as [[a b]|].
Qed.

Lemma neutral_braces t : neutral t → neutral ("{" +:+ t +:+ "}").
Proof.
  intros Ht n s. change (("{" +:+ t +:+ "}") +:+ s) with (String "{" ((t +:+ "}") +:+ s)).
  cbn [match_brace]. rewrite bool_decide_eq_true_2, string_app_assoc, Ht by done.
  change ("}" +:+ s) with (String "}" s). cbn [match_brace].
  rewrite bool_decide_eq_false_2, bool_decide_eq_true_2 by done.
  destruct (match_brace (S n) s) as [[a b]|]; [|done].
  change (("{" +:+ t +:+ "}") +:+ a) with (String "{" ((t +:+ "}") +:+ a)). by rewrite string_app_assoc.
Qed.

Lemma neutral_bytes t : str_all (λ c, negb (field_end c)) t = true → neutral t.
Proof.
  induction t as [|c t IH]; intros Hall; [apply neutral_nil|]. cbn [str_all] in Hall. apply andb_prop in Hall as [Hc Hall].
  apply neutral_char; [intros ->; done..|by apply IH].
Qed.

Lemma neutral_Join l sep : Forall neutral l → neutral sep → neutral (Join l sep).
Proof.
  intros Hl Hsep. induction Hl as [|t l Ht Hl IH]; [apply neutral_nil|]. destruct l as [|u l]; [done|].
  change (neutral (t +:+ sep +:+ Join (u :: l) sep)). auto using neutral_app.
Qed.

(** *** Names *)

Lemma name_ok_inv n :
  name_ok n = true → n ≠ "" ∧ str_all name_byte n = true ∧ HasPrefix n "-" = false.
Proof.
  unfold name_ok. intros [[Hn Hb]%andb_prop Hp]%andb_prop. split_and!; [|done|by destruct (HasPrefix n "-")].
  intros ->. done.
Qed.

Lemma field_text_bytes e n : name_ok n = true → str_all name_byte (field_text e n) = true.
Proof. intros (_&Hb&_)%name_ok_inv. destruct e; [|done]. exact Hb. Qed.

Lemma field_text_nonempty e n : name_ok n = true → field_text e n ≠ "".
Proof. intros (Hn&_)%name_ok_inv. by destruct e. Qed.

Lemma name_byte_end c : name_byte c = true → negb (field_end c) = true.
Proof. unfold name_byte. by intros [? _]%andb_prop. Qed.
Lemma name_byte_space c : name_byte c = true → negb (is_space c) = true.
Proof. unfold name_byte. by intros [_ ?]%andb_prop. Qed.
Lemma name_byte_sep c : name_byte c = true → is_sep c = false.
Proof. destruct c as [[] [] [] [] [] [] [] []]; done. Qed.

Lemma spec_neutral s : spec_ok s = true → neutral (print_spec s).
Proof.
  induction s as [e n|e n l IH] using spec_ind'; intros Hok; cbn [spec_ok] in Hok.
  - apply neutral_bytes. eapply str_all_impl, field_text_bytes, Hok. apply name_byte_end.
  - apply andb_prop in Hok as [Hn Hl]. cbn [print_spec]. apply neutral_app; [|apply neutral_braces, neutral_Join].
    + apply neutral_bytes. eapply str_all_impl, field_text_bytes, Hn. apply name_byte_end.
    + apply Forall_map. apply Forall_forall. intros s Hs. rewrite Forall_forall in IH. apply IH; [done|].
      rewrite forallb_forall in Hl. by apply Hl, list_elem_of_In.
    + intros m t. change ("," +:+ t) with (String "," t). cbn [match_brace].
      by rewrite !bool_decide_eq_false_2 by done.
Qed.

Lemma specs_neutral l : forallb spec_ok l = true → neutral (print_specs l).
Proof.
  intros Hl. apply neutral_Join.
  - apply Forall_map, Forall_forall. intros s Hs. apply spec_neutral. rewrite forallb_forall in Hl. by apply Hl, list_elem_of_In.
  - intros m t. change ("," +:+ t) with (String "," t). cbn [match_brace]. by rewrite !bool_decide_eq_false_2 by done.
Qed.

(** *** The parser's loop *)

(** Text that ends a field. *)
Definition ends_field (s : string) : Prop := s = "" ∨ ∃ c t, s = String c t ∧ (c = ","%char ∨ c = "}"%char).

Lemma span_until_app f a b :
  str_all (λ c, negb (f c)) a = true → (b = "" ∨ ∃ c t, b = String c t ∧ f c = true) → span_until f (a +:+ b) = (a, b).
Proof.
  intros Ha Hb. induction a as [|c a IH].
  - change ("" +:+ b) with b. destruct Hb as [-> |(c&t&->&Hc)]; [done|]. cbn [span_until]. by rewrite Hc.
  - cbn [str_all] in Ha. apply andb_prop in Ha as [Hc Ha]. change (String c a +:+ b) with (String c (a +:+ b)).
    cbn [span_until]. rewrite IH by done. by destruct (f c).
Qed.

Lemma trim_left_name t : str_all name_byte t = true → t ≠ "" → ∀ s, trim_left is_sep (t +:+ s) = t +:+ s.
Proof.
  intros Ht Hne s. destruct t as [|c t]; [done|]. cbn [str_all] in Ht. apply andb_prop in Ht as [Hc _].
  change (String c t +:+ s) with (String c (t +:+ s)). cbn [trim_left]. by rewrite name_byte_sep.
Qed.

Lemma field_parts e n s :
  name_ok n = true → (s = "" ∨ ∃ c t, s = String c t ∧ field_end c = true) →
  let t := field_text e n +:+ s in
  trim_left is_sep t = t ∧ (t =? "") = false ∧ span_until field_end t = (field_text e n, s) ∧
  TrimSpace (field_text e n) = field_text e n ∧ (field_text e n =? "") = false.
Proof.
  intros Hn Hs t. pose proof (field_text_bytes e n Hn) as Hb. pose proof (field_text_nonempty e n Hn) as Hne.
  split_and!.
  - by apply trim_left_name.
  - apply String.eqb_neq. unfold t. by destruct (field_text e n).
  - apply span_until_app; [|done]. eapply str_all_impl, Hb. apply name_byte_end.
  - apply trim_func_none. eapply str_all_impl, Hb. apply name_byte_space.
  - by apply String.eqb_neq.
Qed.

(** A field alone. *)
Lemma parse_field e n s o next fuel :
  name_ok n = true → ends_field s →
  parse (S fuel) (field_text e n +:+ s) o next = parse fuel s (add_field (field_text e n) None o) next.
Proof.
  intros Hn Hs. destruct (field_parts e n s Hn) as (H1&H2&H3&H4&H5).
  { destruct Hs as [-> |(c&t&->&[-> | ->])]; [by left|right; eauto..]. }
  cbn [parse]. rewrite H1, H2, H3, H4, H5. destruct Hs as [-> |(c&t&->&[-> | ->])]; done.
Qed.

(** A field with nested content. *)
Lemma parse_nested e n content s o next fuel nested next' :
  name_ok n = true → neutral content →
  parse fuel content (newJSONOptions next) (S next) = Some (Ok (nested, next')) →
  parse (S fuel) (field_text e n +:+ "{" +:+ content +:+ "}" +:+ s) o next =
  parse fuel s (add_field (field_text e n) (Some nested) o) next'.
Proof.
  intros Hn Hc Hp. destruct (field_parts e n ("{" +:+ content +:+ "}" +:+ s) Hn) as (H1&H2&H3&H4&H5).
  { right. by exists "{"%char, (content +:+ "}" +:+ s). }
  cbn [parse]. rewrite H1, H2, H3, H4, H5.
  change ("{" +:+ content +:+ "}" +:+ s) with (String "{" (content +:+ "}" +:+ s)). cbv iota beta.
  rewrite Hc. change ("}" +:+ s) with (String "}" s). cbn [match_brace].
  rewrite bool_decide_eq_false_2, bool_decide_eq_true_2 by done.
  replace (content +:+ "") with content by (clear; induction content as [|c t IH]; [done|];
    change (String c t = String c (t +:+ "")); by rewrite <-IH).
  by rewrite Hp.
Qed.

Lemma parse_comma fuel s o next : parse fuel ("," +:+ s) o next = parse fuel s o next.
Proof. destruct fuel as [|fuel]; [done|]. change ("," +:+ s) with (String "," s). done. Qed.

(** One iteration reads one field. *)
Definition step_ok (s : spec) : Prop := ∀ rest o next fuel,
  ends_field rest → (String.length (print_spec s) ≤ S fuel)%nat →
  parse (S fuel) (print_spec s +:+ rest) o next = let '(o', next') := build_spec s o next in parse fuel rest o' next'.

Lemma parse_list l :
  Forall step_ok l → Forall (λ s, print_spec s ≠ "") l → ∀ rest o next fuel k,
  ends_field rest → (String.length (print_specs l) + k ≤ fuel)%nat →
  ∃ f, (k ≤ f)%nat ∧ parse fuel (print_specs l +:+ rest) o next =
    let '(o', next') := build_specs l o next in parse f rest o' next'.
Proof.
  intros Hl Hne. induction l as [|s l IH]; intros rest o next fuel k Hr Hf; [by exists fuel|].
  apply Forall_cons in Hl as [Hs Hl]. apply Forall_cons in Hne as [Hn Hne]. specialize (IH Hl Hne).
  assert (Hpos : (0 < String.length (print_spec s))%nat) by (destruct (print_spec s); [done|simpl; lia]).
  destruct l as [|s' l].
  - cbn [print_specs map Join] in *. destruct fuel as [|fuel]; [lia|]. exists fuel. split; [lia|].
    change (print_specs [s]) with (print_spec s) in *. rewrite Hs by (done || lia). cbn [build_specs].
    by destruct (build_spec s o next).
  - change (print_specs (s :: s' :: l)) with (print_spec s +:+ "," +:+ print_specs (s' :: l)) in *.
    rewrite !string_length_app in Hf. cbn [String.length] in Hf. destruct fuel as [|fuel]; [lia|].
    rewrite string_app_assoc, Hs; [| |lia].
    2:{ right. eexists _, _. split; [done|by left]. }
    cbn [build_specs]. destruct (build_spec s o next) as [o1 next1].
    rewrite string_app_assoc, parse_comma. apply IH; [done|lia].
Qed.

Lemma spec_text_nonempty s : spec_ok s = true → print_spec s ≠ "".
Proof.
  destruct s as [e n [l|]]; cbn [spec_ok print_spec]; intros Hok.
  - apply andb_prop in Hok as [Hn _]. pose proof (field_text_nonempty e n Hn). by destruct (field_text e n).
  - by apply field_text_nonempty.
Qed.

Lemma specs_text_nonempty l : forallb spec_ok l = true → Forall (λ s, print_spec s ≠ "") l.
Proof. rewrite forallb_forall, Forall_forall. intros Hl s Hs. by apply spec_text_nonempty, Hl, list_elem_of_In. Qed.

Lemma string_app_nil s : s +:+ "" = s.
Proof. induction s as [|c s IH]; [done|]. change (String c (s +:+ "") = String c s). by rewrite IH. Qed.

Lemma parse_spec s : spec_ok s = true → step_ok s.
Proof.
  induction s as [e n|e n l IH] using spec_ind'; intros Hok rest o next fuel Hr Hf; cbn [spec_ok] in Hok.
  - by apply parse_field.
  - apply andb_prop in Hok as [Hn Hl]. rewrite build_spec_nested.
    change (print_spec (Spec e n (Some l))) with (field_text e n +:+ "{" +:+ print_specs l +:+ "}") in *.
    rewrite !string_length_app in Hf. cbn [String.length] in Hf.
    assert (Hlist : Forall step_ok l).
    { apply Forall_forall. intros s Hs. rewrite Forall_forall in IH. apply IH; [done|]. rewrite forallb_forall in Hl.
      by apply Hl, list_elem_of_In. }
    assert (Hpos : (0 < String.length (field_text e n))%nat).
    { pose proof (field_text_nonempty e n Hn). destruct (field_text e n); [done|simpl; lia]. }
    destruct (parse_list l Hlist (specs_text_nonempty l Hl) "" (newJSONOptions next) (S next) fuel 1) as (f&Hf1&Hp);
      [by left|lia|].
    rewrite string_app_nil in Hp. destruct (build_specs l (newJSONOptions next) (S next)) as [nested next'].
    rewrite !string_app_assoc. apply parse_nested; [done|by apply specs_neutral|].
    rewrite Hp. by destruct f as [|f]; [lia|].
Qed.

Lemma parse_specs l rest o next fuel k :
  forallb spec_ok l = true → ends_field rest → (String.length (print_specs l) + k ≤ fuel)%nat →
  ∃ f, (k ≤ f)%nat ∧ parse fuel (print_specs l +:+ rest) o next =
    let '(o', next') := build_specs l o next in parse f rest o' next'.
Proof.
  intros Hl. apply parse_list; [|by apply specs_text_nonempty].
  apply Forall_forall. intros s Hs. apply parse_spec. rewrite forallb_forall in Hl. by apply Hl, list_elem_of_In.
Qed.

(** *** What a field list means *)

(** The first of the elements that are the same. *)
Fixpoint firsts {A} (same : A → A → bool) (l : list A) : list A :=
  match l with
  | [] => []
  | x :: l => x :: filter (λ y, same x y = false) (firsts same l)
  end.

Abbreviation meant := (bool * string * option JSONOptions)%type.

(** The fields included, in order and once per name, with the options nested in
    them; the names excluded, once up to case; the options nested in a field,
    excluded fields too. *)
Definition options_of (id : nat) (fs : list meant) : JSONOptions :=
  MkOptions id
    (firsts (λ a b : string * option JSONOptions, a.1 =? b.1)
       (omap (λ f : meant, if f.1.1 then None else Some (f.1.2, f.2)) fs))
    (firsts EqualFold (omap (λ f : meant, if f.1.1 then Some f.1.2 else None) fs))
    (firsts (λ a b : string * JSONOptions, a.1 =? b.1) (omap (λ f : meant, (λ n, (f.1.2, n)) <$> f.2) fs)).

(** The options objects of a field: one per pair of braces. *)
Fixpoint braces (s : spec) : nat :=
  match s with Spec _ _ None => 0 | Spec _ _ (Some l) => S (sum_list (map braces l)) end.

(** Objects are numbered in the order of their opening braces, from [id] on. *)
Fixpoint field_meaning (s : spec) (id : nat) : meant :=
  match s with
  | Spec e n None => (e, n, None)
  | Spec e n (Some l) =>
      (e, n, Some (options_of id
        ((fix go (l : list spec) (id : nat) : list meant :=
            match l with [] => [] | s :: l => field_meaning s id :: go l (id + braces s)%nat end) l (S id))))
  end.
Fixpoint fields_meaning (l : list spec) (id : nat) : list meant :=
  match l with [] => [] | s :: l => field_meaning s id :: fields_meaning l (id + braces s)%nat end.
Definition specs_meaning (l : list spec) (id : nat) : JSONOptions := options_of id (fields_meaning l (S id)).

Lemma field_meaning_nested e n l id : field_meaning (Spec e n (Some l)) id = (e, n, Some (specs_meaning l id)).
Proof.
  unfold specs_meaning. cbn [field_meaning]. match goal with |- context [?go l (S id)] => set (f := go) end.
  assert (Hf : ∀ l k, f l k = fields_meaning l k).
  { intros l'. induction l' as [|s l' IH]; intros k; [done|]. cbn [f fields_meaning]. by f_equal. }
  by rewrite Hf.
Qed.

(** Appending an element unless one that is the same is there. *)
Definition append_one {A} (same : A → A → bool) (acc : list A) (x : A) : list A :=
  if existsb (λ y, same y x) acc then acc else (acc ++ [x])%list.

Section firsts.
Context {A : Type} (same : A → A → bool).
Context (same_trans : ∀ x y z, same x y = true → same y z = same x z).

Lemma firsts_append acc l :
  foldl (append_one same) acc l = (acc ++ filter (λ y, existsb (λ x, same x y) acc = false) (firsts same l))%list.
Proof.
  revert acc. induction l as [|x l IH]; intros acc; cbn [foldl firsts]; [by rewrite filter_nil, app_nil_r|].
  rewrite IH, filter_cons, list_filter_filter. unfold append_one. destruct (existsb (λ y, same y x) acc) eqn:E.
  - rewrite decide_False by done. f_equal. apply list_filter_iff. intros y. split; [|tauto]. intros Hy. split; [done|].
    apply not_true_is_false. intros Hxy. apply not_true_iff_false in Hy. apply Hy. apply existsb_exists in E as (z&Hz&Hzx).
    apply existsb_exists. exists z. split; [done|]. by rewrite <-(same_trans z x y).
  - rewrite decide_True by done. rewrite <-app_assoc. do 2 f_equal. apply list_filter_iff. intros y.
    rewrite existsb_app, orb_false_iff. cbn. rewrite orb_false_r. tauto.
Qed.

Lemma firsts_fold l : foldl (append_one same) [] l = firsts same l.
Proof. rewrite firsts_append. cbn. induction (firsts same l) as [|x xs IH]; [done|]. rewrite filter_cons_True by done. by f_equal. Qed.
End firsts.

(** Fields added to options that are already there. *)
Definition add_meant (fs : list meant) (o : JSONOptions) : JSONOptions :=
  MkOptions (oid o)
    (foldl (append_one (λ a b : string * option JSONOptions, a.1 =? b.1)) (OrderedInclude o)
       (omap (λ f : meant, if f.1.1 then None else Some (f.1.2, f.2)) fs))
    (foldl (append_one EqualFold) (OrderedExclude o) (omap (λ f : meant, if f.1.1 then Some f.1.2 else None) fs))
    (foldl (append_one (λ a b : string * JSONOptions, a.1 =? b.1)) (NestedRules o)
       (omap (λ f : meant, (λ n, (f.1.2, n)) <$> f.2) fs)).

Lemma add_meant_cons f fs o : add_meant (f :: fs) o = add_meant fs (add_meant [f] o).
Proof. destruct f as [[[] n] [nested|]]; done. Qed.

Lemma same_name_trans {A} (x y z : string * A) : (x.1 =? y.1) = true → (y.1 =? z.1) = (x.1 =? z.1).
Proof. by intros ->%String.eqb_eq. Qed.
Lemma EqualFold_trans x y z : EqualFold x y = true → EqualFold y z = EqualFold x z.
Proof. unfold EqualFold. by intros ->%String.eqb_eq. Qed.

Lemma add_meant_new id fs : add_meant fs (newJSONOptions id) = options_of id fs.
Proof.
  unfold add_meant, options_of, newJSONOptions. cbn [oid OrderedInclude OrderedExclude NestedRules].
  rewrite !firsts_fold by eauto using same_name_trans, EqualFold_trans. done.
Qed.

Lemma rule_lookup_existsb {A} (rs : list (string * A)) n :
  bool_decide (is_Some (rule_lookup rs n)) = existsb (λ y, y.1 =? n) rs.
Proof.
  induction rs as [|[k b] rs IH]; [done|]. cbn [rule_lookup existsb fst]. destruct (k =? n); [done|exact IH].
Qed.

(** What the parser adds for one field. *)
Lemma add_field_meant e n nested o :
  name_ok n = true → add_field (field_text e n) nested o = add_meant [(e, n, nested)] o.
Proof.
  intros (Hne&_&Hp)%name_ok_inv. apply String.eqb_neq in Hne.
  assert (HasPrefix (field_text e n) "-" = e ∧ TrimPrefix (field_text e n) "-" = n) as [Hh Ht].
  { destruct e; cbn [field_text]; [split; [by destruct n|by destruct n]|]. unfold TrimPrefix. by rewrite Hp. }
  unfold add_field. rewrite Hh, Ht. unfold add_meant, add_nested, add_exclude, add_include, contains, append_one.
  destruct o as [id inc exc nst], nested as [m|], e; cbn; rewrite ?Hne; cbn;
    rewrite ?(rule_lookup_existsb nst n); cbn; repeat case_match; simpl in *; congruence.
Qed.

Lemma build_spec_meaning s : spec_ok s = true → ∀ o next,
  build_spec s o next = (add_meant [field_meaning s next] o, (next + braces s)%nat).
Proof.
  induction s as [e n|e n l IH] using spec_ind'; intros Hok o next; cbn [spec_ok] in Hok.
  - cbn [build_spec field_meaning braces]. by rewrite add_field_meant, Nat.add_0_r.
  - apply andb_prop in Hok as [Hn Hl].
    assert (Hspecs : ∀ o next, build_specs l o next = (add_meant (fields_meaning l next) o, (next + sum_list (map braces l))%nat)).
    { clear -IH Hl. induction IH as [|s l Hs _ IHl]; intros o next; cbn [build_specs]; [by destruct o; rewrite Nat.add_0_r|].
      cbn [forallb] in Hl. apply andb_prop in Hl as [Hok Hl]. rewrite (Hs Hok), (IHl Hl). cbn [fields_meaning map].
      rewrite (add_meant_cons _ (fields_meaning l _)). f_equal.
      change (sum_list (braces s :: map braces l)) with (braces s + sum_list (map braces l))%nat. lia. }
    rewrite build_spec_nested, Hspecs, field_meaning_nested, add_field_meant by done.
    rewrite add_meant_new. f_equal. cbn [braces]. lia.
Qed.

Lemma build_specs_meaning l o next : forallb spec_ok l = true →
  build_specs l o next = (add_meant (fields_meaning l next) o, (next + sum_list (map braces l))%nat).
Proof.
  revert o next. induction l as [|s l IH]; intros o next Hl; cbn [build_specs]; [by destruct o; rewrite Nat.add_0_r|].
  cbn [forallb] in Hl. apply andb_prop in Hl as [Hs Hl]. rewrite build_spec_meaning, IH by done. cbn [fields_meaning map].
  rewrite (add_meant_cons _ (fields_meaning l _)). f_equal.
  change (sum_list (braces s :: map braces l)) with (braces s + sum_list (map braces l))%nat. lia.
Qed.

(** C37: a field selection printed as text (names, exclusions, nested selections) is parsed by
    ParseFieldsDSL into the options it means, described without the parser's functions: the
    fields not excluded, in order and once per name, each with the options of its nested
    selection; the excluded names, in order and once up to case; the nested options of every
    field that has them, once per name; and one options object per pair of braces, numbered in
    the order of the opening braces. Fuel above the length of the text is enough. Names are not
    empty, have no separator, brace or blank, and do not begin with a minus sign. *)
Theorem ParseFieldsDSL_print l next fuel :
  forallb spec_ok l = true → (String.length (print_specs l) < fuel)%nat →
  ParseFieldsDSL fuel (print_specs l) next =
  Some (Ok (specs_meaning l next, (S next + sum_list (map braces l))%nat)).
Proof.
  intros Hl Hf. unfold ParseFieldsDSL.
  destruct (parse_specs l "" (newJSONOptions next) (S next) fuel 1) as (f&Hf1&Hp); [done|by left|lia|].
  rewrite string_app_nil in Hp. rewrite Hp, build_specs_meaning, add_meant_new by done. by destruct f as [|f]; [lia|].
Qed.

(** *** A brace that closes nothing *)

Lemma parse_mono fuel fuel' s o next r :
  parse fuel s o next = Some r → (fuel ≤ fuel')%nat → parse fuel' s o next = Some r.
Proof.
  revert fuel' s o next r. induction fuel as [|fuel IH]; intros [|fuel'] s o next r Hp Hle; [done|done|lia|].
  cbn [parse] in *. destruct (_ =? ""); [done|]. destruct (span_until _ _) as [raw rest].
  destruct (TrimSpace raw =? ""); [apply IH; [done|lia]|].
  assert (Hplain : ∀ o, parse fuel rest o next = Some r → parse fuel' rest o next = Some r) by (intros; apply IH; [done|lia]).
  destruct rest as [|c body]; [by apply Hplain|].
  destruct c as [[] [] [] [] [] [] [] []]; try (by apply Hplain).
  destruct (match_brace 1 body) as [[content rest]|]; [|done].
  destruct (parse fuel content (newJSONOptions next) (S next)) as [r1|] eqn:E1; [|done].
  rewrite (IH fuel' _ _ _ r1 E1) by lia. destruct r1 as [[nested next']| |]; [|done..]. apply IH; [done|lia].
Qed.

Lemma parse_brace fuel s o next : parse fuel (String "}" s) o next = None.
Proof. revert o next. induction fuel as [|fuel IH]; intros o next; [done|]. cbn. apply IH. Qed.

(** On a text with a closing brace that was not opened, the parser never returns, whatever the
    fuel. *)
Theorem ParseFieldsDSL_stray_brace l rest next fuel :
  forallb spec_ok l = true → ParseFieldsDSL fuel (print_specs l +:+ "}" +:+ rest) next = None.
Proof.
  intros Hl. unfold ParseFieldsDSL. change ("}" +:+ rest) with (String "}" rest).
  destruct (parse fuel _ _ _) as [r|] eqn:E; [|done]. exfalso.
  destruct (parse_specs l (String "}" rest) (newJSONOptions next) (S next) (String.length (print_specs l) + fuel) 0)
    as (f&_&Hp); [done|right; eauto|lia|].
  rewrite (parse_mono _ _ _ _ _ _ E) in Hp by lia. destruct (build_specs l _ _). by rewrite parse_brace in Hp.
Qed.

(** ** Merging *)

Abbreviation rules := (list (string * option JSONOptions)).
Definition folded (rs : rules) : list string := (λ r, ToLower r.1) <$> rs.

Lemma dedup_fold_sub seen rs : dedup_fold seen rs ⊆ rs.
Proof.
  revert seen. induction rs as [|r rs IH]; intros seen; [done|]. cbn [dedup_fold].
  case_bool_decide; [specialize (IH seen)|specialize (IH (ToLower r.1 :: seen))]; set_solver.
Qed.

Lemma dedup_fold_folded seen rs n : n ∈ folded (dedup_fold seen rs) ↔ n ∈ folded rs ∧ n ∉ seen.
Proof.
  revert seen. induction rs as [|r rs IH]; intros seen; [set_solver|]. cbn [dedup_fold].
  case_bool_decide as Hs; unfold folded in *; rewrite ?fmap_cons, ?elem_of_cons, IH.
  - naive_solver.
  - rewrite elem_of_cons. destruct (decide (n = ToLower r.1)); naive_solver.
Qed.

Lemma dedup_fold_NoDup seen rs : NoDup (folded (dedup_fold seen rs)).
Proof.
  revert seen. induction rs as [|r rs IH]; intros seen; [constructor|]. cbn [dedup_fold]. case_bool_decide; [apply IH|].
  unfold folded. rewrite fmap_cons. constructor; [|apply IH]. intros Hin. apply dedup_fold_folded in Hin as [_ Hin]. set_solver.
Qed.

(** A list that is already free of duplicates stays, and what it covers is dropped. *)
Lemma dedup_fold_app seen rs more :
  NoDup (folded rs) → (∀ n, n ∈ folded rs → n ∉ seen) → (∀ n, n ∈ folded more → n ∈ seen ∨ n ∈ folded rs) →
  dedup_fold seen (rs ++ more) = rs.
Proof.
  revert seen. induction rs as [|r rs IH]; intros seen Hnd Hs Hm.
  - cbn [app]. induction more as [|m more IHm]; [done|]. cbn [dedup_fold]. rewrite bool_decide_eq_true_2.
    + apply IHm. intros n Hn. apply Hm. unfold folded in *. rewrite fmap_cons. by right.
    + destruct (Hm (ToLower m.1)) as [?|?%elem_of_nil]; [unfold folded; left|done..].
  - unfold folded in Hnd, Hs, Hm. rewrite fmap_cons in Hnd, Hs, Hm. apply NoDup_cons in Hnd as [Hr Hnd].
    change ((r :: rs) ++ more)%list with (r :: (rs ++ more))%list. cbn [dedup_fold].
    rewrite bool_decide_eq_false_2 by (apply Hs; left). f_equal. apply IH; [done| |].
    + intros n Hn [->|?]%elem_of_cons; [done|]. by apply (Hs n); [right|].
    + intros n Hn. destruct (Hm n Hn) as [?|[->|?]%elem_of_cons]; [left; by right|left; left|by right].
Qed.

Lemma append_new_app dst src : ∃ more, append_new dst src = (dst ++ more)%list ∧ more ⊆ src.
Proof.
  revert dst. induction src as [|r src IH]; intros dst; [exists []; by rewrite app_nil_r|]. cbn [append_new].
  destruct (existsb _ dst).
  - destruct (IH dst) as (more&->&?). exists more. split; [done|set_solver].
  - destruct (IH (dst ++ [r])%list) as (more&->&?). exists (r :: more). split; [by rewrite <-app_assoc|set_solver].
Qed.

Lemma append_new_folded dst src n : n ∈ folded (append_new dst src) ↔ n ∈ folded dst ∨ n ∈ folded src.
Proof.
  revert dst. induction src as [|r src IH]; intros dst; [set_solver|]. cbn [append_new]. rewrite IH. unfold folded.
  rewrite fmap_cons, elem_of_cons. destruct (existsb _ dst) eqn:E; [|rewrite fmap_app, elem_of_app; set_solver].
  apply existsb_exists in E as (d&Hd%list_elem_of_In&He%String.eqb_eq).
  split; [set_solver|]. intros [?|[->|?]]; [by left|left|by right]. apply list_elem_of_fmap. exists d. by rewrite He.
Qed.

Lemma append_names_spec dst src n : n ∈ append_names dst src ↔ n ∈ dst ∨ n ∈ src.
Proof.
  revert dst. induction src as [|m src IH]; intros dst; [set_solver|]. cbn [append_names]. rewrite IH.
  case_bool_decide; set_solver.
Qed.

Lemma append_names_absorb dst src : (∀ n, n ∈ src → n ∈ dst) → append_names dst src = dst.
Proof.
  revert dst. induction src as [|m src IH]; intros dst Hs; [done|]. cbn [append_names].
  rewrite bool_decide_eq_true_2 by set_solver. apply IH. set_solver.
Qed.

(** Merged options have the included names of both, each once up to case and the first operand's
    first, and the excluded names of both. *)
Theorem mergeJSONOptions_spec dst src :
  let m := mergeJSONOptions dst src in
  NoDup (folded (OrderedInclude m)) ∧
  (∀ n, n ∈ folded (OrderedInclude m) ↔ n ∈ folded (OrderedInclude dst) ∨ n ∈ folded (OrderedInclude src)) ∧
  (NoDup (folded (OrderedInclude dst)) → OrderedInclude dst `prefix_of` OrderedInclude m) ∧
  (∀ n, n ∈ OrderedExclude m ↔ n ∈ OrderedExclude dst ∨ n ∈ OrderedExclude src) ∧
  mergeJSONOptions m src = m.
Proof.
  unfold mergeJSONOptions. cbn [OrderedInclude OrderedExclude oid NestedRules]. split_and!.
  - apply dedup_fold_NoDup.
  - intros n. rewrite dedup_fold_folded, append_new_folded. set_solver.
  - intros Hnd. destruct (append_new_app (OrderedInclude dst) (OrderedInclude src)) as (more&->&_).
    assert (Hpre : ∀ seen rs, NoDup (folded rs) → (∀ n, n ∈ folded rs → n ∉ seen) → rs `prefix_of` dedup_fold seen (rs ++ more)).
    { intros seen rs. revert seen. induction rs as [|r rs IH]; intros seen Hn Hs; [by eexists|].
      change ((r :: rs) ++ more)%list with (r :: (rs ++ more))%list. cbn [dedup_fold].
      unfold folded in Hn, Hs. rewrite fmap_cons in Hn, Hs. apply NoDup_cons in Hn as [Hr Hn].
      rewrite bool_decide_eq_false_2 by (apply Hs; left). apply prefix_cons, IH; [done|]. set_solver. }
    apply Hpre; [done|set_solver].
  - apply append_names_spec.
  - f_equal; [|apply append_names_absorb; intros; apply append_names_spec; by right].
    set (l := dedup_fold [] (append_new (OrderedInclude dst) (OrderedInclude src))). destruct (append_new_app l (OrderedInclude src)) as (more&->&Hmore).
    apply dedup_fold_app; [apply dedup_fold_NoDup|set_solver|]. intros n Hn. right. unfold l.
    apply dedup_fold_folded. split; [|by apply not_elem_of_nil]. apply append_new_folded. right. unfold folded in *. set_solver.
Qed.

(** ** Serialization *)

Section rvalue_ind.
Context (P : rvalue → Prop).
Context (Hplain : ∀ v, P (RPlain v)) (Hnil : P RNilPtr) (Hptr : ∀ r, P r → P (RPtr r)).
Context (Hlist : ∀ l, Forall P l → P (RList l)) (Hstruct : ∀ fs ms, Forall (λ fv, P fv.2) fs → P (RStruct fs ms)).
Fixpoint rvalue_ind' (r : rvalue) : P r :=
  match r with
  | RPlain v => Hplain v
  | RNilPtr => Hnil
  | RPtr r => Hptr r (rvalue_ind' r)
  | RList l => Hlist l ((fix go (l : list rvalue) : Forall P l :=
      match l with [] => Forall_nil_2 P | r :: l => Forall_cons_2 P r l (rvalue_ind' r) (go l) end) l)
  | RStruct fs ms => Hstruct fs ms ((fix go (fs : list (jfield * rvalue)) : Forall (λ fv, P fv.2) fs :=
      match fs with
      | [] => Forall_nil_2 _
      | fv :: fs => Forall_cons_2 (λ fv, P fv.2) fv fs (rvalue_ind' fv.2) (go fs)
      end) fs)
  end.
End rvalue_ind.

(** The fields of a struct, those of embedded structs in their place. *)
Fixpoint flat_fields (r : rvalue) : list jfield :=
  match r with
  | RStruct fs _ => flat_map (λ fv : jfield * rvalue, if jf_anonymous fv.1 && is_struct fv.2 then flat_fields fv.2 else [fv.1]) fs
  | _ => []
  end.

Definition json_name (f : jfield) : string := if tag_name (jf_tag f) =? "" then jf_name f else tag_name (jf_tag f).
Definition visible (exclude : list string) (f : jfield) : bool :=
  negb ((json_name f =? "-") || contains exclude (json_name f)).

Definition fallback_step (exclude : list string) (acc : list string * list string) (f : jfield) : list string * list string :=
  let '(rules, processed) := acc in
  if bool_decide (jf_name f ∈ processed) then acc
  else ((if visible exclude f then rules ++ [jf_name f] else rules)%list, jf_name f :: processed).

Lemma fallback_flat exclude r acc :
  fallback_fields exclude r acc = fold_left (fallback_step exclude) (flat_fields r) acc.
Proof.
  revert acc. induction r as [v| |r _|l _|fs ms IH] using rvalue_ind'; intros acc; try done.
  cbn [fallback_fields flat_fields]. revert acc. induction IH as [|[f v] fs Hv _ IHfs]; intros acc; [done|].
  cbn [flat_map fst snd]. rewrite fold_left_app. destruct acc as [rs processed].
  destruct (jf_anonymous f && is_struct v); [cbn [snd] in Hv; rewrite Hv; apply IHfs|].
  cbn [fold_left]. unfold fallback_step at 2. case_bool_decide; [apply IHfs|]. unfold visible, json_name.
  destruct (_ || _); apply IHfs.
Qed.

Lemma fallback_fold exclude fs rs processed n :
  n ∈ (fold_left (fallback_step exclude) fs (rs, processed)).1 ↔
  n ∈ rs ∨ (n ∉ processed ∧ ∃ f, List.find (λ f, jf_name f =? n) fs = Some f ∧ visible exclude f = true).
Proof.
  revert rs processed. induction fs as [|f fs IH]; intros rs processed; [naive_solver|]. cbn [fold_left List.find].
  unfold fallback_step at 2. case_bool_decide as Hp.
  - rewrite IH. destruct (String.eqb_spec (jf_name f) n) as [E|Hn]; [subst n; tauto|done].
  - rewrite IH, not_elem_of_cons. destruct (String.eqb_spec (jf_name f) n) as [E|Hn].
    + subst n. destruct (visible exclude f) eqn:Ev; rewrite ?elem_of_app, ?list_elem_of_singleton; split.
      * intros _. right. eauto.
      * by auto.
      * intros [?|[[? _] _]]; [by left|done].
      * intros [?|(_&?&[= <-]&?)]; [by left|congruence].
    + destruct (visible exclude f); rewrite ?elem_of_app, ?list_elem_of_singleton; naive_solver congruence.
Qed.

Lemma findField_size target r f v : findField target r = Some (f, v) → (rsize v < rsize r)%nat.
Proof.
  induction r as [x| |r _|l _|fs ms IH] using rvalue_ind'; try done. cbn [findField rsize].
  induction IH as [|[f' v'] fs Hv _ IHfs]; [done|]. cbn [map foldr fst snd] in *.
  destruct (field_matches target f'); [intros [= -> ->]; lia|].
  destruct (jf_anonymous f' && is_struct v').
  - destruct (findField target v') as [[f2 v2]|]; [intros [= -> ->]; specialize (Hv eq_refl); lia|].
    intros Hf%IHfs. lia.
  - intros Hf%IHfs. lia.
Qed.

Lemma serialize_list_total ser l st :
  (∀ r st, r ∈ l → is_Some (ser r st)) → is_Some (serialize_list ser l st).
Proof.
  revert st. induction l as [|r l IH]; intros st Hs; [by eexists|]. cbn [serialize_list].
  destruct (Hs r st ltac:(left)) as [[t st1] ->]. cbn. destruct (IH st1) as [[ts st2] ->]; [intros; apply Hs; by right|].
  by eexists.
Qed.

Lemma serialize_rules_total ser o r ms rs om st :
  (∀ o v st, (rsize v < rsize r)%nat → is_Some (ser o v st)) → is_Some (serialize_rules ser o r ms rs om st).
Proof.
  intros Hs. revert om st. induction rs as [|rule rs IH]; intros om st; [by eexists|]. cbn [serialize_rules].
  destruct (findField rule.1 r) as [[f v]|] eqn:Ef; [|apply IH]. destruct (IsExported _); [|apply IH].
  destruct (pass_down o rule _ st) as [down st1]. apply findField_size in Ef.
  destruct (Hs down v st1 Ef) as [[t st2] Ht]. destruct v; [apply IH|..]; rewrite Ht; apply IH.
Qed.

Lemma rsize_elem r l : r ∈ l → (rsize r ≤ foldr Nat.max 0%nat (map rsize l))%nat.
Proof. induction l as [|x l IH]; [by intros ?%elem_of_nil|]. intros [->|Hr]%elem_of_cons; cbn; [lia|]. specialize (IH Hr). lia. Qed.

Lemma serializeValue_total fuel o r st : (rsize r ≤ fuel)%nat → is_Some (serializeValue fuel o r st).
Proof.
  revert o r st. induction fuel as [|fuel IH]; intros o r st Hr; [destruct r; cbn in Hr; lia|]. cbn [serializeValue].
  assert (Hl : ∀ l, (foldr Nat.max 0%nat (map rsize l) ≤ fuel)%nat → is_Some (serialize_list (serializeValue fuel o) l st)).
  { intros l Hl. apply serialize_list_total. intros x st' Hx%rsize_elem. apply IH. lia. }
  assert (Hs : ∀ r ms rs, (rsize r ≤ S fuel)%nat → is_Some (serialize_rules (serializeValue fuel) o r ms rs NewOrderedMap st)).
  { intros r' ms rs Hle. apply serialize_rules_total. intros o' v st' Hv. apply IH. lia. }
  destruct r as [v| |[v| |r|l|fs ms]|l|fs ms]; cbn [rsize] in Hr; try (by eexists).
  - destruct (Hl l) as [[ts st1] ->]; [lia|by eexists].
  - destruct (Hs (RStruct fs ms) ms (rules_of o st (RStruct fs ms))) as [[om st1] ->]; [cbn [rsize]; lia|by eexists].
  - destruct (Hl l) as [[ts st1] ->]; [lia|by eexists].
  - destruct (Hs (RStruct fs ms) ms (rules_of o st (RStruct fs ms))) as [[om st1] ->]; [cbn [rsize]; lia|by eexists].
Qed.

(** *** Keys of an object *)

Definition om_wf {A} (om : OrderedMap A) : Prop :=
  NoDup (om_keys om) ∧ ∀ k, k ∈ om_keys om ↔ is_Some (om_values om !! k).

Lemma om_Set_spec {A} key (a : A) om :
  om_wf om → om_wf (om_Set key a om) ∧ om_keys (om_Set key a om) = append_names (om_keys om) [key].
Proof.
  intros [Hnd Hin]. unfold om_wf, om_Set. cbn [om_keys om_values append_names].
  rewrite (bool_decide_ext (is_Some (om_values om !! key)) (key ∈ om_keys om)) by (by rewrite Hin).
  case_bool_decide as Hk; (split; [split|done]).
  - done.
  - intros k. rewrite Hin, lookup_insert. case_decide; [subst; rewrite <-Hin; naive_solver|done].
  - apply NoDup_app. split_and!; [done|set_solver|apply NoDup_singleton].
  - intros k. rewrite elem_of_app, list_elem_of_singleton, Hin, lookup_insert. case_decide; [subst; naive_solver|naive_solver].
Qed.

Lemma om_wf_empty {A} : om_wf (@NewOrderedMap A).
Proof.
  split; [apply NoDup_nil_2|]. intros k. cbn. rewrite lookup_empty. split; [by intros ?%elem_of_nil|by intros ?%is_Some_None].
Qed.

Lemma append_names_app dst a b : append_names dst (a ++ b) = append_names (append_names dst a) b.
Proof. revert dst. induction a as [|n a IH]; intros dst; [done|]. apply IH. Qed.

(** The key a rule writes. *)
Definition rule_key (r : rvalue) (rule : string * option JSONOptions) : string :=
  match findField rule.1 r with
  | Some (f, _) => if IsExported (jf_name f) then out_key f rule.1 else ToSnakeCase rule.1
  | None => ToSnakeCase rule.1
  end.

Lemma serialize_rules_keys ser o r ms rs om st om' st' :
  om_wf om → serialize_rules ser o r ms rs om st = Some (om', st') →
  om_wf om' ∧ om_keys om' = append_names (om_keys om) (rule_key r <$> rs).
Proof.
  revert om st. induction rs as [|rule rs IH]; intros om st Hwf; cbn [serialize_rules]; [by intros [= <- <-]|].
  assert (Hset : ∀ t st1, serialize_rules ser o r ms rs (om_Set (rule_key r rule) t om) st1 = Some (om', st') →
    om_wf om' ∧ om_keys om' = append_names (om_keys om) (rule_key r <$> rule :: rs)).
  { intros t st1 Hs. destruct (om_Set_spec (rule_key r rule) t om Hwf) as [Hwf1 Hk1].
    destruct (IH _ _ Hwf1 Hs) as [? ->]. split; [done|].
    rewrite Hk1, <-append_names_app. done. }
  unfold rule_key in Hset. destruct (findField rule.1 r) as [[f v]|]; [|apply Hset]. destruct (IsExported _); [|apply Hset].
  destruct (pass_down o rule _ st) as [down st1].
  destruct v; [apply Hset|..]; (destruct (ser down _ st1) as [[t st2]|]; [apply Hset|done]).
Qed.

Lemma om_object_keys om : om_wf om → ∃ fields, om_object om = JObject fields ∧ fields.*1 = om_keys om.
Proof.
  intros [_ Hin]. eexists. split; [done|]. assert (Hall : ∀ k, k ∈ om_keys om → is_Some (om_values om !! k)) by (intros; by apply Hin).
  clear Hin. induction (om_keys om) as [|k ks IH]; [done|]. destruct (Hall k ltac:(left)) as [v Hv].
  cbn. rewrite Hv. cbn. f_equal. apply IH. intros x Hx. apply Hall. by right.
Qed.

(** Serialising a struct returns an object whose keys are the keys of the selected rules,
    each once and in order of first appearance; fuel of the size of the value is enough. *)
Theorem serializeValue_keys fuel o fs ms st :
  let r := RStruct fs ms in
  (rsize r ≤ fuel)%nat →
  ∃ fields st', serializeValue fuel o r st = Some (JObject fields, st') ∧
    fields.*1 = append_names [] (rule_key r <$> rules_of o st r) ∧ NoDup fields.*1.
Proof.
  intros r Hf. destruct fuel as [|fuel]; [cbn in Hf; lia|].
  change (serializeValue (S fuel) o r st) with
    ('(om, st) ← serialize_rules (serializeValue fuel) o r ms (rules_of o st r) NewOrderedMap st; Some (om_object om, st)).
  destruct (serialize_rules_total (serializeValue fuel) o r ms (rules_of o st r) NewOrderedMap st) as [[om st1] Es].
  { intros o' v st' Hv. apply serializeValue_total. lia. }
  rewrite Es. apply serialize_rules_keys in Es as [Hwf Hk]; [|apply om_wf_empty].
  destruct (om_object_keys om Hwf) as (fields&Ho&Hfst). exists fields, st1. cbn. rewrite Ho. split; [done|].
  rewrite Hfst, Hk. split; [done|]. rewrite <-Hk. apply Hwf.
Qed.

(** The rules of the fallback mode: the visible fields. *)
Lemma rules_of_fallback o st r n :
  OrderedInclude o = [] →
  n ∈ (rules_of o st r).*1 ↔
  ∃ f, List.find (λ f, jf_name f =? n) (flat_fields r) = Some f ∧ visible (excluded st o) f = true.
Proof.
  intros Hi. unfold rules_of. rewrite Hi. cbn [existsb orb andb negb]. rewrite bool_decide_eq_true_2 by done. cbn [negb andb].
  rewrite <-list_fmap_compose. assert (Hid : ∀ l : list string, (fst ∘ (λ n, (n, @None JSONOptions))) <$> l = l).
  { intros l. induction l as [|x l IH]; [done|]. rewrite fmap_cons, IH. done. }
  rewrite Hid, fallback_flat, fallback_fold. set_solver.
Qed.

(** ToJSON returns on every model once its options have been built. *)
Theorem ToJSON_returns model opts s :
  apply_options opts (newJSONOptions 1, 2%nat) = Some s → is_Some (ToJSON model opts).
Proof.
  intros Ho. unfold ToJSON. destruct model as [model|]; [|by eexists]. rewrite Ho. destruct s as [options next]. cbn.
  assert (Hval : ∀ val, is_Some match val with
    | RList l => serialize_list (λ r, serializeValue (S (rsize val)) options match r with RPtr r => r | r => r end) l ∅ ≫=
                   λ '(ts, _), Some (Ok (JList ts))
    | RStruct _ _ | RPlain (VTime _ _) => serializeValue (S (rsize val)) options val ∅ ≫= λ '(t, _), Some (Ok t)
    | _ => Some (Err (ErrMsg "ToJSON: unsupported type (must be struct, pointer to struct, or slice/array of struct/pointer)"))
    end).
  { intros val. destruct (serializeValue_total (S (rsize val)) options val ∅) as [[t st] Ht]; [lia|].
    destruct val as [v| |r|l|fs ms]; try (by eexists).
    - destruct v; try (by eexists); rewrite Ht; by eexists.
    - destruct (serialize_list_total (λ r, serializeValue (S (rsize (RList l))) options match r with RPtr r => r | r => r end) l ∅)
        as [[ts st'] ->]; [|by eexists].
      intros r st' Hr%rsize_elem. apply serializeValue_total. cbn [rsize]. destruct r; cbn [rsize] in *; lia.
    - rewrite Ht. by eexists. }
  destruct model as [v| |r|l|fs ms];
    [exact (Hval (RPlain v))|by eexists|exact (Hval r)|exact (Hval (RList l))|exact (Hval (RStruct fs ms))].
Qed.
