(* ===== verification/Schema.v ===== *)
(** * Schema generation and migration (internal/schema/generate.go,
    internal/schema/auto.go, migrate.go)

    The statements are texts, as in the code.  [GenerateAlterTableSQL] collects
    them as values of [ddl], one constructor per [Sprintf] of the code, printed
    by [ddl_sql]; where the code compares texts, so does the model.  A [range]
    over a map visits it in any order: [range n m] is the order the [n]-th
    statement of the function uses, a parameter.  Log calls are left out. *)

From S2P Require Import Prelude GoStrings GoValues Metadata Predicate CacheIndex LocalCache CacheClient SqlBuilder Crud.

Open Scope string_scope.

(** ** Names of types *)

Definition width_suffix (w : width) : string :=
  match w with W8 => "8" | W16 => "16" | W32 => "32" | W64 => "64" | WInt => "" end.

(** [reflect.Type.String]; a named type has its qualified name. *)
Fixpoint type_String (t : gotype) : string :=
  match t with
  | TBool => "bool"
  | TInt w => "int" +:+ width_suffix w
  | TUint w => "uint" +:+ width_suffix w
  | TFloat F32 => "float32"
  | TFloat F64 => "float64"
  | TString => "string"
  | TTime => "time.Time"
  | TPtr t => "*" +:+ type_String t
  | TSlice t => "[]" +:+ type_String t
  | TArray n t => "[" +:+ FormatInt (Z.of_nat n) +:+ "]" +:+ type_String t
  | TIface => "interface {}"
  | TNamed n _ | TOpaque _ n => n
  end.

(** [reflect.Kind.String] of the kind of a type. *)
Fixpoint kind_String (t : gotype) : string :=
  match t with
  | TBool | TInt _ | TUint _ | TFloat _ | TString => type_String t
  | TTime | TOpaque OStruct _ => "struct"
  | TPtr _ => "ptr"
  | TSlice _ => "slice"
  | TArray _ _ => "array"
  | TIface => "interface"
  | TNamed _ t => kind_String t
  | TOpaque OMap _ => "map"
  | TOpaque OChan _ => "chan"
  | TOpaque OFunc _ => "func"
  end.

(** ** Types of columns *)

Definition mysql_types : list (string * string) :=
  [("int", "INT"); ("int8", "TINYINT"); ("int16", "SMALLINT"); ("int32", "INT"); ("int64", "BIGINT");
   ("uint", "INT UNSIGNED"); ("uint8", "TINYINT UNSIGNED"); ("uint16", "SMALLINT UNSIGNED");
   ("uint32", "INT UNSIGNED"); ("uint64", "BIGINT UNSIGNED"); ("float32", "FLOAT"); ("float64", "DOUBLE");
   ("string", "VARCHAR(255)"); ("bool", "BOOLEAN"); ("time.Time", "DATETIME"); ("[]byte", "BLOB")].
Definition postgres_types : list (string * string) :=
  [("int", "INTEGER"); ("int8", "SMALLINT"); ("int16", "SMALLINT"); ("int32", "INTEGER"); ("int64", "BIGINT");
   ("uint", "BIGINT"); ("uint8", "SMALLINT"); ("uint16", "INTEGER"); ("uint32", "BIGINT");
   ("uint64", "NUMERIC"); ("float32", "REAL"); ("float64", "DOUBLE PRECISION");
   ("string", "VARCHAR(255)"); ("bool", "BOOLEAN"); ("time.Time", "TIMESTAMP"); ("[]byte", "BYTEA")].
Definition sqlite_types : list (string * string) :=
  [("int", "INTEGER"); ("int8", "INTEGER"); ("int16", "INTEGER"); ("int32", "INTEGER"); ("int64", "INTEGER");
   ("uint", "INTEGER"); ("uint8", "INTEGER"); ("uint16", "INTEGER"); ("uint32", "INTEGER");
   ("uint64", "INTEGER"); ("float32", "REAL"); ("float64", "REAL");
   ("string", "TEXT"); ("bool", "BOOLEAN"); ("time.Time", "DATETIME"); ("[]byte", "BLOB")].

Definition TypeMapping (dialect : string) : option (gmap string string) :=
  if dialect =? "mysql" then Some (list_to_map mysql_types)
  else if dialect =? "postgres" then Some (list_to_map postgres_types)
  else if dialect =? "sqlite" then Some (list_to_map sqlite_types)
  else None.

(** By the name of the type, then of its kind, then [TEXT]. *)
Definition sql_type (typeMap : gmap string string) (t : gotype) : string :=
  match typeMap !! type_String t with
  | Some s => s
  | None => default "TEXT" (typeMap !! kind_String t)
  end.

(** ** Default values *)

(** [strings.ReplaceAll(s, "'", "''")]. *)
Fixpoint double_quotes (s : string) : string :=
  match s with
  | "" => ""
  | String c s => if bool_decide (c = "'"%char) then String c (String c (double_quotes s)) else String c (double_quotes s)
  end.

Definition formatDefaultValueForSQL (defaultValue : string) (goKind : kind) (dialect : string) : result string :=
  match goKind with
  | KString => Ok ("'" +:+ double_quotes defaultValue +:+ "'")
  | KBool =>
      let lowerVal := ToLower defaultValue in
      if (lowerVal =? "true") || (lowerVal =? "1") then Ok (if dialect =? "postgres" then "TRUE" else "1")
      else if (lowerVal =? "false") || (lowerVal =? "0") then Ok (if dialect =? "postgres" then "FALSE" else "0")
      else Err (ErrMsg "invalid boolean default value")
  | KInt | KUint | KFloat => Ok defaultValue
  | _ => Err (ErrMsg "unsupported Go kind for default value")
  end.

(** [DEFAULT ...] when the field has a default that can be formatted. *)
Definition default_clause (f : ComparableFieldInfo) (dialect : string) : list string :=
  match DefaultValue f with
  | Some d => match formatDefaultValueForSQL d (type_kind (CFType f)) dialect with
              | Ok s => ["DEFAULT " +:+ s]
              | _ => []
              end
  | None => []
  end.

(** ** Indexes *)

Definition backquote (s : string) : string := "`" +:+ s +:+ "`".

Definition ddl_quote (dialect s : string) : string :=
  if dialect =? "postgres" then dquote s else backquote s.

Definition generateCreateIndexSQL (tableName indexName : string) (columns : list string) (unique : bool)
    (where_ dialect : string) : string :=
  match columns with
  | [] => ""
  | _ =>
      "CREATE" +:+ (if unique then " UNIQUE" else "") +:+ " INDEX" +:+
      (if (dialect =? "sqlite") || (dialect =? "postgres") then " IF NOT EXISTS" else "") +:+
      " " +:+ ddl_quote dialect indexName +:+ " ON " +:+ ddl_quote dialect tableName +:+
      " (" +:+ Join (ddl_quote dialect <$> columns) ", " +:+ ")" +:+
      (if where_ =? "" then "" else " WHERE " +:+ where_) +:+ ";"
  end.

Definition indexWherePresenceMatches (modelWhere dbWhere : string) : bool :=
  Bool.eqb (negb (TrimSpace modelWhere =? "")) (negb (TrimSpace dbWhere =? "")).

Definition generateDropIndexSQL (tableName indexName dialect : string) : string :=
  if dialect =? "mysql" then "DROP INDEX " +:+ ddl_quote dialect indexName +:+ " ON " +:+ ddl_quote dialect tableName +:+ ";"
  else if (dialect =? "postgres") || (dialect =? "sqlite") then "DROP INDEX IF EXISTS " +:+ ddl_quote dialect indexName +:+ ";"
  else "-- Unsupported dialect for DROP INDEX: " +:+ dialect.

Definition sort_Strings (l : list string) : list string := sort_by id l.

(** The same elements, in any order. *)
Definition equalStringSlice (a b : list string) : bool :=
  (length a =? length b)%nat && bool_decide (sort_Strings a = sort_Strings b).

Definition containsSQL (slice : list string) (item : string) : bool := existsb (λ s, s =? item) slice.

(** The name an index is known by: its own, or one made from its only column;
    [None] for a composite index without a name. *)
Definition index_name (tableName : string) (idx : IndexInfo) (unique : bool) : option string :=
  if negb (IdxName idx =? "") then Some (IdxName idx)
  else match IdxColumns idx with
  | [c] => Some ((if unique then "uniq_" else "idx_") +:+ tableName +:+ "_" +:+ c)
  | _ => None
  end.

Definition partial_index_error : goerr := ErrMsg "partial indexes are not supported for MySQL".
Definition where_conflict_error : goerr := ErrMsg "index has conflicting WHERE predicates".

(** [populateMergedMap] of [GenerateCreateTableSQL]: columns of indexes of one
    name are merged. *)
Fixpoint populateMergedMap (tableName dialect : string) (indexes : list IndexInfo) (unique : bool)
    (merged : gmap string IndexInfo) : result (gmap string IndexInfo) :=
  match indexes with
  | [] => Ok merged
  | idx :: indexes =>
      if bool_decide (IdxColumns idx = []) then populateMergedMap tableName dialect indexes unique merged
      else if negb (IdxWhere idx =? "") && (dialect =? "mysql") then Err partial_index_error
      else match index_name tableName idx unique with
      | None => populateMergedMap tableName dialect indexes unique merged
      | Some idxName =>
          match merged !! idxName with
          | Some existing =>
              if negb (Bool.eqb (IdxUnique existing) unique)
              then populateMergedMap tableName dialect indexes unique merged
              else if negb (IdxWhere existing =? IdxWhere idx) then Err where_conflict_error
              else
                let cols := foldl (λ cols c, if bool_decide (c ∈ cols) then cols else (cols ++ [c])%list)
                              (IdxColumns existing) (IdxColumns idx) in
                populateMergedMap tableName dialect indexes unique
                  (<[idxName := MkIndexInfo (IdxName existing) (sort_Strings cols) (IdxUnique existing)
                                  (IdxWhere existing)]> merged)
          | None =>
              populateMergedMap tableName dialect indexes unique
                (<[idxName := MkIndexInfo idxName (IdxColumns idx) unique (IdxWhere idx)]> merged)
          end
      end
  end.

(** ** CREATE TABLE *)

Definition nl : string := String "010" "".

(** The definition of one column. *)
Definition column_def (typeMap : gmap string string) (pkCol dialect : string) (f : ComparableFieldInfo) : string :=
  let col := DBColumn f in
  let sqlType := sql_type typeMap (CFType f) in
  let pk := col =? pkCol in
  let pk_constraints :=
    if pk then
      "PRIMARY KEY" ::
      ((if (dialect =? "mysql") && (HasPrefix sqlType "INT" || HasPrefix sqlType "BIGINT") then ["AUTO_INCREMENT"] else []) ++
       (if (dialect =? "sqlite") && (sqlType =? "INTEGER") then ["AUTOINCREMENT"] else []))%list
    else [] in
  let sqlType := if pk && (dialect =? "postgres") && (sqlType =? "BIGINT") then "BIGSERIAL" else sqlType in
  let not_null := if negb (IsEmbedded f) && negb (HasSuffix col "_at") && negb pk then ["NOT NULL"] else [] in
  TrimSpace (col +:+ " " +:+ sqlType +:+ " " +:+
             Join (pk_constraints ++ not_null ++ default_clause f dialect)%list " ").

Definition index_statements (tableName dialect : string) (merged : gmap string IndexInfo) : list string :=
  omap (λ name, idx ← merged !! name;
                let sql := generateCreateIndexSQL tableName (IdxName idx) (IdxColumns idx) (IdxUnique idx) (IdxWhere idx) dialect in
                if sql =? "" then None else Some sql)
    (sort_Strings (map_to_list merged).*1).

Definition GenerateCreateTableSQL (info : ModelInfo) (dialect : string) : result string :=
  match TypeMapping dialect with
  | None => Err (ErrMsg "unsupported dialect")
  | Some typeMap =>
      let cols := column_def typeMap (PkName info) dialect <$> CompareFields info in
      let tableName := TableName info in
      let createTableSQL :=
        "CREATE TABLE IF NOT EXISTS " +:+ tableName +:+ " (" +:+ nl +:+ "  " +:+
        Join cols ("," +:+ nl +:+ "  ") +:+ nl +:+ ");" in
      merged ← populateMergedMap tableName dialect (Indexes info) false ∅;
      merged ← populateMergedMap tableName dialect (UniqueIndexes info) true merged;
      let indexSQLs := index_statements tableName dialect merged in
      Ok (match indexSQLs with
          | [] => createTableSQL
          | _ => createTableSQL +:+ nl +:+ nl +:+ "-- Indexes --" +:+ nl +:+ Join indexSQLs nl
          end)
  end.

(** ** What the database has (drivers/schema/schema.go) *)

Record ColumnInfo := MkColumn {
  ColName : string;
  DataType : string;
  IsNullable : bool;
  IsPrimary : bool;
  IsUnique : bool;
  ColDefault : option string
}.

(** An index the database reports; the internal record has the same fields as
    the drivers' one, so that [ConvertTableInfo] copies. *)
Record TableInfo := MkTable {
  TabName : string;
  TabColumns : list ColumnInfo;
  TabIndexes : list IndexInfo;
  PrimaryKey : string
}.

Definition ConvertTableInfo (src : option TableInfo) : option TableInfo :=
  match src with
  | None => None
  | Some src =>
      Some (MkTable (TabName src)
        ((λ c, MkColumn (ColName c) (DataType c) (IsNullable c) (IsPrimary c) (IsUnique c) (ColDefault c)) <$> TabColumns src)
        ((λ i, MkIndexInfo (IdxName i) (IdxColumns i) (IdxUnique i) (IdxWhere i)) <$> TabIndexes src)
        (PrimaryKey src))
  end.

(** ** ALTER TABLE *)

Inductive ddl :=
  | AddColumn (table col sqlType : string) (constraints : list string)
  | DropColumn (table col : string)
  | ManualDropColumn (table col : string)
  | ModifyType (table col sqlType : string)
  | ManualPrimaryKey (col : string)
  | CreateIndex (table name : string) (columns : list string) (unique : bool) (where_ : string)
  | DropIndex (table name : string).

Definition ddl_sql (dialect : string) (d : ddl) : string :=
  match d with
  | AddColumn table col sqlType constraints =>
      "ALTER TABLE " +:+ table +:+ " ADD COLUMN " +:+ col +:+ " " +:+ sqlType +:+
      match constraints with [] => "" | _ => " " +:+ Join constraints " " end
  | DropColumn table col => "ALTER TABLE " +:+ table +:+ " DROP COLUMN " +:+ col +:+ ";"
  | ManualDropColumn table col =>
      "-- [manual] DROP COLUMN " +:+ col +:+ " from " +:+ table +:+ " (unsupported dialect)"
  | ModifyType table col sqlType =>
      if dialect =? "mysql" then "ALTER TABLE " +:+ table +:+ " MODIFY COLUMN " +:+ col +:+ " " +:+ sqlType
      else "ALTER TABLE " +:+ table +:+ " ALTER COLUMN " +:+ col +:+ " TYPE " +:+ sqlType
  | ManualPrimaryKey col => "-- [manual] PRIMARY KEY change for " +:+ col +:+ " (may require table rebuild)"
  | CreateIndex table name columns unique where_ =>
      generateCreateIndexSQL table name columns unique where_ dialect
  | DropIndex table name => generateDropIndexSQL table name dialect
  end.

(** [populateIndexMap]: the first definition of a name counts. *)
Fixpoint populateIndexMap (tableName dialect : string) (indexes : list IndexInfo) (unique : bool)
    (m : gmap string IndexInfo) : result (gmap string IndexInfo) :=
  match indexes with
  | [] => Ok m
  | idx :: indexes =>
      if bool_decide (IdxColumns idx = []) then populateIndexMap tableName dialect indexes unique m
      else if negb (IdxWhere idx =? "") && (dialect =? "mysql") then Err partial_index_error
      else match index_name tableName idx unique with
      | None => populateIndexMap tableName dialect indexes unique m
      | Some idxName =>
          match m !! idxName with
          | Some existing =>
              if negb (Bool.eqb (IdxUnique existing) unique) then populateIndexMap tableName dialect indexes unique m
              else if negb (equalStringSlice (IdxColumns existing) (IdxColumns idx))
              then populateIndexMap tableName dialect indexes unique m
              else if negb (IdxWhere existing =? IdxWhere idx) then Err where_conflict_error
              else populateIndexMap tableName dialect indexes unique m
          | None =>
              populateIndexMap tableName dialect indexes unique
                (<[idxName := MkIndexInfo idxName (IdxColumns idx) unique (IdxWhere idx)]> m)
          end
      end
  end.

(** A map filled in order: a later entry of the same key replaces. *)
Definition map_of_list {A} (l : list (string * A)) : gmap string A :=
  foldl (λ m kv, <[kv.1 := kv.2]> m) ∅ l.

Definition target_columns (info : ModelInfo) : gmap string ComparableFieldInfo :=
  map_of_list ((λ f, (DBColumn f, f)) <$> CompareFields info).
Definition db_columns (t : TableInfo) : gmap string ColumnInfo :=
  map_of_list ((λ c, (ColName c, c)) <$> TabColumns t).
Definition db_indexes (t : TableInfo) : gmap string IndexInfo :=
  map_of_list ((λ i, (IdxName i, MkIndexInfo (IdxName i) (sort_Strings (IdxColumns i)) (IdxUnique i) (IdxWhere i))) <$>
               filter (λ i, HasPrefix (IdxName i) "sqlite_autoindex_" = false) (TabIndexes t)).

Definition model_indexes (info : ModelInfo) (dialect : string) : result (gmap string IndexInfo) :=
  m ← populateIndexMap (TableName info) dialect (Indexes info) false ∅;
  populateIndexMap (TableName info) dialect (UniqueIndexes info) true m.

(** Same uniqueness, same columns, both with a predicate or both without. *)
Definition same_definition (m d : IndexInfo) : bool :=
  Bool.eqb (IdxUnique m) (IdxUnique d) && equalStringSlice (IdxColumns m) (IdxColumns d) &&
  indexWherePresenceMatches (IdxWhere m) (IdxWhere d).

Section alter.
Context (range : nat → ∀ A, gmap string A → list (string * A)).
Context (dialect : string) (typeMap : gmap string string) (info : ModelInfo).

Definition add_column (dbCols : gmap string ColumnInfo) (cf : string * ComparableFieldInfo) : list ddl :=
  let '(col, f) := cf in
  match dbCols !! col with
  | Some _ => []
  | None =>
      [AddColumn (TableName info) col (sql_type typeMap (CFType f))
         ((if col =? PkName info then ["PRIMARY KEY"] else []) ++ default_clause f dialect)%list]
  end.

Definition drop_column (targetCols : gmap string ComparableFieldInfo) (cc : string * ColumnInfo) : list ddl :=
  match targetCols !! cc.1 with
  | Some _ => []
  | None =>
      if (dialect =? "mysql") || (dialect =? "postgres") || (dialect =? "sqlite")
      then [DropColumn (TableName info) cc.1] else [ManualDropColumn (TableName info) cc.1]
  end.

Definition change_column (dbCols : gmap string ColumnInfo) (cf : string * ComparableFieldInfo) : list ddl :=
  let '(col, f) := cf in
  match dbCols !! col with
  | None => []
  | Some dbCol =>
      let sqlType := sql_type typeMap (CFType f) in
      ((if DataType dbCol =? sqlType then [] else [ModifyType (TableName info) col sqlType]) ++
       (if Bool.eqb (IsPrimary dbCol) (col =? PkName info) then [] else [ManualPrimaryKey col]))%list
  end.

(** [if !containsSQL(sqls, s) { sqls = append(sqls, s) }]. *)
Definition add_once (d : ddl) (sqls : list ddl) : list ddl :=
  if containsSQL (ddl_sql dialect <$> sqls) (ddl_sql dialect d) then sqls else (sqls ++ [d])%list.

Definition create_index (m : IndexInfo) : ddl :=
  CreateIndex (TableName info) (IdxName m) (IdxColumns m) (IdxUnique m) (IdxWhere m).

Definition add_index (dbIndexes : gmap string IndexInfo) (sqls : list ddl) (nm : string * IndexInfo) : list ddl :=
  let '(name, mIdx) := nm in
  match dbIndexes !! name with
  | None => (sqls ++ [create_index mIdx])%list
  | Some dbIdx =>
      if same_definition mIdx dbIdx then sqls
      else add_once (create_index mIdx) (add_once (DropIndex (TableName info) name) sqls)
  end.

(** An index of the table the model does not have under that name is dropped,
    unless the model has its definition under another name. *)
Definition drop_index (modelIndexes : gmap string IndexInfo) (sqls : list ddl) (nd : string * IndexInfo) : list ddl :=
  let '(name, dbIdx) := nd in
  match modelIndexes !! name with
  | Some _ => sqls
  | None =>
      let shouldDrop :=
        match List.find (λ kv, same_definition kv.2 dbIdx) (range 4 _ modelIndexes) with
        | Some (potentialModelMatchName, _) =>
            (potentialModelMatchName =? "") || (potentialModelMatchName =? name)
        | None => true
        end in
      if shouldDrop then add_once (DropIndex (TableName info) name) sqls else sqls
  end.

Definition column_changes (targetCols : gmap string ComparableFieldInfo) (dbCols : gmap string ColumnInfo) : list ddl :=
  ((range 0 _ targetCols ≫= add_column dbCols) ++
   (range 1 _ dbCols ≫= drop_column targetCols) ++
   (range 2 _ targetCols ≫= change_column dbCols))%list.

Definition index_changes (modelIndexes dbIndexes : gmap string IndexInfo) (sqls : list ddl) : list ddl :=
  foldl (drop_index modelIndexes) (foldl (add_index dbIndexes) sqls (range 3 _ modelIndexes)) (range 5 _ dbIndexes).
End alter.

Definition alter_plan (range : nat → ∀ A, gmap string A → list (string * A)) (modelInfo : ModelInfo)
    (tableInfo : TableInfo) (dialect : string) : result (list ddl) :=
  match TypeMapping dialect with
  | None => Err (ErrMsg "unsupported dialect")
  | Some typeMap =>
      let sqls := column_changes range dialect typeMap modelInfo (target_columns modelInfo) (db_columns tableInfo) in
      modelIndexes ← model_indexes modelInfo dialect;
      Ok (index_changes range dialect modelInfo modelIndexes (db_indexes tableInfo) sqls)
  end.

Definition GenerateAlterTableSQL (range : nat → ∀ A, gmap string A → list (string * A)) (modelInfo : ModelInfo)
    (tableInfo : TableInfo) (dialect : string) : result (list string) :=
  match alter_plan range modelInfo tableInfo dialect with
  | Ok plan => Ok (ddl_sql dialect <$> plan)
  | Err e => Err e
  | Panic p => Panic p
  end.

(** ** Migration (auto.go, migrate.go) *)

Definition GenerateMigrationsTableSQL (dialect : string) : result string :=
  let table id version applied descr :=
    "CREATE TABLE IF NOT EXISTS schema_migrations (" +:+ nl +:+
    "  id " +:+ id +:+ "," +:+ nl +:+
    "  version " +:+ version +:+ " NOT NULL UNIQUE," +:+ nl +:+
    "  applied_at " +:+ applied +:+ " DEFAULT CURRENT_TIMESTAMP," +:+ nl +:+
    "  description " +:+ descr +:+ nl +:+ ");" in
  if dialect =? "mysql" then Ok (table "INT AUTO_INCREMENT PRIMARY KEY" "VARCHAR(255)" "TIMESTAMP" "VARCHAR(255)")
  else if dialect =? "postgres" then Ok (table "SERIAL PRIMARY KEY" "VARCHAR(255)" "TIMESTAMP" "VARCHAR(255)")
  else if dialect =? "sqlite" then Ok (table "INTEGER PRIMARY KEY AUTOINCREMENT" "TEXT" "DATETIME" "TEXT")
  else Err (ErrMsg "unsupported dialect").

(** The models are given by what [GetCachedModelInfo] answers for their types. *)
Fixpoint AutoMigrateWithDialect (dialect : string) (models : list (result ModelInfo)) : result (list string) :=
  match models with
  | [] => Ok []
  | m :: models =>
      match m with
      | Ok info =>
          match GenerateCreateTableSQL info dialect with
          | Ok sql => sqls ← AutoMigrateWithDialect dialect models; Ok (sql :: sqls)
          | Err e => Err (ErrWrap "AutoMigrateWithDialect: failed to generate SQL" e)
          | Panic p => Panic p
          end
      | Err e => Err (ErrWrap "AutoMigrate: failed to get model info" e)
      | Panic p => Panic p
      end
  end.

Section migrate.
Context {D : Type} `{DBAdapter D}.
Context (range : nat → ∀ A, gmap string A → list (string * A)).

(** An introspector reads a table of the database; [Ok None]: there is none. *)
Definition introspector := string → D → D * result (option TableInfo).

(** The dialect of the global adapter, if there is one, and the registered
    introspectors. *)
Record migrate_env := MkMigrate {
  global_dialect : option string;
  introspectorFactories : gmap string introspector;
  AllowDropColumn : bool
}.

Definition RegisterIntrospectorFactory (dialect : string) (factory : introspector) (e : migrate_env) : migrate_env :=
  MkMigrate (global_dialect e) (<[dialect := factory]> (introspectorFactories e)) (AllowDropColumn e).

Definition getIntrospectorFactory (e : migrate_env) (dialect : string) : option introspector :=
  introspectorFactories e !! dialect.

Definition introspectTable (e : migrate_env) (tableName dialect : string) (d : D) : D * result (option TableInfo) :=
  match getIntrospectorFactory e dialect with
  | None => (d, Err (ErrMsg "no introspector registered for dialect"))
  | Some f => f tableName d
  end.

Definition GenerateMigrationSQL (e : migrate_env) (models : list (result ModelInfo)) : result (list string) :=
  match global_dialect e with
  | None => Err (ErrMsg "GenerateMigrationSQL: globalDB is nil, please call thing.Configure(db, cache)")
  | Some dialect => AutoMigrateWithDialect dialect models
  end.

Definition isDropColumnSQL (sql : string) : bool := Contains (ToUpper sql) "DROP COLUMN".

(** The statements of a plan that are executed. *)
Definition executed (e : migrate_env) (alterSQLs : list string) : list string :=
  filter (λ sql, (isDropColumnSQL sql && negb (AllowDropColumn e)) = false) alterSQLs.

Fixpoint exec_all (sqls : list string) (d : D) : D * result unit :=
  match sqls with
  | [] => (d, Ok ())
  | sql :: sqls =>
      let '(d, r) := db_Exec sql [] d in
      match r with
      | Ok _ => exec_all sqls d
      | Err e => (d, Err (ErrWrap "AutoMigrate: failed to execute ALTER TABLE SQL" e))
      | Panic p => (d, Panic p)
      end
  end.

Definition migrate_one (e : migrate_env) (dialect : string) (info : ModelInfo) (d : D) : D * result unit :=
  let '(d, r) := introspectTable e (TableName info) dialect d in
  match r with
  | Err x => (d, Err (ErrWrap "AutoMigrate: failed to introspect table" x))
  | Panic p => (d, Panic p)
  | Ok dbTableInfo =>
      match ConvertTableInfo dbTableInfo with
      | None =>
          match GenerateCreateTableSQL info dialect with
          | Ok createSQL =>
              let '(d, r) := db_Exec createSQL [] d in
              (d, match r with
                  | Ok _ => Ok ()
                  | Err x => Err (ErrWrap "AutoMigrate: failed to execute CREATE TABLE SQL" x)
                  | Panic p => Panic p
                  end)
          | Err x => (d, Err (ErrWrap "AutoMigrate: failed to generate CREATE TABLE SQL" x))
          | Panic p => (d, Panic p)
          end
      | Some tableInfo =>
          match GenerateAlterTableSQL range info tableInfo dialect with
          | Ok alterSQLs => exec_all (executed e alterSQLs) d
          | Err x => (d, Err (ErrWrap "AutoMigrate: failed to generate ALTER TABLE SQL" x))
          | Panic p => (d, Panic p)
          end
      end
  end.

Fixpoint migrate_models (e : migrate_env) (dialect : string) (models : list (result ModelInfo)) (d : D) : D * result unit :=
  match models with
  | [] => (d, Ok ())
  | Ok info :: models =>
      let '(d, r) := migrate_one e dialect info d in
      match r with
      | Ok _ => migrate_models e dialect models d
      | r => (d, r)
      end
  | Err x :: _ => (d, Err (ErrWrap "AutoMigrate: failed to get model info" x))
  | Panic p :: _ => (d, Panic p)
  end.

Definition AutoMigrate (e : migrate_env) (models : list (result ModelInfo)) (d : D) : D * result unit :=
  match global_dialect e with
  | None => (d, Err (ErrMsg "AutoMigrate: globalDB is nil, please call thing.Configure(db, cache)"))
  | Some dialect => migrate_models e dialect models d
  end.
End migrate.
