(* ===== verification/SchemaFacts.v ===== *)
(** * Facts about schema generation and migration

    Quoting of default values; the comparison of column lists; and the
    migration as a whole: what the statements of a plan do to a table, that a
    second migration has nothing left to do, and that columns stay when they
    must. *)

From Stdlib Require Import Sorting.Sorted.
From stdpp Require Import sorting.
From S2P Require Import Prelude GoStrings GoStringsFacts GoValues Metadata Predicate CacheIndex LocalCache CacheClient SqlBuilder Crud Schema.

Open Scope string_scope.

(** ** Sorting *)

Definition str_le (s t : string) : Prop := str_leb s t = true.

Lemma code_inj a b : code a = code b → a = b.
Proof.
  unfold code. intros Hc. apply N2Z.inj in Hc. by rewrite <-(ascii_N_embedding a), <-(ascii_N_embedding b), Hc.
Qed.

Lemma str_leb_antisym s t : str_le s t → str_le t s → s = t.
Proof.
  unfold str_le. revert t. induction s as [|a s IH]; intros [|b t]; simpl; try done.
  destruct (Z.ltb_spec (code a) (code b)), (Z.ltb_spec (code b) (code a)); try done; try lia.
  intros H1 H2. rewrite (IH t H1 H2), (code_inj a b); [done|lia].
Qed.
Lemma str_leb_trans s t u : str_le s t → str_le t u → str_le s u.
Proof.
  unfold str_le. revert t u. induction s as [|a s IH]; intros [|b t] [|c u]; simpl; try done.
  destruct (Z.ltb_spec (code a) (code b)), (Z.ltb_spec (code b) (code a)),
    (Z.ltb_spec (code b) (code c)), (Z.ltb_spec (code c) (code b)),
    (Z.ltb_spec (code a) (code c)), (Z.ltb_spec (code c) (code a)); try done; try lia. apply IH.
Qed.
Lemma str_leb_total s t : str_leb s t = false → str_le t s.
Proof.
  unfold str_le. revert t. induction s as [|a s IH]; intros [|b t]; simpl; try done.
  destruct (Z.ltb_spec (code a) (code b)), (Z.ltb_spec (code b) (code a)); try done. apply IH.
Qed.

#[export] Instance str_le_antisym : AntiSymm (=) str_le.
Proof. intros s t. apply str_leb_antisym. Qed.

Lemma insert_sorted_perm x l : insert_sorted id x l ≡ₚ x :: l.
Proof.
  induction l as [|y l IH]; [done|]. simpl. destruct (str_leb x y); [done|].
  rewrite IH. apply Permutation_swap.
Qed.
Lemma sort_perm l : sort_Strings l ≡ₚ l.
Proof. induction l as [|x l IH]; [done|]. unfold sort_Strings in *. simpl. by rewrite insert_sorted_perm, IH. Qed.

Lemma insert_sorted_sorted x l : StronglySorted str_le l → StronglySorted str_le (insert_sorted id x l).
Proof.
  induction 1 as [|y l Hs IH Hy]; simpl; [by repeat constructor|].
  destruct (str_leb x y) eqn:E.
  - constructor; [by constructor|]. constructor; [done|].
    eapply Forall_impl; [exact Hy|]. intros z Hz. by eapply str_leb_trans.
  - constructor; [done|]. rewrite insert_sorted_perm. constructor; [by apply str_leb_total|done].
Qed.
Lemma sort_sorted l : StronglySorted str_le (sort_Strings l).
Proof. induction l as [|x l IH]; [constructor|]. by apply insert_sorted_sorted. Qed.

Lemma sort_eq_perm a b : sort_Strings a = sort_Strings b ↔ a ≡ₚ b.
Proof.
  split; intros Hab.
  - by rewrite <-(sort_perm a), <-(sort_perm b), Hab.
  - apply (StronglySorted_unique str_le); [apply sort_sorted..|]. by rewrite !sort_perm.
Qed.

Lemma equalStringSlice_perm a b : equalStringSlice a b = true ↔ a ≡ₚ b.
Proof.
  unfold equalStringSlice. split.
  - intros [_ Hs]%andb_prop. bools. by apply sort_eq_perm.
  - intros Hp. rewrite (Permutation_length Hp), Nat.eqb_refl. apply bool_decide_eq_true. by apply sort_eq_perm.
Qed.

(** ** Default values *)

(** Reading a string literal of standard SQL: its value and the rest of the
    text. *)
Fixpoint read_literal_body (s : string) : option (string * string) :=
  match s with
  | "" => None
  | String c s =>
      if bool_decide (c = "'"%char) then
        match s with
        | String d s' =>
            if bool_decide (d = "'"%char)
            then match read_literal_body s' with Some (v, rest) => Some (String "'" v, rest) | None => None end
            else Some ("", s)
        | "" => Some ("", "")
        end
      else match read_literal_body s with Some (v, rest) => Some (String c v, rest) | None => None end
  end.
Definition read_literal (s : string) : option (string * string) :=
  match s with String "'" s => read_literal_body s | _ => None end.

Lemma read_literal_body_spec v rest :
  HasPrefix rest "'" = false → read_literal_body (double_quotes v +:+ String "'" rest) = Some (v, rest).
Proof.
  intros Hr. induction v as [|c v IH].
  - simpl. destruct rest as [|d rest]; [done|]. simpl. rewrite bool_decide_false; [done|].
    intros ->. by destruct rest.
  - simpl. destruct (decide (c = "'"%char)) as [->|Hne].
    + rewrite bool_decide_true by done. simpl. by rewrite IH.
    + rewrite bool_decide_false by done. simpl. by rewrite bool_decide_false, IH by done.
Qed.

(** The default of a string column is a literal that standard SQL reads back as the value of the
    tag. *)
Theorem formatDefault_literal v dialect rest :
  HasPrefix rest "'" = false →
  ∃ lit, formatDefaultValueForSQL v KString dialect = Ok lit ∧ read_literal (lit +:+ rest) = Some (v, rest).
Proof.
  intros Hr. eexists. split; [done|].
  change (("'" +:+ double_quotes v +:+ "'") +:+ rest) with (String "'" ((double_quotes v +:+ "'") +:+ rest)).
  cbn [read_literal]. rewrite string_app_assoc. by apply read_literal_body_spec.
Qed.

(** ** Types of columns *)

(** In every dialect a []byte field gets the column type TEXT, although the type mapping
    has a binary type for []byte: reflect names the type []uint8. *)
Theorem byte_slice_column dialect typeMap :
  TypeMapping dialect = Some typeMap →
  sql_type typeMap (TSlice (TUint W8)) = "TEXT" ∧ ∃ t, typeMap !! "[]byte" = Some t ∧ t ≠ "TEXT".
Proof.
  unfold TypeMapping. intros. break; split; try (vm_compute; reflexivity);
    eexists; (split; [vm_compute; reflexivity|done]).
Qed.

(** ** What the statements do *)

(** A table: the type of each column and whether it is the primary key, and
    the indexes by name. *)
Record table_state := MkState {
  t_cols : gmap string (string * bool);
  t_idx : gmap string IndexInfo
}.

(** A dropped column takes the indexes that use it with it; an index that
    exists is not created again. *)
Definition apply_ddl (s : table_state) (d : ddl) : table_state :=
  match d with
  | AddColumn _ col ty cs => MkState (<[col := (ty, bool_decide ("PRIMARY KEY" ∈ cs))]> (t_cols s)) (t_idx s)
  | DropColumn _ col => MkState (delete col (t_cols s)) (filter (λ ni, col ∉ IdxColumns ni.2) (t_idx s))
  | ModifyType _ col ty => MkState (alter (λ p, (ty, p.2)) col (t_cols s)) (t_idx s)
  | CreateIndex _ name cols u w =>
      MkState (t_cols s) (match t_idx s !! name with
                          | Some _ => t_idx s
                          | None => <[name := MkIndexInfo name cols u w]> (t_idx s)
                          end)
  | DropIndex _ name => MkState (t_cols s) (delete name (t_idx s))
  | ManualDropColumn _ _ | ManualPrimaryKey _ => s
  end.

Definition is_note (d : ddl) : bool :=
  match d with ManualPrimaryKey _ | ManualDropColumn _ _ => true | _ => false end.

Definition autoindex (n : string) : bool := HasPrefix n "sqlite_autoindex_".

Definition sorted_index (i : IndexInfo) : IndexInfo :=
  MkIndexInfo (IdxName i) (sort_Strings (IdxColumns i)) (IdxUnique i) (IdxWhere i).

(** The introspection of a table reports what it has, the types as they were
    written; the SQLite introspector does, see IntrospectFacts.v. *)
Record reports (t : TableInfo) (s : table_state) : Prop := {
  rep_cols c : (λ ci, (DataType ci, IsPrimary ci)) <$> db_columns t !! c = t_cols s !! c;
  rep_idx n : autoindex n = false → db_indexes t !! n = sorted_index <$> t_idx s !! n
}.

(** The same when the database names a column type its own way: [shown ty] is
    what it reports for a column declared with [ty]. *)
Record shows (shown : string → string) (t : TableInfo) (s : table_state) : Prop := {
  sh_cols c : (λ ci, (DataType ci, IsPrimary ci)) <$> db_columns t !! c = (λ p, (shown p.1, p.2)) <$> t_cols s !! c;
  sh_idx n : autoindex n = false → db_indexes t !! n = sorted_index <$> t_idx s !! n
}.

Lemma reports_shows t s : reports t s → shows id t s.
Proof.
  intros [Hc Hi]. split; [|done]. intros c. rewrite Hc. destruct (t_cols s !! c) as [[ty p]|]; done.
Qed.

(** What a database executes.  SQLite has no statement that changes the type of
    a column and adds no primary key; only PostgreSQL drops a column together
    with the indexes that use it, the others are asked for columns without. *)
Definition executes (dialect : string) (s : table_state) (d : ddl) : bool :=
  match d with
  | ModifyType _ _ _ => negb (dialect =? "sqlite")
  | AddColumn _ _ _ cs => negb (dialect =? "sqlite") || negb (bool_decide ("PRIMARY KEY" ∈ cs))
  | DropColumn _ c =>
      (dialect =? "postgres") ||
      forallb (λ ni : string * IndexInfo, negb (bool_decide (c ∈ IdxColumns ni.2))) (map_to_list (t_idx s)) &&
      negb (default false (snd <$> t_cols s !! c))
  | _ => true
  end.

(** The statements in turn; [None]: one of them is refused. *)
Fixpoint exec_plan (dialect : string) (s : table_state) (plan : list ddl) : option table_state :=
  match plan with
  | [] => Some s
  | d :: plan => if executes dialect s d then exec_plan dialect (apply_ddl s d) plan else None
  end.

Lemma exec_plan_apply dialect s plan s' : exec_plan dialect s plan = Some s' → s' = foldl apply_ddl s plan.
Proof.
  revert s. induction plan as [|d plan IH]; intros s; simpl; [by intros [= <-]|].
  destruct (executes dialect s d); [apply IH|done].
Qed.

(** What a statement does to one column and to one index. *)
Definition col_effect (c : string) (o : option (string * bool)) (d : ddl) : option (string * bool) :=
  match d with
  | AddColumn _ c' ty cs => if decide (c' = c) then Some (ty, bool_decide ("PRIMARY KEY" ∈ cs)) else o
  | DropColumn _ c' => if decide (c' = c) then None else o
  | ModifyType _ c' ty => if decide (c' = c) then (λ p, (ty, p.2)) <$> o else o
  | _ => o
  end.
Definition idx_effect (n : string) (o : option IndexInfo) (d : ddl) : option IndexInfo :=
  match d with
  | DropColumn _ c => i ← o; if decide (c ∈ IdxColumns i) then None else Some i
  | CreateIndex _ n' cols u w =>
      if decide (n' = n) then match o with Some i => Some i | None => Some (MkIndexInfo n' cols u w) end else o
  | DropIndex _ n' => if decide (n' = n) then None else o
  | _ => o
  end.

Lemma t_cols_apply l s c : t_cols (foldl apply_ddl s l) !! c = foldl (col_effect c) (t_cols s !! c) l.
Proof.
  revert s. induction l as [|d l IH]; intros s; [done|]. simpl. rewrite IH. f_equal.
  destruct d; simpl; try done.
  - rewrite lookup_insert. repeat case_decide; congruence.
  - rewrite lookup_delete. repeat case_decide; congruence.
  - case_decide; subst; [by rewrite lookup_alter_eq|by rewrite lookup_alter_ne].
Qed.

Lemma t_idx_apply l s n : t_idx (foldl apply_ddl s l) !! n = foldl (idx_effect n) (t_idx s !! n) l.
Proof.
  revert s. induction l as [|d l IH]; intros s; [done|]. simpl. rewrite IH. f_equal.
  destruct d as [|t c| | | |t n' cols u w|t n']; simpl; try done.
  - rewrite map_lookup_filter. destruct (t_idx s !! n) as [i|]; [|done]. simpl.
    repeat case_guard; repeat case_decide; simpl; try done; naive_solver.
  - case_decide as Hn; subst.
    + destruct (t_idx s !! n) eqn:E; simpl; [by rewrite E|by rewrite lookup_insert_eq].
    + destruct (t_idx s !! n'); simpl; [done|by rewrite lookup_insert_ne].
  - rewrite lookup_delete. repeat case_decide; congruence.
Qed.

(** ** Statements made by a loop over a map *)

Definition range_ok (range : nat → ∀ A, gmap string A → list (string * A)) : Prop :=
  ∀ n A m, range n A m ≡ₚ map_to_list m.

Lemma range_elem range n {A} (m : gmap string A) k v :
  range_ok range → (k, v) ∈ range n A m ↔ m !! k = Some v.
Proof. intros Hr. rewrite (Hr n A m). apply elem_of_map_to_list. Qed.
Lemma range_NoDup range n {A} (m : gmap string A) : range_ok range → NoDup (range n A m).*1.
Proof. intros Hr. rewrite (Hr n A m). apply NoDup_fst_map_to_list. Qed.

(** Only the iteration at a key touches what belongs to the key. *)
Lemma foldl_keyed {A B} (f : string * A → list ddl) (eff : option B → ddl → option B) (key : string) l o :
  NoDup l.*1 → (∀ k v o, (k, v) ∈ l → k ≠ key → foldl eff o (f (k, v)) = o) →
  foldl eff o (l ≫= f) = match list_find (λ kv, kv.1 = key) l with
                         | Some (_, kv) => foldl eff o (f kv)
                         | None => o
                         end.
Proof.
  intros Hnd Hoth. revert o. induction l as [|[k v] l IH]; intros o; [done|].
  rewrite fmap_cons in Hnd. apply NoDup_cons in Hnd as [Hni Hnd]. rewrite bind_cons, foldl_app. simpl.
  assert (Hoth' : ∀ k v o, (k, v) ∈ l → k ≠ key → foldl eff o (f (k, v)) = o) by (intros; apply Hoth; [by right|done]).
  destruct (decide (k = key)) as [->|Hne].
  - rewrite IH by done. destruct (list_find _ l) as [[i kv]|] eqn:E; [|done].
    apply list_find_Some in E as (Hkv&Hk&_). destruct Hni. apply list_elem_of_fmap. exists kv. split; [done|].
    by eapply list_elem_of_lookup_2.
  - rewrite Hoth, IH by (done || by left). by destruct (list_find _ l) as [[i kv]|].
Qed.

Lemma foldl_range {A B} range n (m : gmap string A) (f : string * A → list ddl)
    (eff : option B → ddl → option B) (key : string) o :
  range_ok range → (∀ k v o, m !! k = Some v → k ≠ key → foldl eff o (f (k, v)) = o) →
  foldl eff o (range n A m ≫= f) = match m !! key with
                                   | Some v => foldl eff o (f (key, v))
                                   | None => o
                                   end.
Proof.
  intros Hr Hoth. rewrite (foldl_keyed _ _ key);
    [|by apply range_NoDup|intros k v o' Hin%range_elem; [by apply Hoth|done]].
  destruct (list_find _ _) as [[i [k v]]|] eqn:E.
  - apply list_find_Some in E as (Hkv&Hk&_). simpl in Hk. subst k.
    apply list_elem_of_lookup_2, range_elem in Hkv; [|done]. by rewrite Hkv.
  - destruct (m !! key) as [v|] eqn:Hm; [|done]. apply list_find_None in E.
    rewrite Forall_forall in E. apply (range_elem range n m) in Hm; [|done]. by apply E in Hm.
Qed.

(** ** Statements on indexes are told apart by their text *)

Lemma no_byte_app_inj q a b x y :
  no_byte q a = true → no_byte q b = true → a +:+ String q x = b +:+ String q y → a = b.
Proof.
  revert b. induction a as [|c a IH]; intros [|d b]; cbn [no_byte]; try done.
  - intros _ [Hd _]%andb_prop Heq. change (String q x = String d (b +:+ String q y)) in Heq.
    injection Heq as -> _. by rewrite bool_decide_eq_true_2 in Hd.
  - intros [Hc _]%andb_prop _ Heq. change (String c (a +:+ String q x) = String q y) in Heq.
    injection Heq as -> _. by rewrite bool_decide_eq_true_2 in Hc.
  - intros [_ Ha]%andb_prop [_ Hb]%andb_prop Heq.
    change (String c (a +:+ String q x) = String d (b +:+ String q y)) in Heq.
    injection Heq as -> Heq. f_equal. by eapply IH.
Qed.

(** No quote in the name, whatever the dialect quotes with. *)
Definition plain_name (n : string) : bool := no_byte "`" n && no_byte "034" n.

Definition index_of (d : ddl) : option string :=
  match d with CreateIndex _ n _ _ _ | DropIndex _ n => Some n | _ => None end.

Definition supported (dialect : string) : Prop :=
  dialect = "mysql" ∨ dialect = "postgres" ∨ dialect = "sqlite".

Lemma TypeMapping_supported dialect typeMap : TypeMapping dialect = Some typeMap → supported dialect.
Proof. unfold TypeMapping, supported. intros. break; bools; auto. Qed.

Definition ddl_q (dialect : string) : ascii := if dialect =? "postgres" then "034"%char else "`"%char.
Definition create_prefix (dialect : string) (u : bool) : string :=
  "CREATE" +:+ (if u then " UNIQUE" else "") +:+ " INDEX" +:+
  (if (dialect =? "sqlite") || (dialect =? "postgres") then " IF NOT EXISTS" else "") +:+ " ".

Lemma plain_name_q dialect n : plain_name n = true → no_byte (ddl_q dialect) n = true.
Proof. unfold plain_name, ddl_q. intros [? ?]%andb_prop. by destruct (_ =? _). Qed.

Lemma ddl_quote_app dialect n x :
  ddl_quote dialect n +:+ x = String (ddl_q dialect) (n +:+ String (ddl_q dialect) x).
Proof.
  unfold ddl_quote, ddl_q, dquote, backquote. destruct (_ =? _).
  - change (String "034" ((n +:+ String "034" "") +:+ x) = String "034" (n +:+ String "034" x)).
    by rewrite string_app_assoc.
  - change (String "`" ((n +:+ "`") +:+ x) = String "`" (n +:+ String "`" x)). by rewrite string_app_assoc.
Qed.

Lemma create_text dialect T n cols u w :
  cols ≠ [] →
  ∃ rest, generateCreateIndexSQL T n cols u w dialect =
          create_prefix dialect u +:+ String (ddl_q dialect) (n +:+ String (ddl_q dialect) rest).
Proof.
  intros Hc. unfold generateCreateIndexSQL. destruct cols as [|c cols]; [done|].
  rewrite ddl_quote_app. eexists. unfold create_prefix. rewrite !string_app_assoc. reflexivity.
Qed.

Lemma drop_inj dialect T n n' :
  supported dialect → generateDropIndexSQL T n dialect = generateDropIndexSQL T n' dialect → n = n'.
Proof.
  intros [-> | [-> | ->]]; unfold generateDropIndexSQL; cbn [String.eqb Ascii.eqb Bool.eqb orb]; intros Heq;
    apply string_app_inj_l in Heq; rewrite !ddl_quote_app in Heq; injection Heq as Heq;
    by apply string_app_inj_r in Heq.
Qed.

Lemma create_inj dialect T n n' cols cols' u u' w w' :
  plain_name n = true → plain_name n' = true → cols ≠ [] → cols' ≠ [] →
  generateCreateIndexSQL T n cols u w dialect = generateCreateIndexSQL T n' cols' u' w' dialect → n = n'.
Proof.
  intros Hn Hn' Hc Hc'. destruct (create_text dialect T n cols u w Hc) as [x ->].
  destruct (create_text dialect T n' cols' u' w' Hc') as [y ->].
  destruct u, u'; [|done|done|]; intros Heq; apply string_app_inj_l in Heq; injection Heq as Heq;
    eapply no_byte_app_inj; eauto using plain_name_q.
Qed.

(** The first byte of a statement. *)
Definition first_byte (s : string) : option ascii := match s with "" => None | String c _ => Some c end.
Lemma drop_first dialect T n : supported dialect → first_byte (ddl_sql dialect (DropIndex T n)) = Some "D"%char.
Proof. by intros [-> | [-> | ->]]. Qed.
Lemma create_first dialect T n cols u w :
  cols ≠ [] → first_byte (ddl_sql dialect (CreateIndex T n cols u w)) = Some "C"%char.
Proof. intros Hc. simpl. by destruct (create_text dialect T n cols u w Hc) as [x ->]. Qed.
Lemma other_first dialect d :
  index_of d = None → first_byte (ddl_sql dialect d) = Some "A"%char ∨ first_byte (ddl_sql dialect d) = Some "-"%char.
Proof. destruct d; simpl; intros; try done; auto. destruct (_ =? _); auto. Qed.

(** A statement of the plan: an index it creates has columns and a plain name. *)
Definition wf_ddl (T : string) (d : ddl) : Prop :=
  match d with
  | CreateIndex t n cols _ _ => t = T ∧ cols ≠ [] ∧ plain_name n = true
  | DropIndex t _ => t = T
  | _ => True
  end.

Definition is_create (d : ddl) : bool := match d with CreateIndex _ _ _ _ _ => true | _ => false end.

(** A statement on an index is not taken for an earlier one. *)
Lemma add_once_fresh dialect T d n sqls :
  supported dialect → index_of d = Some n → wf_ddl T d → Forall (wf_ddl T) sqls →
  (∀ d', d' ∈ sqls → index_of d' = Some n → is_create d' ≠ is_create d) →
  add_once dialect d sqls = (sqls ++ [d])%list.
Proof.
  intros Hs Hd Hwd Hw Hfresh. unfold add_once, containsSQL.
  destruct (existsb _ _) eqn:E; [|done]. exfalso.
  apply existsb_exists in E as (s&Hin&Heq). bools. subst s.
  apply list_elem_of_In, list_elem_of_fmap in Hin as (d'&Heq&Hin).
  rewrite Forall_forall in Hw. specialize (Hw d' Hin). specialize (Hfresh d' Hin).
  pose proof (f_equal first_byte Heq) as Hf.
  destruct (index_of d') as [n'|] eqn:Hi'.
  - assert (Hn : n = n' ∨ is_create d' ≠ is_create d).
    { destruct d as [| | | | |t m cols u w|t m]; try done; destruct d' as [| | | | |t' m' cols' u' w'|t' m']; try done;
        simpl in Hd, Hi', Hwd, Hw; destruct_and?; simplify_eq; simpl; [left|by right|by right|left].
      - eapply create_inj; [..|exact Heq]; done.
      - eapply drop_inj; [|exact Heq]; done. }
    assert (Hk : is_create d' ≠ is_create d) by (destruct Hn as [->|]; auto).
    destruct d as [| | | | |t m cols u w|t m]; try done; destruct d' as [| | | | |t' m' cols' u' w'|t' m']; try done;
      simpl in Hwd, Hw; destruct_and?; rewrite drop_first, create_first in Hf by done; done.
  - apply (other_first dialect) in Hi'.
    destruct d as [| | | | |t m cols u w|t m]; try done; simpl in Hwd; destruct_and?;
      [rewrite create_first in Hf by done|rewrite drop_first in Hf by done]; destruct Hi'; congruence.
Qed.

(** ** The plan, loop by loop *)

(** The indexes of the model, by name. *)
Definition named_indexes (m : gmap string IndexInfo) : Prop :=
  ∀ n i, m !! n = Some i → IdxName i = n ∧ n ≠ "" ∧ IdxColumns i ≠ [].

Lemma index_name_nonempty T i u n : index_name T i u = Some n → n ≠ "".
Proof. unfold index_name. intros. break; bools; try done; by destruct u. Qed.

Lemma populateIndexMap_named T dialect l u m m' :
  populateIndexMap T dialect l u m = Ok m' → named_indexes m → named_indexes m'.
Proof.
  revert m. induction l as [|i l IH]; intros m; simpl; [by intros [= ->]|].
  case_bool_decide as Hc; [apply IH|].
  destruct (_ && _); [done|]. destruct (index_name T i u) as [n|] eqn:En; [|apply IH].
  destruct (m !! n) as [e|] eqn:Em; [break; (done || apply IH)|].
  intros Hp Hm. eapply IH; [exact Hp|]. intros k x. rewrite lookup_insert.
  case_decide as Hk; [|apply Hm]. subst. intros [= <-]. simpl. eauto using index_name_nonempty.
Qed.

Lemma model_indexes_named info dialect m : model_indexes info dialect = Ok m → named_indexes m.
Proof.
  unfold model_indexes. intros (m1&H1&H2)%result_bind_Ok.
  eapply populateIndexMap_named; [exact H2|]. eapply populateIndexMap_named; [exact H1|].
  intros n i. by rewrite lookup_empty.
Qed.

Section plan.
Context (range : nat → ∀ A, gmap string A → list (string * A)) (Hrange : range_ok range).
Context (dialect : string) (typeMap : gmap string string) (Htm : TypeMapping dialect = Some typeMap).
Context (info : ModelInfo).
Notation T := (TableName info).

Definition adds (db : gmap string IndexInfo) (nm : string * IndexInfo) : list ddl :=
  match db !! nm.1 with
  | None => [create_index info nm.2]
  | Some d => if same_definition nm.2 d then [] else [DropIndex T nm.1; create_index info nm.2]
  end.

(** Whether the model has the definition of an index under some name. *)
Definition has_definition (model : gmap string IndexInfo) (d : IndexInfo) : bool :=
  existsb (λ kv, same_definition kv.2 d) (map_to_list model).

Definition drops (model : gmap string IndexInfo) (nd : string * IndexInfo) : list ddl :=
  match model !! nd.1 with
  | Some _ => []
  | None => if has_definition model nd.2 then [] else [DropIndex T nd.1]
  end.

Lemma add_index_step db model nm sqls :
  named_indexes model → model !! nm.1 = Some nm.2 → plain_name nm.1 = true →
  Forall (wf_ddl T) sqls → (∀ d, d ∈ sqls → index_of d ≠ Some nm.1) →
  add_index dialect info db sqls nm = (sqls ++ adds db nm)%list ∧ Forall (wf_ddl T) (adds db nm).
Proof.
  destruct nm as [n m]. simpl. intros Hnm Hm Hpl Hw Hfr. destruct (Hnm n m Hm) as (Hn&_&Hc).
  pose proof (TypeMapping_supported _ _ Htm) as Hs.
  assert (Hwc : wf_ddl T (create_index info m)) by (simpl; by rewrite Hn).
  unfold adds. simpl. destruct (db !! n) as [d|]; [|split; [done|by apply Forall_singleton]].
  destruct (same_definition m d); [split; [by rewrite app_nil_r|done]|].
  assert (E1 : add_once dialect (DropIndex T n) sqls = (sqls ++ [DropIndex T n])%list).
  { apply (add_once_fresh _ T _ n); try done. intros d' Hd' Hi. by destruct (Hfr d' Hd'). }
  rewrite E1, (add_once_fresh _ T _ n); try done.
  - split; [by rewrite <-(assoc_L (++))%list|]. apply Forall_cons. split; [done|]. by apply Forall_singleton.
  - by rewrite <-Hn.
  - apply Forall_app. split; [done|]. by repeat constructor.
  - intros d' [Hd'|Hd']%elem_of_app Hi; [by destruct (Hfr d' Hd')|].
    apply list_elem_of_singleton in Hd'. by subst.
Qed.

Lemma foldl_add_index db model l sqls :
  named_indexes model → NoDup l.*1 → (∀ nm, nm ∈ l → model !! nm.1 = Some nm.2 ∧ plain_name nm.1 = true) →
  Forall (wf_ddl T) sqls → (∀ d n, d ∈ sqls → n ∈ l.*1 → index_of d ≠ Some n) →
  foldl (add_index dialect info db) sqls l = (sqls ++ (l ≫= adds db))%list ∧
  Forall (wf_ddl T) (sqls ++ (l ≫= adds db))%list.
Proof.
  intros Hnm. revert sqls. induction l as [|[n m] l IH]; intros sqls Hnd Hl Hw Hfr.
  { simpl. by rewrite app_nil_r. }
  rewrite fmap_cons in Hnd. apply NoDup_cons in Hnd as [Hni Hnd].
  destruct (Hl (n, m)) as [Hm Hpl]; [by left|].
  destruct (add_index_step db model (n, m) sqls) as [E Hwa]; try done.
  { intros d Hd. apply Hfr; [done|]. by left. }
  rewrite bind_cons. cbn [foldl]. rewrite E, (assoc_L (++))%list. apply IH; [done|..].
  - intros nm Hin. apply Hl. by right.
  - by apply Forall_app.
  - intros d k [Hd|Hd]%elem_of_app Hk; [apply Hfr; [done|by right]|].
    assert (Hkn : k ≠ n) by (by intros ->). destruct (Hnm n m Hm) as (Hname&_).
    unfold adds in Hd. simpl in Hd. destruct (db !! n); [destruct (same_definition _ _)|]; simpl in Hd;
      repeat (apply elem_of_cons in Hd as [->|Hd]); try (by apply elem_of_nil in Hd); simpl; congruence.
Qed.

(** The name found for a definition is a name of the model. *)
Lemma drop_index_step model nd sqls :
  named_indexes model →
  Forall (wf_ddl T) sqls → (∀ d, d ∈ sqls → index_of d = Some nd.1 → model !! nd.1 = None → is_create d = true) →
  drop_index range dialect info model sqls nd = (sqls ++ drops model nd)%list.
Proof.
  destruct nd as [n d]. simpl. intros Hnm Hw Hfr. pose proof (TypeMapping_supported _ _ Htm) as Hs.
  unfold drop_index, drops. simpl. destruct (model !! n) as [m|] eqn:Em; [by rewrite app_nil_r|].
  assert (Hfind : match List.find (λ kv, same_definition kv.2 d) (range 4 _ model) with
                  | Some (p, _) => (p =? "") || (p =? n)
                  | None => true
                  end = negb (has_definition model d)).
  { unfold has_definition. destruct (List.find _ _) as [[p i]|] eqn:E.
    - apply find_some in E as [Hin Hsd]. apply list_elem_of_In, range_elem in Hin; [|done].
      destruct (Hnm p i Hin) as (_&Hne&_). apply String.eqb_neq in Hne. rewrite Hne.
      destruct (String.eqb_spec p n); [congruence|]. simpl. symmetry. apply negb_false_iff, existsb_exists.
      exists (p, i). split; [|done]. by apply list_elem_of_In, elem_of_map_to_list.
    - symmetry. apply negb_true_iff. apply not_true_is_false. intros ([p i]&Hin&Hsd)%existsb_exists.
      apply list_elem_of_In, elem_of_map_to_list, (range_elem range 4) in Hin; [|done].
      eapply find_none in E; [|by apply list_elem_of_In]. simpl in *. congruence. }
  rewrite Hfind. destruct (has_definition model d); simpl; [by rewrite app_nil_r|].
  apply (add_once_fresh _ T _ n); try done. intros d' Hd' Hi Hc. by rewrite (Hfr d' Hd' Hi eq_refl) in Hc.
Qed.

Lemma foldl_drop_index model l sqls :
  named_indexes model → NoDup l.*1 → Forall (wf_ddl T) sqls →
  (∀ d n, d ∈ sqls → n ∈ l.*1 → index_of d = Some n → model !! n = None → is_create d = true) →
  foldl (drop_index range dialect info model) sqls l = (sqls ++ (l ≫= drops model))%list.
Proof.
  intros Hnm. revert sqls. induction l as [|[n d] l IH]; intros sqls Hnd Hw Hfr.
  { simpl. by rewrite app_nil_r. }
  rewrite fmap_cons in Hnd. apply NoDup_cons in Hnd as [Hni Hnd].
  rewrite bind_cons. cbn [foldl]. rewrite drop_index_step; try done.
  2:{ intros d' Hd'. apply Hfr; [done|by left]. }
  rewrite (assoc_L (++))%list. apply IH; [done|..].
  - apply Forall_app. split; [done|]. unfold drops. simpl.
    destruct (model !! n); [constructor|]. destruct (has_definition _ _); by repeat constructor.
  - intros d' k [Hd|Hd]%elem_of_app Hk Hi Hmk; [eapply Hfr; [done|by right|done..]|].
    exfalso. unfold drops in Hd. simpl in Hd. destruct (model !! n); [by apply elem_of_nil in Hd|].
    destruct (has_definition _ _); [by apply elem_of_nil in Hd|].
    apply list_elem_of_singleton in Hd. subst d'. simpl in Hi. by injection Hi as ->.
Qed.
End plan.

(** ** Migrating again *)

(** The names of the model's indexes can be quoted and are not those SQLite
    keeps for itself; the indexes are on columns of the model. *)
Definition model_ok (info : ModelInfo) (dialect : string) : Prop :=
  ∀ m, model_indexes info dialect = Ok m →
  ∀ n i, m !! n = Some i →
    plain_name n = true ∧ autoindex n = false ∧ ∀ c, c ∈ IdxColumns i → is_Some (target_columns info !! c).

Section migrated.
Context (range : nat → ∀ A, gmap string A → list (string * A)) (Hrange : range_ok range).
Context (dialect : string) (typeMap : gmap string string) (Htm : TypeMapping dialect = Some typeMap).
Context (info : ModelInfo) (model : gmap string IndexInfo) (Hmodel : model_indexes info dialect = Ok model).
Context (Hok : model_ok info dialect).
Notation T := (TableName info).
Notation target := (target_columns info).
Notation changes t := (column_changes range dialect typeMap info target (db_columns t)).

Lemma column_changes_elem t d : d ∈ changes t → index_of d = None.
Proof.
  unfold column_changes. rewrite !elem_of_app, !list_elem_of_bind.
  intros [([c f]&Hd&_)|[([c x]&Hd&_)|([c f]&Hd&_)]].
  - unfold add_column in Hd. destruct (_ !! c); [by apply elem_of_nil in Hd|].
    apply list_elem_of_singleton in Hd. by subst.
  - unfold drop_column in Hd. simpl in Hd. destruct (_ !! c); [by apply elem_of_nil in Hd|].
    destruct (_ || _); apply list_elem_of_singleton in Hd; by subst.
  - unfold change_column in Hd. destruct (_ !! c); [|by apply elem_of_nil in Hd].
    apply elem_of_app in Hd as [Hd|Hd];
      [destruct (_ =? _)|destruct (Bool.eqb _ _)]; try (by apply elem_of_nil in Hd);
      apply list_elem_of_singleton in Hd; by subst.
Qed.

(** The whole plan. *)
Lemma plan_flat t plan :
  alter_plan range info t dialect = Ok plan →
  plan = (changes t ++ (range 3 _ model ≫= adds info (db_indexes t)) ++
          (range 5 _ (db_indexes t) ≫= drops info model))%list.
Proof.
  unfold alter_plan. rewrite Htm, Hmodel. simpl. intros [= <-]. unfold index_changes.
  pose proof (model_indexes_named _ _ _ Hmodel) as Hnm.
  assert (Hcw : Forall (wf_ddl T) (changes t)).
  { apply Forall_forall. intros d Hd%column_changes_elem. by destruct d. }
  edestruct (foldl_add_index dialect typeMap Htm info (db_indexes t) model (range 3 _ model) (changes t))
    as [E Hw]; try done.
  - by apply range_NoDup.
  - intros [n i] Hin%range_elem; [|done]. simpl. split; [done|]. by edestruct (Hok _ Hmodel n i).
  - intros d n Hd%column_changes_elem _. by rewrite Hd.
  - rewrite E. rewrite (foldl_drop_index range Hrange dialect typeMap Htm); try done.
    + by rewrite (assoc_L (++))%list.
    + by apply range_NoDup.
    + intros d n [Hd|Hd]%elem_of_app _ Hi Hm; [apply column_changes_elem in Hd; congruence|].
      exfalso. apply list_elem_of_bind in Hd as ([k i]&Hd&Hin%range_elem); [|done].
      destruct (Hnm k i Hin) as (Hk&_).
      assert (Hkn : index_of d = Some k); [|congruence].
      unfold adds in Hd. simpl in Hd. destruct (_ !! k); [destruct (same_definition _ _)|];
        repeat (apply elem_of_cons in Hd as [->|Hd]); try (by apply elem_of_nil in Hd); simpl; congruence.
Qed.

(** *** Columns *)

Lemma indexes_keep_column c o t :
  foldl (col_effect c) o ((range 3 _ model ≫= adds info (db_indexes t)) ++
                          (range 5 _ (db_indexes t) ≫= drops info model))%list = o.
Proof.
  assert (Hid : ∀ l, (∀ d, d ∈ l → is_Some (index_of d)) → foldl (col_effect c) o l = o).
  { induction l as [|d l IH]; intros Hl; [done|]. simpl.
    destruct (Hl d) as [n Hn]; [by left|]. assert (col_effect c o d = o) as -> by (by destruct d).
    apply IH. intros. apply Hl. by right. }
  apply Hid. intros d. rewrite elem_of_app, !list_elem_of_bind.
  intros [([k i]&Hd&_)|([k i]&Hd&_)].
  - unfold adds in Hd. simpl in Hd. destruct (_ !! k); [destruct (same_definition _ _)|];
      repeat (apply elem_of_cons in Hd as [->|Hd]); try (by apply elem_of_nil in Hd); by eexists.
  - unfold drops in Hd. simpl in Hd. destruct (model !! k); [by apply elem_of_nil in Hd|].
    destruct (has_definition _ _); [by apply elem_of_nil in Hd|].
    apply list_elem_of_singleton in Hd as ->. by eexists.
Qed.

Lemma add_column_other c dbCols k f o :
  k ≠ c → foldl (col_effect c) o (add_column dialect typeMap info dbCols (k, f)) = o.
Proof. intros Hk. unfold add_column. case_match; simpl; by rewrite ?decide_False. Qed.
Lemma drop_column_other c k x o :
  k ≠ c → foldl (col_effect c) o (drop_column dialect info target (k, x)) = o.
Proof. intros Hk. unfold drop_column. repeat case_match; simpl; by rewrite ?decide_False. Qed.
Lemma change_column_other c dbCols k f o :
  k ≠ c → foldl (col_effect c) o (change_column typeMap info dbCols (k, f)) = o.
Proof. intros Hk. unfold change_column. repeat case_match; simpl; by rewrite ?decide_False. Qed.

(** The columns of the migrated table are those of the model, with its types or
    with a type that is reported as the model's. *)
Lemma migrated_column shown t s plan c :
  shows shown t s → alter_plan range info t dialect = Ok plan →
  match fst <$> t_cols (foldl apply_ddl s plan) !! c, target !! c with
  | Some ty, Some f => ty = sql_type typeMap (CFType f) ∨ shown ty = sql_type typeMap (CFType f)
  | None, None => True
  | _, _ => False
  end.
Proof.
  intros Hrep ->%plan_flat. pose proof (sh_cols _ _ _ Hrep c) as Hc. rewrite t_cols_apply, foldl_app.
  rewrite indexes_keep_column. unfold column_changes. rewrite !foldl_app.
  rewrite !(foldl_range _ _ _ _ (col_effect c) c) by eauto using add_column_other, drop_column_other, change_column_other.
  pose proof (TypeMapping_supported _ _ Htm) as Hs.
  assert ((dialect =? "mysql") || (dialect =? "postgres") || (dialect =? "sqlite") = true) as Hd
    by (by destruct Hs as [-> | [-> | ->]]).
  unfold add_column, drop_column, change_column. simpl.
  destruct (target !! c) as [f|] eqn:Ef, (db_columns t !! c) as [dc|] eqn:Ed, (t_cols s !! c) as [[ty pk]|] eqn:Et;
    simpl in *; try done; rewrite ?Hd; simpl; rewrite ?decide_True by done; simpl; auto.
  injection Hc as Hty _.
  destruct (String.eqb_spec (DataType dc) (sql_type typeMap (CFType f))) as [He|He]; simpl;
    destruct (Bool.eqb _ _); simpl; rewrite ?decide_True by done; simpl; auto; right; congruence.
Qed.
(** *** Indexes *)

Lemma db_indexes_auto t n i : db_indexes t !! n = Some i → autoindex n = false.
Proof.
  unfold db_indexes, map_of_list. set (l := _ <$> _).
  assert (Hl : ∀ k x, (k, x) ∈ l → autoindex k = false).
  { intros k x (j&[= -> _]&[Hj _]%list_elem_of_filter)%list_elem_of_fmap. exact Hj. }
  clearbody l. assert (Hm : ∀ m : gmap string IndexInfo, (∀ k x, m !! k = Some x → autoindex k = false) →
    ∀ k x, foldl (λ m kv, <[kv.1 := kv.2]> m) m l !! k = Some x → autoindex k = false).
  { induction l as [|[k0 x0] l IH]; intros m Hm; [done|]. simpl. apply IH.
    - intros k x Hin. eapply Hl. by right.
    - intros k x. rewrite lookup_insert. case_decide; [|apply Hm]. subst. intros _. eapply (Hl k x0). by left. }
  apply (Hm ∅). intros k x. by rewrite lookup_empty.
Qed.

(** The statements on columns keep the indexes on columns of the model, and
    make no index. *)
Lemma columns_keep_index n t o :
  foldl (idx_effect n) o (changes t) = o ∨ foldl (idx_effect n) o (changes t) = None ∧
  ∀ i, o = Some i → ∃ c, c ∈ IdxColumns i ∧ target !! c = None.
Proof.
  assert (Hgen : ∀ l, (∀ d, d ∈ l → index_of d = None ∧ ∀ T c, d = DropColumn T c → target !! c = None) →
    foldl (idx_effect n) o l = o ∨ foldl (idx_effect n) o l = None ∧
    ∀ i, o = Some i → ∃ c, c ∈ IdxColumns i ∧ target !! c = None).
  { induction l as [|d l IH]; intros Hl; [by left|]. simpl.
    destruct (Hl d) as [Hd Hc]; [by left|].
    assert (He : idx_effect n o d = o ∨ idx_effect n o d = None ∧
                 ∀ i, o = Some i → ∃ c, c ∈ IdxColumns i ∧ target !! c = None).
    { destruct d as [|T c| | | | |]; simpl in *; try done; try (by left).
      destruct o as [i|]; [|by left]. simpl. case_decide as Hin; [right|by left].
      split; [done|]. intros i' [= <-]. eauto. }
    destruct He as [->|[-> He]]; [apply IH; intros; apply Hl; by right|]. right. split; [|done].
    clear -Hl. induction l as [|d' l IH]; [done|]. simpl.
    destruct (Hl d') as [Hd' _]; [right; by left|].
    assert (idx_effect n None d' = None) as -> by (by destruct d').
    apply IH. intros x [->|Hx]%elem_of_cons; apply Hl; [by left|right; by right]. }
  apply Hgen. intros d Hd. split; [by eapply column_changes_elem|]. intros T' c ->.
  unfold column_changes in Hd. rewrite !elem_of_app, !list_elem_of_bind in Hd.
  destruct Hd as [([k f]&Hd&_)|[([k x]&Hd&_)|([k f]&Hd&_)]].
  - unfold add_column in Hd. destruct (_ !! k); [by apply elem_of_nil in Hd|by apply list_elem_of_singleton in Hd].
  - unfold drop_column in Hd. simpl in Hd. destruct (target !! k) eqn:E; [by apply elem_of_nil in Hd|].
    destruct (_ || _); apply list_elem_of_singleton in Hd; by simplify_eq.
  - unfold change_column in Hd. destruct (_ !! k); [|by apply elem_of_nil in Hd].
    apply elem_of_app in Hd as [Hd|Hd]; [destruct (_ =? _)|destruct (Bool.eqb _ _)];
      try (by apply elem_of_nil in Hd); by apply list_elem_of_singleton in Hd.
Qed.

Lemma same_definition_created m : same_definition m (sorted_index m) = true.
Proof.
  unfold same_definition, indexWherePresenceMatches. simpl. rewrite !eqb_reflx, andb_true_r. simpl.
  apply equalStringSlice_perm. by rewrite sort_perm.
Qed.

Lemma adds_other n db k m o : named_indexes model → model !! k = Some m → k ≠ n →
  foldl (idx_effect n) o (adds info db (k, m)) = o.
Proof.
  intros Hnm Hm Hk. destruct (Hnm k m Hm) as (Hname&_). unfold adds. simpl.
  repeat case_match; simpl; rewrite ?Hname; by rewrite ?decide_False.
Qed.
Lemma drops_other n k d o : k ≠ n → foldl (idx_effect n) o (drops info model (k, d)) = o.
Proof. intros Hk. unfold drops. repeat case_match; simpl; by rewrite ?decide_False. Qed.

(** The indexes of the migrated table: those of the model, as it defines them,
    and others only when the model has their definition under another name. *)
Lemma migrated_index shown t s plan n :
  shows shown t s → alter_plan range info t dialect = Ok plan → autoindex n = false →
  let o := t_idx (foldl apply_ddl s plan) !! n in
  match model !! n with
  | Some m => ∃ i, o = Some i ∧ same_definition m (sorted_index i) = true
  | None => o = None ∨ ∃ i, o = Some i ∧ has_definition model (sorted_index i) = true
  end.
Proof.
  intros Hrep ->%plan_flat Hauto. pose proof (model_indexes_named _ _ _ Hmodel) as Hnm.
  pose proof (sh_idx _ _ _ Hrep n Hauto) as Hi. simpl. rewrite t_idx_apply, !foldl_app.
  pose proof (columns_keep_index n t (t_idx s !! n)) as Hcol. set (o1 := foldl _ _ (changes t)) in *.
  rewrite (foldl_range range 5 _ _ _ n) by eauto using drops_other.
  rewrite (foldl_range range 3 _ _ _ n) by eauto using adds_other.
  destruct (model !! n) as [m|] eqn:Em.
  - destruct (Hnm n m Em) as (Hn&_&_). destruct (Hok _ Hmodel n m Em) as (_&_&Hcs).
    assert (Hdrop : ∀ o, match db_indexes t !! n with
                         | Some d => foldl (idx_effect n) o (drops info model (n, d))
                         | None => o end = o).
    { intros o. unfold drops. simpl. rewrite Em. by destruct (db_indexes t !! n). }
    rewrite Hdrop. unfold adds. simpl. destruct (t_idx s !! n) as [i|] eqn:Es; simpl in Hi; rewrite Hi.
    + destruct (same_definition m (sorted_index i)) eqn:Esd; simpl.
      * destruct Hcol as [->|[_ Hgone]]; [by exists i|]. exfalso. destruct (Hgone i eq_refl) as (c&Hc&Ht).
        unfold same_definition in Esd. apply andb_prop in Esd as [[_ Hp]%andb_prop _].
        apply equalStringSlice_perm in Hp. simpl in Hp. rewrite sort_perm in Hp.
        destruct (Hcs c) as [x Hx]; [by rewrite Hp|congruence].
      * rewrite Hn, !decide_True by done. eexists. split; [done|]. rewrite <-Hn. by destruct m; apply same_definition_created.
    + assert (o1 = None) as -> by (destruct Hcol as [?|[? _]]; done). simpl.
      rewrite Hn, decide_True by done. eexists. split; [done|]. rewrite <-Hn. by destruct m; apply same_definition_created.
  - unfold drops. simpl. rewrite Em. destruct (t_idx s !! n) as [i|] eqn:Es; simpl in Hi; rewrite Hi.
    + destruct (has_definition model (sorted_index i)) eqn:Eh; simpl; [|rewrite decide_True by done; by left].
      destruct Hcol as [->|[-> _]]; [right; by exists i|by left].
    + left. by destruct Hcol as [?|[? _]].
Qed.
End migrated.

Lemma foldl_id {A B} (f : A → B → A) l a : (∀ b, b ∈ l → f a b = a) → foldl f a l = a.
Proof.
  induction l as [|b l IH]; intros Hl; [done|]. simpl. rewrite Hl by (by left).
  apply IH. intros. apply Hl. by right.
Qed.

(** A note, or the change of a type to the model's where the database reports
    that type by another name. *)
Definition settled (shown : string → string) (typeMap : gmap string string) (info : ModelInfo) (d : ddl) : Prop :=
  is_note d = true ∨
  ∃ c f, target_columns info !! c = Some f ∧ d = ModifyType (TableName info) c (sql_type typeMap (CFType f)) ∧
         shown (sql_type typeMap (CFType f)) ≠ sql_type typeMap (CFType f).

(** A table with the columns of the model needs no other statement on columns. *)
Lemma columns_settled shown range dialect typeMap info t s :
  range_ok range → shows shown t s →
  (∀ c, match fst <$> t_cols s !! c, target_columns info !! c with
        | Some ty, Some f => ty = sql_type typeMap (CFType f) ∨ shown ty = sql_type typeMap (CFType f)
        | None, None => True
        | _, _ => False
        end) →
  Forall (settled shown typeMap info) (column_changes range dialect typeMap info (target_columns info) (db_columns t)).
Proof.
  intros Hr Hrep Hcols. apply Forall_forall. intros d. unfold column_changes.
  rewrite !elem_of_app, !list_elem_of_bind.
  intros [([c f]&Hd&Hin%range_elem)|[([c x]&Hd&Hin%range_elem)|([c f]&Hd&Hin%range_elem)]]; [|done| |done| |done];
    specialize (Hcols c); pose proof (sh_cols _ _ _ Hrep c) as Hc.
  - unfold add_column in Hd. destruct (db_columns t !! c); [by apply elem_of_nil in Hd|].
    rewrite Hin in Hcols. by destruct (t_cols s !! c).
  - rewrite Hin in Hc. unfold drop_column in Hd. simpl in Hd. destruct (t_cols s !! c); [|done].
    destruct (target_columns info !! c); [by apply elem_of_nil in Hd|done].
  - rewrite Hin in Hcols. unfold change_column in Hd. destruct (db_columns t !! c) as [dc|]; [|by apply elem_of_nil in Hd].
    destruct (t_cols s !! c) as [[ty pk]|]; [|done]. simpl in Hc, Hcols. injection Hc as Hty _.
    apply elem_of_app in Hd as [Hd|Hd].
    + right. exists c, f. destruct (String.eqb_spec (DataType dc) (sql_type typeMap (CFType f))) as [He|He];
        [by apply elem_of_nil in Hd|]. apply list_elem_of_singleton in Hd. split_and!; [done..|].
      destruct Hcols as [->|Hsh]; congruence.
    + left. destruct (Bool.eqb _ _); [by apply elem_of_nil in Hd|]. apply list_elem_of_singleton in Hd. by subst.
Qed.

(** A table with the indexes of the model needs no statement on indexes. *)
Lemma indexes_settled shown range dialect typeMap info model t s sqls :
  TypeMapping dialect = Some typeMap → range_ok range → named_indexes model → shows shown t s →
  (∀ n, model !! n ≠ None → autoindex n = false) →
  (∀ n, autoindex n = false →
     match model !! n with
     | Some m => ∃ i, t_idx s !! n = Some i ∧ same_definition m (sorted_index i) = true
     | None => t_idx s !! n = None ∨ ∃ i, t_idx s !! n = Some i ∧ has_definition model (sorted_index i) = true
     end) →
  Forall (wf_ddl (TableName info)) sqls → (∀ d, d ∈ sqls → index_of d = None) →
  index_changes range dialect info model (db_indexes t) sqls = sqls.
Proof.
  intros Htm Hr Hnm Hrep Hauto Hidx Hw Hni. unfold index_changes.
  assert (Ha : foldl (add_index dialect info (db_indexes t)) sqls (range 3%nat _ model) = sqls).
  { apply foldl_id. intros [n m] Hin%range_elem; [|done]. simpl.
    assert (Hn : autoindex n = false) by (apply Hauto; by rewrite Hin).
    specialize (Hidx n Hn). rewrite Hin in Hidx. destruct Hidx as (i&Hi&Hsd).
    by rewrite (sh_idx _ _ _ Hrep n Hn), Hi; simpl; rewrite Hsd. }
  rewrite Ha. apply foldl_id. intros [n d] Hin%range_elem; [|done].
  rewrite (drop_index_step range Hr dialect typeMap Htm); try done.
  - assert (Hn : autoindex n = false) by (by eapply db_indexes_auto).
    rewrite (sh_idx _ _ _ Hrep n Hn) in Hin. specialize (Hidx n Hn). unfold drops. simpl.
    destruct (model !! n); [by rewrite app_nil_r|].
    destruct Hidx as [Hi|(i&Hi&Hd)]; rewrite Hi in Hin; [done|]. injection Hin as <-.
    by rewrite Hd, app_nil_r.
  - intros d' Hd' Hi _. simpl in Hi. by rewrite Hni in Hi.
Qed.

(** C23: migrating a table converges, in any dialect and whatever the order in which the maps
    are visited: when all the statements of a plan (AllowDropColumn on) are executed on a table,
    a new plan for what the table then reports has nothing left but manual notes and changes of
    columns to types that the database reports by another name than the one written. With an
    introspector that reports types as they were written, as SQLite's does (proved in
    IntrospectFacts), only notes are left; for PostgreSQL, which reports lower-case names, the
    type changes come back at every migration (postgres/introspect.go:24), and the theorem says
    that nothing else does. Assumed: every statement is executed (SQLite refuses a change of
    type, generate.go:371, an added primary key and the drop of an indexed column; exec_plan
    then has no result), the reported indexes are those of the table, and the model's indexes
    are on its own columns with names that can be quoted. *)
Theorem migration_converges shown range range' dialect typeMap info t s plan s' t' :
  range_ok range → range_ok range' → model_ok info dialect → TypeMapping dialect = Some typeMap →
  shows shown t s → alter_plan range info t dialect = Ok plan →
  exec_plan dialect s plan = Some s' → shows shown t' s' →
  ∃ plan', alter_plan range' info t' dialect = Ok plan' ∧ Forall (settled shown typeMap info) plan'.
Proof.
  intros Hr Hr' Hok Htm Hrep Hplan ->%exec_plan_apply Hrep'. pose proof Hplan as Hplan0. unfold alter_plan in Hplan0.
  rewrite Htm in Hplan0. apply result_bind_Ok in Hplan0 as (model&Hmodel&_).
  assert (Hset : Forall (settled shown typeMap info)
            (column_changes range' dialect typeMap info (target_columns info) (db_columns t'))).
  { eapply columns_settled; [done..|]. intros c.
    exact (migrated_column range Hr dialect typeMap Htm info model Hmodel Hok shown t s plan c Hrep Hplan). }
  eexists. unfold alter_plan. rewrite Htm, Hmodel. simpl. split; [done|].
  assert (Hkind : ∀ d, settled shown typeMap info d → wf_ddl (TableName info) d ∧ index_of d = None).
  { intros d [Hn|(c&f&_&->&_)]; [by destruct d|done]. }
  rewrite (indexes_settled shown range' dialect typeMap info model t' (foldl apply_ddl s plan)); try done.
  - by eapply model_indexes_named.
  - intros n Hn. destruct (model !! n) as [i|] eqn:E; [|done]. by destruct (Hok _ Hmodel n i E) as (_&?&_).
  - intros n Hn. exact (migrated_index range Hr dialect typeMap Htm info model Hmodel Hok shown t s plan n Hrep Hplan Hn).
  - eapply Forall_impl; [exact Hset|]. intros d Hd. by apply Hkind.
  - intros d Hd. rewrite Forall_forall in Hset. by apply Hkind, Hset.
Qed.

(** ** Columns stay *)

Lemma ToUpper_app a b : ToUpper (a +:+ b) = ToUpper a +:+ ToUpper b.
Proof.
  induction a as [|c a IH]; [done|].
  change (String (to_upper c) (ToUpper (a +:+ b)) = String (to_upper c) (ToUpper a +:+ ToUpper b)). by rewrite IH.
Qed.
Lemma HasPrefix_app p b : HasPrefix (p +:+ b) p = true.
Proof.
  unfold HasPrefix. induction p as [|c p IH]; [by destruct b|].
  change (String.prefix (String c p) (String c (p +:+ b)) = true). simpl. by destruct (ascii_dec c c).
Qed.
Lemma HasPrefix_Contains s sub : HasPrefix s sub = true → Contains s sub = true.
Proof. by destruct s; simpl; intros ->. Qed.
Lemma Contains_app a sub b : Contains (a +:+ sub +:+ b) sub = true.
Proof.
  induction a as [|c a IH].
  - change ("" +:+ sub +:+ b) with (sub +:+ b). apply HasPrefix_Contains, HasPrefix_app.
  - change (Contains (String c (a +:+ sub +:+ b)) sub = true). simpl. rewrite IH. apply orb_true_r.
Qed.

Lemma drop_column_text dialect T c : isDropColumnSQL (ddl_sql dialect (DropColumn T c)) = true.
Proof.
  unfold isDropColumnSQL. cbn [ddl_sql]. rewrite !ToUpper_app.
  change (ToUpper " DROP COLUMN ") with (" " +:+ "DROP COLUMN" +:+ " ").
  generalize (ToUpper "ALTER TABLE ") (ToUpper T) (ToUpper c +:+ ToUpper ";"). intros x y z.
  replace (x +:+ y +:+ (" " +:+ "DROP COLUMN" +:+ " ") +:+ z)
    with ((x +:+ y +:+ " ") +:+ "DROP COLUMN" +:+ " " +:+ z) by (by rewrite !string_app_assoc).
  apply Contains_app.
Qed.

Lemma filter_fmap_comm {A B} (f : A → B) (P : B → Prop) `{∀ x, Decision (P x)} (l : list A) :
  filter P (f <$> l) = f <$> filter (λ a, P (f a)) l.
Proof.
  induction l as [|a l IH]; [done|]. rewrite fmap_cons, !filter_cons. repeat case_decide; rewrite IH; done.
Qed.

Lemma kept_columns l s c :
  Forall (λ d, ∀ T c, d ≠ DropColumn T c) l → is_Some (t_cols s !! c) → is_Some (t_cols (foldl apply_ddl s l) !! c).
Proof.
  rewrite t_cols_apply. generalize (t_cols s !! c) as o. induction l as [|d l IH]; intros o Hl Ho; [done|].
  apply Forall_cons in Hl as [Hd Hl]. simpl. apply IH; [done|].
  destruct d; simpl; try done; case_decide; try done;
    first [by eexists|by apply fmap_is_Some|by edestruct Hd].
Qed.

(** C24: with AllowDropColumn off, the statements AutoMigrate executes are the plan in order,
    exactly those whose text does not have DROP COLUMN, and they lose no column of the table. *)
Theorem migration_keeps_columns {D} range (e : @migrate_env D) dialect info t s sqls :
  GenerateAlterTableSQL range info t dialect = Ok sqls → AllowDropColumn e = false →
  ∃ plan kept, alter_plan range info t dialect = Ok plan ∧
    executed e sqls = ddl_sql dialect <$> kept ∧ kept `sublist_of` plan ∧
    (∀ d, d ∈ kept ↔ d ∈ plan ∧ isDropColumnSQL (ddl_sql dialect d) = false) ∧
    (∀ c, is_Some (t_cols s !! c) → is_Some (t_cols (foldl apply_ddl s kept) !! c)).
Proof.
  unfold GenerateAlterTableSQL. destruct (alter_plan _ _ _ _) as [plan| |]; [|done..]. intros [= <-] Ha.
  exists plan, (filter (λ d, isDropColumnSQL (ddl_sql dialect d) = false) plan).
  unfold executed. rewrite Ha. rewrite filter_fmap_comm. split_and!; [done|..].
  - f_equal. apply list_filter_iff. intros d. simpl. by rewrite andb_true_r.
  - apply sublist_filter.
  - intros d. rewrite list_elem_of_filter. tauto.
  - intros c. apply kept_columns. apply Forall_forall. intros d [Hd _]%list_elem_of_filter T c' ->.
    by rewrite drop_column_text in Hd.
Qed.

(** ** The state a table reports *)

Definition state_of (t : TableInfo) : table_state :=
  MkState ((λ ci, (DataType ci, IsPrimary ci)) <$> db_columns t)
    (map_of_list ((λ i, (IdxName i, i)) <$> filter (λ i, autoindex (IdxName i) = false) (TabIndexes t))).

Lemma map_of_list_fmap {A B} (f : A → B) (l : list (string * A)) (m : gmap string A) :
  foldl (λ m kv, <[kv.1 := kv.2]> m) (f <$> m) (prod_map id f <$> l) =
  f <$> foldl (λ m kv, <[kv.1 := kv.2]> m) m l.
Proof.
  revert m. induction l as [|[k x] l IH]; intros m; [done|]. simpl. by rewrite <-fmap_insert, IH.
Qed.

Lemma reports_state_of t : reports t (state_of t).
Proof.
  split.
  - intros c. unfold state_of. simpl. by rewrite lookup_fmap.
  - intros n _. unfold state_of, db_indexes, map_of_list, autoindex. simpl. rewrite <-lookup_fmap. f_equal.
    rewrite <-map_of_list_fmap, fmap_empty, <-list_fmap_compose. done.
Qed.
