(* ===== verification/Drivers.v ===== *)
(** * Row scanning and the SQL drivers (internal/dbscan/scan.go,
    drivers/db/sqlite/sqlite.go, drivers/db/mysql/mysql.go,
    drivers/db/postgres/postgres.go)

    [database/sql] and the databases behind it are a parameter, [SqlConn]: what
    a query, a statement, the start and the end of a transaction answer, and how
    [Rows.Scan] converts a value of the database to a field's type.  The methods
    of the three adapters and of their transactions differ in the names of their
    errors, in the check for a closed adapter and in the rebinding of
    placeholders; what they share is written once.  The destination of [Get] and
    of [Select] has the right shape, as at every call of the ORM. *)

From S2P Require Import Prelude GoStrings GoValues Metadata Predicate CacheIndex LocalCache CacheClient SqlBuilder Crud.

Open Scope string_scope.

(** ** Row scanning *)

(** The column of a field: the first part of the tag, or the name in lower
    case. *)
Definition scan_column (name dbTag : string) : string :=
  let column := if dbTag =? "" then "" else default "" (head (Split dbTag ",")) in
  if column =? "" then ToLower name else column.

Fixpoint direct_indexes (i : nat) (fs : list sfield) (m : gmap string (list nat)) : gmap string (list nat) :=
  match fs with
  | [] => m
  | SField name _ dbTag _ :: fs =>
      direct_indexes (S i) fs
        (if negb (IsExported name) || (dbTag =? "-") then m else <[scan_column name dbTag := [i]]> m)
  | SEmbed _ _ _ :: fs => direct_indexes (S i) fs m
  end.

(** The columns of the struct type of an embedded field: those of the structs it
    embeds, then its own. *)
Fixpoint embedded_indexes (f : sfield) : gmap string (list nat) :=
  match f with
  | SField _ _ _ _ => ∅
  | SEmbed _ _ fields =>
      direct_indexes 0 fields
        ((fix go (i : nat) (fs : list sfield) (m : gmap string (list nat)) : gmap string (list nat) :=
            match fs with
            | [] => m
            | f :: fs => go (S i) fs (if IsExported (sfield_name f) then (cons i <$> embedded_indexes f) ∪ m else m)
            end) 0%nat fields ∅)
  end.

Definition buildFieldIndexes (fs : list sfield) : gmap string (list nat) := embedded_indexes (SEmbed "" "" fs).

(** A destination per column: a field, or bytes that are thrown away. *)
Definition PrepareScanDest (fs : list sfield) (cols : list string) : list (option (list nat)) :=
  (λ col, buildFieldIndexes fs !! col) <$> cols.

(** By kind; of the structs, only [time.Time] itself. *)
Fixpoint IsBasicType (t : gotype) : bool :=
  match t with
  | TBool | TInt _ | TUint _ | TFloat _ | TString | TTime => true
  | TSlice t => bool_decide (under_type t = TUint W8)
  | TPtr t => IsBasicType t
  | TNamed _ t => negb (bool_decide (under_type t = TTime)) && IsBasicType t
  | _ => false
  end.

(** ** [database/sql] *)

(** The rows of a query: the names of the columns, the rows that were read, and
    the error that ended the reading. *)
Record query_rows (V : Type) := MkRows {
  rows_Columns : result (list string);
  rows_data : list (list V);
  rows_Err : option goerr
}.
Arguments MkRows {V} _ _ _.
Arguments rows_Columns {V} _.
Arguments rows_data {V} _.
Arguments rows_Err {V} _.

(** [QueryRowContext(...).Scan]: [sql.ErrNoRows], another error, or the row. *)
Inductive row_reply (V : Type) :=
  | NoRows
  | RowErr (e : goerr)
  | RowVals (vs : list V).
Arguments NoRows {V}.
Arguments RowErr {V} e.
Arguments RowVals {V} vs.

Definition sql_ErrTxDone : goerr := ErrMsg "sql: transaction has already been committed or rolled back".

(** A pool of connections with the transaction that is open on it, if any. *)
Class SqlConn (Q V : Type) := {
  q_Open : string → string → Q + goerr;
  q_Ping : Q → Q * option goerr;
  q_Close : Q → Q * option goerr;
  q_Query : string → list (option goval) → Q → Q * (query_rows V + goerr);
  q_QueryRow : string → list (option goval) → Q → Q * row_reply V;
  q_Exec : string → list (option goval) → Q → Q * (exec_result + goerr);
  q_Begin : Q → Q * option goerr;
  q_Commit : Q → Q * option goerr;
  q_Rollback : Q → Q * option goerr;
  (* the value of a field of the given type made from a value of the database *)
  q_Assign : V → gotype → option goval;
  q_IsNull : V → bool
}.

Definition err_result (msg : string) (o : option goerr) : result unit :=
  match o with Some e => Err (ErrWrap msg e) | None => Ok () end.

(** The field at an index, set. *)
Fixpoint set_by_index (s : gostruct) (index : list nat) (v : goval) : gostruct :=
  match index with
  | [] => s
  | i :: rest =>
      alter (λ f, match f, rest with
                  | FVal n _, [] => FVal n v
                  | FEmbed n fs, _ :: _ => FEmbed n (set_by_index fs rest v)
                  | f, _ => f
                  end) i s
  end.

(** ** What the drivers share *)

Section shared.
Context {Q V : Type} `{SqlConn Q V}.

Definition scan_error : goerr := ErrMsg "sql: Scan error".

(** [rows.Scan] into the destinations of a struct. *)
Fixpoint scan_struct (dests : list (option (list nat))) (row : list V) (s : gostruct) : result gostruct :=
  match dests, row with
  | [], [] => Ok s
  | dest :: dests, v :: row =>
      match dest with
      | None => scan_struct dests row s
      | Some index =>
          match FieldByIndex s index with
          | None => Panic "reflect: Field index out of range"
          | Some old =>
              match q_Assign v (typeof old) with
              | None => Err scan_error
              | Some x => scan_struct dests row (set_by_index s index x)
              end
          end
      end
  | _, _ => Err scan_error
  end.

(** [rows.Scan] into one [int64]. *)
Definition scan_int64 (row : list V) : result Z :=
  match row with
  | [v] => match q_Assign v (TInt W64) with Some (VInt W64 z) => Ok z | _ => Err scan_error end
  | _ => Err scan_error
  end.

(** [Get]: exactly one row. *)
Definition get_row (name : string) (fs : list sfield) (zero : gostruct) (rows : query_rows V) : result gostruct :=
  match rows_Columns rows with
  | Err e => Err (ErrWrap (name +:+ " Get failed fetching columns") e)
  | Panic p => Panic p
  | Ok cols =>
      let finish r :=
        match rows_Err rows with
        | Some e => Err (ErrWrap (name +:+ " Get rows error") e)
        | None => r
        end in
      match rows_data rows with
      | [] => finish (Err ErrNotFound)
      | row :: more =>
          match scan_struct (PrepareScanDest fs cols) row zero with
          | Err e => Err (ErrWrap (name +:+ " Get scan error") e)
          | Panic p => Panic p
          | Ok s =>
              match more with
              | [] => finish (Ok s)
              | _ => Err (ErrMsg (name +:+ " Get error: expected 1 row, got multiple"))
              end
          end
      end
  end.

Definition driver_Get (name : string) (fs : list sfield) (zero : gostruct) (query : string)
    (args : list (option goval)) (q : Q) : Q * result gostruct :=
  let '(q, r) := q_Query query args q in
  (q, match r with
      | inr e => Err (ErrWrap (name +:+ " Get query error") e)
      | inl rows => get_row name fs zero rows
      end).

(** [Select]: the rows in order, each into a new element. *)
Fixpoint select_rows {A} (name : string) (scan : list V → result A) (data : list (list V)) (acc : list A) : result (list A) :=
  match data with
  | [] => Ok acc
  | row :: data =>
      match scan row with
      | Ok x => select_rows name scan data (acc ++ [x])%list
      | Err e => Err (ErrWrap (name +:+ " Select scan error") e)
      | Panic p => Panic p
      end
  end.

Definition select_all {A} (name : string) (scan : list string → list V → result A) (rows : query_rows V)
    : result (list A) :=
  match rows_Columns rows with
  | Err e => Err (ErrWrap (name +:+ " Select failed fetching columns") e)
  | Panic p => Panic p
  | Ok cols =>
      match select_rows name (scan cols) (rows_data rows) [] with
      | Ok l => match rows_Err rows with
                | Some e => Err (ErrWrap (name +:+ " Select rows error") e)
                | None => Ok l
                end
      | r => r
      end
  end.

Definition driver_Select {A} (name : string) (scan : list string → list V → result A) (query : string)
    (args : list (option goval)) (q : Q) : Q * result (list A) :=
  let '(q, r) := q_Query query args q in
  (q, match r with
      | inr e => Err (ErrWrap (name +:+ " Select query error") e)
      | inl rows => select_all name scan rows
      end).

(** The element scanners of [Select]: a slice of structs, a slice of [int64]. *)
Definition scan_model (fs : list sfield) (zero : gostruct) (cols : list string) (row : list V) : result gostruct :=
  scan_struct (PrepareScanDest fs cols) row zero.
Definition scan_id (cols : list string) (row : list V) : result Z := scan_int64 row.

Definition driver_Exec (name query : string) (args : list (option goval)) (q : Q) : Q * result exec_result :=
  let '(q, r) := q_Exec query args q in
  (q, match r with
      | inr e => Err (ErrWrap (name +:+ " ExecContext error") e)
      | inl x => Ok x
      end).

(** [QueryRowContext(...).Scan(&count)]. *)
Definition driver_count (name query : string) (args : list (option goval)) (q : Q) : Q * result Z :=
  let '(q, r) := q_QueryRow query args q in
  (q, match r with
      | NoRows => Ok 0%Z
      | RowErr e => Err (ErrWrap (name +:+ " GetCount scan error") e)
      | RowVals row => match scan_int64 row with
                       | Ok n => Ok n
                       | Err e => Err (ErrWrap (name +:+ " GetCount scan error") e)
                       | Panic p => Panic p
                       end
      end).

(** An [INSERT] for PostgreSQL, which has no last insert id of its own. *)
Definition is_insert (query : string) : bool :=
  HasPrefix (ToUpper (TrimSpace query)) "INSERT" && negb (Contains (ToUpper query) "RETURNING").

Definition pg_exec (name query rebound : string) (args : list (option goval)) (q : Q) : Q * result exec_result :=
  if is_insert query then
    let '(q, r) := q_QueryRow (rebound +:+ " RETURNING id") args q in
    let failed e := Err (ErrWrap (name +:+ " ExecContext error (insert returning)") e) in
    (q, match r with
        | NoRows => failed (ErrMsg "sql: no rows in result set")
        | RowErr e => failed e
        | RowVals row => match scan_int64 row with
                         | Ok n => Ok (MkExec (Ok n) 1)
                         | Err e => failed e
                         | Panic p => Panic p
                         end
        end)
  else driver_Exec name rebound args q.
End shared.

(** ** The adapters *)

(** An adapter: its connections, whether it was closed (SQLite remembers), and
    whether a transaction is open on it.  The messages of errors are shortened
    to what tells them apart. *)
Record adapter (Q : Type) := MkAdapter { a_db : Q; a_closed : bool; a_tx : bool }.
Arguments MkAdapter {Q} _ _ _.
Arguments a_db {Q} _.
Arguments a_closed {Q} _.
Arguments a_tx {Q} _.

Section adapters.
Context {Q V : Type} `{SqlConn Q V}.
Implicit Types a : adapter Q.

(** One operation on the connections. *)
Definition on_conn {A} (f : Q → Q * A) a : adapter Q * A :=
  let '(q, r) := f (a_db a) in (MkAdapter q (a_closed a) (a_tx a), r).

Definition closed_error : goerr := ErrMsg "adapter is closed".

(** [if a.isClosed() { return ... }]. *)
Definition unless_closed {A} (f : adapter Q → adapter Q * result A) a : adapter Q * result A :=
  if a_closed a then (a, Err closed_error) else f a.

Definition new_adapter (driver dsn : string) (msg_open msg_ping : string) : result (adapter Q) :=
  match q_Open driver dsn with
  | inr e => Err (ErrWrap msg_open e)
  | inl q =>
      let '(q, err) := q_Ping q in
      match err with
      | Some e => Err (ErrWrap msg_ping e)
      | None => Ok (MkAdapter q false false)
      end
  end.

(** *** SQLite *)

Definition NewSQLiteAdapter (dsn : string) : result (adapter Q) :=
  new_adapter "sqlite3" dsn "failed to open sqlite connection" "failed to ping sqlite database".

Definition sqlite_Get (fs : list sfield) (zero : gostruct) (query : string) (args : list (option goval))
    : adapter Q → adapter Q * result gostruct :=
  unless_closed (on_conn (driver_Get "sqlite" fs zero query args)).

Definition sqlite_Select {A} (scan : list string → list V → result A) (query : string) (args : list (option goval))
    : adapter Q → adapter Q * result (list A) :=
  unless_closed (on_conn (driver_Select "sqlite" scan query args)).

Definition sqlite_Exec (query : string) (args : list (option goval)) : adapter Q → adapter Q * result exec_result :=
  unless_closed (on_conn (driver_Exec "sqlite" query args)).

Definition sqlite_GetCount (tableName where_ : string) (args : list (option goval)) : adapter Q → adapter Q * result Z :=
  let '(where_, args) := if where_ =? "" then (where_, args) else ExpandInClauses where_ args in
  unless_closed (on_conn (driver_count "sqlite" (@BuildCountSQL SQLiteDialector tableName where_) args)).

Definition begin_tx (msg : string) a : adapter Q * result unit :=
  let '(a, err) := on_conn q_Begin a in
  match err with
  | Some e => (a, Err (ErrWrap msg e))
  | None => (MkAdapter (a_db a) (a_closed a) true, Ok ())
  end.

Definition sqlite_BeginTx : adapter Q → adapter Q * result unit :=
  unless_closed (begin_tx "failed to begin sqlite transaction").

Definition sqlite_Close a : adapter Q * result unit :=
  if a_closed a then (a, Ok ())
  else
    let '(a, err) := on_conn q_Close a in
    (MkAdapter (a_db a) true (a_tx a), match err with Some e => Err e | None => Ok () end).

Definition sqliteTx_Get (fs : list sfield) (zero : gostruct) (query : string) (args : list (option goval))
    : adapter Q → adapter Q * result gostruct :=
  on_conn (driver_Get "sqlite Tx" fs zero query args).
Definition sqliteTx_Select {A} (scan : list string → list V → result A) (query : string) (args : list (option goval))
    : adapter Q → adapter Q * result (list A) :=
  on_conn (driver_Select "sqlite Tx" scan query args).
Definition sqliteTx_Exec (query : string) (args : list (option goval)) : adapter Q → adapter Q * result exec_result :=
  on_conn (driver_Exec "sqlite Tx" query args).

(** The transaction is over whatever [database/sql] answers. *)
Definition end_tx (f : Q → Q * option goerr) (res : option goerr → result unit) a : adapter Q * result unit :=
  let '(a, err) := on_conn f a in (MkAdapter (a_db a) (a_closed a) false, res err).

Definition sqliteTx_Commit : adapter Q → adapter Q * result unit := end_tx q_Commit (err_result "sqlite commit error").
(** A transaction that is done already is reported as it is. *)
Definition sqliteTx_Rollback : adapter Q → adapter Q * result unit :=
  end_tx q_Rollback (λ err, match err with
                            | Some e => if errors_Is e sql_ErrTxDone then Err e else Err (ErrWrap "sqlite rollback error" e)
                            | None => Ok ()
                            end).

(** *** MySQL *)

Definition NewMySQLAdapter (dsn : string) : result (adapter Q) :=
  new_adapter "mysql" dsn "failed to open mysql connection" "failed to ping mysql database".

Definition mysql_Get (fs : list sfield) (zero : gostruct) (query : string) (args : list (option goval))
    : adapter Q → adapter Q * result gostruct :=
  on_conn (driver_Get "mysql" fs zero query args).
Definition mysql_Select {A} (scan : list string → list V → result A) (query : string) (args : list (option goval))
    : adapter Q → adapter Q * result (list A) :=
  on_conn (driver_Select "mysql" scan query args).
Definition mysql_Exec (query : string) (args : list (option goval)) : adapter Q → adapter Q * result exec_result :=
  on_conn (driver_Exec "mysql" query args).

Definition no_table : goerr := ErrMsg "getCount: table name is missing".

Definition mysql_GetCount (tableName where_ : string) (args : list (option goval)) a : adapter Q * result Z :=
  if tableName =? "" then (a, Err no_table)
  else
    let '(where_, args) := if where_ =? "" then (where_, args) else ExpandInClauses where_ args in
    on_conn (driver_count "mysql" (@BuildCountSQL MySQLDialector tableName where_) args) a.

Definition mysql_BeginTx : adapter Q → adapter Q * result unit := begin_tx "mysql BeginTx error".
Definition mysql_Close : adapter Q → adapter Q * result unit :=
  λ a, let '(a, err) := on_conn q_Close a in (a, err_result "error closing mysql connection" err).

Definition mysqlTx_Get (fs : list sfield) (zero : gostruct) (query : string) (args : list (option goval))
    : adapter Q → adapter Q * result gostruct :=
  on_conn (driver_Get "mysql Tx" fs zero query args).
Definition mysqlTx_Select {A} (scan : list string → list V → result A) (query : string) (args : list (option goval))
    : adapter Q → adapter Q * result (list A) :=
  on_conn (driver_Select "mysql Tx" scan query args).
Definition mysqlTx_Exec (query : string) (args : list (option goval)) : adapter Q → adapter Q * result exec_result :=
  on_conn (driver_Exec "mysql Tx" query args).
Definition mysqlTx_Commit : adapter Q → adapter Q * result unit := end_tx q_Commit (err_result "mysql Tx Commit error").

(** A transaction that is done already is no error. *)
Definition ignore_done (msg : string) (err : option goerr) : result unit :=
  match err with
  | Some e => if errors_Is e sql_ErrTxDone then Ok () else Err (ErrWrap msg e)
  | None => Ok ()
  end.
Definition mysqlTx_Rollback : adapter Q → adapter Q * result unit := end_tx q_Rollback (ignore_done "mysql Tx Rollback error").

(** *** PostgreSQL *)

Definition pg_Rebind (query : string) : string := @Rebind PostgresDialector query.

Definition NewPostgreSQLAdapter (dsn : string) : result (adapter Q) :=
  new_adapter "postgres" dsn "failed to open postgres connection" "failed to ping postgres database".

Definition pg_Get (fs : list sfield) (zero : gostruct) (query : string) (args : list (option goval))
    : adapter Q → adapter Q * result gostruct :=
  on_conn (driver_Get "postgres" fs zero (pg_Rebind query) args).
Definition pg_Select {A} (scan : list string → list V → result A) (query : string) (args : list (option goval))
    : adapter Q → adapter Q * result (list A) :=
  on_conn (driver_Select "postgres" scan (pg_Rebind query) args).
Definition pg_Exec (query : string) (args : list (option goval)) : adapter Q → adapter Q * result exec_result :=
  on_conn (pg_exec "postgres" query (pg_Rebind query) args).
Definition pg_GetCount (tableName where_ : string) (args : list (option goval)) a : adapter Q * result Z :=
  if tableName =? "" then (a, Err no_table)
  else
    let '(where_, args) := if where_ =? "" then (where_, args) else ExpandInClauses where_ args in
    on_conn (driver_count "postgres" (pg_Rebind (@BuildCountSQL PostgresDialector tableName where_)) args) a.
Definition pg_BeginTx : adapter Q → adapter Q * result unit := begin_tx "postgres BeginTx error".
Definition pg_Close : adapter Q → adapter Q * result unit :=
  λ a, let '(a, err) := on_conn q_Close a in (a, err_result "error closing postgres connection" err).

Definition pgTx_Get (fs : list sfield) (zero : gostruct) (query : string) (args : list (option goval))
    : adapter Q → adapter Q * result gostruct :=
  on_conn (driver_Get "postgres Tx" fs zero (pg_Rebind query) args).
Definition pgTx_Select {A} (scan : list string → list V → result A) (query : string) (args : list (option goval))
    : adapter Q → adapter Q * result (list A) :=
  on_conn (driver_Select "postgres Tx" scan (pg_Rebind query) args).
Definition pgTx_Exec (query : string) (args : list (option goval)) : adapter Q → adapter Q * result exec_result :=
  on_conn (pg_exec "postgres Tx" query (pg_Rebind query) args).
Definition pgTx_Commit : adapter Q → adapter Q * result unit := end_tx q_Commit (err_result "postgres Tx Commit error").
Definition pgTx_Rollback : adapter Q → adapter Q * result unit := end_tx q_Rollback (ignore_done "postgres Tx Rollback error").

(** ** The adapters as database adapters of the ORM *)

(** For a model with the given fields; the methods of the transaction are used
    while one is open. *)
Definition sqlite_DBAdapter (fs : list sfield) (zero : gostruct) : DBAdapter (adapter Q) := {|
  db_dialect := SQLiteDialector;
  db_SelectIDs query args a := if a_tx a then sqliteTx_Select scan_id query args a else sqlite_Select scan_id query args a;
  db_SelectModels query args a :=
    if a_tx a then sqliteTx_Select (scan_model fs zero) query args a else sqlite_Select (scan_model fs zero) query args a;
  db_GetModel query args a := if a_tx a then sqliteTx_Get fs zero query args a else sqlite_Get fs zero query args a;
  db_GetCount := sqlite_GetCount;
  db_Exec query args a := if a_tx a then sqliteTx_Exec query args a else sqlite_Exec query args a;
  db_Begin := sqlite_BeginTx;
  db_Commit := sqliteTx_Commit;
  db_Rollback := sqliteTx_Rollback
|}.

Definition mysql_DBAdapter (fs : list sfield) (zero : gostruct) : DBAdapter (adapter Q) := {|
  db_dialect := MySQLDialector;
  db_SelectIDs query args a := if a_tx a then mysqlTx_Select scan_id query args a else mysql_Select scan_id query args a;
  db_SelectModels query args a :=
    if a_tx a then mysqlTx_Select (scan_model fs zero) query args a else mysql_Select (scan_model fs zero) query args a;
  db_GetModel query args a := if a_tx a then mysqlTx_Get fs zero query args a else mysql_Get fs zero query args a;
  db_GetCount := mysql_GetCount;
  db_Exec query args a := if a_tx a then mysqlTx_Exec query args a else mysql_Exec query args a;
  db_Begin := mysql_BeginTx;
  db_Commit := mysqlTx_Commit;
  db_Rollback := mysqlTx_Rollback
|}.

Definition postgres_DBAdapter (fs : list sfield) (zero : gostruct) : DBAdapter (adapter Q) := {|
  db_dialect := PostgresDialector;
  db_SelectIDs query args a := if a_tx a then pgTx_Select scan_id query args a else pg_Select scan_id query args a;
  db_SelectModels query args a :=
    if a_tx a then pgTx_Select (scan_model fs zero) query args a else pg_Select (scan_model fs zero) query args a;
  db_GetModel query args a := if a_tx a then pgTx_Get fs zero query args a else pg_Get fs zero query args a;
  db_GetCount := pg_GetCount;
  db_Exec query args a := if a_tx a then pgTx_Exec query args a else pg_Exec query args a;
  db_Begin := pg_BeginTx;
  db_Commit := pgTx_Commit;
  db_Rollback := pgTx_Rollback
|}.
End adapters.
