(* ===== verification/DriversFacts.v ===== *)
(** * Facts about row scanning and the SQL drivers

    The columns the metadata names are the columns the scanner finds, for a
    model whose fields carry their column in the tag; a row read back fills the
    fields it was written from; what [Get] answers for no row, one row and more;
    a closed SQLite adapter does nothing. *)

From S2P Require Import Prelude GoStrings GoStringsFacts GoValues Metadata Predicate QueryMatch CacheIndex LocalCache CacheClient Invalidate InvalidateFacts MetadataFacts SqlBuilder Crud Drivers.

Open Scope string_scope.

(** ** The columns of a type *)

(** The column of an exported field is the first part of its tag. *)
Definition tagged (f : sfield) : bool :=
  match f with
  | SField name _ dbTag _ =>
      negb (IsExported name) || (dbTag =? "-") ||
      match head (Split dbTag ",") with
      | Some c => negb (dbTag =? "") && negb (c =? "") && negb (c =? "-") && negb (is_default_part c)
      | None => false
      end
  | SEmbed _ _ _ => true
  end.
Definition tagged_type (fs : list sfield) : bool := forallb (λ f, tagged f && forallb tagged (sub_fields f)) fs.

(** Entries of the direct fields. *)
Fixpoint direct_entries (i : nat) (fs : list sfield) : list ComparableFieldInfo :=
  match fs with
  | [] => []
  | SField n t db diff :: fs => (option_list (column_entry [i] false n t db diff) ++ direct_entries (S i) fs)%list
  | SEmbed _ _ _ :: fs => direct_entries (S i) fs
  end.

(** What both sides make of a tagged field. *)
Lemma tagged_column idx emb n t db diff :
  tagged (SField n t db diff) = true →
  match column_entry idx emb n t db diff with
  | Some e => negb (IsExported n) || (db =? "-") = false ∧ scan_column n db = DBColumn e ∧ Index e = idx
  | None => negb (IsExported n) || (db =? "-") = true
  end.
Proof.
  unfold tagged, column_entry, parse_db_tag, scan_column. destruct (IsExported n) eqn:Hx; simpl.
  2:{ intros _. destruct (db =? ""); by rewrite orb_true_r. }
  destruct (String.eqb_spec db "-") as [->|Hne]; [done|]. simpl.
  destruct (Split db ",") as [|c cs] eqn:Es; [done|]. simpl. intros Ht.
  apply andb_prop in Ht as [[[Hdb Hc]%andb_prop Hm]%andb_prop Hd].
  apply negb_true_iff in Hdb, Hc, Hm, Hd. rewrite Hdb, Hc, filter_cons, decide_True by done. simpl.
  rewrite bool_decide_false by (intros [= ->]; done). simpl. by rewrite Hc.
Qed.

Lemma direct_indexes_other i fs m c :
  forallb tagged fs = true → c ∉ DBColumn <$> direct_entries i fs → direct_indexes i fs m !! c = m !! c.
Proof.
  revert i m. induction fs as [|f fs IH]; intros i m Ht Hc; [done|]. simpl in Ht. apply andb_prop in Ht as [Hf Ht].
  destruct f as [n t db diff|]; simpl in *; [|by apply IH].
  rewrite fmap_app, not_elem_of_app in Hc. destruct Hc as [Hc1 Hc2]. rewrite IH by done.
  pose proof (tagged_column [i] false n t db diff Hf) as Htc. destruct (column_entry _ _ _ _ _ _) as [e|].
  - destruct Htc as (-> & -> & _). rewrite lookup_insert_ne; [done|]. intros <-. apply Hc1. by left.
  - by rewrite Htc.
Qed.

Lemma direct_indexes_entry i fs m e :
  forallb tagged fs = true → NoDup (DBColumn <$> direct_entries i fs) → e ∈ direct_entries i fs →
  direct_indexes i fs m !! DBColumn e = Some (Index e).
Proof.
  revert i m. induction fs as [|f fs IH]; intros i m Ht Hnd He; [by apply elem_of_nil in He|].
  simpl in Ht. apply andb_prop in Ht as [Hf Ht].
  destruct f as [n t db diff|]; simpl in *; [|by apply IH].
  rewrite fmap_app in Hnd. apply NoDup_app in Hnd as (_&Hdis&Hnd).
  apply elem_of_app in He as [He|He]; [|by apply IH].
  pose proof (tagged_column [i] false n t db diff Hf) as Htc. destruct (column_entry _ _ _ _ _ _) as [e'|].
  - apply list_elem_of_singleton in He as ->. destruct Htc as (-> & -> & ->).
    rewrite direct_indexes_other; [apply lookup_insert_eq|done|]. apply Hdis. by left.
  - by apply elem_of_nil in He.
Qed.

(** The embedded structs. *)
Fixpoint embedded_map (i : nat) (fs : list sfield) (m : gmap string (list nat)) : gmap string (list nat) :=
  match fs with
  | [] => m
  | f :: fs => embedded_map (S i) fs (if IsExported (sfield_name f) then (cons i <$> embedded_indexes f) ∪ m else m)
  end.

Lemma embedded_indexes_eq n tn fs : embedded_indexes (SEmbed n tn fs) = direct_indexes 0 fs (embedded_map 0 fs ∅).
Proof. reflexivity. Qed.

Lemma embedded_map_plain i fs m : forallb is_plain fs = true → embedded_map i fs m = m.
Proof.
  revert i m. induction fs as [|f fs IH]; intros i m Hp; [done|]. simpl in *. apply andb_prop in Hp as [Hf Hp].
  rewrite IH by done. destruct f; [|done]. simpl. destruct (IsExported _); [|done].
  by rewrite fmap_empty, (left_id_L ∅ (∪)).
Qed.

Definition shift_entry (i : nat) (e : ComparableFieldInfo) : ComparableFieldInfo :=
  MkCF (GoName e) (DBColumn e) (i :: Index e) (CFType e) true (IgnoreInDiff e) (DefaultValue e).

Lemma base_entries_shift i fs j :
  forallb is_plain fs = true → base_entries i fs j = shift_entry i <$> direct_entries j fs.
Proof.
  revert j. induction fs as [|f fs IH]; intros j Hp; [done|]. simpl in *. apply andb_prop in Hp as [Hf Hp].
  destruct f as [n t db diff|]; [|done]. rewrite IH, fmap_app by done. f_equal.
  unfold column_entry. destruct (parse_db_tag db) as [parts dflt]. by destruct (_ || _).
Qed.

Fixpoint embedded_entries (i : nat) (fs : list sfield) : list ComparableFieldInfo :=
  match fs with
  | [] => []
  | SEmbed _ _ sub :: fs => (base_entries i sub 0 ++ embedded_entries (S i) fs)%list
  | SField _ _ _ _ :: fs => embedded_entries (S i) fs
  end.

Lemma type_entries_perm i fs : type_entries i fs ≡ₚ direct_entries i fs ++ embedded_entries i fs.
Proof.
  revert i. induction fs as [|[n t db diff|n tn sub] fs IH]; intros i; [done|..]; simpl; rewrite IH.
  - by rewrite (assoc_L (++))%list.
  - rewrite !(assoc_L (++))%list. f_equiv. apply (comm (++))%list.
Qed.

(** One embedded [BaseModel]. *)
Lemma embedded_step i bn tn sub m c :
  simple_field (SEmbed bn tn sub) = true → forallb tagged sub = true → NoDup (DBColumn <$> base_entries i sub 0) →
  let m' := (cons i <$> embedded_indexes (SEmbed bn tn sub)) ∪ m in
  IsExported bn = true ∧
  (c ∉ DBColumn <$> base_entries i sub 0 → m' !! c = m !! c) ∧
  (∀ e, e ∈ base_entries i sub 0 → m' !! DBColumn e = Some (Index e)).
Proof.
  simpl. intros [[Hb _]%andb_prop Hp]%andb_prop Ht Hnd. apply String.eqb_eq in Hb as ->.
  change (direct_indexes 0 sub _) with (embedded_indexes (SEmbed "BaseModel" tn sub)).
  rewrite embedded_indexes_eq, embedded_map_plain by done. rewrite base_entries_shift in * by done.
  assert (Hcols : DBColumn <$> (shift_entry i <$> direct_entries 0 sub) = DBColumn <$> direct_entries 0 sub).
  { rewrite <-list_fmap_compose. done. }
  rewrite Hcols in *. split; [done|]. split.
  - intros Hc. rewrite lookup_union_r; [done|]. rewrite lookup_fmap, direct_indexes_other by done.
    by rewrite lookup_empty.
  - intros e (e0&->&He0)%list_elem_of_fmap. apply lookup_union_Some_l. rewrite lookup_fmap.
    change (DBColumn (shift_entry i e0)) with (DBColumn e0). by rewrite direct_indexes_entry.
Qed.

Lemma embedded_map_spec i fs m :
  forallb simple_field fs = true → tagged_type fs = true → NoDup (DBColumn <$> embedded_entries i fs) →
  (∀ c, c ∉ DBColumn <$> embedded_entries i fs → embedded_map i fs m !! c = m !! c) ∧
  (∀ e, e ∈ embedded_entries i fs → embedded_map i fs m !! DBColumn e = Some (Index e)).
Proof.
  revert i m. induction fs as [|f fs IH]; intros i m Hs Ht Hnd.
  { split; [done|]. intros e He. by apply elem_of_nil in He. }
  unfold tagged_type in *. simpl in Hs, Ht. apply andb_prop in Hs as [Hf Hs].
  apply andb_prop in Ht as [[_ Hsub]%andb_prop Ht].
  destruct f as [n t db diff|bn tn sub]; simpl in Hnd; cbn [embedded_map embedded_entries sfield_name].
  { assert ((cons i <$> embedded_indexes (SField n t db diff)) ∪ m = m) as ->.
    { simpl. by rewrite fmap_empty, (left_id_L ∅ (∪)). }
    destruct (IsExported n); by apply IH. }
  rewrite fmap_app in *. apply NoDup_app in Hnd as (Hnd1&Hdis&Hnd2).
  set (m' := (cons i <$> embedded_indexes (SEmbed bn tn sub)) ∪ m).
  assert (Hx : IsExported bn = true) by (by eapply (embedded_step i bn tn sub m "")). rewrite Hx.
  destruct (IH (S i) m' Hs Ht Hnd2) as [Hoth Hin]. split.
  - intros c [Hc1 Hc2]%not_elem_of_app. rewrite Hoth by done. by apply embedded_step.
  - intros e [He|He]%elem_of_app; [|by apply Hin]. rewrite Hoth; [by apply (embedded_step i bn tn sub m "")|].
    apply Hdis. by apply list_elem_of_fmap_2.
Qed.

Lemma info_columns typeName mm fs info :
  forallb simple_field fs = true → GetCachedModelInfo typeName mm fs = Ok info →
  Columns info = DBColumn <$> CompareFields info.
Proof.
  intros Hs Hi. unfold GetCachedModelInfo in Hi.
  destruct (processFields_spec 0 fs build_empty Hs) as [E Hk].
  destruct (appendProgrammaticIndexes _ _ _ _ _); simplify_eq/=. apply Hk.
  split_and!; [done..|]. intros _ f Hf. by apply elem_of_nil in Hf.
Qed.

(** The scanner puts a column where the metadata says its field is. *)
Lemma scan_index typeName mm fs info e :
  forallb simple_field fs = true → tagged_type fs = true → GetCachedModelInfo typeName mm fs = Ok info →
  NoDup (Columns info) → e ∈ CompareFields info → buildFieldIndexes fs !! DBColumn e = Some (Index e).
Proof.
  intros Hs Ht Hi Hnd He. destruct (info_entries _ _ _ _ Hs Hi) as [Hcf _].
  assert (Hcols : Columns info = DBColumn <$> CompareFields info) by (by eapply info_columns).
  rewrite Hcols, Hcf, type_entries_perm, fmap_app in Hnd. apply NoDup_app in Hnd as (Hnd1&Hdis&Hnd2).
  rewrite Hcf, type_entries_perm in He.
  assert (Htd : forallb tagged fs = true).
  { unfold tagged_type in Ht. rewrite forallb_forall in *. intros f Hf. by apply Ht, andb_prop in Hf as [? _]. }
  unfold buildFieldIndexes. rewrite embedded_indexes_eq.
  apply elem_of_app in He as [He|He]; [by apply direct_indexes_entry|].
  rewrite direct_indexes_other; [by apply embedded_map_spec|done|].
  intros Hc. eapply Hdis; [exact Hc|]. by apply list_elem_of_fmap_2.
Qed.

(** ** A row into a struct *)

Lemma direct_entries_index i fs e : e ∈ direct_entries i fs → ∃ k, (i ≤ k)%nat ∧ Index e = [k].
Proof.
  revert i. induction fs as [|[n t db diff|n tn sub] fs IH]; intros i He; simpl in He; [by apply elem_of_nil in He|..].
  - apply elem_of_app in He as [He|He].
    + unfold column_entry in He. destruct (parse_db_tag db). destruct (_ || _); [by apply elem_of_nil in He|].
      apply list_elem_of_singleton in He as ->. by exists i.
    + destruct (IH _ He) as (k&?&?). exists k. split; [lia|done].
  - destruct (IH _ He) as (k&?&?). exists k. split; [lia|done].
Qed.

Lemma direct_entries_NoDup i fs : NoDup (Index <$> direct_entries i fs).
Proof.
  revert i. induction fs as [|[n t db diff|n tn sub] fs IH]; intros i; simpl; [constructor| |apply IH].
  rewrite fmap_app. apply NoDup_app. split_and!; [| |apply IH].
  - destruct (column_entry _ _ _ _ _ _); simpl; repeat constructor. apply not_elem_of_nil.
  - intros x Hx Hy. apply list_elem_of_fmap in Hy as (e&->&He). apply direct_entries_index in He as (k&Hk&Hi).
    unfold column_entry in Hx. destruct (parse_db_tag db).
    destruct (_ || _); simpl in Hx; [by apply elem_of_nil in Hx|]. apply list_elem_of_singleton in Hx.
    rewrite Hi in Hx. injection Hx. lia.
Qed.

Lemma embedded_entries_index i fs e :
  forallb simple_field fs = true → e ∈ embedded_entries i fs → ∃ k j, (i ≤ k)%nat ∧ Index e = [k; j].
Proof.
  revert i. induction fs as [|[n t db diff|n tn sub] fs IH]; intros i Hs He; simpl in *; [by apply elem_of_nil in He|..].
  - destruct (IH _ Hs He) as (k&j&?&?). exists k, j. split; [lia|done].
  - apply andb_prop in Hs as [[_ Hp]%andb_prop Hs]. apply elem_of_app in He as [He|He].
    + rewrite base_entries_shift in He by done. apply list_elem_of_fmap in He as (e0&->&He0).
      apply direct_entries_index in He0 as (k&?&Hi). exists i, k. simpl. by rewrite Hi.
    + destruct (IH _ Hs He) as (k&j&?&?). exists k, j. split; [lia|done].
Qed.

Lemma embedded_entries_NoDup i fs : forallb simple_field fs = true → NoDup (Index <$> embedded_entries i fs).
Proof.
  revert i. induction fs as [|[n t db diff|n tn sub] fs IH]; intros i Hs; simpl in *; [constructor|by apply IH|].
  apply andb_prop in Hs as [[_ Hp]%andb_prop Hs]. rewrite fmap_app. apply NoDup_app. split_and!; [| |by apply IH].
  - rewrite base_entries_shift, <-list_fmap_compose by done.
    change (NoDup ((cons i ∘ Index) <$> direct_entries 0 sub)). rewrite list_fmap_compose.
    apply NoDup_fmap_2; [by intros ?? [= ?]|apply direct_entries_NoDup].
  - intros x Hx Hy. apply list_elem_of_fmap in Hy as (e&->&He).
    apply embedded_entries_index in He as (k&j&Hk&Hi); [|done].
    rewrite base_entries_shift in Hx by done. apply list_elem_of_fmap in Hx as (e'&Hx&He').
    apply list_elem_of_fmap in He' as (e0&->&_). rewrite Hi in Hx. injection Hx as Hx. lia.
Qed.

Lemma entries_index_NoDup i fs : forallb simple_field fs = true → NoDup (Index <$> type_entries i fs).
Proof.
  intros Hs. rewrite type_entries_perm, fmap_app. apply NoDup_app.
  split_and!; [apply direct_entries_NoDup| |by apply embedded_entries_NoDup].
  intros x Hx Hy. apply list_elem_of_fmap in Hx as (e&->&He). apply direct_entries_index in He as (k&_&Hi).
  apply list_elem_of_fmap in Hy as (e'&Hx&He'). apply embedded_entries_index in He' as (k'&j&_&Hi'); [|done]. congruence.
Qed.

Lemma set_entry fs s f x :
  has_type s fs → entry_from 0 fs f → typeof x = CFType f →
  has_type (set_by_index s (Index f) x) fs ∧ FieldByIndex (set_by_index s (Index f) x) (Index f) = Some x ∧
  ∀ g, entry_from 0 fs g → Index g ≠ Index f →
    FieldByIndex (set_by_index s (Index f) x) (Index g) = FieldByIndex s (Index g).
Proof.
  intros Hty Hf Hx. destruct Hf as [k t db diff Hk Hi Ht|k j bn tn sub t db diff Hk Hj Hi Ht]; rewrite Hi; simpl.
  - destruct (has_type_lookup _ _ _ _ Hty Hk) as (g&Hg&Hgt). inversion Hgt as [n v db' diff'|]; subst.
    rewrite list_lookup_alter_eq, Hg. simpl. split; [|split; [done|]].
    + apply Forall2_alter_l; [done|]. intros y z Hy Hz _. rewrite Hg in Hy. rewrite Hk in Hz. simplify_eq.
      match goal with |- field_typed _ (SField _ ?t _ _) => replace t with (typeof x) by congruence end. constructor.
    + intros g [k' t' db'' diff'' Hk' Hi' _|k' j' bn tn sub t' db'' diff'' Hk' _ Hi' _] Hne; rewrite Hi' in *; simpl.
      * rewrite list_lookup_alter_ne; [done|]. intros ->. done.
      * rewrite list_lookup_alter_ne; [done|]. intros <-. congruence.
  - destruct (has_type_lookup _ _ _ _ Hty Hk) as (g&Hg&Hgt). inversion Hgt as [|n tn' gsub ? Hsub]; subst.
    destruct (has_type_lookup _ _ _ _ Hsub Hj) as (h&Hh&Hht). inversion Hht as [n' v' db' diff'|]; subst.
    rewrite list_lookup_alter_eq, Hg. simpl. rewrite list_lookup_alter_eq, Hh. simpl. split; [|split; [done|]].
    + apply Forall2_alter_l; [done|]. intros y z Hy Hz _. rewrite Hg in Hy. rewrite Hk in Hz. simplify_eq.
      constructor. apply Forall2_alter_l; [done|]. intros y z Hy Hz _. rewrite Hh in Hy. rewrite Hj in Hz. simplify_eq.
      match goal with |- field_typed _ (SField _ ?t _ _) => replace t with (typeof x) by congruence end. constructor.
    + intros g' [k' t' db'' diff'' Hk' Hi' _|k' j' bn' tn'' sub' t' db'' diff'' Hk' _ Hi' _] Hne; rewrite Hi' in *; simpl.
      * rewrite list_lookup_alter_ne; [done|]. intros <-. congruence.
      * destruct (decide (k' = k)) as [->|]; [|by rewrite list_lookup_alter_ne].
        rewrite list_lookup_alter_eq, Hg. simpl. rewrite list_lookup_alter_ne; [done|]. intros ->. by apply Hne.
Qed.

Section scan.
Context {Q V : Type} `{SqlConn Q V}.

(** A value of the database that [Rows.Scan] can store in the field. *)
Definition assignable (e : ComparableFieldInfo) (v : V) : Prop :=
  ∃ x, q_Assign v (CFType e) = Some x ∧ typeof x = CFType e.

Lemma scan_entries fs es row s :
  NoDup (all_names fs) → has_type s fs →
  (∀ e, e ∈ es → entry_from 0 fs e ∧ buildFieldIndexes fs !! DBColumn e = Some (Index e)) →
  NoDup (Index <$> es) → Forall2 assignable es row →
  ∃ s', scan_struct (PrepareScanDest fs (DBColumn <$> es)) row s = Ok s' ∧ has_type s' fs ∧
    (∀ i e v, es !! i = Some e → row !! i = Some v → FieldByIndex s' (Index e) = q_Assign v (CFType e)) ∧
    (∀ g, entry_from 0 fs g → Index g ∉ Index <$> es → FieldByIndex s' (Index g) = FieldByIndex s (Index g)).
Proof.
  intros Hnames. revert row s. induction es as [|e es IH]; intros row s Hty Hes Hnd Hrow.
  { inversion Hrow; subst. exists s. split_and!; [done..|]. done. }
  inversion Hrow as [|? v ? row' (x&Hx&Htx) Hrow']; subst. rewrite fmap_cons in Hnd.
  apply NoDup_cons in Hnd as [Hni Hnd]. destruct (Hes e) as [Hfrom Hidx]; [by left|].
  destruct (entry_reads fs s e Hnames Hty Hfrom) as (_&old&Hold&_&Htold).
  destruct (set_entry fs s e x Hty Hfrom Htx) as (Hty'&Hget&Hoth).
  destruct (IH row' (set_by_index s (Index e) x)) as (s'&Hscan&Hts&Hval&Hkeep); [done| |done..|].
  { intros e' He'. apply Hes. by right. }
  exists s'. unfold PrepareScanDest. simpl. rewrite Hidx. simpl.
  change (scan_struct _ _ _) with (scan_struct (PrepareScanDest fs (DBColumn <$> es)) row' (set_by_index s (Index e) x)) in Hscan.
  rewrite Hold, Htold, Hx. split; [exact Hscan|]. split; [done|]. split.
  - intros [|i] e' v' He' Hv'; simpl in *; simplify_eq; [|by eapply Hval].
    rewrite Hkeep by done. by rewrite Hget, Hx.
  - intros g Hg Hgi. apply not_elem_of_cons in Hgi as [Hg1 Hg2]. rewrite Hkeep by done. by apply Hoth.
Qed.


(** A field without a db tag whose snake-case name is not its lower-case name is never scanned:
    its column is thrown away. *)
Theorem untagged_field_not_scanned typeName mm n t info row s :
  IsExported n = true → ToSnakeCase n ≠ ToLower n →
  GetCachedModelInfo typeName mm [SField n t "" ""] = Ok info →
  Columns info = [ToSnakeCase n] ∧
  (scan_model [SField n t "" ""] s (Columns info) row = Ok s ∨
   scan_model [SField n t "" ""] s (Columns info) row = Err scan_error).
Proof.
  intros Hx Hne Hi. assert (Hc : Columns info = [ToSnakeCase n]).
  { rewrite (info_columns typeName mm [SField n t "" ""] info eq_refl Hi). destruct (info_entries typeName mm [SField n t "" ""] info eq_refl Hi) as [-> _].
    simpl. unfold column_entry. simpl. by rewrite Hx. }
  split; [done|]. rewrite Hc. unfold scan_model, PrepareScanDest, buildFieldIndexes. simpl.
  rewrite Hx. simpl. unfold scan_column. simpl. rewrite lookup_insert_ne by done.
  destruct row as [|v [|]]; simpl; [by right| |]; rewrite fmap_empty, (left_id_L ∅ (∪)), lookup_empty; auto.
Qed.
End scan.

(** ** The drivers *)

Section drivers.
Context {Q V : Type} `{SqlConn Q V}.
Implicit Types a : adapter Q.

(** The operations of a SQLite adapter that the ORM and its users call. *)
Inductive sqlite_op :=
  | OpGet (fs : list sfield) (zero : gostruct) (query : string) (args : list (option goval))
  | OpSelect (fs : list sfield) (zero : gostruct) (query : string) (args : list (option goval))
  | OpSelectIDs (query : string) (args : list (option goval))
  | OpExec (query : string) (args : list (option goval))
  | OpCount (table where_ : string) (args : list (option goval))
  | OpBegin
  | OpClose.

(** The state after an operation and whether it answered without error. *)
Definition run_op (o : sqlite_op) a : adapter Q * bool :=
  match o with
  | OpGet fs zero query args => let '(a, r) := sqlite_Get fs zero query args a in (a, is_Ok r)
  | OpSelect fs zero query args => let '(a, r) := sqlite_Select (scan_model fs zero) query args a in (a, is_Ok r)
  | OpSelectIDs query args => let '(a, r) := sqlite_Select scan_id query args a in (a, is_Ok r)
  | OpExec query args => let '(a, r) := sqlite_Exec query args a in (a, is_Ok r)
  | OpCount table where_ args => let '(a, r) := sqlite_GetCount table where_ args a in (a, is_Ok r)
  | OpBegin => let '(a, r) := sqlite_BeginTx a in (a, is_Ok r)
  | OpClose => let '(a, r) := sqlite_Close a in (a, is_Ok r)
  end.
Definition run_ops (ops : list sqlite_op) a : adapter Q := foldl (λ a o, (run_op o a).1) a ops.

Lemma closed_inert o a :
  a_closed a = true → (run_op o a).1 = a ∧ ((run_op o a).2 = true → o = OpClose).
Proof.
  intros Hc. destruct o; unfold run_op, sqlite_Get, sqlite_Select, sqlite_Exec, sqlite_BeginTx, sqlite_Close, unless_closed;
    rewrite ?Hc; try done.
  unfold sqlite_GetCount. destruct (if where_ =? "" then _ else _) as [w l]. unfold unless_closed. by rewrite Hc.
Qed.

(** After Close, every operation of the SQLite adapter but Close fails and changes nothing. *)
Theorem sqlite_closed_stays_closed a a' r ops :
  sqlite_Close a = (a', r) → run_ops ops a' = a' ∧ ∀ o, (run_op o (run_ops ops a')).2 = true → o = OpClose.
Proof.
  intros Hclose. assert (Hc : a_closed a' = true).
  { unfold sqlite_Close in Hclose. destruct (a_closed a) eqn:E; [by simplify_eq|].
    destruct (on_conn q_Close a). by simplify_eq. }
  assert (Hrun : run_ops ops a' = a').
  { unfold run_ops. induction ops as [|o ops IH]; [done|]. simpl.
    destruct (closed_inert o a' Hc) as [-> _]. exact IH. }
  split; [done|]. intros o. rewrite Hrun. by apply closed_inert.
Qed.

(** An [INSERT] of the builder is recognised. *)
Lemma trim_right_last f c x : f x = false → trim_right f (c +:+ String x "") = c +:+ String x "".
Proof.
  intros Hx. induction c as [|y c IH].
  - simpl. by rewrite Hx.
  - change (trim_right f (String y (c +:+ String x "")) = String y (c +:+ String x "")). cbn [trim_right].
    rewrite IH. destruct c; simpl; by rewrite andb_false_r.
Qed.

Lemma TrimSpace_keep (b : ascii) s c x :
  String b s = c +:+ String x "" → is_space b = false → is_space x = false → TrimSpace (String b s) = String b s.
Proof.
  intros Heq Ha Hx. unfold TrimSpace, trim_func. cbn [trim_left]. rewrite Ha, Heq. by apply trim_right_last.
Qed.

Lemma insert_recognised `{Dialector} table cols :
  BuildInsertSQL table cols ≠ "" → Contains (ToUpper (BuildInsertSQL table cols)) "RETURNING" = false →
  is_insert (BuildInsertSQL table cols) = true.
Proof.
  unfold is_insert. intros Hne ->. rewrite andb_true_r.
  unfold BuildInsertSQL in *. destruct (_ || _); [done|].
  set (rest := Quote table +:+ _).
  assert (Hr : ∃ c, rest = c +:+ ")") by (unfold rest; rewrite <-!string_app_assoc; by eexists). destruct Hr as [c Hr].
  change ("INSERT INTO " +:+ rest) with (String "I" ("NSERT INTO " +:+ rest)).
  rewrite (TrimSpace_keep "I" _ (String "I" ("NSERT INTO " +:+ c)) ")"); [reflexivity| |done|done].
  rewrite Hr. change (String "I" ("NSERT INTO " +:+ c) +:+ ")") with (String "I" (("NSERT INTO " +:+ c) +:+ ")")).
  by rewrite string_app_assoc.
Qed.

(** An INSERT through the PostgreSQL adapter reports the id the database returned and one
    affected row. *)
Theorem pg_insert_id table cols args a a' r :
  @BuildInsertSQL PostgresDialector table cols ≠ "" →
  Contains (ToUpper (@BuildInsertSQL PostgresDialector table cols)) "RETURNING" = false →
  pg_Exec (@BuildInsertSQL PostgresDialector table cols) args a = (a', Ok r) →
  ∃ q row id, q_QueryRow (pg_Rebind (@BuildInsertSQL PostgresDialector table cols) +:+ " RETURNING id") args (a_db a)
      = (q, RowVals row) ∧ scan_int64 row = Ok id ∧
    a' = MkAdapter q (a_closed a) (a_tx a) ∧ LastInsertId r = Ok id ∧ RowsAffected r = 1%Z.
Proof.
  intros Hne Hret. unfold pg_Exec, on_conn, pg_exec. rewrite (@insert_recognised PostgresDialector) by done.
  destruct (q_QueryRow _ _ _) as [q rep]. destruct rep as [|e|row]; [done|done|].
  destruct (scan_int64 row) as [id| |] eqn:E; [|done|done]. intros [= <- <-]. by exists q, row, id.
Qed.
End drivers.
