(* ===== verification/Introspect.v ===== *)
(** * Schema introspection (drivers/db/sqlite/introspect.go,
    drivers/db/mysql/introspect.go, drivers/db/postgres/introspect.go)

    The three introspectors read the catalogue of a database through
    [database/sql] ([SqlConn]) and give the description of a table that the
    migration compares with the model.  The handle of the database is not nil.
    A [range] over a map visits it in the order [range] gives. *)

From S2P Require Import Prelude GoStrings GoValues Metadata Predicate CacheIndex LocalCache CacheClient SqlBuilder Crud.
From S2P Require Import Schema Drivers.

Open Scope string_scope.

(** ** Texts *)

(** [strings.Index] and [strings.LastIndex]; [None] is -1. *)
Fixpoint str_Index (s sub : string) : option nat :=
  if HasPrefix s sub then Some O
  else match s with
       | "" => None
       | String _ s => S <$> str_Index s sub
       end.

Fixpoint str_LastIndex (s sub : string) : option nat :=
  match s with
  | "" => if HasPrefix "" sub then Some O else None
  | String _ s' =>
      match str_LastIndex s' sub with
      | Some i => Some (S i)
      | None => if HasPrefix s sub then Some O else None
      end
  end.

(** The regular expression [^[a-zA-Z_][a-zA-Z0-9_]*$]. *)
Definition ident_start (c : ascii) : bool := is_upper c || is_lower c || bool_decide (c = "_"%char).
Fixpoint ident_rest (s : string) : bool :=
  match s with
  | "" => true
  | String c s => (ident_start c || is_digit c) && ident_rest s
  end.
Definition validIdentifier (s : string) : bool :=
  match s with
  | "" => false
  | String c s => ident_start c && ident_rest s
  end.

(** The predicate at the end of a [CREATE INDEX]; the same code in the SQLite
    and in the PostgreSQL driver. *)
Definition extractTrailingWhere (sql : string) : string :=
  match str_LastIndex (ToUpper sql) " WHERE " with
  | None => ""
  | Some whereIndex => TrimSpace (TrimSuffix (drop_str (whereIndex + String.length " WHERE ") sql) ";")
  end.
Definition parsePgIndexWhere (def : string) : string := extractTrailingWhere def.

(** The names between the first parentheses of a definition. *)
Definition parsePgIndexColumns (def : string) : list string :=
  match str_Index def "(", str_Index def ")" with
  | Some start, Some end_ =>
      if (end_ <=? start + 1)%nat then []
      else TrimSpace <$> Split (take_str (end_ - (start + 1)) (drop_str (start + 1) def)) ","
  | _, _ => []
  end.

(** [err.Error()]. *)
Fixpoint err_Error (e : goerr) : string :=
  match e with
  | ErrNotFound => "thing: requested item not found"
  | ErrLockNotAcquired => "thing: could not acquire lock"
  | ErrCacheNoneResult => "thing: cache indicates record does not exist (NoneResult marker found)"
  | ErrQueryCacheNoneResult => "thing: cached query result indicates no matching records"
  | ErrMsg msg => msg
  | ErrWrap msg e => msg +:+ ": " +:+ err_Error e
  end.

(** ** Reading rows *)

Section introspect.
Context {Q V : Type} `{SqlConn Q V}.

Definition scan_string (v : V) : result string :=
  match q_Assign v TString with Some (VString s) => Ok s | _ => Err scan_error end.
Definition scan_int (v : V) : result Z :=
  match q_Assign v (TInt WInt) with Some (VInt WInt z) => Ok z | _ => Err scan_error end.
(** [sql.NullString]. *)
Definition scan_NullString (v : V) : result (option string) :=
  if q_IsNull v then Ok None else s ← scan_string v; Ok (Some s).

(** The rows of a loop [for rows.Next()] whose body scans and appends. *)
Fixpoint scan_rows {A} (msg : string) (scan : list V → result A) (data : list (list V)) : result (list A) :=
  match data with
  | [] => Ok []
  | row :: data =>
      match scan row with
      | Ok x => l ← scan_rows msg scan data; Ok (x :: l)
      | Err e => Err (ErrWrap msg e)
      | Panic p => Panic p
      end
  end.

(** The same, and the error that ended the rows. *)
Definition read_rows {A} (msg_scan msg_rows : string) (scan : list V → result A) (rows : query_rows V) : result (list A) :=
  l ← scan_rows msg_scan scan (rows_data rows);
  match rows_Err rows with
  | Some e => Err (ErrWrap msg_rows e)
  | None => Ok l
  end.

(** A query and what is made of its rows. *)
Definition query_with {A} (msg query : string) (args : list (option goval)) (f : query_rows V → result A) (q : Q)
    : Q * result A :=
  let '(q, r) := q_Query query args q in
  (q, match r with
      | inr e => Err (ErrWrap msg e)
      | inl rows => f rows
      end).

(** Sequencing of steps that read the database. *)
Definition then_ {A B} (p : Q * result A) (f : A → Q → Q * result B) : Q * result B :=
  match p with
  | (q, Ok x) => f x q
  | (q, Err e) => (q, Err e)
  | (q, Panic m) => (q, Panic m)
  end.

(** The last primary column. *)
Definition pk_column (cols : list ColumnInfo) : string :=
  foldl (λ pk c, if IsPrimary c then ColName c else pk) "" cols.

Definition set_unique (c : ColumnInfo) : ColumnInfo :=
  MkColumn (ColName c) (DataType c) (IsNullable c) (IsPrimary c) true (ColDefault c).
Definition set_primary (c : ColumnInfo) : ColumnInfo :=
  MkColumn (ColName c) (DataType c) (IsNullable c) true (IsUnique c) (ColDefault c).

(** ** SQLite *)

Definition sqlite_column (row : list V) : result ColumnInfo :=
  match row with
  | [cid; name; colType; notnull; dflt; pk] =>
      _ ← scan_int cid;
      name ← scan_string name;
      colType ← scan_string colType;
      notnull ← scan_int notnull;
      dflt ← scan_NullString dflt;
      pk ← scan_int pk;
      Ok (MkColumn name colType (notnull =? 0)%Z (0 <? pk)%Z false dflt)
  | _ => Err scan_error
  end.

Definition sqlite_index_row (row : list V) : result (string * Z * Z) :=
  match row with
  | [seq; name; unique; origin; partial] =>
      _ ← scan_int seq;
      name ← scan_string name;
      unique ← scan_int unique;
      _ ← scan_string origin;
      partial ← scan_int partial;
      Ok (name, unique, partial)
  | _ => Err scan_error
  end.

Definition sqlite_index_column (row : list V) : result string :=
  match row with
  | [seqno; cid; colName] => _ ← scan_int seqno; _ ← scan_int cid; scan_string colName
  | _ => Err scan_error
  end.

Definition getIndexWhere (indexName : string) (q : Q) : Q * result string :=
  let msg := "sqlite_master index sql failed for " +:+ indexName in
  let '(q, r) := q_QueryRow "SELECT sql FROM sqlite_master WHERE type = 'index' AND name = ?" [Some (VString indexName)] q in
  (q, match r with
      | NoRows => Err (ErrWrap msg (ErrMsg "sql: no rows in result set"))
      | RowErr e => Err (ErrWrap msg e)
      | RowVals [v] =>
          match scan_NullString v with
          | Ok (Some sql) => Ok (extractTrailingWhere sql)
          | Ok None => Ok ""
          | Err e => Err (ErrWrap msg e)
          | Panic p => Panic p
          end
      | RowVals _ => Err (ErrWrap msg scan_error)
      end).

(** One row of [index_list]; [None] for an index that is skipped.  The error
    that ended the rows of [index_info] is not looked at. *)
Definition sqlite_index (tableName : string) (row : list V) (q : Q) : Q * result (option IndexInfo) :=
  match sqlite_index_row row with
  | Err e => (q, Err (ErrWrap "scan index_list" e))
  | Panic p => (q, Panic p)
  | Ok (name, unique, partial) =>
      if name =? "sqlite_autoindex_" +:+ tableName +:+ "_1" then (q, Ok None)
      else if negb (validIdentifier name) then (q, Ok None)
      else
        then_ (query_with ("PRAGMA index_info(" +:+ name +:+ ") failed") ("PRAGMA index_info(" +:+ name +:+ ")") []
                 (λ rows, scan_rows "scan index_info" sqlite_index_column (rows_data rows)) q) (λ cols q,
        then_ (if (partial =? 1)%Z then getIndexWhere name q else (q, Ok "")) (λ where_ q,
        (q, Ok (Some (MkIndexInfo name cols (unique =? 1)%Z where_)))))
  end.

Fixpoint sqlite_indexes (tableName : string) (data : list (list V)) (q : Q) : Q * result (list IndexInfo) :=
  match data with
  | [] => (q, Ok [])
  | row :: data =>
      then_ (sqlite_index tableName row q) (λ idx q,
      then_ (sqlite_indexes tableName data q) (λ indexes q,
      (q, Ok (option_list idx ++ indexes)%list)))
  end.

(** Columns that have a unique index of their own. *)
Definition mark_unique (indexes : list IndexInfo) (c : ColumnInfo) : ColumnInfo :=
  if existsb (λ idx, IdxUnique idx && bool_decide (IdxColumns idx = [ColName c])) indexes then set_unique c else c.

Definition sqlite_GetTableInfo (tableName : string) (q : Q) : Q * result (option TableInfo) :=
  if negb (validIdentifier tableName) then (q, Err (ErrMsg ("SQLiteIntrospector: invalid table name " +:+ tableName)))
  else
    then_ (query_with "PRAGMA table_info failed" ("PRAGMA table_info(" +:+ tableName +:+ ")") []
             (read_rows "scan table_info" "table_info rows" sqlite_column) q) (λ columns q,
    match columns with
    | [] => (q, Ok None)
    | _ =>
        then_ (query_with "PRAGMA index_list failed" ("PRAGMA index_list(" +:+ tableName +:+ ")") [] Ok q) (λ rows q,
        then_ (sqlite_indexes tableName (rows_data rows) q) (λ indexes q,
        (q, match rows_Err rows with
            | Some e => Err (ErrWrap "index_list rows" e)
            | None => Ok (Some (MkTable tableName (mark_unique indexes <$> columns) indexes (pk_column columns)))
            end)))
    end).

(** ** MySQL *)

Definition mysql_column (row : list V) : result ColumnInfo :=
  match row with
  | [field; colType; nullStr; key; def; extra] =>
      field ← scan_string field;
      colType ← scan_string colType;
      nullStr ← scan_string nullStr;
      key ← scan_string key;
      def ← scan_NullString def;
      _ ← scan_string extra;
      Ok (MkColumn field colType (nullStr =? "YES") (key =? "PRI") (key =? "UNI") def)
  | _ => Err scan_error
  end.

Definition mysql_index_row (row : list V) : result (string * Z * string) :=
  match row with
  | [keyName; nonUnique; colName] =>
      keyName ← scan_string keyName;
      nonUnique ← scan_int nonUnique;
      colName ← scan_string colName;
      Ok (keyName, nonUnique, colName)
  | _ => Err scan_error
  end.

(** [idxMap]: the columns of an index in the order of the rows. *)
Definition add_index_row (m : gmap string (bool * list string)) (row : string * Z * string) : gmap string (bool * list string) :=
  let '(keyName, nonUnique, colName) := row in
  if (keyName =? "") || (colName =? "") then m
  else <[keyName := ((nonUnique =? 0)%Z, ((default (false, []) (m !! keyName)).2 ++ [colName])%list)]> m.

Definition mysql_statistics : string :=
  "SELECT INDEX_NAME, Non_unique, Column_name FROM information_schema.statistics WHERE table_schema = DATABASE() AND table_name = ?".

Context (range : ∀ A, gmap string A → list (string * A)).

Definition mysql_GetTableInfo (tableName : string) (q : Q) : Q * result (option TableInfo) :=
  if negb (validIdentifier tableName) then (q, Err (ErrMsg ("MySQLIntrospector: invalid table name " +:+ tableName)))
  else
    let '(q, r) := q_Query ("SHOW COLUMNS FROM " +:+ tableName) [] q in
    match r with
    | inr e =>
        if (err_Error e =? "Error 1146: Table '" +:+ tableName +:+ "' doesn't exist") || Contains (err_Error e) "doesn't exist"
        then (q, Ok None)
        else (q, Err (ErrWrap "SHOW COLUMNS failed" e))
    | inl rows =>
        then_ (q, read_rows "scan SHOW COLUMNS" "SHOW COLUMNS rows" mysql_column rows) (λ columns q,
        then_ (query_with "SHOW INDEX failed" mysql_statistics [Some (VString tableName)]
                 (read_rows "scan SHOW INDEX" "SHOW INDEX rows" mysql_index_row) q) (λ rows q,
        let idxMap := foldl add_index_row ∅ rows in
        let indexes := (λ ne, MkIndexInfo ne.1 ne.2.2 ne.2.1 "") <$> filter (λ ne, ne.1 ≠ "PRIMARY") (range _ idxMap) in
        (q, Ok (Some (MkTable tableName columns indexes (pk_column columns))))))
    end.

(** ** PostgreSQL *)

Definition pg_columns_query : string :=
  "SELECT column_name, data_type, is_nullable, column_default
		FROM information_schema.columns
		WHERE table_name = $1".
Definition pg_primary_query : string :=
  "SELECT a.attname
		FROM pg_index i
		JOIN pg_attribute a ON a.attrelid = i.indrelid AND a.attnum = ANY(i.indkey)
		WHERE i.indrelid = $1::regclass AND i.indisprimary".
Definition pg_unique_query : string :=
  "SELECT a.attname
		FROM pg_constraint c
		JOIN pg_class t ON c.conrelid = t.oid
		JOIN pg_attribute a ON a.attrelid = t.oid AND a.attnum = ANY(c.conkey)
		WHERE c.contype = 'u' AND t.relname = $1".
Definition pg_indexes_query : string := "SELECT indexname, indexdef FROM pg_indexes WHERE tablename = $1".

Definition pg_column (row : list V) : result ColumnInfo :=
  match row with
  | [name; dataType; isNullable; defaultVal] =>
      name ← scan_string name;
      dataType ← scan_string dataType;
      isNullable ← scan_string isNullable;
      defaultVal ← scan_NullString defaultVal;
      Ok (MkColumn name dataType (isNullable =? "YES") false false defaultVal)
  | _ => Err scan_error
  end.

Definition scan_one_string (row : list V) : result string :=
  match row with [v] => scan_string v | _ => Err scan_error end.
Definition scan_two_strings (row : list V) : result (string * string) :=
  match row with [v; w] => s ← scan_string v; t ← scan_string w; Ok (s, t) | _ => Err scan_error end.

(** Only the first row of the primary key is asked for. *)
Definition pg_primary (rows : query_rows V) : result string :=
  match rows_data rows with
  | [] => match rows_Err rows with
          | Some e => Err (ErrWrap "pk rows" e)
          | None => Ok ""
          end
  | row :: _ => match scan_one_string row with
                | Ok pk => Ok pk
                | Err e => Err (ErrWrap "scan pk" e)
                | Panic p => Panic p
                end
  end.

Definition pg_index (tableName : string) (nd : string * string) : option IndexInfo :=
  let '(name, def) := nd in
  let cols := parsePgIndexColumns def in
  if (name =? "") || bool_decide (cols = []) then None
  else if (name =? "") || (name =? tableName +:+ "_pkey") then None
  else Some (MkIndexInfo name cols (Contains def "UNIQUE INDEX" || Contains def "UNIQUE CONSTRAINT") (parsePgIndexWhere def)).

Definition pg_GetTableInfo (tableName : string) (q : Q) : Q * result (option TableInfo) :=
  let arg := [Some (VString tableName)] in
  then_ (query_with "information_schema.columns failed" pg_columns_query arg
           (read_rows "scan columns" "columns rows" pg_column) q) (λ columns q,
  match columns with
  | [] => (q, Ok None)
  | _ =>
      then_ (query_with "pg_index primary key" pg_primary_query arg pg_primary q) (λ pkCol q,
      let columns := (λ c, if ColName c =? pkCol then set_primary c else c) <$> columns in
      then_ (query_with "pg_constraint unique" pg_unique_query arg
               (read_rows "scan unique" "unique rows" scan_one_string) q) (λ uniqCols q,
      let columns := (λ c, if bool_decide (ColName c ∈ uniqCols) then set_unique c else c) <$> columns in
      then_ (query_with "pg_indexes" pg_indexes_query arg
               (read_rows "scan index" "index rows" scan_two_strings) q) (λ rows q,
      (q, Ok (Some (MkTable tableName columns (omap (pg_index tableName) rows) pkCol))))))
  end).
End introspect.
