(* ===== verification/IntrospectFacts.v ===== *)
(** * Facts about introspection

    What the migration writes is what the introspector reads: the predicate of
    a partial index is found again in the text of its [CREATE INDEX], and the
    description of a SQLite table read through the pragmas is the state of the
    table. *)

From S2P Require Import Prelude GoStrings GoStringsFacts GoValues Metadata Predicate CacheIndex LocalCache CacheClient SqlBuilder Crud.
From S2P Require Import Schema SchemaFacts Drivers Introspect.

Open Scope string_scope.

(** ** Texts *)

Lemma string_app_nil_r s : s +:+ "" = s.
Proof. induction s as [|c s IH]; [done|]. change (String c (s +:+ "") = String c s). by rewrite IH. Qed.

Lemma string_map_length f s : String.length (string_map f s) = String.length s.
Proof. induction s as [|c s IH]; simpl; [done|by rewrite IH]. Qed.

Lemma drop_str_add n k s : drop_str (n + k) s = drop_str k (drop_str n s).
Proof. revert s. induction n as [|n IH]; intros s; [done|]. destruct s as [|c s]; [by destruct k|apply IH]. Qed.

Lemma LastIndex_none s p : Contains s p = false → str_LastIndex s p = None.
Proof.
  induction s as [|c s IH]; cbn [Contains str_LastIndex]; intros [Hp Hc]%orb_false_iff.
  - by rewrite Hp.
  - by rewrite IH, Hp.
Qed.

Lemma LastIndex_app a c s p :
  HasPrefix (String c s) p = true → Contains s p = false →
  str_LastIndex (a +:+ String c s) p = Some (String.length a).
Proof.
  intros Hp Hc. induction a as [|d a IH].
  - change ("" +:+ String c s) with (String c s). cbn [str_LastIndex].
    by rewrite (LastIndex_none s p Hc), Hp.
  - change (String d a +:+ String c s) with (String d (a +:+ String c s)). cbn [str_LastIndex]. by rewrite IH.
Qed.

Lemma prefix_snoc p s c :
  HasPrefix (s +:+ String c "") p = true → no_byte c p = true → HasPrefix s p = true.
Proof.
  unfold HasPrefix. revert s. induction p as [|d p IH]; intros [|e s] Hp Hn; simpl in *; try done.
  - destruct (ascii_dec d c) as [->|]; [|done]. rewrite bool_decide_true in Hn by done. done.
  - destruct (ascii_dec d e); [|done]. apply IH; [done|]. by apply andb_prop in Hn as [_ ?].
Qed.

Lemma Contains_snoc s p c :
  no_byte c p = true → p ≠ "" → Contains s p = false → Contains (s +:+ String c "") p = false.
Proof.
  intros Hn Hne. induction s as [|d s IH]; cbn [Contains]; intros [Hp Hc]%orb_false_iff.
  - change ("" +:+ String c "") with (String c ""). destruct (Contains (String c "") p) eqn:E; [|done].
    cbn [Contains] in E. apply orb_prop in E as [E|E].
    + by rewrite (prefix_snoc p "" c) in Hp.
    + rewrite orb_false_r in E. by destruct p.
  - change (String d s +:+ String c "") with (String d (s +:+ String c "")). cbn [Contains].
    rewrite (IH Hc). apply orb_false_iff. split; [|done].
    destruct (HasPrefix (String d (s +:+ String c "")) p) eqn:E; [|done].
    by rewrite (prefix_snoc p (String d s) c) in Hp.
Qed.

(** A predicate that can be found again: not empty, without spaces around it or
    a semicolon at its end, and with no [WHERE] of its own as a word. *)
Definition plain_predicate (w : string) : Prop :=
  w ≠ "" ∧ TrimSpace w = w ∧ HasSuffix w ";" = false ∧ Contains (ToUpper (" " +:+ w)) " WHERE " = false.

Lemma extract_where pre w e :
  plain_predicate w → e = "" ∨ e = ";" → extractTrailingWhere (pre +:+ " WHERE " +:+ w +:+ e) = w.
Proof.
  intros (Hne&Ht&Hs&Hc) He. unfold extractTrailingWhere. rewrite !ToUpper_app.
  change (ToUpper " WHERE " +:+ ?x) with (String " " ("WHERE " +:+ x)).
  rewrite LastIndex_app.
  - unfold ToUpper. rewrite string_map_length, drop_str_add, drop_str_app.
    change (drop_str _ _) with (w +:+ e). destruct He as [->| ->]; [|by rewrite TrimSuffix_app].
    rewrite string_app_nil_r. unfold TrimSuffix. by rewrite Hs.
  - unfold HasPrefix. simpl. by destruct (ToUpper w +:+ ToUpper e).
  - destruct He as [->| ->].
    + change (ToUpper "") with "". rewrite string_app_nil_r. exact Hc.
    + pose proof (Contains_snoc _ " WHERE " ";" eq_refl ltac:(done) Hc) as Hn.
      rewrite ToUpper_app, string_app_assoc in Hn. exact Hn.
Qed.

(** What follows the beginning of the statement for an index. *)
Definition index_tail (t : string) (i : IndexInfo) : string :=
  ddl_quote "sqlite" (IdxName i) +:+ " ON " +:+ ddl_quote "sqlite" t +:+
  " (" +:+ Join (ddl_quote "sqlite" <$> IdxColumns i) ", " +:+ ")" +:+ " WHERE " +:+ IdxWhere i.

(** The text SQLite keeps of a statement: it may rewrite the beginning and drop
    the semicolon. *)
Definition stored_sql (t : string) (i : IndexInfo) (sql : string) : Prop :=
  ∃ head e, sql = head +:+ index_tail t i +:+ e ∧ (e = "" ∨ e = ";").

Lemma created_stored t i :
  IdxColumns i ≠ [] → IdxWhere i ≠ "" →
  stored_sql t i (generateCreateIndexSQL t (IdxName i) (IdxColumns i) (IdxUnique i) (IdxWhere i) "sqlite").
Proof.
  intros Hc Hw. unfold generateCreateIndexSQL. destruct (IdxColumns i) as [|c cols] eqn:Ec; [done|].
  destruct (String.eqb_spec (IdxWhere i) ""); [done|].
  exists ("CREATE" +:+ (if IdxUnique i then " UNIQUE" else "") +:+ " INDEX" +:+ " IF NOT EXISTS" +:+ " "), ";".
  split; [|by right]. unfold index_tail. by rewrite Ec, !string_app_assoc.
Qed.

(** The predicate of an index survives its statement. *)
Lemma extract_stored t i sql : plain_predicate (IdxWhere i) → stored_sql t i sql → extractTrailingWhere sql = IdxWhere i.
Proof.
  intros Hw (head&e&->&He). unfold index_tail.
  replace (head +:+ _) with
    ((head +:+ ddl_quote "sqlite" (IdxName i) +:+ " ON " +:+ ddl_quote "sqlite" t +:+
      " (" +:+ Join (ddl_quote "sqlite" <$> IdxColumns i) ", " +:+ ")") +:+ " WHERE " +:+ IdxWhere i +:+ e)
    by (by rewrite !string_app_assoc).
  by apply extract_where.
Qed.

(** ** A SQLite catalogue *)

Section sqlite.
Context {Q V : Type} `{SqlConn Q V}.

(** How values of the database stand for what is scanned. *)
Definition is_int (v : V) (z : Z) : Prop := q_Assign v (TInt WInt) = Some (VInt WInt z).
Definition is_string (v : V) (s : string) : Prop := q_Assign v TString = Some (VString s).
Definition is_null_string (v : V) (o : option string) : Prop :=
  match o with
  | None => q_IsNull v = true
  | Some s => q_IsNull v = false ∧ is_string v s
  end.

(** The rows of the pragmas: [table_info], [index_list], [index_info]. *)
Inductive column_row (c : ColumnInfo) : list V → Prop :=
  | column_row_intro cid n name ty notnull dflt pk z :
      is_int cid n → is_string name (ColName c) → is_string ty (DataType c) →
      is_int notnull (if IsNullable c then 0 else 1) → is_null_string dflt (ColDefault c) →
      is_int pk z → IsPrimary c = (0 <? z)%Z → IsUnique c = false →
      column_row c [cid; name; ty; notnull; dflt; pk].
Inductive index_row (i : IndexInfo) : list V → Prop :=
  | index_row_intro seq n name unique origin o partial :
      is_int seq n → is_string name (IdxName i) → is_int unique (if IdxUnique i then 1 else 0) →
      is_string origin o → is_int partial (if IdxWhere i =? "" then 0 else 1) →
      index_row i [seq; name; unique; origin; partial].
Inductive index_column_row (col : string) : list V → Prop :=
  | index_column_row_intro seqno n cid m name :
      is_int seqno n → is_int cid m → is_string name col → index_column_row col [seqno; cid; name].

(** A database whose table [t] has the given columns, and the given indexes,
    each made by the statement the migration executes for it ([created_stored]). *)
Record sqlite_catalogue (t : string) (cols : list ColumnInfo) (idxs : list IndexInfo) (q : Q) : Prop := {
  cat_columns : ∃ names rows, q_Query ("PRAGMA table_info(" +:+ t +:+ ")") [] q = (q, inl (MkRows names rows None)) ∧
    Forall2 column_row cols rows;
  cat_indexes : ∃ names rows, q_Query ("PRAGMA index_list(" +:+ t +:+ ")") [] q = (q, inl (MkRows names rows None)) ∧
    Forall2 index_row idxs rows;
  cat_index_columns i : i ∈ idxs →
    ∃ names rows e, q_Query ("PRAGMA index_info(" +:+ IdxName i +:+ ")") [] q = (q, inl (MkRows names rows e)) ∧
    Forall2 index_column_row (IdxColumns i) rows;
  cat_index_sql i : i ∈ idxs → IdxWhere i ≠ "" →
    ∃ v sql, q_QueryRow "SELECT sql FROM sqlite_master WHERE type = 'index' AND name = ?" [Some (VString (IdxName i))] q
             = (q, RowVals [v]) ∧ is_null_string v (Some sql) ∧ stored_sql t i sql
}.

(** An index the migration can have made. *)
Definition index_ok (i : IndexInfo) : Prop :=
  validIdentifier (IdxName i) = true ∧ autoindex (IdxName i) = false ∧ IdxColumns i ≠ [] ∧
  (IdxWhere i = "" ∨ plain_predicate (IdxWhere i)).

Lemma scan_string_ok v s : is_string v s → scan_string v = Ok s.
Proof. unfold scan_string. by intros ->. Qed.
Lemma scan_int_ok v z : is_int v z → scan_int v = Ok z.
Proof. unfold scan_int. by intros ->. Qed.
Lemma scan_NullString_ok v o : is_null_string v o → scan_NullString v = Ok o.
Proof.
  unfold scan_NullString. destruct o as [s|]; simpl; [intros [-> Hs]|by intros ->].
  by rewrite (scan_string_ok v s Hs).
Qed.

Ltac scans :=
  repeat match goal with
  | H : is_string ?v _ |- context [scan_string ?v] => rewrite (scan_string_ok _ _ H); simpl
  | H : is_int ?v _ |- context [scan_int ?v] => rewrite (scan_int_ok _ _ H); simpl
  | H : is_null_string ?v _ |- context [scan_NullString ?v] => rewrite (scan_NullString_ok _ _ H); simpl
  end.

Lemma sqlite_column_ok c row : column_row c row → sqlite_column row = Ok c.
Proof.
  destruct 1 as [cid n name ty notnull dflt pk z ? ? ? ? ? ? Hp Hu]. simpl. scans.
  destruct c as [? ? nullable ? ? ?]; simpl in *. subst. by destruct nullable.
Qed.

Lemma sqlite_index_row_ok i row :
  index_row i row → sqlite_index_row row = Ok (IdxName i, if IdxUnique i then 1%Z else 0%Z, if IdxWhere i =? "" then 0%Z else 1%Z).
Proof. destruct 1. simpl. by scans. Qed.

Lemma sqlite_index_column_ok col row : index_column_row col row → sqlite_index_column row = Ok col.
Proof. destruct 1. simpl. by scans. Qed.

Lemma scan_rows_ok {A} (R : A → list V → Prop) msg scan l rows :
  (∀ x row, R x row → scan row = Ok x) → Forall2 R l rows → scan_rows msg scan rows = Ok l.
Proof.
  intros Hs. induction 1 as [|x row l rows Hr _ IH]; simpl; [done|]. by rewrite (Hs x row Hr), IH.
Qed.

Lemma autoindex_own t n : autoindex n = false → n ≠ "sqlite_autoindex_" +:+ t +:+ "_1".
Proof. intros Ha ->. revert Ha. unfold autoindex, HasPrefix. by destruct t. Qed.

Lemma getIndexWhere_ok t cols idxs q i :
  sqlite_catalogue t cols idxs q → i ∈ idxs → index_ok i → IdxWhere i ≠ "" →
  getIndexWhere (IdxName i) q = (q, Ok (IdxWhere i)).
Proof.
  intros Hcat Hi (_&_&Hc&Hw) Hne. destruct (cat_index_sql _ _ _ _ Hcat i Hi Hne) as (v&sql&Hq&Hv&Hs).
  unfold getIndexWhere. rewrite Hq, (scan_NullString_ok _ _ Hv). f_equal. f_equal.
  apply (extract_stored t); [by destruct Hw|done].
Qed.

Lemma sqlite_index_ok t cols idxs q i row :
  sqlite_catalogue t cols idxs q → i ∈ idxs → index_ok i → index_row i row →
  sqlite_index t row q = (q, Ok (Some i)).
Proof.
  intros Hcat Hi Hok Hrow. destruct Hok as (Hv&Ha&Hc&Hw) eqn:E. clear E.
  unfold sqlite_index. rewrite (sqlite_index_row_ok i row Hrow).
  destruct (String.eqb_spec (IdxName i) ("sqlite_autoindex_" +:+ t +:+ "_1")) as [He|_];
    [by destruct (autoindex_own t _ Ha)|].
  rewrite Hv. cbn [negb]. destruct (cat_index_columns _ _ _ _ Hcat i Hi) as (names&rows&e&Hq&Hrows).
  unfold query_with. rewrite Hq. cbn [rows_data].
  rewrite (scan_rows_ok _ _ _ _ _ sqlite_index_column_ok Hrows). cbn [then_].
  destruct (String.eqb_spec (IdxWhere i) "") as [He|Hne].
  - destruct i as [n cs u w]; simpl in *. subst w. by destruct u.
  - change (1 =? 1)%Z with true.
    rewrite (getIndexWhere_ok t cols idxs q i Hcat Hi Hok Hne). cbn [then_].
    destruct i as [n cs u w]; simpl in *. by destruct u.
Qed.

Lemma sqlite_indexes_ok t cols idxs q l rows :
  sqlite_catalogue t cols idxs q → (∀ i, i ∈ l → i ∈ idxs ∧ index_ok i) → Forall2 index_row l rows →
  sqlite_indexes t rows q = (q, Ok l).
Proof.
  intros Hcat Hl Hrows. induction Hrows as [|i row l rows Hr _ IH]; simpl; [done|].
  destruct (Hl i (list_elem_of_here i l)) as [Hi Hok].
  rewrite (sqlite_index_ok t cols idxs q i row Hcat Hi Hok Hr). cbn [then_].
  rewrite IH; [done|]. intros j Hj. apply Hl. by right.
Qed.

(** The state of the catalogue's table. *)
Definition catalogue_state (cols : list ColumnInfo) (idxs : list IndexInfo) : table_state :=
  MkState (map_of_list ((λ c, (ColName c, (DataType c, IsPrimary c))) <$> cols))
    (map_of_list ((λ i, (IdxName i, i)) <$> idxs)).

Lemma mark_unique_key idxs (c : ColumnInfo) :
  (ColName (mark_unique idxs c), (DataType (mark_unique idxs c), IsPrimary (mark_unique idxs c)))
  = (ColName c, (DataType c, IsPrimary c)).
Proof. unfold mark_unique. by destruct (existsb _ _). Qed.

Lemma filter_true {A} (P : A → Prop) `{∀ x, Decision (P x)} (l : list A) : (∀ x, x ∈ l → P x) → filter P l = l.
Proof.
  induction l as [|x l IH]; intros Hl; [done|]. rewrite filter_cons_True by (apply Hl; by left).
  by rewrite IH by (intros y Hy; apply Hl; by right).
Qed.

Lemma catalogue_reports t cols idxs pk :
  (∀ i, i ∈ idxs → autoindex (IdxName i) = false) →
  reports (MkTable t (mark_unique idxs <$> cols) idxs pk) (catalogue_state cols idxs).
Proof.
  intros Ha. replace (catalogue_state cols idxs) with (state_of (MkTable t (mark_unique idxs <$> cols) idxs pk));
    [apply reports_state_of|].
  unfold state_of, catalogue_state, db_columns, map_of_list; simpl. f_equal.
  - rewrite <-map_of_list_fmap, fmap_empty, <-!list_fmap_compose. f_equal.
    apply list_fmap_ext. intros i c _. apply (mark_unique_key idxs c).
  - f_equal. f_equal. by apply filter_true.
Qed.

(** C25: the SQLite introspector reports the table as it is: on a catalogue that lists the
    columns of the table and whose indexes were made by the statements the migration generates,
    GetTableInfo returns the columns, the primary key and every index with its columns,
    uniqueness and predicate, the types as they were written. Assumed: the table has a valid
    identifier and at least one column, and each index has columns, a name that is a valid
    identifier and is not one SQLite keeps for itself, and a predicate, if any, without blanks
    around it, a semicolon at its end or a WHERE of its own as a word. *)
Theorem sqlite_introspection (t : string) (cols : list ColumnInfo) (idxs : list IndexInfo) (q : Q) :
  sqlite_catalogue t cols idxs q → validIdentifier t = true → cols ≠ [] → Forall index_ok idxs →
  ∃ info, sqlite_GetTableInfo t q = (q, Ok (Some info)) ∧
    TabName info = t ∧ TabIndexes info = idxs ∧ PrimaryKey info = pk_column cols ∧
    reports info (catalogue_state cols idxs).
Proof.
  intros Hcat Ht Hne Hok. exists (MkTable t (mark_unique idxs <$> cols) idxs (pk_column cols)).
  split; [|split_and!; [done..|apply catalogue_reports; intros i Hi; rewrite Forall_forall in Hok; by apply Hok]].
  unfold sqlite_GetTableInfo, query_with. rewrite Ht. cbn [negb].
  destruct (cat_columns _ _ _ _ Hcat) as (names&rows&Hq&Hrows). rewrite Hq. unfold read_rows. cbn [rows_data rows_Err].
  rewrite (scan_rows_ok _ _ _ _ _ sqlite_column_ok Hrows). cbn.
  destruct (cat_indexes _ _ _ _ Hcat) as (names'&rows'&Hq'&Hrows').
  destruct cols as [|c cols]; [done|]. rewrite Hq'. cbn [then_ rows_data rows_Err].
  rewrite (sqlite_indexes_ok t (c :: cols) idxs q idxs rows' Hcat); [done| |done].
  intros i Hi. rewrite Forall_forall in Hok. auto.
Qed.
End sqlite.
