(* ===== verification/Adapters.v ===== *)
(** * The database adapters and the package

    What an adapter tells the ORM besides executing its statements
    ([DialectName], [Builder], [DB]), the introspector factories that the driver
    packages register when they are loaded, and the result of an INSERT on
    PostgreSQL.  The migration finds the introspector and the type mapping of the
    configured adapter by the name of its dialect. *)

From S2P Require Import Prelude GoStrings GoValues Metadata SqlBuilder Invalidate Crud Schema Drivers Introspect.

Open Scope string_scope.

(** The driver packages. *)
Inductive driver := SQLite | MySQL | PostgreSQL.
#[export] Instance driver_eq_dec : EqDecision driver.
Proof. solve_decision. Defined.

Definition sqlite_DialectName : string := "sqlite".
Definition mysql_DialectName : string := "mysql".
Definition pg_DialectName : string := "postgres".
Definition DialectName (d : driver) : string :=
  match d with SQLite => sqlite_DialectName | MySQL => mysql_DialectName | PostgreSQL => pg_DialectName end.

(** [thing.NewSQLBuilder]: a builder is its dialect. *)
Definition NewSQLBuilder (d : Dialector) : Dialector := d.
Definition sqlite_Builder : Dialector := NewSQLBuilder SQLiteDialector.
Definition mysql_Builder : Dialector := NewSQLBuilder MySQLDialector.
Definition pg_Builder : Dialector := NewSQLBuilder PostgresDialector.
Definition Builder (d : driver) : Dialector :=
  match d with SQLite => sqlite_Builder | MySQL => mysql_Builder | PostgreSQL => pg_Builder end.

(** ** PostgreSQL's result of INSERT ... RETURNING id *)

Record pgResult := MkPgResult { lastInsertID : Z; rowsAffected : Z }.
Definition pgResult_LastInsertId (r : pgResult) : result Z := Ok (lastInsertID r).
Definition pgResult_LastInsertID (r : pgResult) : result Z := Ok (lastInsertID r).
Definition pgResult_RowsAffected (r : pgResult) : result Z := Ok (rowsAffected r).

Section adapters.
Context {Q V : Type} `{SqlConn Q V} (range : nat → ∀ A, gmap string A → list (string * A)).
Implicit Types (a : adapter Q) (e : migrate_env (D := adapter Q)).

(** [DB]: the connections, whether the adapter was closed or not. *)
Definition sqlite_DB a : Q := a_db a.
Definition mysql_DB a : Q := a_db a.
Definition pg_DB a : Q := a_db a.

(** An introspector made from [adapter.DB()]: it reads through the connections of
    the adapter, outside its transaction. *)
Definition introspect_on (db : adapter Q → Q) (info : string → Q → Q * result (option TableInfo)) : introspector (D := adapter Q) :=
  λ tableName a, let '(q, r) := info tableName (db a) in (MkAdapter q (a_closed a) (a_tx a), r).

Definition sqlite_factory : introspector := introspect_on sqlite_DB sqlite_GetTableInfo.
Definition mysql_factory : introspector := introspect_on mysql_DB (mysql_GetTableInfo (range 0)).
Definition pg_factory : introspector := introspect_on pg_DB pg_GetTableInfo.
Definition factory (d : driver) : introspector :=
  match d with SQLite => sqlite_factory | MySQL => mysql_factory | PostgreSQL => pg_factory end.

(** The [init] functions. *)
Definition sqlite_init e : migrate_env := RegisterIntrospectorFactory "sqlite" sqlite_factory e.
Definition mysql_init e : migrate_env := RegisterIntrospectorFactory "mysql" mysql_factory e.
Definition pg_init e : migrate_env := RegisterIntrospectorFactory "postgres" pg_factory e.
Definition init (d : driver) : migrate_env → migrate_env :=
  match d with SQLite => sqlite_init | MySQL => mysql_init | PostgreSQL => pg_init end.

(** The adapter of a driver, as the database of the ORM. *)
Definition driver_DBAdapter (d : driver) : list sfield → gostruct → DBAdapter (adapter Q) :=
  match d with SQLite => sqlite_DBAdapter | MySQL => mysql_DBAdapter | PostgreSQL => postgres_DBAdapter end.

(** The program loads the packages it imports, in an order of the linker's, and
    configures an adapter. *)
Definition loaded (imports : list driver) (allowDrop : bool) (configured : option driver) : migrate_env :=
  let e := foldl (λ e d, init d e) (MkMigrate None ∅ allowDrop) imports in
  MkMigrate (DialectName <$> configured) (introspectorFactories e) (AllowDropColumn e).

(** ** Properties *)

Lemma DialectName_inj d d' : DialectName d = DialectName d' → d = d'.
Proof. by destruct d, d'. Qed.

Lemma init_lookup d d' e :
  getIntrospectorFactory (init d e) (DialectName d') =
    if decide (d = d') then Some (factory d) else getIntrospectorFactory e (DialectName d').
Proof.
  unfold getIntrospectorFactory.
  assert (introspectorFactories (init d e) = <[DialectName d := factory d]> (introspectorFactories e)) as -> by by destruct d.
  destruct (decide (d = d')) as [->|Hne]; [apply lookup_insert_eq|]. apply lookup_insert_ne. intros E. by apply Hne, DialectName_inj.
Qed.

Lemma init_AllowDrop d e : AllowDropColumn (init d e) = AllowDropColumn e.
Proof. by destruct d. Qed.

Lemma inits_lookup imports e d :
  getIntrospectorFactory (foldl (λ e d, init d e) e imports) (DialectName d) =
    if decide (d ∈ imports) then Some (factory d) else getIntrospectorFactory e (DialectName d).
Proof.
  revert e. induction imports as [|d' imports IH]; intros e; cbn [foldl]; [done|]. rewrite IH, init_lookup.
  destruct (decide (d ∈ imports)) as [Hin|Hin], (decide (d ∈ d' :: imports)) as [Hc|Hc], (decide (d' = d)) as [->|Hne]; try done;
    rewrite ?elem_of_cons in Hc; naive_solver.
Qed.

Lemma inits_AllowDrop imports e : AllowDropColumn (foldl (λ e d, init d e) e imports) = AllowDropColumn e.
Proof. revert e. induction imports as [|d imports IH]; intros e; cbn [foldl]; [done|]. by rewrite IH, init_AllowDrop. Qed.

(** What a migration of one model does when the introspector finds no table. *)
Lemma migrate_one_new `{!DBAdapter (adapter Q)} imports allowDrop d info a a1 sql :
  d ∈ imports → factory d (TableName info) a = (a1, Ok None) → GenerateCreateTableSQL info (DialectName d) = Ok sql →
  migrate_one range (loaded imports allowDrop (Some d)) (DialectName d) info a =
    (let '(a2, r) := db_Exec sql [] a1 in
     (a2, match r with
          | Ok _ => Ok ()
          | Err x => Err (ErrWrap "AutoMigrate: failed to execute CREATE TABLE SQL" x)
          | Panic p => Panic p
          end)).
Proof.
  intros Hd Hf Hsql. unfold migrate_one, introspectTable.
  change (getIntrospectorFactory (loaded imports allowDrop (Some d)) (DialectName d)) with
    (getIntrospectorFactory (foldl (λ e d, init d e) (MkMigrate None ∅ allowDrop) imports) (DialectName d)).
  rewrite inits_lookup, decide_True by done. rewrite Hf. cbn [ConvertTableInfo]. by rewrite Hsql.
Qed.

(** C26: when the driver packages of a program have been loaded, in any order: the migration of
    a configured adapter reads the catalogue with the introspector of that adapter's own driver
    and no other, a type mapping exists for its dialect, a table that the introspector does not
    find is created by the statement generated for that dialect, sent to the adapter; without
    the package of the configured driver, or without a configured adapter, the migration fails
    and the database is not touched. *)
Theorem drivers_registered `{!DBAdapter (adapter Q)} imports allowDrop d info a :
  (d ∈ imports →
     is_Some (TypeMapping (DialectName d)) ∧
     (∀ t, introspectTable (loaded imports allowDrop (Some d)) t (DialectName d) a = factory d t a) ∧
     (∀ a1 sql, factory d (TableName info) a = (a1, Ok None) → GenerateCreateTableSQL info (DialectName d) = Ok sql →
        let r := AutoMigrate range (loaded imports allowDrop (Some d)) [Ok info] a in
        r.1 = (db_Exec sql [] a1).1 ∧ (r.2 = Ok () ↔ is_Ok (db_Exec sql [] a1).2 = true))) ∧
  (d ∉ imports → ∃ x, AutoMigrate range (loaded imports allowDrop (Some d)) [Ok info] a = (a, Err x)) ∧
  (∃ x, AutoMigrate range (loaded imports allowDrop None) [Ok info] a = (a, Err x)).
Proof.
  assert (Hlook : introspectorFactories (loaded imports allowDrop (Some d)) !! DialectName d =
    if decide (d ∈ imports) then Some (factory d) else None).
  { etransitivity; [apply (inits_lookup imports (MkMigrate None ∅ allowDrop) d)|]. done. }
  split_and!; [|intros Hd; rewrite decide_False in Hlook by done|by eexists].
  - intros Hd. rewrite decide_True in Hlook by done. split_and!; [by destruct d; eexists| |].
    + intros t. unfold introspectTable, getIntrospectorFactory. by rewrite Hlook.
    + intros a1 sql Hf Hsql. cbv zeta. unfold AutoMigrate. change (global_dialect _) with (Some (DialectName d)).
      cbn [migrate_models]. rewrite (migrate_one_new imports allowDrop d info a a1 sql Hd Hf Hsql).
      by destruct (db_Exec sql [] a1) as [a2 [| |]].
  - eexists. unfold AutoMigrate. change (global_dialect _) with (Some (DialectName d)).
    cbn [migrate_models]. unfold migrate_one, introspectTable, getIntrospectorFactory. by rewrite Hlook.
Qed.

(** The result of an INSERT on PostgreSQL is a [pgResult] of one row. *)
Lemma pg_insert_result name query rebound args (q q' : Q) res :
  is_insert query = true → pg_exec name query rebound args q = (q', Ok res) →
  ∃ r, rowsAffected r = 1%Z ∧ LastInsertId res = pgResult_LastInsertId r ∧ Ok (RowsAffected res) = pgResult_RowsAffected r.
Proof.
  intros Hi. unfold pg_exec. rewrite Hi. destruct (q_QueryRow _ _ _) as [q1 [|x|row]]; try done.
  destruct (scan_int64 row) as [n| |]; [|done..]. intros [= <- <-]. by exists (MkPgResult n 1).
Qed.
End adapters.
