(* ===== verification/TableOps.v ===== *)
(** * Record operations on a table

    [FindChangedFieldsSimple] finds the columns an update has to write.  Over a
    database that executes the statements of the ORM ([writes_ok]), in a coherent
    world, [Save] of a new value is the insertion of a row, [Save] of a stored one
    its replacement, and [Delete] its removal: each returns without error and
    leaves a coherent world. *)

From S2P Require Import Prelude GoStrings GoStringsFacts GoValues GoValuesFacts Predicate QueryMatch QueryMatchFacts.
From S2P Require Import CacheIndex CacheIndexFacts Metadata LocalCache CacheClient LocalCacheFacts.
From S2P Require Import Invalidate InvalidateFacts MetadataFacts Freshness SqlBuilder Hooks Crud CrudFacts.
From S2P Require Import WriteFacts Query QueryFacts LocalQuery Coherence CoherenceFacts CoherenceBatch CoherenceRuns DriversFacts.

Open Scope string_scope.

(** ** Changed fields *)

(** A field that is looked at, with its two values. *)
Definition diff_field (pk : string) (original updated : gostruct) (f : ComparableFieldInfo) (o u : goval) : Prop :=
  IgnoreInDiff f = false ∧ DBColumn f ≠ pk ∧ field_in_range f original = true ∧ field_in_range f updated = true ∧
  FieldByIndex original (Index f) = Some o ∧ FieldByIndex updated (Index f) = Some u.

Lemma find_changed_sound pk fs original updated changed c v :
  FindChangedFieldsSimple pk fs original updated = Ok changed → changed !! c = Some v →
  ∃ f o u, f ∈ fs ∧ DBColumn f = c ∧ diff_field pk original updated f o u ∧
    DeepEqual (value_Interface o) (value_Interface u) = false ∧ v = value_Interface u.
Proof.
  revert changed. induction fs as [|f fs IH]; intros changed; cbn [FindChangedFieldsSimple]; [by intros [= <-]|].
  destruct (_ || _) eqn:E; [intros Hf Hc; destruct (IH _ Hf Hc) as (g&o&u&?&?); exists g, o, u; split; [by right|done]|].
  rewrite !orb_false_iff, !negb_false_iff, String.eqb_neq in E. destruct E as [[[? ?] ?] ?].
  destruct (FieldByIndex original (Index f)) as [o|] eqn:Ho, (FieldByIndex updated (Index f)) as [u|] eqn:Hu; try done.
  destruct (FindChangedFieldsSimple pk fs original updated) as [ch| |] eqn:Hr; [|done..]. cbn [mbind result_bind].
  assert (Hold : ch !! c = Some v → ∃ g o u, g ∈ f :: fs ∧ DBColumn g = c ∧ diff_field pk original updated g o u ∧
    DeepEqual (value_Interface o) (value_Interface u) = false ∧ v = value_Interface u).
  { intros Hc. destruct (IH _ eq_refl Hc) as (g&o'&u'&?&?). exists g, o', u'. split; [by right|done]. }
  intros [= <-]. destruct (DeepEqual _ _) eqn:Hd; [done|]. destruct (bool_decide _); [done|].
  rewrite lookup_insert_Some. intros [[<- <-]|[_ Hc]]; [|by apply Hold]. exists f, o, u. split; [by left|done].
Qed.

Lemma find_changed_complete pk fs original updated changed f o u :
  NoDup (DBColumn <$> fs) → FindChangedFieldsSimple pk fs original updated = Ok changed → f ∈ fs →
  diff_field pk original updated f o u →
  changed !! DBColumn f =
    if DeepEqual (value_Interface o) (value_Interface u) then None else Some (value_Interface u).
Proof.
  intros Hnd Hf Hin Hdf. destruct (changed !! DBColumn f) as [v|] eqn:Hc.
  - destruct (find_changed_sound _ _ _ _ _ _ _ Hf Hc) as (g&o'&u'&Hg&Hcol&Hdg&Hne&->).
    assert (g = f) as -> by (eapply NoDup_fmap_inj_on; eauto).
    destruct Hdf as (_&_&_&_&Ho&Hu), Hdg as (_&_&_&_&Ho'&Hu'). simplify_eq. by rewrite Hne.
  - destruct (DeepEqual _ _) eqn:Hd; [done|exfalso]. clear Hnd. revert changed Hf Hc.
    induction Hin as [f fs|f g fs Hin IH]; intros changed; cbn [FindChangedFieldsSimple].
    + destruct Hdf as (H1&H2%String.eqb_neq&H3&H4&Ho&Hu). rewrite H1, H2, H3, H4, Ho, Hu. cbn [orb negb].
      destruct (FindChangedFieldsSimple _ _ _ _) as [ch| |]; [|done..]. cbn [mbind result_bind]. rewrite Hd.
      intros [= <-]. case_bool_decide as Hs; [|by rewrite lookup_insert_eq]. intros Hn. rewrite Hn in Hs. by destruct Hs.
    + destruct (_ || _); [by apply IH|].
      destruct (FieldByIndex original (Index g)), (FieldByIndex updated (Index g)); try done.
      destruct (FindChangedFieldsSimple _ _ _ _) as [ch| |]; [|done..]. cbn [mbind result_bind].
      specialize (IH Hdf ch eq_refl).
      intros [= <-]. repeat case_match; [done..|]. intros [Hn _]%lookup_insert_None. by apply IH.
Qed.

Lemma find_changed_total pk fs original updated :
  (∀ f, f ∈ fs → IgnoreInDiff f = false →
     is_Some (FieldByIndex original (Index f)) ∧ is_Some (FieldByIndex updated (Index f))) →
  ∃ changed, FindChangedFieldsSimple pk fs original updated = Ok changed.
Proof.
  induction fs as [|f fs IH]; intros Hall; cbn [FindChangedFieldsSimple]; [by eexists|].
  destruct IH as [ch ->]; [intros g Hg; apply Hall; by right|].
  destruct (IgnoreInDiff f) eqn:E; [by eexists|]. destruct (Hall f) as [[o ->] [u ->]]; [by left|done|].
  destruct (_ || _); by eexists.
Qed.

(** C14: for a model type of plain fields, with the metadata computed from it: the change
    detection of an update returns, and the map it returns has exactly the columns other than
    the primary key that are not excluded by a tag and whose values differ in the two models,
    each with its new value. *)
Theorem FindChangedFields_exact typeName mm fs info original updated :
  forallb simple_field fs = true → NoDup (all_names fs) → GetCachedModelInfo typeName mm fs = Ok info →
  NoDup (Columns info) → has_type original fs → has_type updated fs →
  ∃ changed, FindChangedFieldsSimple (PkName info) (CompareFields info) original updated = Ok changed ∧
    (∀ f o u, f ∈ compared info → DBColumn f ≠ PkName info →
       FieldByName original (GoName f) = Some o → FieldByName updated (GoName f) = Some u →
       changed !! DBColumn f =
         if DeepEqual (value_Interface o) (value_Interface u) then None else Some (value_Interface u)) ∧
    (∀ c, is_Some (changed !! c) → c ∈ columns_of info ∧ c ≠ PkName info).
Proof.
  intros Hs Hn Hi Hc Ho Hu.
  pose proof (metadata_describes_lemma typeName mm fs info original Hs Hn Ho Hi Hc) as Do.
  pose proof (metadata_describes_lemma typeName mm fs info updated Hs Hn Hu Hi Hc) as Du.
  destruct (find_changed_total (PkName info) (CompareFields info) original updated) as [ch Hch].
  { intros f Hf Hig. assert (f ∈ compared info) as Hf' by by apply elem_compared.
    destruct (Do f Hf') as (_&_&_&v&Hv&_), (Du f Hf') as (_&_&_&v'&Hv'&_). eauto. }
  exists ch. split_and!; [done| |].
  - intros f o u Hf Hpk Hof Huf. pose proof Hf as [Hin Hig]%elem_compared.
    destruct (Do f Hf) as (R1&_&_&v&Hv&Hvn), (Du f Hf) as (R2&_&_&v'&Hv'&Hvn'). simplify_eq.
    eapply find_changed_complete; [|exact Hch|done|done]. by rewrite <-(info_columns typeName mm fs).
  - intros c [v Hv]. destruct (find_changed_sound _ _ _ _ _ _ _ Hch Hv) as (f&o&u&Hf&<-&(Hig&Hpk&_)&_).
    split; [|done]. unfold columns_of. apply elem_of_list_to_set, list_elem_of_fmap_2. by apply elem_compared.
Qed.

(** ** Operations of a table *)

Section table.
Context `{GoPlatform} `{Gob} `{ModelOps} `{QueryEnv} {D : Type} `{DBAdapter D}.
Context (typeName : string) (mm : model_methods) (fs : list sfield).
Context (info : ModelInfo) (zero : gostruct) (ttl : Z) (reg : registry).
Context (queries : QueryParams → Prop) (db_ok : gmap Z gostruct → D → Prop).
Context (answer : QueryParams → gmap Z gostruct → list Z) (updates : list (list string)).
Notation lworld := (world local_client D).
Notation row_ok := (row_ok fs info zero).
Notation rows_ok := (rows_ok fs info zero).
Notation coherent := (coherent fs info zero queries db_ok answer).
Notation stored m := (setNewRecordFlagIfBaseModel false m).
Implicit Types (rows : gmap Z gostruct) (w : lworld).

(** What an update leaves of a row: the columns it names are those of the model,
    the others are the same in both. *)
Definition writes_columns (cols : list (string * option goval)) (m r : gostruct) : Prop :=
  ∀ c, c ∈ Columns info → c ≠ PkName info →
    match (list_to_map cols : gmap string (option goval)) !! c with
    | Some v => value_Interface <$> column_value m (ColumnToFieldMap info) c = Some v
    | None => column_value m (ColumnToFieldMap info) c = column_value r (ColumnToFieldMap info) c
    end.

(** The database executes the statements of the ORM: an INSERT stores the row
    under a new positive id and returns it, an UPDATE of one of the lists of
    columns replaces the row, a DELETE removes it. *)
Record writes_ok : Prop := {
  wo_insert now m rows d : rows_ok rows → db_ok rows d → has_type m fs →
    ∃ id n d', db_Exec (BuildInsertSQL (TableName info) (insert_row info now m).*1) (insert_row info now m).*2 d
                 = (d', Ok (MkExec (Ok id) n)) ∧
      (0 < id)%Z ∧ rows !! id = None ∧ db_ok (<[id := stored (SetID id m)]> rows) d';
  wo_update m r cols rows d : rows_ok rows → db_ok rows d → has_type m fs → rows !! GetID m = Some r →
    cols.*1 ∈ updates → writes_columns cols m r →
    ∃ res d', db_Exec (BuildUpdateSQL (TableName info) ((λ c, c +:+ " = ?") <$> cols.*1) (PkName info))
                (cols.*2 ++ [Some (VInt W64 (GetID m))])%list d = (d', Ok res) ∧
      db_ok (<[GetID m := stored m]> rows) d';
  wo_delete id r rows d : rows_ok rows → db_ok rows d → rows !! id = Some r →
    ∃ x n d', db_Exec (BuildDeleteSQL (TableName info) (PkName info)) [Some (VInt W64 id)] d
                = (d', Ok (MkExec x n)) ∧ n ≠ 0%Z ∧ db_ok (delete id rows) d'
}.

Context (Hmodel : model_ok typeName mm fs info) (Hqueries : queries_ok fs info queries).
Context (Hdb : database_ok fs info zero queries db_ok answer) (Hwr : writes_ok).

(** A save that was applied hands the listeners the stored value. *)
Lemma Save_value now value w w1 mu :
  saveWithExecutor info zero ttl reg now value false w = (w1, mu, Ok ()) → mu_applied mu = true →
  (Save info zero ttl reg now value w).2 = Ok () →
  (Save info zero ttl reg now value w).1.2 = after_save_hooks reg (mu_isNew mu) (mu_value mu).
Proof.
  intros Hs Ha. unfold Save, saveInternal. rewrite Hs. unfold finalizeSave. rewrite Ha. cbn [negb].
  destruct (WithLock _ _ w1) as [w2 [| |]]; [| |done]; by destruct (invalidateAffectedQueryCaches _ _ _ _ _ w2) as [w3 [| |]].
Qed.

(** A new value, past its listeners and with its times, is one to insert as [m]. *)
Record inserts (now : goval) (value m : gostruct) : Prop := {
  in_new : GetID value = 0%Z;
  in_hooks : ∃ v1 v2, triggerEvent reg "BeforeSave" (setNewRecordFlagIfBaseModel true value) = (v1, None) ∧
    triggerEvent reg "BeforeCreate" v1 = (v2, None) ∧ m = setUpdatedAtTimestamp now (setCreatedAtTimestamp now v2);
  in_type : has_type m fs;
  in_id : is_Some (FieldByName m "ID");
  in_columns : insert_row info now m ≠ [];
  in_row id : (0 < id)%Z → row_ok (stored (SetID id m)) ∧ GetID (stored (SetID id m)) = id
}.

Lemma Save_inserts now value m rows w : coherent rows w → inserts now value m →
  ∃ id w', (0 < id)%Z ∧ rows !! id = None ∧
    Save info zero ttl reg now value w = (w', after_save_hooks reg true (stored (SetID id m)), Ok ()) ∧
    coherent (<[id := stored (SetID id m)]> rows) w'.
Proof.
  intros Hc [Hz (v1&v2&He1&He2&Hm) Hty [x Hx] Hne Hrow].
  destruct (wo_insert Hwr now m rows (w_db w)) as (id&n&d'&Hex&Hid&Hfresh&Hd'); [apply Hc|apply Hc|done|].
  destruct (Hrow id Hid) as [Hr Hg].
  assert (Hs : saveWithExecutor info zero ttl reg now value false w =
    (MkWorld (w_cache w) (w_index w) d', MkMutation (stored (SetID id m)) None true ∅ true, Ok ())).
  { unfold saveWithExecutor. rewrite Hz. cbn [Z.eqb]. rewrite He1, He2. unfold save_create. cbv zeta. rewrite <-Hm.
    rewrite bool_decide_false by done. unfold on_db. rewrite Hex. cbn [LastInsertId]. unfold after_exec. by rewrite Hx. }
  destruct (coherent_Save typeName mm fs info zero ttl reg queries db_ok answer Hmodel Hqueries Hdb now value rows w _ _ Hc Hs)
    as [Hok Hc']; cbn [mu_value mu_applied mu_isNew w_db] in *; rewrite ?Hg; try done; [lia|].
  pose proof (Save_value _ _ _ _ _ Hs eq_refl Hok) as Hv. cbn [mu_value mu_isNew] in Hv. rewrite Hg in Hc'.
  destruct (Save info zero ttl reg now value w) as [[w' v'] r']. cbn [fst snd] in *. subst. eauto 10.
Qed.

(** A value of the stored row [r] that differs from it is one to store as [m], by
    an update of the columns [cols]. *)
Record replaces (now : goval) (value m r : gostruct) (cols : list (string * option goval)) : Prop := {
  re_id : (0 < GetID value)%Z;
  re_keep : KeepItem r = true;
  re_hooks : ∃ v1 changed, triggerEvent reg "BeforeSave" (stored value) = (v1, None) ∧
    m = setUpdatedAtTimestamp now v1 ∧
    FindChangedFieldsSimple (PkName info) (CompareFields info) r v1 = Ok changed ∧
    let updatedAt := FieldToColumnMap info !! "UpdatedAt" in
    let changed := match updatedAt with Some c => delete c changed | None => changed end in
    changed ≠ ∅ ∧
    cols = map_to_list (match updatedAt, FieldByName m "UpdatedAt" with
                        | Some c, Some v => <[c := value_Interface v]> changed
                        | _, _ => changed
                        end);
  re_type : has_type m fs;
  re_field : is_Some (FieldByName m "ID");
  re_same : GetID m = GetID value;
  re_update : cols.*1 ∈ updates;
  re_columns : writes_columns cols m r;
  re_row : row_ok (stored m);
  re_stored : GetID (stored m) = GetID value
}.

Lemma Save_updates now value m r cols rows w :
  coherent rows w → rows !! GetID value = Some r → replaces now value m r cols →
  ∃ w', Save info zero ttl reg now value w = (w', after_save_hooks reg false (stored m), Ok ()) ∧
    coherent (<[GetID value := stored m]> rows) w'.
Proof.
  intros Hc Hr [Hpos Hk (v1&changed&He&Hm&Hch&Hne&Hcols) Hty [x Hx] Hgm Hin Hwc Hrow Hg]. cbv zeta in *.
  destruct (coherent_byID typeName mm fs info zero ttl queries db_ok answer Hmodel Hqueries Hdb (GetID value) rows w Hpos Hc) as [Hcr Hread].
  destruct (byIDInternal info zero ttl (GetID value) w) as [w0 r0] eqn:Hby. cbn [fst snd] in *. rewrite Hr in Hread. subst r0.
  destruct (wo_update Hwr m r cols rows (w_db w0)) as (res&d'&Hex&Hd'); [apply Hcr|apply Hcr|done|by rewrite Hgm|done|done|].
  assert (Hs : ∃ ch, saveWithExecutor info zero ttl reg now value false w =
    (MkWorld (w_cache w0) (w_index w0) d', MkMutation (stored m) (Some r) false ch true, Ok ())).
  { unfold saveWithExecutor. destruct (Z.eqb_spec (GetID value) 0); [lia|]. rewrite He. unfold save_update. rewrite Hby, Hch.
    cbv zeta. rewrite decide_False by done. rewrite <-Hm, <-Hcols, <-Hgm.
    unfold on_db. rewrite Hex. unfold after_exec. rewrite Hx. eauto. }
  destruct Hs as [ch Hs].
  destruct (coherent_Save typeName mm fs info zero ttl reg queries db_ok answer Hmodel Hqueries Hdb now value rows w _ _ Hc Hs)
    as [Hok Hc']; cbn [mu_value mu_applied mu_isNew w_db] in *; rewrite ?Hg; try done; [lia|eauto|by rewrite <-Hgm|].
  pose proof (Save_value _ _ _ _ _ Hs eq_refl Hok) as Hv. cbn [mu_value mu_isNew] in Hv. rewrite Hg in Hc'.
  destruct (Save info zero ttl reg now value w) as [[w' v'] r']. cbn [fst snd] in *. subst. eauto.
Qed.

(** Under the lock the row goes, and with it every entry that has it. *)
Lemma delete_action_ok value r rows w :
  entries_right info queries answer rows (w_cache w) → tracked info queries (w_cache w) (w_index w) →
  rows_ok rows → db_ok rows (w_db w) → rows !! GetID value = Some r → has_type value fs → seen_alike info queries value r →
  (delete_action info (GetID value) value w).2 = Ok () ∧
  db_ok (delete (GetID value) rows) (w_db (delete_action info (GetID value) value w).1).
Proof.
  intros He Ht Hrows Hd Hr Hty Hseen. destruct (wo_delete Hwr (GetID value) r rows (w_db w) Hrows Hd Hr) as (x&n&d'&Hex&Hn&Hd').
  unfold delete_action, delete_row, on_db. rewrite Hex. cbn [RowsAffected].
  set (w1 := MkWorld (w_cache w) (w_index w) d').
  destruct (delete_entry w1 (model_key info (GetID value))) as (_&Hr2&_&Hd2).
  destruct (delete_invalidated typeName mm fs info zero queries db_ok answer Hmodel Hqueries Hdb rows value r w1 He Ht Hrows Hr Hty Hseen)
    as [Hok _]. cbv zeta in *. destruct (on_cache _ w1) as [w2 r2]. cbn [fst snd] in *. subst r2.
  destruct (Z.eqb_spec n 0); [done|].
  destruct (shrinks_invalidate info value (Some value) false true w2) as (_&_&Hd3).
  destruct (invalidateAffectedQueryCaches _ _ _ _ _ w2) as [w3 r3]. cbn [fst snd] in *. subst r3. by rewrite Hd3, Hd2.
Qed.

(** A value that the queries match as they match the row is one to delete. *)
Record removes (value v1 r : gostruct) : Prop := {
  rm_id : GetID value ≠ 0%Z;
  rm_hooks : triggerEvent reg "BeforeDelete" value = (v1, None);
  rm_same : GetID v1 = GetID value;
  rm_type : has_type v1 fs;
  rm_seen : seen_alike info queries v1 r
}.

Lemma Delete_removes value v1 r rows w :
  coherent rows w → rows !! GetID value = Some r → removes value v1 r →
  ∃ w', Delete_ info reg value w = (w', (triggerEvent reg "AfterDelete" v1).1, Ok ()) ∧
    coherent (delete (GetID value) rows) w'.
Proof.
  intros Hc Hr [Hnz He Hid Hty Hseen]. pose proof Hc as [Hrows Hd Hent Htr Hu].
  destruct (WithLock_cases (lock_key (model_key info (GetID value))) (delete_action info (GetID value) v1) w)
    as [(_&_&Hn)|(w1&Hs1&Hres&Hs2)]; [destruct Hn; apply acquire_loop_free; apply Hu|].
  destruct (delete_action_ok v1 r rows w1) as [Hok Hd1]; rewrite ?Hid; try done.
  { intros p Hp k v. rewrite (se_store _ _ Hs1). by apply Hent. }
  { rewrite (se_index _ _ Hs1). eapply tracked_same_store; [apply Hs1|done]. }
  { by rewrite (se_db _ _ Hs1). }
  rewrite Hid in Hok, Hd1.
  assert (Hdel : (Delete_ info reg value w).2 = Ok () ∧ (Delete_ info reg value w).1.2 = (triggerEvent reg "AfterDelete" v1).1 ∧
    db_ok (delete (GetID value) rows) (w_db (Delete_ info reg value w).1.1)).
  { unfold Delete_, deleteInternal. destruct (Z.eqb_spec (GetID value) 0); [done|]. rewrite He.
    rewrite Hok in Hres. destruct (WithLock _ _ w) as [w2 r2]. cbn [fst snd] in *. subst r2.
    cbn [fst snd]. by rewrite (se_db _ _ Hs2). }
  destruct Hdel as (Hres'&Hv&Hd'). pose proof (coherent_Delete typeName mm fs info zero reg queries db_ok answer Hmodel Hqueries Hdb
    rows value w _ Hc (del_done _ _ _ _ _ _ _ _ v1 r He Hid Hty Hr Hseen Hres' Hd')) as Hc'.
  unfold Delete_ in *. destruct (deleteInternal info reg value w) as [[w' v'] r']. cbn [fst snd] in *. subst. eauto.
Qed.

End table.
