(* ===== verification/Demos.v ===== *)
(** * The example programs (examples/01_basic_crud, 04_hooks, 05_relationships)

    The three programs of the repository, written over the models of the
    operations they call.  A program has a state, prints lines and ends: by
    returning, by [log.Fatal] or by a panic.  Adapters and caches that a program
    opens are its inputs; what its listeners print, what it prints before it has
    a result, and the deferred [Close] calls are left out. *)

From S2P Require Import Prelude GoStrings GoValues Predicate QueryMatch CacheIndex Metadata LocalCache CacheClient.
From S2P Require Import Invalidate SqlBuilder Hooks Crud Query Config Schema.

Open Scope string_scope.

(** ** Programs *)

Inductive line :=
  | Text (s : string)
  | Shown (s : string) (ms : list gostruct)
  | Failed (s : string) (e : goerr).

Inductive ending (A : Type) :=
  | Going (a : A)
  | Fatal (s : string) (e : goerr)
  | Crashed (m : string).
Arguments Going {A} a.
Arguments Fatal {A} s e.
Arguments Crashed {A} m.

Definition prog (S A : Type) : Type := S → S * list line * ending A.

#[export] Instance prog_ret S : MRet (prog S) := λ A a s, (s, [], Going a).
#[export] Instance prog_bind S : MBind (prog S) := λ A B f m s,
  match m s with
  | (s, out, Going a) => let '(s, out', e) := f a s in (s, (out ++ out')%list, e)
  | (s, out, Fatal x e) => (s, out, Fatal x e)
  | (s, out, Crashed x) => (s, out, Crashed x)
  end.

Section prog.
Context {S : Type}.

Definition print (l : line) : prog S unit := λ s, (s, [l], Going ()).
Definition get : prog S S := λ s, (s, [], Going s).
(** [if err != nil { log.Fatal(err) }]. *)
Definition must {A} (msg : string) (r : result A) : prog S A := λ s,
  (s, [], match r with Ok a => Going a | Err e => Fatal msg e | Panic m => Crashed m end).
(** An error that is looked at and not fatal, or ignored. *)
Definition try_ {A} (r : result A) : prog S (option goerr) := λ s,
  (s, [], match r with Ok _ => Going None | Err e => Going (Some e) | Panic m => Crashed m end).
End prog.

(** ** Types *)

Definition BaseModel_fields : list sfield :=
  [SField "ID" (TInt W64) "id,pk" ""; SField "CreatedAt" TTime "created_at" "";
   SField "UpdatedAt" TTime "updated_at" ""; SField "Deleted" TBool "deleted" "";
   SField "isNewRecord" TBool "-" ""].

(** A type of the examples: it embeds [BaseModel] and declares no methods. *)
Definition model_type (fs : list sfield) : list sfield := SEmbed "BaseModel" "BaseModel" BaseModel_fields :: fs.
Definition no_methods : model_methods := MkMethods "" [] false false.

(** [BaseModel]'s zero value in a composite literal. *)
Definition zero_time : goval := VTime 0 0.
Definition new_base : gofield :=
  FEmbed "BaseModel" [FVal "ID" (VInt W64 0); FVal "CreatedAt" zero_time; FVal "UpdatedAt" zero_time;
                      FVal "Deleted" (VBool false); FVal "isNewRecord" (VBool false)].

(** ** 01_basic_crud *)

Definition basic_User_type : list sfield := model_type [SField "Name" TString "name" ""; SField "Age" (TInt WInt) "age" ""].
Definition basic_User (name : string) (age : Z) : gostruct := [new_base; FVal "Name" (VString name); FVal "Age" (VInt WInt age)].
Definition basic_zero : gostruct := basic_User "" 0.

Section basic_crud.
Context `{GoPlatform} `{QueryEnv} {C D X : Type} `{CacheClient C} `{DBAdapter D}.
#[local] Existing Instance BaseModelOps.

(** Handles of adapters and caches, the dialect of an adapter, the process's
    local cache and background context, the order of map iterations and the
    registered introspectors. *)
Context {DH CH : Type} (dialect_of : DH → string) (DefaultLocalCache : CH) (Background : X).
Context (range : nat → ∀ A, gmap string A → list (string * A)) (factories : gmap string (introspector (D := D))).
Context (reg : registry) (clock : nat → goval).

(** The package variables, and the world of the configured adapters. *)
Record package := MkPackage { pk_globals : @globals DH CH; pk_world : world C D }.

Definition on_world {A} (f : world C D → world C D * A) : prog package A := λ s,
  let '(w, a) := f (pk_world s) in (MkPackage (pk_globals s) w, [], Going a).

(** [thing.Configure]; its error is not looked at. *)
Definition configure (now : Z) (args : list any) : prog package unit := λ s,
  (MkPackage (Configure DefaultLocalCache now args (pk_globals s)).1 (pk_world s), [], Going ()).

Definition migrate (models : list (result ModelInfo)) : prog package (result unit) :=
  s ← get;
  on_world (on_db (AutoMigrate range
    (MkMigrate (dialect_of <$> GlobalDB (pk_globals s)) factories false) models)).

Definition save (info : ModelInfo) (zero : gostruct) (now : goval) (value : gostruct)
    : prog package (gostruct * result unit) :=
  s ← get;
  on_world (λ w, let '(w, value, r) := Save info zero (getGlobalCacheTTL (pk_globals s)) reg now value w in (w, (value, r))).

Definition by_id (info : ModelInfo) (zero : gostruct) (id : Z) : prog package (result gostruct) :=
  s ← get; on_world (ByID info zero (getGlobalCacheTTL (pk_globals s)) id).

(** [result.Fetch]; its loop returns on every input ([Fetch_returns]). *)
Definition fetch (info : ModelInfo) (zero : gostruct) (p : QueryParams) (offset limit : Z)
    : prog package (result (list gostruct)) :=
  s ← get;
  on_world (λ w, let '(w, _, r) := Fetch info zero (getGlobalCacheTTL (pk_globals s)) (Query p) offset limit w in
                 (w, default (Panic "unreachable") r)).

Definition remove_ (info : ModelInfo) (value : gostruct) : prog package (result unit) :=
  on_world (λ w, let '(w, _, r) := Delete_ info reg value w in (w, r)).

Definition all_params : QueryParams := MkQueryParams "" [] "" [] false.

(** After the migration. *)
Definition basic_crud_body : prog package unit :=
  s ← get;
  users ← must "" (Use DefaultLocalCache Background "User" no_methods basic_User_type (pk_globals s));
  let info := t_info users in
  ur ← save info basic_zero (clock 0) (basic_User "Alice" 30);
  let u := ur.1 in
  must "" ur.2 ;;
  print (Shown "Created:" [u]) ;;
  r ← by_id info basic_zero (GetID u);
  found ← must "" r;
  print (Shown "ByID:" [found]) ;;
  fr ← save info basic_zero (clock 1) (set_field found "Age" (VInt WInt 31));
  must "" fr.2 ;;
  print (Shown "Updated:" [fr.1]) ;;
  r ← fetch info basic_zero all_params 0 100;
  all ← must "" r;
  print (Shown "All users:" all) ;;
  r ← remove_ info u;
  must "" r ;;
  print (Text "Deleted user.").

(** [main], with the arguments it gives to [Configure]. *)
Definition basic_crud (now : Z) (args : list any) : prog package unit :=
  configure now args ;;
  r ← migrate [GetCachedModelInfo "User" no_methods basic_User_type];
  must "" r ;;
  basic_crud_body.

Definition basic_crud_main (now : Z) : prog package unit := basic_crud now [].
End basic_crud.

(** ** 04_hooks *)

Definition hooks_User_type : list sfield := model_type [SField "Name" TString "name" ""; SField "Email" TString "email" ""].
Definition hooks_User (name email : string) : gostruct := [new_base; FVal "Name" (VString name); FVal "Email" (VString email)].
Definition hooks_zero : gostruct := hooks_User "" "".

Definition CreateTableSQL : string := "CREATE TABLE IF NOT EXISTS users (
		id INTEGER PRIMARY KEY AUTOINCREMENT,
		created_at DATETIME,
		updated_at DATETIME,
		deleted BOOLEAN DEFAULT FALSE,
		name TEXT,
		email TEXT
	);".

(** The listeners.  A model whose field is no string is no [*User]: it is left
    alone. *)
Definition fix_email : EventListener := MkListener 1 (λ _ m,
  match FieldByName m "Email" with
  | Some (VString email) =>
      if email =? "invalid@example.com" then (set_field m "Email" (VString "valid_hook@example.com"), None) else (m, None)
  | _ => (m, None)
  end).
Definition log_created : EventListener := MkListener 2 (λ _ m, (m, None)).
Definition refuse_abort : EventListener := MkListener 3 (λ _ m,
  match FieldByName m "Name" with
  | Some (VString name) =>
      (m, if name =? "AbortMe" then Some (ErrMsg "save aborted by BeforeSave hook") else None)
  | _ => (m, None)
  end).
Definition log_saved : EventListener := MkListener 4 (λ _ m, (m, None)).
Definition log_deleting : EventListener := MkListener 5 (λ _ m, (m, None)).
Definition log_deleted : EventListener := MkListener 6 (λ _ m, (m, None)).

Definition register_listeners (r : registry) : registry :=
  let r := RegisterListener "BeforeCreate" fix_email r in
  let r := RegisterListener "AfterCreate" log_created r in
  let r := RegisterListener "BeforeSave" refuse_abort r in
  let r := RegisterListener "AfterSave" log_saved r in
  let r := RegisterListener "BeforeDelete" log_deleting r in
  RegisterListener "AfterDelete" log_deleted r.

Section hooks.
Context `{GoPlatform} `{QueryEnv} {C D X : Type} `{CacheClient C} `{DBAdapter D}.
#[local] Existing Instance BaseModelOps.
Context {DH CH : Type} (DefaultLocalCache : CH) (Background : X) (clock : nat → goval).

Record hooked := MkHooked { hk_listeners : registry; hk_world : world C D }.

Definition on_hooked {A} (f : registry → world C D → world C D * A) : prog hooked A := λ s,
  let '(w, a) := f (hk_listeners s) (hk_world s) in (MkHooked (hk_listeners s) w, [], Going a).

(** The package is not configured: records are cached without expiry. *)
Definition hooks_ttl : Z := getGlobalCacheTTL (@initial_globals DH CH).

(** [err = thingOrm.Save(model)] and the two lines after it. *)
Definition hooks_save (info : ModelInfo) (now : goval) (value : gostruct) (failed saved : string) : prog hooked gostruct :=
  vr ← on_hooked (λ reg w, let '(w, value, r) := Save info hooks_zero hooks_ttl reg now value w in (w, (value, r)));
  err ← try_ vr.2;
  print (match err with Some e => Failed failed e | None => Shown saved [vr.1] end) ;;
  mret vr.1.

Definition hooks_delete (info : ModelInfo) (value : gostruct) (failed deleted : string) : prog hooked unit :=
  r ← on_hooked (λ reg w, let '(w, _, r) := Delete_ info reg value w in (w, r));
  err ← try_ r;
  print (match err with Some e => Failed failed e | None => Text deleted end).

Definition hooks_demo (info : ModelInfo) : prog hooked unit :=
  alice ← hooks_save info (clock 0) (hooks_User "Alice" "alice@example.com") "Error saving Alice" "Alice saved successfully.";
  bob ← hooks_save info (clock 1) (hooks_User "Bob" "invalid@example.com") "Error saving Bob" "Bob saved successfully.";
  hooks_save info (clock 2) (hooks_User "AbortMe" "abort@example.com")
    "Expected error saving AbortMe" "AbortMe saved unexpectedly!" ;;
  (if (0 <? GetID alice)%Z
   then hooks_save info (clock 3) (set_field alice "Email" (VString "alice_updated@example.com"))
          "Error updating Alice" "Alice updated successfully." ;; mret ()
   else mret ()) ;;
  (if (0 <? GetID bob)%Z then hooks_delete info bob "Error deleting Bob" "Bob deleted successfully." else mret ()) ;;
  print (Text "--- Hooks Example Finished ---").

(** [main], given what opening the database and the two cache clients returned. *)
Definition hooks_main (opened : result DH) (client client2 : result CH) : prog hooked unit :=
  db ← must "Failed to initialize database" opened;
  r ← on_hooked (λ _, on_db (db_Exec CreateTableSQL [None]));
  must "Failed to create user table" r ;;
  cache ← must "Failed to create redis cache client (opts)" client;
  must "Failed to create redis cache client (existing *redis.Client)" client2 ;;
  thingOrm ← must "Failed to initialize Thing ORM"
    (New DefaultLocalCache Background "User" no_methods hooks_User_type (Some db) (Some cache));
  (λ s, (MkHooked (register_listeners (hk_listeners s)) (hk_world s), [], Going ())) ;;
  hooks_demo (t_info thingOrm).
End hooks.

(** ** 05_relationships

    The fields have no [db] tags. *)

Definition rel_User_type : list sfield := model_type [SField "Name" TString "" ""; SField "Email" TString "" ""].
Definition rel_Book_type : list sfield := model_type [SField "Title" TString "" ""; SField "UserID" (TInt W64) "" ""].
Definition rel_Role_type : list sfield := model_type [SField "Name" TString "" ""].
Definition rel_UserRole_type : list sfield := model_type [SField "UserID" (TInt W64) "" ""; SField "RoleID" (TInt W64) "" ""].
Definition rel_User (name : string) : gostruct := [new_base; FVal "Name" (VString name); FVal "Email" (VString "")].
Definition rel_Book (title : string) (userID : Z) : gostruct :=
  [new_base; FVal "Title" (VString title); FVal "UserID" (VInt W64 userID)].
Definition rel_Role (name : string) : gostruct := [new_base; FVal "Name" (VString name)].
Definition rel_UserRole (userID roleID : Z) : gostruct :=
  [new_base; FVal "UserID" (VInt W64 userID); FVal "RoleID" (VInt W64 roleID)].

Definition rel_tables : string := "CREATE TABLE users (id INTEGER PRIMARY KEY AUTOINCREMENT, name TEXT, email TEXT, created_at DATETIME, updated_at DATETIME, deleted BOOLEAN DEFAULT FALSE);
	CREATE TABLE books (id INTEGER PRIMARY KEY AUTOINCREMENT, title TEXT, user_id INTEGER, created_at DATETIME, updated_at DATETIME, deleted BOOLEAN DEFAULT FALSE);
	CREATE TABLE roles (id INTEGER PRIMARY KEY AUTOINCREMENT, name TEXT, created_at DATETIME, updated_at DATETIME, deleted BOOLEAN DEFAULT FALSE);
	CREATE TABLE user_roles (id INTEGER PRIMARY KEY AUTOINCREMENT, user_id INTEGER, role_id INTEGER, created_at DATETIME, updated_at DATETIME, deleted BOOLEAN DEFAULT FALSE);".

Section relationships.
Context `{GoPlatform} `{QueryEnv} {C X D : Type} `{CacheClient C}.
#[local] Existing Instance BaseModelOps.
(** What the database answers to a select of models depends on the struct they
    are read into: an adapter per type over one database. *)
Context (adapter : list sfield → gostruct → DBAdapter D).
Context {DH CH : Type} (DefaultLocalCache : CH) (Background : X) (clock : nat → goval) (reg : registry).

Definition on_rel {A} (f : world C D → world C D * A) : prog (world C D) A := λ w,
  let '(w, a) := f w in (w, [], Going a).

(** [x, _ := thing.New(...)]: a nil Thing is used later. *)
Definition rel_new (db : DH) (typeName : string) (fs : list sfield) : prog (world C D) ModelInfo := λ w,
  (w, [], match New DefaultLocalCache Background typeName no_methods fs (Some db) None with
          | Ok t => Going (t_info t)
          | Err _ => Crashed "invalid memory address or nil pointer dereference"
          | Panic m => Crashed m
          end).

(** [_ = x.Save(value)]. *)
Definition rel_save (info : ModelInfo) (fs : list sfield) (zero : gostruct) (now : goval) (value : gostruct)
    : prog (world C D) gostruct :=
  vr ← on_rel (λ w, let '(w, value, r) := @Save _ _ _ _ _ (adapter fs zero) info zero (hooks_ttl (DH := DH) (CH := CH))
                      reg now value w in (w, (value, r)));
  try_ vr.2 ;; mret vr.1.

Definition rel_fetch (info : ModelInfo) (fs : list sfield) (zero : gostruct) (where_ : string) (arg : goval)
    : prog (world C D) (list gostruct) :=
  r ← on_rel (λ w, let '(w, _, r) := @Fetch _ _ _ _ _ _ (adapter fs zero) info zero (hooks_ttl (DH := DH) (CH := CH))
                     (Query (MkQueryParams where_ [Some arg] "" [] false)) 0 10 w in (w, default (Panic "unreachable") r));
  must "" r.

Definition RoleID_of (ur : gostruct) : goval := default (VInt W64 0) (FieldByName ur "RoleID").

Definition relationships_main (opened : result DH) : prog (world C D) unit :=
  db ← must "Failed to initialize DB" opened;
  r ← on_rel (on_db (@db_Exec _ (adapter [] []) rel_tables []));
  must "Failed to create tables" r ;;
  userThing ← rel_new db "User" rel_User_type;
  bookThing ← rel_new db "Book" rel_Book_type;
  roleThing ← rel_new db "Role" rel_Role_type;
  userRoleThing ← rel_new db "UserRole" rel_UserRole_type;
  user ← rel_save userThing rel_User_type (rel_User "") (clock 0) (rel_User "Alice");
  rel_save bookThing rel_Book_type (rel_Book "" 0) (clock 1) (rel_Book "Go 101" (GetID user)) ;;
  rel_save bookThing rel_Book_type (rel_Book "" 0) (clock 2) (rel_Book "Advanced Go" (GetID user)) ;;
  role1 ← rel_save roleThing rel_Role_type (rel_Role "") (clock 3) (rel_Role "Admin");
  role2 ← rel_save roleThing rel_Role_type (rel_Role "") (clock 4) (rel_Role "Editor");
  rel_save userRoleThing rel_UserRole_type (rel_UserRole 0 0) (clock 5) (rel_UserRole (GetID user) (GetID role1)) ;;
  rel_save userRoleThing rel_UserRole_type (rel_UserRole 0 0) (clock 6) (rel_UserRole (GetID user) (GetID role2)) ;;
  books ← rel_fetch bookThing rel_Book_type (rel_Book "" 0) "user_id = ?" (VInt W64 (GetID user));
  print (Shown "User's books:" books) ;;
  userRoles ← rel_fetch userRoleThing rel_UserRole_type (rel_UserRole 0 0) "user_id = ?" (VInt W64 (GetID user));
  print (Shown "User's roles:" userRoles) ;;
  roles ← rel_fetch roleThing rel_Role_type (rel_Role "") "id IN (?)" (VSlice (TInt W64) (Some (RoleID_of <$> userRoles)));
  print (Shown "Roles:" roles) ;;
  print (Shown "User JSON:" [user]).
End relationships.
