(* ===== verification/DemoFacts.v ===== *)
(** * What the example programs do

    [01_basic_crud] calls [Configure] without arguments and ends at its migration;
    after a configuration it creates, reads, updates, lists and deletes a user and
    leaves the table as it was.  The listeners of [04_hooks] act as no listeners on
    a corrected user, except that they refuse one name. *)

From S2P Require Import Prelude GoStrings GoStringsFacts GoValues GoValuesFacts Predicate QueryMatch QueryMatchFacts.
From S2P Require Import CacheIndex CacheIndexFacts Metadata LocalCache CacheClient LocalCacheFacts.
From S2P Require Import Invalidate InvalidateFacts MetadataFacts Freshness SqlBuilder Hooks Crud CrudFacts.
From S2P Require Import WriteFacts Query QueryFacts LocalQuery Coherence CoherenceFacts CoherenceBatch CoherenceRuns.
From S2P Require Import Config Schema TableOps Demos.

Open Scope string_scope.
#[local] Existing Instance BaseModelOps.

(** ** Programs *)

(** One step of a program that has been unfolded. *)
Ltac run H := rewrite H; cbv beta iota delta [fst snd pk_world pk_globals hk_world hk_listeners default].

(** ** Records of the examples *)

Lemma deep_equal_time i r : deep_equal (VTime i r) (VTime i r) = true.
Proof. simpl. by rewrite !Z.eqb_refl. Qed.

(** A stored user: [BaseModel] and two fields. *)
Definition two_fields (id : Z) (created updated : goval) (new : bool) (n1 : string) (v1 : goval) (n2 : string) (v2 : goval) : gostruct :=
  [FEmbed "BaseModel" [FVal "ID" (VInt W64 id); FVal "CreatedAt" created; FVal "UpdatedAt" updated;
                       FVal "Deleted" (VBool false); FVal "isNewRecord" (VBool new)];
   FVal n1 v1; FVal n2 v2].

Definition basic_row (id : Z) (created updated : goval) (age : Z) : gostruct :=
  two_fields id created updated false "Name" (VString "Alice") "Age" (VInt WInt age).

Definition basic_info : ModelInfo :=
  Eval vm_compute in
    match GetCachedModelInfo "User" no_methods basic_User_type with
    | Ok i => i | _ => MkInfo "" "" [] [] ∅ ∅ [] [] [] false false end.

Lemma basic_info_ok : GetCachedModelInfo "User" no_methods basic_User_type = Ok basic_info.
Proof. vm_compute. reflexivity. Qed.

(** ** 01_basic_crud *)

(** The program of examples/01_basic_crud as it is written: Configure is called without a
    database, its error is not looked at, and the migration ends the program before any record
    operation, whatever the database and the cache. *)
Theorem basic_crud_main_stops `{GoPlatform} `{QueryEnv} {C D X DH CH : Type} `{CacheClient C} `{DBAdapter D}
    (dialect_of : DH → string) (local : CH) (bg : X) range factories reg clock now (w : world C D) :
  basic_crud_main dialect_of local bg range factories reg clock now (MkPackage initial_globals w) =
    (MkPackage (MkGlobals None None false 0 now) w, [],
     Fatal "" (ErrMsg "AutoMigrate: globalDB is nil, please call thing.Configure(db, cache)")).
Proof. by destruct w. Qed.

Section basic.
Context `{GoPlatform} `{Gob} `{QueryEnv} {D X DH CH : Type} `{DBAdapter D}.
Context (local : CH) (bg : X) (clock : nat → goval) (i0 r0 i1 r1 : Z).
Context (queries : QueryParams → Prop) (db_ok : gmap Z gostruct → D → Prop).
Context (answer : QueryParams → gmap Z gostruct → list Z).
Notation coherent := (coherent basic_User_type basic_info basic_zero queries db_ok answer).
Notation row_ok := (row_ok basic_User_type basic_info basic_zero).

(** The columns that an update of the age writes. *)
Definition age_update : list string := ["updated_at"; "age"].

Lemma basic_has_type id c1 c2 u1 u2 new n a :
  has_type (two_fields id (VTime c1 c2) (VTime u1 u2) new "Name" (VString n) "Age" (VInt WInt a)) basic_User_type.
Proof. repeat (constructor || apply ft_embed). Qed.

Lemma basic_inserts : clock 0 = VTime i0 r0 → 
  (∀ id, (0 < id)%Z → row_ok (basic_row id (clock 0) (clock 0) 30)) →
  inserts basic_User_type basic_info basic_zero ∅ (clock 0) (basic_User "Alice" 30)
    (two_fields 0 (clock 0) (clock 0) true "Name" (VString "Alice") "Age" (VInt WInt 30)).
Proof.
  intros T0 Hrow. rewrite T0 in *. split; [done| |apply basic_has_type|by eexists|done|].
  - eexists _, _. split_and!; reflexivity.
  - intros id Hid. split; [|done]. by apply Hrow.
Qed.

Lemma age_changed id c1 c2 u1 u2 :
  FindChangedFieldsSimple (PkName basic_info) (CompareFields basic_info)
    (basic_row id (VTime c1 c2) (VTime u1 u2) 30) (basic_row id (VTime c1 c2) (VTime u1 u2) 31)
  = Ok {["age" := Some (VInt WInt 31)]}.
Proof.
  cbn -[deep_equal]. rewrite !deep_equal_time. reflexivity.
Qed.

Lemma basic_replaces id : clock 0 = VTime i0 r0 → clock 1 = VTime i1 r1 → (0 < id)%Z →
  row_ok (basic_row id (clock 0) (clock 1) 31) →
  replaces basic_User_type basic_info basic_zero ∅ [age_update] (clock 1)
    (set_field (basic_row id (clock 0) (clock 0) 30) "Age" (VInt WInt 31))
    (basic_row id (clock 0) (clock 1) 31) (basic_row id (clock 0) (clock 0) 30)
    [("updated_at", Some (clock 1)); ("age", Some (VInt WInt 31))].
Proof.
  intros T0 T1 Hid Hrow. rewrite T0, T1 in *. split; [done|done| |apply basic_has_type|by eexists|done|by left| |done|done].
  - eexists _, _. split; [reflexivity|]. split; [reflexivity|]. split; [apply age_changed|]. split; [done|]. vm_compute. reflexivity.
  - intros c Hc. cbn [Columns basic_info] in Hc. rewrite !elem_of_cons in Hc.
    destruct Hc as [->|[->|[->|[->|[->|[->|[]%elem_of_nil]]]]]]; (done || (intros _; vm_compute; reflexivity)).
Qed.

Lemma basic_removes id : clock 0 = VTime i0 r0 → (0 < id)%Z →
  seen_alike basic_info queries (basic_row id (clock 0) (clock 0) 30) (basic_row id (clock 0) (clock 1) 31) →
  removes basic_User_type basic_info ∅ queries (basic_row id (clock 0) (clock 0) 30) (basic_row id (clock 0) (clock 0) 30)
    (basic_row id (clock 0) (clock 1) 31).
Proof. intros T0 Hid Hseen. split; [change (id ≠ 0%Z); lia|done|done| |done]. rewrite T0. apply basic_has_type. Qed.

Lemma basic_Use (g : @globals DH CH) : globals_ok g → isConfigured g = true →
  ∃ t, Use local bg "User" no_methods basic_User_type g = Ok t ∧ t_info t = basic_info.
Proof.
  intros Hg Hc. destruct (gok_set g Hg Hc) as ([db Hdb]&[cache Hca]&_).
  exists (MkThing db cache bg basic_info). unfold Use, New. by rewrite Hc, Hdb, Hca, basic_info_ok.
Qed.

(** The rest of examples/01_basic_crud, once the package is configured with a database that
    executes the statements of the ORM and the migration has run, in a coherent world: the program
    runs to its end; it creates a user under an unused id, reads it back as it was created,
    updates its age, lists a page of the table with the updated row, and deletes the row, although
    the copy it deletes with has the old age; the table is then the one it started with and the
    cache is coherent with it. *)
Theorem basic_crud_correct rows (s : package (C := local_client) (D := D) (DH := DH) (CH := CH)) :
  model_ok "User" no_methods basic_User_type basic_info → queries_ok basic_User_type basic_info queries →
  database_ok basic_User_type basic_info basic_zero queries db_ok answer →
  writes_ok basic_User_type basic_info basic_zero db_ok [age_update] →
  clock 0 = VTime i0 r0 → clock 1 = VTime i1 r1 →
  (∀ id, (0 < id)%Z → row_ok (basic_row id (clock 0) (clock 0) 30) ∧ row_ok (basic_row id (clock 0) (clock 1) 31)) →
  queries all_params →
  (∀ id, seen_alike basic_info queries (basic_row id (clock 0) (clock 0) 30) (basic_row id (clock 0) (clock 1) 31)) →
  globals_ok (pk_globals s) → isConfigured (pk_globals s) = true → coherent rows (pk_world s) →
  ∃ id w', (0 < id)%Z ∧ rows !! id = None ∧ coherent rows w' ∧
    let created := basic_row id (clock 0) (clock 0) 30 in
    let updated := basic_row id (clock 0) (clock 1) 31 in
    let rows' := <[id := updated]> rows in
    basic_crud_body local bg ∅ clock s =
      (MkPackage (pk_globals s) w',
       [Shown "Created:" [created]; Shown "ByID:" [created]; Shown "Updated:" [updated];
        Shown "All users:" (page rows' (take 100 (answer all_params rows'))); Text "Deleted user."],
       Going ()).
Proof.
  intros Hmodel Hqueries Hdb Hwr T0 T1 Hrows Hall Hseen Hg Hconf Hc. destruct s as [g w0]. cbn [pk_globals pk_world] in *.
  set (ttl := getGlobalCacheTTL g).
  destruct (Save_inserts "User" no_methods basic_User_type basic_info basic_zero ttl ∅ queries db_ok answer [age_update]
    Hmodel Hqueries Hdb Hwr _ _ _ rows w0 Hc (basic_inserts T0 (λ id H, proj1 (Hrows id H)))) as (id&w1&Hid&Hfresh&Hs1&Hc1).
  set (created := basic_row id (clock 0) (clock 0) 30) in *. set (updated := basic_row id (clock 0) (clock 1) 31).
  change (Save basic_info basic_zero ttl ∅ (clock 0) (basic_User "Alice" 30) w0 = (w1, created, Ok ())) in Hs1.
  change (coherent (<[id := created]> rows) w1) in Hc1.
  destruct (coherent_byID "User" no_methods basic_User_type basic_info basic_zero ttl queries db_ok answer Hmodel Hqueries Hdb id _ w1 Hid Hc1)
    as [Hc2 Hr2]. rewrite lookup_insert_eq in Hr2.
  destruct (byIDInternal basic_info basic_zero ttl id w1) as [w2 r2] eqn:Hby. cbn [fst snd] in Hc2, Hr2. subst r2.
  destruct (Save_updates "User" no_methods basic_User_type basic_info basic_zero ttl ∅ queries db_ok answer [age_update]
    Hmodel Hqueries Hdb Hwr _ _ _ _ _ _ w2 Hc2 (lookup_insert_eq rows id _) (basic_replaces id T0 T1 Hid (proj2 (Hrows id Hid))))
    as (w3&Hs3&Hc3).
  change (Save basic_info basic_zero ttl ∅ (clock 1) (set_field created "Age" (VInt WInt 31)) w2 = (w3, updated, Ok ())) in Hs3.
  change (coherent (<[id := updated]> (<[id := created]> rows)) w3) in Hc3. rewrite insert_insert_eq in Hc3.
  destruct (coherent_Fetch "User" no_methods basic_User_type basic_info basic_zero ttl queries db_ok answer Hmodel Hqueries Hdb
    all_params 0 100 _ w3 Hall Hc3) as [Hc4 Hf4].
  destruct (Fetch basic_info basic_zero ttl (Query all_params) _ _ w3) as [[w4 cr4] r4] eqn:Hfetch. cbn [fst snd] in Hc4, Hf4. subst r4.
  destruct (Delete_removes "User" no_methods basic_User_type basic_info basic_zero ∅ queries db_ok answer [age_update]
    Hmodel Hqueries Hdb Hwr _ _ _ _ w4 Hc4 (lookup_insert_eq rows id _) (basic_removes id T0 Hid (Hseen id))) as (w5&Hd5&Hc5).
  change (Delete_ basic_info ∅ created w4 = (w5, created, Ok ())) in Hd5.
  exists id, w5. split_and!; [done|done|rewrite <-(delete_insert_id rows id updated Hfresh); exact Hc5|].
  destruct (basic_Use g Hg Hconf) as (t&Hu&Ht).
  change (Z.of_nat 0) with 0%Z in Hfetch. change (Z.of_nat 100) with 100%Z in Hfetch.
  cbv [basic_crud_body save by_id ByID fetch remove_ on_world must print get mbind prog_bind pk_world pk_globals].
  subst ttl. run Hu. rewrite Ht. run Hs1. change (GetID created) with id. run Hby. run Hs3. run Hfetch. run Hd5. done.
Qed.
End basic.

(** ** 04_hooks *)

Definition hooks_info : ModelInfo :=
  Eval vm_compute in
    match GetCachedModelInfo "User" no_methods hooks_User_type with
    | Ok i => i | _ => MkInfo "" "" [] [] ∅ ∅ [] [] [] false false end.

Lemma hooks_info_ok : GetCachedModelInfo "User" no_methods hooks_User_type = Ok hooks_info.
Proof. vm_compute. reflexivity. Qed.

Definition hooks_row (id : Z) (created updated : goval) (new : bool) (name email : string) : gostruct :=
  two_fields id created updated new "Name" (VString name) "Email" (VString email).

(** What the listener on BeforeCreate makes of an address. *)
Definition fixed_email (email : string) : string :=
  if email =? "invalid@example.com" then "valid_hook@example.com" else email.

Notation demo_listeners := (register_listeners ∅).

Definition abort_error : goerr :=
  ErrWrap "BeforeSave hook failed" (ErrWrap "event listener failed" (ErrMsg "save aborted by BeforeSave hook")).

Section listeners.
Context `{GoPlatform} {C D : Type} `{CacheClient C} `{DBAdapter D}.
Implicit Types (w : world C D).

Lemma before_save id c u new name email :
  triggerEvent demo_listeners "BeforeSave" (hooks_row id c u new name email) =
    (hooks_row id c u new name email,
     if name =? "AbortMe" then Some (ErrWrap "event listener failed" (ErrMsg "save aborted by BeforeSave hook")) else None).
Proof. change (triggerEvent _ _ _) with (run_listeners "BeforeSave" [refuse_abort] (hooks_row id c u new name email)). simpl.
  by destruct (name =? "AbortMe"). Qed.

Lemma before_create id c u new name email :
  triggerEvent demo_listeners "BeforeCreate" (hooks_row id c u new name email) = (hooks_row id c u new name (fixed_email email), None).
Proof. change (triggerEvent _ _ _) with (run_listeners "BeforeCreate" [fix_email] (hooks_row id c u new name email)). simpl.
  unfold fixed_email. by destruct (email =? "invalid@example.com"). Qed.

Lemma finalize_listeners info ttl mu w : finalizeSave info ttl demo_listeners mu w = finalizeSave info ttl ∅ mu w.
Proof. unfold finalizeSave. by destruct (mu_isNew mu). Qed.

Lemma save_abort info zero ttl now id c u new email w :
  Save info zero ttl demo_listeners now (hooks_row id c u new "AbortMe" email) w =
    (w, hooks_row id c u (id =? 0)%Z "AbortMe" email, Err abort_error).
Proof.
  unfold Save, saveInternal, saveWithExecutor. change (GetID (hooks_row id c u new "AbortMe" email)) with id.
  change (setNewRecordFlagIfBaseModel ?b (hooks_row id c u new ?n ?e)) with (hooks_row id c u b n e).
  by rewrite before_save.
Qed.

(** The listeners of examples/04_hooks, for every user, cache and database: a user named AbortMe
    is refused and nothing is read or written; any other new user is saved as if there were no
    listeners, with the address invalid@example.com replaced; a stored user is saved, and a user
    deleted, as without listeners. *)
Theorem hooks_listeners info zero ttl now id c u new name email w :
  Save info zero ttl demo_listeners now (hooks_row id c u new "AbortMe" email) w =
    (w, hooks_row id c u (id =? 0)%Z "AbortMe" email, Err abort_error) ∧
  (name ≠ "AbortMe" →
     Save info zero ttl demo_listeners now (hooks_row 0 c u new name email) w =
       Save info zero ttl ∅ now (hooks_row 0 c u new name (fixed_email email)) w) ∧
  (name ≠ "AbortMe" → id ≠ 0%Z →
     Save info zero ttl demo_listeners now (hooks_row id c u new name email) w =
       Save info zero ttl ∅ now (hooks_row id c u new name email) w) ∧
  Delete_ info demo_listeners (hooks_row id c u new name email) w = Delete_ info ∅ (hooks_row id c u new name email) w.
Proof.
  assert (Hid : ∀ new name email, GetID (hooks_row id c u new name email) = id) by done.
  assert (Hflag : ∀ b id name email, setNewRecordFlagIfBaseModel b (hooks_row id c u new name email) = hooks_row id c u b name email)
    by done.
  split_and!; [apply save_abort|..]; unfold Save, saveInternal, saveWithExecutor.
  - intros Hn%String.eqb_neq. rewrite !Hflag, before_save, Hn. cbn [GetID BaseModelOps].
    change (BaseModel_GetID (hooks_row 0 _ _ _ _ _)) with 0%Z. cbn [Z.eqb]. rewrite before_create.
    change (triggerEvent ∅ ?e ?m) with (m, @None goerr). cbv beta iota.
    destruct (save_create _ _ _ _) as [[w1 mu] [| |]]; [|done..]. apply finalize_listeners.
  - intros Hn%String.eqb_neq Hz%Z.eqb_neq. rewrite !Hid, Hz, !Hflag, before_save, Hn.
    change (triggerEvent ∅ ?e ?m) with (m, @None goerr). cbv beta iota.
    destruct (save_update _ _ _ _ _ _ _ _) as [[w1 mu] [| |]]; [|done..]. apply finalize_listeners.
  - unfold Delete_, deleteInternal. by destruct (_ =? 0)%Z.
Qed.
End listeners.

Section hooks.
Context `{GoPlatform} `{Gob} `{QueryEnv} {D X DH CH : Type} `{DBAdapter D}.
Context (clock : nat → goval) (times : nat → Z * Z) (Hclock : ∀ n, clock n = VTime (times n).1 (times n).2).
Context (queries : QueryParams → Prop) (db_ok : gmap Z gostruct → D → Prop).
Context (answer : QueryParams → gmap Z gostruct → list Z).
Notation coherent := (coherent hooks_User_type hooks_info hooks_zero queries db_ok answer).
Notation row_ok := (row_ok hooks_User_type hooks_info hooks_zero).

(** The columns that an update of the address writes. *)
Definition email_update : list string := ["updated_at"; "email"].

Lemma hooks_has_type id c u new name email : has_type (hooks_row id (clock c) (clock u) new name email) hooks_User_type.
Proof. rewrite !Hclock. repeat (constructor || apply ft_embed). Qed.

Lemma hooks_inserts t name email : name ≠ "AbortMe" →
  (∀ id, (0 < id)%Z → row_ok (hooks_row id (clock t) (clock t) false name (fixed_email email))) →
  inserts hooks_User_type hooks_info hooks_zero demo_listeners (clock t) (hooks_User name email)
    (hooks_row 0 (clock t) (clock t) true name (fixed_email email)).
Proof.
  intros Hn%String.eqb_neq Hrow. split; [done| |apply hooks_has_type|by eexists|done|].
  - eexists _, _. split; [|split; [apply before_create|reflexivity]].
    etransitivity; [apply (before_save 0 zero_time zero_time true name email)|]. by rewrite Hn.
  - intros id Hid. split; [|done]. by apply Hrow.
Qed.

Lemma email_changed id c1 c2 u1 u2 name email email' : email ≠ email' →
  FindChangedFieldsSimple (PkName hooks_info) (CompareFields hooks_info)
    (hooks_row id (VTime c1 c2) (VTime u1 u2) false name email) (hooks_row id (VTime c1 c2) (VTime u1 u2) false name email')
  = Ok {["email" := Some (VString email')]}.
Proof.
  intros Hne%String.eqb_neq.
  assert (Hs : ∀ a b, deep_equal (VString a) (VString b) = (a =? b)) by done.
  cbn -[deep_equal]. rewrite !deep_equal_time, !Hs, String.eqb_refl, Hne. reflexivity.
Qed.

Lemma hooks_replaces id c t name email email' : (0 < id)%Z → name ≠ "AbortMe" → email ≠ email' →
  row_ok (hooks_row id (clock c) (clock t) false name email') →
  replaces hooks_User_type hooks_info hooks_zero demo_listeners [email_update] (clock t)
    (set_field (hooks_row id (clock c) (clock c) false name email) "Email" (VString email'))
    (hooks_row id (clock c) (clock t) false name email') (hooks_row id (clock c) (clock c) false name email)
    [("updated_at", Some (clock t)); ("email", Some (VString email'))].
Proof.
  intros Hid Hn%String.eqb_neq Hne Hrow. split; [done|done| |apply hooks_has_type|by eexists|done|by left| |done|done].
  - eexists _, _. split; [etransitivity; [apply (before_save id (clock c) (clock c) false name email')|by rewrite Hn]|].
    split; [reflexivity|]. split; [rewrite !Hclock; by apply email_changed|]. split; [done|]. rewrite !Hclock. vm_compute. reflexivity.
  - intros col Hc. cbn [Columns hooks_info] in Hc. rewrite !elem_of_cons in Hc.
    destruct Hc as [->|[->|[->|[->|[->|[->|[]%elem_of_nil]]]]]]; (done || (intros _; rewrite !Hclock; vm_compute; reflexivity)).
Qed.

Context (Hmodel : model_ok "User" no_methods hooks_User_type hooks_info) (Hqueries : queries_ok hooks_User_type hooks_info queries).
Context (Hdb : database_ok hooks_User_type hooks_info hooks_zero queries db_ok answer).
Context (Hwr : writes_ok hooks_User_type hooks_info hooks_zero db_ok [email_update]).
Context (Hrow : ∀ id c t name email, (0 < id)%Z → row_ok (hooks_row id (clock c) (clock t) false name email)).
Notation ttl := (hooks_ttl (DH := DH) (CH := CH)).

Lemma hooks_Save_new t name email rows w : name ≠ "AbortMe" → coherent rows w → ∃ id w', (0 < id)%Z ∧ rows !! id = None ∧
  let m := hooks_row id (clock t) (clock t) false name (fixed_email email) in
  Save hooks_info hooks_zero ttl demo_listeners (clock t) (hooks_User name email) w = (w', m, Ok ()) ∧
  coherent (<[id := m]> rows) w'.
Proof.
  intros Hn Hc. exact (Save_inserts "User" no_methods hooks_User_type hooks_info hooks_zero ttl demo_listeners queries db_ok answer
    [email_update] Hmodel Hqueries Hdb Hwr _ _ _ rows w Hc (hooks_inserts t name email Hn (λ id, Hrow id t t name _))).
Qed.

Lemma hooks_Save_email id c t name email email' rows w : (0 < id)%Z → name ≠ "AbortMe" → email ≠ email' → coherent rows w →
  rows !! id = Some (hooks_row id (clock c) (clock c) false name email) → ∃ w',
  let m := hooks_row id (clock c) (clock t) false name email' in
  Save hooks_info hooks_zero ttl demo_listeners (clock t)
    (set_field (hooks_row id (clock c) (clock c) false name email) "Email" (VString email')) w = (w', m, Ok ()) ∧
  coherent (<[id := m]> rows) w'.
Proof.
  intros Hid Hn Hne Hc Hr. exact (Save_updates "User" no_methods hooks_User_type hooks_info hooks_zero ttl demo_listeners queries db_ok answer
    [email_update] Hmodel Hqueries Hdb Hwr (clock t)
    (set_field (hooks_row id (clock c) (clock c) false name email) "Email" (VString email')) _ _ _ rows w Hc Hr
    (hooks_replaces id c t name email email' Hid Hn Hne (Hrow id c t name _ Hid))).
Qed.

Lemma hooks_Delete id c u name email rows w : (0 < id)%Z → coherent rows w →
  rows !! id = Some (hooks_row id (clock c) (clock u) false name email) → ∃ w',
  Delete_ hooks_info demo_listeners (hooks_row id (clock c) (clock u) false name email) w
    = (w', hooks_row id (clock c) (clock u) false name email, Ok ()) ∧ coherent (delete id rows) w'.
Proof.
  intros Hid Hc Hr. refine (Delete_removes "User" no_methods hooks_User_type hooks_info hooks_zero demo_listeners queries db_ok answer
    [email_update] Hmodel Hqueries Hdb Hwr (hooks_row id (clock c) (clock u) false name email)
    (hooks_row id (clock c) (clock u) false name email) _ rows w Hc Hr _).
  split; [change (id ≠ 0%Z); lia|done|done|apply hooks_has_type|done].
Qed.

(** C39: the demonstration of examples/04_hooks with the local cache, over a database that
    executes the statements of the ORM, in a coherent world: Alice and Bob get different unused
    ids, Bob with the corrected address; AbortMe is refused; Alice's address is updated and Bob
    deleted; the program runs to its end, the table has gained exactly the updated Alice and the
    cache is coherent with it. *)
Theorem hooks_demo_correct rows (w : world local_client D) :
  coherent rows w →
  ∃ a b w', (0 < a)%Z ∧ (0 < b)%Z ∧ a ≠ b ∧ rows !! a = None ∧ rows !! b = None ∧
    let updated := hooks_row a (clock 0) (clock 3) false "Alice" "alice_updated@example.com" in
    coherent (<[a := updated]> rows) w' ∧
    hooks_demo (DH := DH) (CH := CH) clock hooks_info (MkHooked demo_listeners w) =
      (MkHooked demo_listeners w',
       [Shown "Alice saved successfully." [hooks_row a (clock 0) (clock 0) false "Alice" "alice@example.com"];
        Shown "Bob saved successfully." [hooks_row b (clock 1) (clock 1) false "Bob" "valid_hook@example.com"];
        Failed "Expected error saving AbortMe" abort_error;
        Shown "Alice updated successfully." [updated];
        Text "Bob deleted successfully."; Text "--- Hooks Example Finished ---"],
       Going ()).
Proof.
  intros Hc.
  destruct (hooks_Save_new 0 "Alice" "alice@example.com" rows w) as (a&w1&Ha&Hfa&Hs1&Hc1); [done..|].
  destruct (hooks_Save_new 1 "Bob" "invalid@example.com" _ w1 ltac:(done) Hc1) as (b&w2&Hb&Hfb&Hs2&Hc2).
  apply lookup_insert_None in Hfb as [Hfb Hab]. cbv zeta in *.
  change (fixed_email "alice@example.com") with "alice@example.com" in *.
  change (fixed_email "invalid@example.com") with "valid_hook@example.com" in *.
  pose proof (save_abort hooks_info hooks_zero ttl (clock 2) 0 zero_time zero_time false "abort@example.com" w2) as Hs3.
  change (hooks_row 0 zero_time zero_time false "AbortMe" "abort@example.com") with (hooks_User "AbortMe" "abort@example.com") in Hs3.
  destruct (hooks_Save_email a 0 3 "Alice" "alice@example.com" "alice_updated@example.com" _ w2 Ha ltac:(done) ltac:(done) Hc2)
    as (w3&Hs4&Hc4); [by rewrite lookup_insert_ne, lookup_insert_eq by done|]. cbv zeta in *.
  destruct (hooks_Delete b 1 1 "Bob" "valid_hook@example.com" _ w3 Hb Hc4) as (w4&Hs5&Hc5);
    [by rewrite lookup_insert_ne, lookup_insert_eq by done|].
  exists a, b, w4. split; [exact Ha|]. split; [exact Hb|]. split; [exact Hab|]. split; [exact Hfa|]. split; [exact Hfb|]. split.
  - rewrite delete_insert_ne, delete_insert_id in Hc5; [by rewrite insert_insert_eq in Hc5| |done].
    by rewrite lookup_insert_ne.
  - cbv [hooks_demo hooks_save hooks_delete on_hooked try_ must print get mbind prog_bind mret prog_ret hk_world hk_listeners].
    run Hs1. run Hs2. run Hs3.
    change (GetID (hooks_row ?i _ _ _ _ _)) with i. rewrite (proj2 (Z.ltb_lt _ _) Ha), (proj2 (Z.ltb_lt _ _) Hb).
    run Hs4. run Hs5. done.
Qed.
End hooks.
