(* ===== verification/Witnesses.v ===== *)
(** * A concrete program

    A [User] model with an embedded [BaseModel], a platform, a registered list
    query on the local cache; the hypotheses of the general theorems hold on
    it, and the theorems apply. *)

From S2P Require Import Prelude GoStrings GoValues GoValuesFacts Predicate QueryMatch QueryMatchFacts.
From S2P Require Import CacheIndex CacheIndexFacts Metadata LocalCache CacheClient Invalidate.
From S2P Require Import InvalidateFacts MetadataFacts Freshness.

Open Scope string_scope.

(** ** The program *)

#[export] Instance wit_platform : GoPlatform :=
  {| oor_int64 := λ _, (- 2 ^ 63)%Z; oor_uint64 := λ _, 0%Z; fmt_g := λ _, "g";
     fmt_v := λ v, match v with VInt _ z => FormatInt z | _ => "v" end |}.
#[export] Instance wit_gob : Gob := {| gob_time_rep := λ _ _, 0%Z; gob_opaque := λ _ _ _ _, None |}.
#[export] Instance wit_model : ModelOps := BaseModelOps.

Definition base_type : list sfield :=
  [SField "ID" (TInt W64) "id,pk" ""; SField "CreatedAt" TTime "created_at" "";
   SField "UpdatedAt" TTime "updated_at" ""; SField "Deleted" TBool "deleted" "";
   SField "isNewRecord" TBool "-" ""].
Definition user_type : list sfield :=
  [SEmbed "BaseModel" "BaseModel" base_type;
   SField "Name" TString "name,index" ""; SField "Age" (TInt WInt) "" ""].
Definition user_methods : model_methods := MkMethods "" [] false false.

Definition user (id : Z) (deleted : bool) (name : string) (age : Z) : gostruct :=
  [FEmbed "BaseModel" [FVal "ID" (VInt W64 id); FVal "CreatedAt" (VTime 0 0); FVal "UpdatedAt" (VTime 0 0);
                       FVal "Deleted" (VBool deleted); FVal "isNewRecord" (VBool false)];
   FVal "Name" (VString name); FVal "Age" (VInt WInt age)].

Definition user_info : ModelInfo :=
  Eval vm_compute in
    match GetCachedModelInfo "User" user_methods user_type with
    | Ok i => i | _ => MkInfo "" "" [] [] ∅ ∅ [] [] [] false false end.

Lemma user_info_ok : GetCachedModelInfo "User" user_methods user_type = Ok user_info.
Proof. vm_compute. reflexivity. Qed.

Definition key_table (k : string) : string := "users".

(** [Where("age > ?", 18)], its list key, and the index after registering it. *)
Definition adults : QueryParams := MkQueryParams "age > ?" [Some (VInt WInt 18)] "" [] false.
Definition adults_key : string := "list:v1:users:a".
Definition idx1 : CacheIndex := RegisterQuery "users" adults_key adults NewCacheIndex.

Definition wit_env : nat → env_step := λ n, MkEnv (Z.of_nat n) OnChannel None.
Definition cached_list (ids : list Z) : local_client :=
  MkClient (SetQueryIDs 0 adults_key (Some ids) 0 new_localCache).1 wit_env 0.
Definition wit_world (ids : list Z) : world local_client unit := MkWorld (cached_list ids) idx1 ().

Lemma has_type_user id d n a : has_type (user id d n a) user_type.
Proof. repeat (constructor || apply ft_embed). Qed.

Lemma idx1_reachable : index_reachable key_table idx1.
Proof. apply reach_register; [apply reach_new|done]. Qed.

Lemma idx1_params k p : keyToParams idx1 !! k = Some p → k = adults_key ∧ p = adults.
Proof.
  assert (keyToParams idx1 = {[adults_key := adults]}) as -> by (vm_compute; reflexivity).
  intros [<- <-]%lookup_singleton_Some. done.
Qed.

Lemma lists_typed_wit ids : lists_typed (lc (cached_list ids)).
Proof.
  intros k v _. change (store (lc (cached_list ids))) with (<[adults_key := PBytes (GobIDs ids)]> (∅ : gmap string payload)).
  rewrite lookup_insert. case_decide; [intros [= <-]; eauto|by rewrite lookup_empty].
Qed.

Definition old_user : gostruct := user 7 false "ann" 10.
Definition new_user : gostruct := user 7 false "ann" 20.

Lemma wit_no_panic k p :
  keyToParams idx1 !! k = Some p → no_panic user_info p (checked_models new_user (Updated old_user)).
Proof.
  intros [_ ->]%idx1_params m msg Hm. simpl in Hm.
  apply elem_of_cons in Hm as [->|Hm]; [vm_compute; done|].
  apply elem_of_cons in Hm as [->|Hm]; [vm_compute; done|by apply elem_of_nil in Hm].
Qed.

Lemma wit_setting ids :
  local_setting key_table "User" user_methods user_type user_info new_user (Updated old_user) (wit_world ids).
Proof.
  split.
  - reflexivity.
  - apply (bool_decide_unpack (NoDup (all_names user_type))). vm_compute. done.
  - apply user_info_ok.
  - apply (bool_decide_unpack (NoDup (Columns user_info))). vm_compute. done.
  - apply has_type_user.
  - intros o [= <-]. apply has_type_user.
  - done.
  - apply idx1_reachable.
  - apply lists_typed_wit.
  - intros k p Hk _. by eapply wit_no_panic.
Qed.

Lemma wit_clause : clause_known user_info adults.
Proof.
  split; [vm_compute; done|]. intros q Hq c Hc. vm_compute in Hq. injection Hq as <-.
  assert (Hs : c ∈ ({["age"]} : gset string)) by (revert Hc; unfold predicate_Fields; simpl; set_solver).
  apply elem_of_singleton in Hs as ->. apply (bool_decide_unpack ("age" ∈ columns_of user_info)). vm_compute. done.
Qed.

Lemma wit_compared wk : compared_query user_info adults_key adults wk.
Proof.
  split; [apply wit_clause|]. destruct wk; [done..|]. intros _.
  apply (bool_decide_unpack (order_deps user_info adults_key adults ⊆ columns_of user_info)). vm_compute. done.
Qed.

Lemma wit_changed :
  changedModelColumns user_info new_user (wk_original new_user (Updated old_user)) = Ok {["age"]}.
Proof. vm_compute. reflexivity. Qed.

Lemma wit_affected : affected user_info new_user adults_key adults (Updated old_user).
Proof. apply aff_match. vm_compute. done. Qed.

(** ** The theorems at this program *)

Lemma reachable_index_wf_witness : index_wf key_table idx1.
Proof. apply reachable_index_wf. apply reach_register; [apply reach_new|done]. Defined.

Lemma invalidation_candidates_witness :
  adults_key ∈ CacheKeys (GetInvalidationContext idx1 "users" ∅ {["age"]}).
Proof.
  apply (invalidation_candidates key_table idx1 "users" ∅ {["age"]} adults_key adults);
    [apply idx1_reachable|vm_compute; reflexivity|done|].
  right; right; right. exists "age". split; [set_solver|]. split; [done|]. left.
  apply (bool_decide_unpack ("age" ∈ WhereFields (deps_of adults_key adults))). vm_compute. done.
Defined.

Lemma deregister_register_witness : DeregisterQuery adults_key idx1 = NewCacheIndex.
Proof.
  apply (deregister_register key_table "users" adults_key adults NewCacheIndex); [apply reach_new|done..].
Defined.

Lemma deregister_removes_witness :
  adults_key ∉ CacheKeys (GetInvalidationContext (DeregisterQuery adults_key idx1) "users" ∅ {["age"]}).
Proof. apply (deregister_removes key_table adults_key idx1 "users" ∅ {["age"]}); [done|apply idx1_reachable]. Defined.

Lemma metadata_describes_witness : describes user_info new_user.
Proof.
  apply (metadata_describes "User" user_methods user_type); [done| |apply has_type_user|apply user_info_ok|];
    apply (bool_decide_unpack _); vm_compute; done.
Defined.

Lemma invalidation_complete_witness :
  (invalidate user_info new_user (Updated old_user) (wit_world [1%Z])).2 = Ok ().
Proof.
  apply (invalidation_complete (C := local_client) local_deletes_reliably key_table user_info new_user (Updated old_user)
    (wit_world [1%Z]) adults_key adults {["age"]});
    [eapply local_inv_setting, wit_setting|vm_compute; reflexivity|done|by left|apply wit_compared
    |apply wit_changed|apply wit_affected].
Defined.

Lemma local_invalidation_complete_witness :
  (invalidate user_info new_user (Updated old_user) (wit_world [1%Z])).2 = Ok ().
Proof.
  apply (local_invalidation_complete key_table "User" user_methods user_type user_info new_user (Updated old_user)
    (wit_world [1%Z]) adults_key adults {["age"]});
    [apply wit_setting|vm_compute; reflexivity|done|by left|apply wit_compared
    |apply wit_changed|apply wit_affected].
Defined.

(** ** A restored row *)

(** A row that was soft-deleted and is saved with Deleted = false again is not added to the
    cached answers it matches: the cached list is still served without it. *)
Theorem restored_row_not_invalidated :
  let w := wit_world [1%Z] in
  let w' := (invalidate user_info (user 7 false "ann" 20) (Updated (user 7 true "ann" 20)) w).1 in
  KeepItem (user 7 false "ann" 20) = true ∧
  checks user_info adults (user 7 false "ann" 20) = Ok true ∧
  GetQueryIDs 1 adults_key (lc (w_cache w')) = (incrCounter "GetQueryIDsHit" (incrCounter "GetQueryIDs" (lc (w_cache w'))), Ok (Some [1%Z])).
Proof. vm_compute. done. Qed.

(** ** A column the comparison ignores *)

(** The same model with a column tagged [diff:"-"], and a query on it. *)
Definition note_type : list sfield := (user_type ++ [SField "Note" TString "note" "-"])%list.
Definition note_info : ModelInfo :=
  Eval vm_compute in
    match GetCachedModelInfo "User" user_methods note_type with
    | Ok i => i | _ => MkInfo "" "" [] [] ∅ ∅ [] [] [] false false end.
Definition noted : QueryParams := MkQueryParams "note = ?" [Some (VString "x")] "" [] false.
Definition noted_world : world local_client unit :=
  MkWorld (MkClient (SetQueryIDs 0 adults_key (Some [7%Z]) 0 new_localCache).1 wit_env 0)
    (RegisterQuery "users" adults_key noted NewCacheIndex) ().

(** A query whose clause names only an ignored column keeps its cached list when a row it matches is
    deleted: such columns are not among the columns the index is asked for. *)
Theorem ignored_column_not_invalidated :
  let m := (user 7 false "ann" 20 ++ [FVal "Note" (VString "x")])%list in
  let w' := (invalidate note_info m Deleted noted_world).1 in
  checks note_info noted m = Ok true ∧
  store (lc (w_cache w')) !! adults_key = Some (PBytes (GobIDs [7%Z])).
Proof. vm_compute. done. Qed.
