(* ===== verification/Examples.v ===== *)
(** * The general theorems on concrete inputs

    A WHERE clause, a local cache, locks and listeners on which the hypotheses
    of the theorems of the components hold. *)

From S2P Require Import Prelude GoStrings GoValues Predicate PredicateFacts QueryMatch QueryMatchFacts.
From S2P Require Import SqlSemantics CacheIndex CacheIndexFacts Metadata LocalCache CacheClient.
From S2P Require Import LocalCacheFacts Invalidate SqlBuilder Hooks Witnesses.

Open Scope string_scope.
Open Scope Z_scope.

(** ** Predicates *)

(** [Where("(age >= ? OR name LIKE 'a%') AND id IN (?, ?)", 18, 1, 2)]. *)
Definition some_params : QueryParams :=
  MkQueryParams "(age >= ? OR name LIKE 'a%') AND id IN (?, ?)"
    [Some (VInt WInt 18); Some (VInt W64 1); Some (VInt W64 2)] "" [] false.
Definition place (i : Z) : predicateOperand := MkOperand i None false.
Definition age_condition : predicateNode := conditionPredicateNode "age" ">=" [place 0].
Definition name_condition : predicateNode :=
  conditionPredicateNode "name" "LIKE" [MkOperand 0 (Some (VString "a%")) true].
Definition id_condition : predicateNode := conditionPredicateNode "id" "IN" [place 1; place 2].
Definition some_node : predicateNode :=
  logicalPredicateNode "AND" (logicalPredicateNode "OR" age_condition name_condition) id_condition.
Definition some_predicate : queryPredicate := MkQueryPredicate (Some some_node) (Args some_params).

Lemma some_parsed : parseQueryPredicate some_params = Ok some_predicate.
Proof. vm_compute. reflexivity. Qed.

Lemma parsed_predicate_wf_witness :
  qp_args some_predicate = Args some_params ∧ node_ok some_node ∧ node_places some_node = seqZ 0 3 ∧
  ∀ c, c ∈ node_conditions some_node →
    ∃ values, resolveOperands c.2 (Args some_params) = Ok values ∧ length values = length c.2.
Proof. apply (parsed_predicate_wf some_params some_predicate some_node); [apply some_parsed|reflexivity]. Defined.

Lemma some_canonical : canonical some_node.
Proof.
  split; [split|].
  - apply Forall_forall. intros c Hc.
    assert (c ∈ [("age", ">=", [place 0]); ("name", "LIKE", [MkOperand 0 (Some (VString "a%")) true]);
                 ("id", "IN", [place 1; place 2])]) as Hc' by exact Hc.
    repeat (apply elem_of_cons in Hc' as [->|Hc'];
      [split; [apply (bool_decide_unpack (_ ∈ known_operators)); vm_compute; done|done]|]).
    by apply elem_of_nil in Hc'.
  - apply Forall_cons. split; [by left|]. apply Forall_cons. split; [by right|]. constructor.
  - repeat constructor.
Qed.

Lemma parse_print_witness :
  parseExpression (MkParser (print 0 some_node ++ [tok tokenEOF ""])%list 3 0) =
  Ok (some_node, MkParser [tok tokenEOF ""] 3 3).
Proof. apply (parse_print some_node); [apply some_canonical|vm_compute; reflexivity]. Defined.

(** On a user of age 20 with id 2. *)
Definition some_truth (c : string * string * list predicateOperand) : bool :=
  if (c.1.1 =? "age")%string then sql_condition ">=" (SInt 20) [SInt 18]
  else if (c.1.1 =? "name")%string then sql_condition "LIKE" (SStr "bob") [SStr "a%"]
  else sql_condition "IN" (SInt 2) [SInt 1; SInt 2].

Lemma some_typed :
  Forall (typed_condition (user 2 false "bob" 20) (ColumnToFieldMap user_info) (Args some_params) some_truth)
    (node_conditions some_node).
Proof.
  repeat constructor.
  - exists (VInt WInt 20), [Some (VInt WInt 18)], (SInt 20), [SInt 18].
    split_and!; [vm_compute; reflexivity|reflexivity|done| |reflexivity].
    eapply or_single; [set_solver|apply fr_direct; constructor|constructor]; unfold in_width; simpl; lia.
  - exists (VString "bob"), [Some (VString "a%")], (SStr "bob"), [SStr "a%"].
    split_and!; [vm_compute; reflexivity|reflexivity|done| |reflexivity].
    eapply (or_like _ _ _ "bob" "a%" "a"); [set_solver|apply fr_direct; constructor| |reflexivity|reflexivity].
    split; [reflexivity|]. right; right; left. reflexivity.
  - exists (VInt W64 2), [Some (VInt W64 1); Some (VInt W64 2)], (SInt 2), [SInt 1; SInt 2].
    split_and!; [vm_compute; reflexivity|reflexivity|done| |reflexivity].
    eapply or_list; [reflexivity|reflexivity|apply fr_direct; constructor|repeat constructor];
      unfold in_width; simpl; lia.
Qed.


Lemma matchLike_sql_witness : matchLike "banana" "%nan%" = Ok (sql_like "%nan%" "banana").
Proof.
  apply (matchLike_sql "banana" "%nan%" "nan"); [|reflexivity|reflexivity].
  split; [reflexivity|]. right; right; right. reflexivity.
Defined.

(** ** The local cache *)

Lemma Set_Get_roundtrip_witness :
  (Get 5 "k" (Set_ 0 "k" "v" 10 new_localCache).1).2 = Ok "v".
Proof. apply (Set_Get_roundtrip 0 5 "k" "v" 10 new_localCache). discriminate. Defined.

Lemma GetModel_NoneResult_witness :
  (GetModel 5 "users:7" [] (Set_ 0 "users:7" NoneResult 10 new_localCache).1).2 = Err not_bytes.
Proof. apply (GetModel_NoneResult 0 5 "users:7" 10 [] new_localCache); reflexivity. Defined.

Definition expiring : localCache := (SetQueryIDs 0 adults_key (Some [1]) 10 new_localCache).1.

Lemma cleanup_tick_spec_witness :
  store (cleanup_tick 20 expiring idx1).1 !! adults_key = None ∧
  keyToParams (cleanup_tick 20 expiring idx1).2 !! adults_key = None.
Proof.
  pose proof (cleanup_tick_spec 20 expiring idx1 adults_key ltac:(vm_compute; reflexivity)) as Hspec.
  destruct (cleanup_tick 20 expiring idx1) as [m' idx']. destruct Hspec as (Hs&_&Hp).
  assert (Hn : store m' !! adults_key = None) by (rewrite Hs; vm_compute; reflexivity).
  split; [exact Hn|]. change (keyToParams idx' !! adults_key = None). rewrite Hp, Hn. reflexivity.
Defined.

Definition locked : localCache := with_locks (insert "k" true) new_localCache.

(** Thread 1 entered the critical section of [k]: any thread inside is thread 1. *)
Definition one_inside : lock_system := MkSys (incrCounter "AcquireLock" locked) ({[(1%nat, "k")]} ∪ ∅).

Lemma lock_mutual_exclusion_witness :
  rtc lock_step (MkSys new_localCache ∅) one_inside ∧ (1%nat, "k") ∈ inside one_inside ∧ 1%nat = 1%nat.
Proof.
  assert (Hr : rtc lock_step (MkSys new_localCache ∅) one_inside).
  { apply rtc_once. eapply (ls_enter 1%nat "k" 0 OnChannel). vm_compute. reflexivity. }
  assert (Hin : (1%nat, "k") ∈ inside one_inside) by (unfold one_inside; simpl; set_solver).
  split; [exact Hr|]. split; [exact Hin|].
  exact (lock_mutual_exclusion new_localCache one_inside 1%nat 1%nat "k" Hr Hin Hin).
Defined.

Lemma cancelled_release_keeps_lock_witness :
  ∃ m', ReleaseLock (OnCancel (ErrMsg "context canceled")) "k" locked = Some (m', Err (ErrMsg "context canceled")) ∧
        held m' "k".
Proof.
  destruct (cancelled_release_keeps_lock "k" locked (ErrMsg "context canceled")) as (m'&?&?&_); [reflexivity|eauto].
Defined.

(** ** [WithLock] *)

Definition a_world (m : localCache) : world local_client unit := MkWorld (MkClient m wit_env 0) NewCacheIndex ().
Definition put_it : world local_client unit → world local_client unit * result unit :=
  on_cache (cc_Set "x" "1" 0).

Lemma WithLock_held_witness : ∃ w' e, WithLock "k" put_it (a_world locked) = (w', Err e) ∧ errors_Is e ErrLockNotAcquired = true.
Proof.
  destruct (WithLock_held "k" put_it (a_world locked)) as (w'&e&?&?&_); [reflexivity|done|eauto].
Defined.

Lemma WithLock_free_witness : (WithLock "k" put_it (a_world new_localCache)).2 = Ok ().
Proof.
  destruct (WithLock_free "k" put_it (a_world new_localCache)) as (w1&_&_&_&_&Hr&_); [done|done|done|].
  rewrite Hr. unfold put_it, on_cache. reflexivity.
Defined.

(** ** A cached model *)

Lemma user_fields f :
  f ∈ Fields_ user_info → f = "ID" ∨ f = "CreatedAt" ∨ f = "UpdatedAt" ∨ f = "Deleted" ∨ f = "Name" ∨ f = "Age".
Proof. change (Fields_ user_info) with ["ID"; "CreatedAt"; "UpdatedAt"; "Deleted"; "Name"; "Age"]. set_solver. Qed.

Lemma user_cacheable id d n a id' d' n' a' f :
  f ∈ Fields_ user_info → exported f = true ∧ ∃ v v' old,
    FieldByName (user id d n a) f = Some v ∧ gob_keeps v v' ∧
    FieldByName (user id' d' n' a') f = Some old ∧ typeof old = typeof v.
Proof.
  intros [->|[->|[->|[->|[->| ->]]]]]%user_fields; (split; [done|]); eexists _, _, _;
    (split; [reflexivity|]); (split; [|split; reflexivity]); (split; [reflexivity|]); (split; [intros ?; discriminate|]);
    (split; reflexivity).
Qed.

Lemma SetModel_GetModel_witness :
  ∃ m, (GetModel 5 "users:7" (user 0 false "" 0)
          (SetModel 0 "users:7" (user 7 false "ann" 20) (Fields_ user_info) 10 new_localCache).1).2 = Ok m ∧
       FieldByName m "Age" = Some (VInt WInt 20).
Proof.
  destruct (SetModel_GetModel 0 5 "users:7" (user 7 false "ann" 20) (user 0 false "" 0) (Fields_ user_info) 10 new_localCache)
    as (_&m&Hm&Hf&_); [intros f; apply user_cacheable|reflexivity|].
  exists m. split; [exact Hm|]. rewrite Hf; [reflexivity|].
  apply (bool_decide_unpack ("Age" ∈ Fields_ user_info)). vm_compute. done.
Defined.

(** ** Statements and listeners *)

Lemma ExpandInClauses_counts_witness :
  count_q (ExpandInClauses "id IN (?) AND age > ?"
    [Some (VSlice (TInt W64) (Some [VInt W64 1; VInt W64 2])); Some (VInt WInt 18)]).1 = 3%nat.
Proof.
  rewrite (ExpandInClauses_counts "id IN (?) AND age > ?"
    [Some (VSlice (TInt W64) (Some [VInt W64 1; VInt W64 2])); Some (VInt WInt 18)]);
    [reflexivity|vm_compute; lia].
Defined.

Definition touch : EventListener := MkListener 1 (λ _ m, (set_field m "Name" (VString "x"), None)).
Definition refuse : EventListener := MkListener 2 (λ _ m, (m, Some (ErrMsg "no"))).
Definition some_registry : registry := RegisterListener "BeforeSave" touch ∅.

Lemma registered_listener_runs_last_witness :
  triggerEvent (RegisterListener "BeforeSave" refuse some_registry) "AfterSave" (user 7 false "ann" 20) =
    triggerEvent some_registry "AfterSave" (user 7 false "ann" 20) ∧
  UnregisterListener "BeforeSave" refuse (RegisterListener "BeforeSave" refuse some_registry) = some_registry.
Proof.
  destruct (registered_listener_runs_last some_registry "BeforeSave" refuse (user 7 false "ann" 20)) as (_&Hne&Hun).
  split; [apply Hne; discriminate|]. apply (Hun [touch]); [reflexivity|]. constructor; [discriminate|constructor].
Defined.

(** ** Nullable columns *)

(** A *string field is lost in the local cache: SetModel stores the model and GetModel
    returns it with the field nil; a nil pointer makes SetModel fail and nothing is stored. *)
Theorem pointer_field_lost :
  let nick p := [FVal "Nick" (VPtr TString p)] in
  let set p := SetModel 0 "users:7" (nick p) ["Nick"] 0 new_localCache in
  (set (Some (VString "jo"))).2 = Ok () ∧
  (GetModel 1 "users:7" (nick None) (set (Some (VString "jo"))).1).2 = Ok (nick None) ∧
  is_Ok (set None).2 = false ∧ store (set None).1 !! "users:7" = None.
Proof. vm_compute. done. Qed.

(** ** Other columns *)

Definition adults_predicate : queryPredicate :=
  MkQueryPredicate (Some (conditionPredicateNode "age" ">" [place 0])) [Some (VInt WInt 18)].

(** The clause names [age] only: another name does not change its value. *)
Lemma predicate_depends_on_fields_witness :
  parseQueryPredicate adults = Ok adults_predicate ∧
  predicate_Match adults_predicate (user 7 false "ann" 20) (ColumnToFieldMap user_info) =
  predicate_Match adults_predicate (user 7 false "bob" 20) (ColumnToFieldMap user_info).
Proof.
  split; [vm_compute; reflexivity|].
  apply predicate_depends_on_fields. intros c Hc.
  assert (Hs : c ∈ ({["age"]} : gset string)) by (revert Hc; unfold predicate_Fields; simpl; set_solver).
  apply elem_of_singleton in Hs as ->. vm_compute. reflexivity.
Defined.

Lemma SetQueryIDs_roundtrip_witness :
  (GetQueryIDs 5 "list:a" (SetQueryIDs 0 "list:a" (Some [3; 4]) 10 new_localCache).1).2 = Ok (Some [3; 4]) ∧
  (Get 5 "x" (SetQueryIDs 0 "list:a" (Some [3; 4]) 10 new_localCache).1).2 = (Get 5 "x" new_localCache).2.
Proof.
  destruct (SetQueryIDs_roundtrip 0 5 "list:a" (Some [3; 4]) 10 new_localCache) as [Hk Ho].
  split; [exact Hk|]. apply Ho. discriminate.
Defined.
