(* ===== verification/CrudExamples.v ===== *)
(** * Reads and writes on a small database

    A table of users with transactions that answers the statements the ORM
    builds for it by their verb and arguments; the theorems on [ByIDs],
    [Save], [Delete], [SaveMany] and [DeleteMany] apply to it. *)

From S2P Require Import Prelude GoStrings GoValues Predicate QueryMatch CacheIndex CacheIndexFacts.
From S2P Require Import Metadata LocalCache CacheClient LocalCacheFacts Invalidate InvalidateFacts.
From S2P Require Import MetadataFacts Freshness SqlBuilder Hooks Crud CrudFacts WriteFacts Witnesses.
From S2P Require Import Examples.

Open Scope string_scope.

(** ** The database *)

Record tdb := MkTdb {
  t_rows : gmap Z gostruct;
  t_saved : option (gmap Z gostruct);   (* the committed rows, inside a transaction *)
  t_next : Z
}.

Definition arg_ids (args : list (option goval)) : list Z :=
  omap (λ a, match a with Some (VInt W64 z) => Some z | _ => None end) args.

(** The row an INSERT of a user writes. *)
Definition inserted (id : Z) (args : list (option goval)) : option gostruct :=
  match args with
  | [Some c; Some u; Some d; Some n; Some a] =>
      Some [FEmbed "BaseModel" [FVal "ID" (VInt W64 id); FVal "CreatedAt" c; FVal "UpdatedAt" u;
                                FVal "Deleted" d; FVal "isNewRecord" (VBool false)];
            FVal "Name" n; FVal "Age" a]
  | _ => None
  end.

Definition t_exec (q : string) (args : list (option goval)) (d : tdb) : tdb * result exec_result :=
  if HasPrefix q "INSERT" then
    match inserted (t_next d) args with
    | Some row => (MkTdb (<[t_next d := row]> (t_rows d)) (t_saved d) (t_next d + 1), Ok (MkExec (Ok (t_next d)) 1))
    | None => (d, Err (ErrMsg "bad insert"))
    end
  else if HasPrefix q "DELETE" then
    match arg_ids args with
    | [id] => (MkTdb (delete id (t_rows d)) (t_saved d) (t_next d),
               Ok (MkExec (Ok 0%Z) (if t_rows d !! id then 1 else 0)%Z))
    | _ => (d, Err (ErrMsg "bad delete"))
    end
  else (d, Err (ErrMsg "unsupported statement")).

#[export] Instance tdb_adapter : DBAdapter tdb := {|
  db_dialect := SQLiteDialector;
  db_SelectIDs q args d := (d, Ok (elements (dom (t_rows d))));
  db_SelectModels q args d := (d, Ok (omap (λ id, t_rows d !! id) (arg_ids args)));
  db_GetModel q args d :=
    (d, match omap (λ id, t_rows d !! id) (arg_ids args) with r :: _ => Ok r | [] => Err ErrNotFound end);
  db_GetCount t q args d := (d, Ok (Z.of_nat (size (t_rows d))));
  db_Exec := t_exec;
  db_Begin d := match t_saved d with
                | None => (MkTdb (t_rows d) (Some (t_rows d)) (t_next d), Ok ())
                | Some _ => (d, Err (ErrMsg "already in a transaction"))
                end;
  db_Commit d := (MkTdb (t_rows d) None (t_next d), Ok ());
  db_Rollback d := (MkTdb (default (t_rows d) (t_saved d)) None (t_next d), Ok ())
|}.

Lemma t_exec_saved q args d : t_saved (t_exec q args d).1 = t_saved d.
Proof. unfold t_exec. by repeat case_match. Qed.

#[export] Instance tdb_tx : TxLaws tdb (gmap Z gostruct).
Proof.
  refine {| committed d := default (t_rows d) (t_saved d); in_tx d := is_Some (t_saved d) |}; simpl.
  - intros d. destruct (t_saved d); simpl; [done|by eauto].
  - intros d. destruct (t_saved d) eqn:E; simpl; by rewrite ?E.
  - intros q args d [s Hs]. rewrite t_exec_saved, Hs. by eauto.
  - by intros q args d.
  - by intros d.
  - done.
Defined.

Definition zero_user : gostruct := user 0 false "" 0.
Definition three_users : gmap Z gostruct :=
  <[1%Z := user 1 false "bob" 30]> (<[2%Z := user 2 false "eve" 40]> (<[7%Z := user 7 false "ann" 20]> ∅)).
Definition tdb1 : tdb := MkTdb three_users None 8.
Definition db_world (ids : list Z) : world local_client tdb := MkWorld (cached_list ids) idx1 tdb1.
Definition no_listeners : registry := ∅.
Definition clock (n : nat) : goval := VTime (100 + Z.of_nat n) 0.

(** ** Reading *)

(** The cache holds user 2; ids 1 and 9 are asked to the database. *)
Definition warm_world : world local_client tdb :=
  MkWorld (MkClient (SetModel 0 "users:2" (user 2 false "eve" 40) (Fields_ user_info) 0 new_localCache).1 wit_env 0)
    NewCacheIndex tdb1.

Lemma arg_ids_batch batch : arg_ids ((λ id, Some (VInt W64 id)) <$> batch) = batch.
Proof. induction batch as [|x batch IH]; [done|]. unfold arg_ids in *. cbn. by rewrite IH. Qed.

Lemma tdb_answers : table_answers user_info three_users (λ d, t_rows d = three_users).
Proof.
  intros d batch Hd _. simpl. split; [done|]. eexists. split; [done|]. intros r. rewrite Hd.
  by rewrite list_elem_of_omap, arg_ids_batch.
Qed.

Lemma three_keyed : table_keyed three_users.
Proof.
  intros id r. unfold three_users. rewrite !lookup_insert.
  repeat case_decide; try (rewrite lookup_empty; done); intros [= <-]; subst; done.
Qed.

Lemma warm_right :
  Forall2 (cached_right three_users) [1%Z; 2%Z; 9%Z]
    (cc_MGetModel ((λ id, (model_key user_info id, zero_user)) <$> [1%Z; 2%Z; 9%Z]) (w_cache warm_world)).2.
Proof.
  assert ((cc_MGetModel ((λ id, (model_key user_info id, zero_user)) <$> [1%Z; 2%Z; 9%Z]) (w_cache warm_world)).2 =
    [Err ErrNotFound; Ok (user 2 false "eve" 40); Err ErrNotFound]) as -> by (vm_compute; reflexivity).
  constructor; [done|]. constructor; [vm_compute; reflexivity|]. constructor; [done|constructor].
Qed.

Lemma fetchModelsByIDs_correct_witness :
  ∃ found, (fetchModelsByIDsInternal user_info zero_user 0 [1%Z; 2%Z; 9%Z] warm_world).2 = Ok found ∧
    found !! 1%Z = Some (user 1 false "bob" 30) ∧ found !! 9%Z = None.
Proof.
  destruct (fetchModelsByIDs_correct user_info zero_user 0 three_users (λ d, t_rows d = three_users) [1%Z; 2%Z; 9%Z] warm_world)
    as (found&Hf&Hl).
  - apply tdb_answers.
  - apply three_keyed.
  - reflexivity.
  - apply warm_right.
  - exists found. split; [exact Hf|]. rewrite !Hl. split; vm_compute; reflexivity.
Defined.

(** ** Batches *)

(** The second record is refused by a hook: nothing is written. *)
Definition refuse_bob : EventListener :=
  MkListener 3 (λ _ m, (m, match FieldByName m "Name" with
                           | Some (VString "bob") => Some (ErrMsg "no bob")
                           | _ => None
                           end)).
Definition picky : registry := RegisterListener "BeforeSave" refuse_bob ∅.
Definition two_new : list gostruct := [user 0 false "ann" 20; user 0 false "bob" 21].

Lemma SaveMany_atomic_witness :
  untouched (db_world [1%Z]) (SaveMany user_info zero_user 0 picky clock two_new (db_world [1%Z])).1.1.
Proof.
  apply (proj1 (SaveMany_atomic user_info zero_user 0 picky clock two_new (db_world [1%Z]))
    (ErrWrap "SaveMany item failed" (ErrWrap "BeforeSave hook failed" (ErrWrap "event listener failed" (ErrMsg "no bob"))))).
  vm_compute. reflexivity.
Defined.

(** The second record is not in the table. *)
Definition one_missing : list gostruct := [user 7 false "ann" 20; user 9 false "zoe" 20].

Lemma DeleteMany_atomic_witness :
  untouched (db_world [1%Z; 7%Z]) (DeleteMany user_info no_listeners one_missing (db_world [1%Z; 7%Z])).1.1.
Proof.
  destruct (DeleteMany_atomic user_info no_listeners one_missing (db_world [1%Z; 7%Z]))
    as [[Hu _]|(w1&vs&Hd&_)]; [discriminate|exact Hu|].
  apply (f_equal snd) in Hd. vm_compute in Hd. discriminate.
Defined.

(** ** Deleting and saving *)

Lemma user_key_plain id : query_key (model_key user_info id) = false.
Proof. reflexivity. Qed.

Definition user_at (t : Z) (id : Z) (name : string) (age : Z) : gostruct :=
  [FEmbed "BaseModel" [FVal "ID" (VInt W64 id); FVal "CreatedAt" (VTime t 0); FVal "UpdatedAt" (VTime t 0);
                       FVal "Deleted" (VBool false); FVal "isNewRecord" (VBool false)];
   FVal "Name" (VString name); FVal "Age" (VInt WInt age)].

Lemma user_setting (m : gostruct) wk ids d :
  wk_create wk = true ∨ wk_delete wk = true → has_type m user_type → GetID m ≠ 0%Z →
  (∀ msg, checks user_info adults m ≠ Panic msg) →
  local_setting key_table "User" user_methods user_type user_info m wk (MkWorld (cached_list ids) idx1 d : world local_client tdb).
Proof.
  intros Hwk Hty Hid Hnp. split; try done.
  - apply (bool_decide_unpack (NoDup (all_names user_type))). vm_compute. done.
  - apply (bool_decide_unpack (NoDup (Columns user_info))). vm_compute. done.
  - intros o ->. by destruct Hwk.
  - apply idx1_reachable.
  - apply lists_typed_wit.
  - intros k p [_ ->]%idx1_params _ m' msg Hm.
    assert (m' = m) as ->; [|done]. destruct wk; simpl in Hm; [set_solver..|by destruct Hwk].
Qed.

Lemma adults_params : keyToParams idx1 !! adults_key = Some adults.
Proof. vm_compute. reflexivity. Qed.

Lemma Delete_fresh_witness :
  store (lc (w_cache (deleteInternal user_info no_listeners (user 7 false "ann" 20) (db_world [1%Z; 7%Z])).1.1)) !! adults_key = None.
Proof.
  destruct (Delete_fresh key_table "User" user_methods user_type user_info no_listeners (user 7 false "ann" 20)
    (user 7 false "ann" 20) (db_world [1%Z; 7%Z])) as (_&_&_&Hq).
  - reflexivity.
  - apply (user_setting (user 7 false "ann" 20) Deleted [1%Z; 7%Z] tdb1); [right; reflexivity|apply has_type_user|vm_compute; discriminate|intros msg; vm_compute; discriminate].
  - reflexivity.
  - vm_compute. reflexivity.
  - apply (Hq adults_key adults); [apply adults_params|reflexivity|reflexivity|apply wit_clause|left; vm_compute; discriminate].
Defined.

(** A new user is inserted with id 8. *)
Definition new_mu : saveMutation := MkMutation (user_at 100 8 "ann" 20) None true ∅ true.
Definition after_insert : world local_client tdb :=
  MkWorld (cached_list [1%Z]) idx1
    (MkTdb (<[8%Z := user_at 100 8 "ann" 20]> three_users) None 9).

Lemma new_saved :
  saveWithExecutor user_info zero_user 0 no_listeners (clock 0) (user 0 false "ann" 20) false (db_world [1%Z]) =
  (after_insert, new_mu, Ok ()).
Proof. vm_compute. reflexivity. Qed.

Lemma Save_fresh_witness :
  (Save user_info zero_user 0 no_listeners (clock 0) (user 0 false "ann" 20) (db_world [1%Z])).2 = Ok ().
Proof.
  apply (Save_fresh key_table "User" user_methods user_type user_info zero_user 0 no_listeners (clock 0)
    (user 0 false "ann" 20) (db_world [1%Z]) after_insert new_mu adults_key adults
    {["id"; "created_at"; "updated_at"; "deleted"; "name"; "age"]}).
  - apply new_saved.
  - reflexivity.
  - apply user_setting; [left; reflexivity| |vm_compute; discriminate|intros msg; vm_compute; discriminate].
    repeat (constructor || apply ft_embed).
  - reflexivity.
  - apply adults_params.
  - reflexivity.
  - reflexivity.
  - apply wit_compared.
  - vm_compute. reflexivity.
  - apply aff_created. vm_compute. discriminate.
Defined.

Lemma user_at_cacheable t id n a : cacheable (Fields_ user_info) (user_at t id n a) zero_user.
Proof.
  intros f [->|[->|[->|[->|[->| ->]]]]]%user_fields; (split; [done|]); eexists _, _, _;
    (split; [reflexivity|]); (split; [|split; reflexivity]); (split; [reflexivity|]); (split; [intros ?; discriminate|]);
    (split; reflexivity).
Qed.


(** ** Other invalidations *)

(** A child's name changes: the cached list of adults stays. *)
Lemma invalidation_precise_witness :
  store (lc (w_cache (invalidate user_info (user 7 false "eve" 10) (Updated (user 7 false "ann" 10)) (db_world [1%Z])).1))
    !! adults_key = Some (PBytes (GobIDs [1%Z])).
Proof.
  destruct (invalidation_precise key_table user_info (user 7 false "eve" 10) (Updated (user 7 false "ann" 10))
    (db_world [1%Z]) adults_key adults) as [Hs _].
  - apply idx1_reachable.
  - apply adults_params.
  - left. reflexivity.
  - vm_compute. reflexivity.
  - intros o Ho. injection Ho as <-. vm_compute. reflexivity.
  - rewrite Hs. vm_compute. reflexivity.
Defined.

Lemma InvalidateQueryCaches_clears_witness :
  (InvalidateQueryCaches user_info (db_world [1%Z])).2 = Ok () ∧
  ¬ live (w_cache (InvalidateQueryCaches user_info (db_world [1%Z])).1) adults_key.
Proof.
  destruct (InvalidateQueryCaches_clears (C := local_client) local_deletes_reliably key_table user_info (db_world [1%Z])
    adults_key adults) as (Hr&Hl&_); [apply idx1_reachable|discriminate|apply adults_params|reflexivity|].
  split; [exact Hr|exact Hl].
Defined.
