(* ===== verification/QueryExamples.v ===== *)
(** * Queries on a small database

    A database of users that answers the statements of the query layer: it
    reads the limit and the offset of a page from the text. *)

From S2P Require Import Prelude GoStrings GoStringsFacts GoValues Predicate QueryMatch CacheIndex Metadata LocalCache.
From S2P Require Import CacheClient LocalCacheFacts Invalidate InvalidateFacts Freshness SqlBuilder Hooks Crud CrudFacts.
From S2P Require Import Query QueryFacts LocalQuery Witnesses Examples CrudExamples.

Open Scope string_scope.

#[export] Instance wit_env_query : QueryEnv :=
  {| json_Marshal := λ p, Some (Where p); marshal_failed_at := λ _, 0%Z; GetCacheVersion := 1%Z |}.

(** ** Reading a page from its text *)


Lemma until_digits fuel n acc rest :
  until " " (acc +:+ String " " rest) = Some (acc, rest) →
  until " " (format_pos_fuel fuel n acc +:+ String " " rest) = Some (format_pos_fuel fuel n acc, rest).
Proof.
  revert n acc. induction fuel as [|fuel IH]; intros n acc Hacc; [done|]. cbn [format_pos_fuel].
  assert (Hstep : until " " (String (digit_char (n mod 10)) acc +:+ String " " rest) =
                  Some (String (digit_char (n mod 10)) acc, rest)).
  { assert (Hmod : (n mod 10 < 10)%N) by (apply N.mod_lt; lia). generalize dependent (n mod 10)%N. intros d Hd.
    change (until " " (String (digit_char d) (acc +:+ String " " rest)) = Some (String (digit_char d) acc, rest)).
    cbn [until]. rewrite Hacc, bool_decide_false; [done|]. digits d Hd; discriminate. }
  destruct (n / 10 =? 0)%N; [done|by apply IH].
Qed.

Lemma FormatInt_until n rest :
  until " " (FormatInt (Z.of_nat n) +:+ String " " rest) = Some (FormatInt (Z.of_nat n), rest).
Proof. destruct n; [done|]. by apply until_digits. Qed.

(** ** The database *)

(** The adults, oldest first. *)
Definition by_age : QueryParams := MkQueryParams "age > ?" [Some (VInt WInt 18)] "age DESC" [] false.
Definition adult_ids : list Z := [2%Z; 1%Z; 7%Z].

Definition by_age_text : string :=
  "SELECT " +:+ dquote "id" +:+ " FROM " +:+ dquote "users" +:+ " WHERE (age > ?) AND " +:+ dquote "deleted" +:+
  " = false ORDER BY age DESC".

(** The page a statement asks for; a number out of range is beyond the list. *)
Definition page_of (q : string) (ids : list Z) : list Z :=
  match until " " (drop_str (String.length (by_age_text +:+ " LIMIT ")) q) with
  | Some (limit, rest) =>
      let ids := match ParseInt (drop_str (String.length "OFFSET ") rest) with
                 | Some offset => drop (Z.to_nat offset) ids
                 | None => []
                 end in
      match ParseInt limit with Some n => take (Z.to_nat n) ids | None => ids end
  | None => []
  end.

(** A read-only table. *)
Record pdb := MkPdb { p_rows : gmap Z gostruct }.

#[export] Instance pdb_adapter : DBAdapter pdb := {|
  db_dialect := SQLiteDialector;
  db_SelectIDs q args d := (d, Ok (page_of q adult_ids));
  db_SelectModels q args d := (d, Ok (omap (λ id, p_rows d !! id) (arg_ids args)));
  db_GetModel q args d :=
    (d, match omap (λ id, p_rows d !! id) (arg_ids args) with r :: _ => Ok r | [] => Err ErrNotFound end);
  db_GetCount t q args d := (d, Ok (Z.of_nat (length adult_ids)));
  db_Exec q args d := (d, Err (ErrMsg "attempt to write a readonly database"));
  db_Begin d := (d, Ok ());
  db_Commit d := (d, Ok ());
  db_Rollback d := (d, Ok ())
|}.

Definition p_ok (d : pdb) : Prop := p_rows d = three_users.

Lemma beyond_int64 n : int64_range (Z.of_nat n) = false → (length adult_ids ≤ n)%nat.
Proof. unfold int64_range, min_int64, max_int64. intros Hr. change (length adult_ids) with 3%nat. lia. Qed.

Lemma page_of_text off lim :
  page_of (ids_query user_info by_age (Z.of_nat off) (Z.of_nat lim)).1 adult_ids = take lim (drop off adult_ids).
Proof.
  assert (Hq : (ids_query user_info by_age (Z.of_nat off) (Z.of_nat lim)).1 =
    (by_age_text +:+ " LIMIT ") +:+ (FormatInt (Z.of_nat lim) +:+ String " " ("OFFSET " +:+ FormatInt (Z.of_nat off)))) by reflexivity.
  rewrite Hq. unfold page_of. rewrite drop_str_app, FormatInt_until, drop_str_app, !ParseInt_FormatInt.
  destruct (int64_range (Z.of_nat off)) eqn:Eo, (int64_range (Z.of_nat lim)) eqn:El; rewrite ?Nat2Z.id; [done| | |].
  - apply beyond_int64 in El. symmetry. apply take_ge. rewrite length_drop. lia.
  - apply beyond_int64 in Eo. by rewrite (drop_ge adult_ids off), !take_nil.
  - apply beyond_int64 in Eo. by rewrite (drop_ge adult_ids off), take_nil.
Qed.

Lemma pdb_answers : db_answers user_info three_users p_ok by_age adult_ids.
Proof.
  split; [|apply three_keyed| |done].
  - intros d batch Hd _. simpl. split; [done|]. eexists. split; [done|]. intros r. rewrite Hd.
    by rewrite list_elem_of_omap, arg_ids_batch.
  - intros d off lim Hd. split; [done|]. cbn [snd db_SelectIDs pdb_adapter]. f_equal. apply page_of_text.
Qed.

Lemma by_age_default : default_query user_info three_users by_age adult_ids.
Proof.
  split; [done..|]. intros id. unfold adult_ids. rewrite !elem_of_cons, elem_of_nil.
  intros [->|[->|[->|[]]]]; eexists; (split; [vm_compute; reflexivity|reflexivity]).
Qed.

(** ** Pages of the adults *)

Lemma users_plain_keys : plain_keys user_info.
Proof. by intros id. Qed.

Definition reread (r : gostruct) : result gostruct :=
  match gob_map (model_data (setNewRecordFlagIfBaseModel false r) (Fields_ user_info)) with
  | Some d => populate (map_to_list d) zero_user
  | None => Err ErrNotFound
  end.

Lemma users_survive : rows_survive user_info zero_user three_users.
Proof.
  assert (Hre : ∀ id r, three_users !! id = Some r → reread r = Ok r).
  { intros id r. unfold three_users. rewrite !lookup_insert.
    repeat case_decide; try (rewrite lookup_empty; done); intros [= <-]; subst; vm_compute; reflexivity. }
  intros id r d Hr Hd. pose proof (Hre id r Hr) as Hread. unfold reread in Hread. rewrite Hd in Hread.
  exists r. split; [done|]. unfold row_of. by rewrite Hr.
Qed.

Definition empty_client : local_client := MkClient new_localCache wit_env 0.
Definition page_world : world local_client pdb := MkWorld empty_client NewCacheIndex (MkPdb three_users).

(** Two adults after the oldest. *)
Lemma local_Fetch_page_witness :
  ∃ w' cr', Fetch user_info zero_user 0 (Query by_age) 1 2 page_world =
    (w', cr', Some (Ok [user 1 false "bob" 30; user 7 false "ann" 20])).
Proof.
  destruct (local_Fetch_page user_info zero_user 0 three_users by_age adult_ids users_plain_keys users_survive
    p_ok (Query by_age) 1 2 page_world) as (w'&cr'&Hf&_);
    [apply pdb_answers|apply by_age_default|reflexivity|apply local_ok_empty|apply Query_ok|].
  exists w', cr'. exact Hf.
Defined.

Notation users_cache := (local_caches_query user_info zero_user 0 three_users by_age adult_ids users_plain_keys users_survive).
Notation users_local := (local_ok user_info three_users by_age adult_ids).

Lemma page_world_ok : world_ok p_ok users_local page_world.
Proof. split; [reflexivity|apply local_ok_empty]. Qed.

Lemma Fetch_page_witness :
  ∃ w' cr', Fetch user_info zero_user 0 (Query by_age) 0 1 page_world = (w', cr', Some (Ok [user 2 false "eve" 40])).
Proof.
  destruct (Fetch_page user_info zero_user 0 three_users p_ok users_local by_age adult_ids pdb_answers users_cache
    by_age_default (Query by_age) 0 1 page_world) as (w'&cr'&Hf&_); [apply page_world_ok|apply Query_ok|].
  exists w', cr'. exact Hf.
Defined.

Lemma Count_correct_witness :
  ∃ w' cr', Count user_info 0 (Query by_age) page_world = (w', cr', Ok 3%Z).
Proof.
  destruct (Count_correct user_info zero_user 0 three_users p_ok users_local by_age adult_ids pdb_answers users_cache
    (Query by_age) page_world) as (w'&cr'&Hc&_); [apply page_world_ok|apply Query_ok|].
  exists w', cr'. exact Hc.
Defined.

Lemma Count_reads_through_witness :
  (Count user_info 0 (Query by_age) page_world).2 = Ok 3%Z ∧
  let w1 := (Count user_info 0 (Query by_age) page_world).1.1 in
  keyToParams (w_index w1) !! count_key user_info by_age = Some by_age ∧ (Count user_info 0 (Query by_age) w1).2 = Ok 3%Z.
Proof.
  destruct (Count_reads_through user_info 0 (Query by_age) (Query by_age) None page_world) as [_ Hc];
    [reflexivity|reflexivity|reflexivity|discriminate|vm_compute; reflexivity|vm_compute; reflexivity|reflexivity|reflexivity|].
  destruct Hc as (Hr&_&_&Hs). destruct Hs as (_&Hi&Hb&_); [reflexivity|]. split; [exact Hr|]. split; [exact Hi|exact Hb].
Defined.

Lemma countByFullScan_correct_witness :
  ∃ w', countByFullScan user_info zero_user 0 4 (Query by_age) page_world = (w', Some (Ok 3%nat)).
Proof.
  destruct (countByFullScan_correct user_info zero_user 0 three_users p_ok users_local by_age adult_ids pdb_answers
    users_cache 4 (Query by_age) page_world) as (w'&Hc&_); [apply page_world_ok|apply Query_ok|simpl; lia|].
  exists w'. exact Hc.
Defined.

(** The second read is answered by the cache: the database is not asked. *)
Example second_read_cached :
  let '(w1, _, _) := Fetch user_info zero_user 0 (Query by_age) 0 3 page_world in
  let gone := MkWorld (w_cache w1) (w_index w1) (MkPdb ∅) in
  (Fetch user_info zero_user 0 (Query by_age) 0 2 gone).2 =
  Some (Ok [user 2 false "eve" 40; user 1 false "bob" 30]).
Proof. vm_compute. reflexivity. Qed.
