(* ===== verification/RelationsExamples.v ===== *)
(** * Relations on a small database

    Bands of an age own the users of that age; a band has one leader and a list
    of guests in a join table.  The theorems on the three relations apply; a
    second load of the guests, answered by the local cache, finds nobody. *)

From S2P Require Import Prelude GoStrings GoStringsFacts GoValues Predicate QueryMatch CacheIndex Metadata LocalCache.
From S2P Require Import CacheClient LocalCacheFacts Invalidate InvalidateFacts Freshness SqlBuilder Hooks Crud CrudFacts.
From S2P Require Import Query QueryFacts LocalQuery Relations RelationsFacts Witnesses Examples CrudExamples QueryExamples.

Open Scope string_scope.

(** ** A cache that keeps nothing *)

#[export] Instance null_cache : CacheClient unit := {|
  cc_Get _ c := (c, Err ErrNotFound);
  cc_Set _ _ _ c := (c, Ok ());
  cc_Delete _ c := (c, Ok ());
  cc_GetModel _ _ c := (c, Err ErrNotFound);
  cc_SetModel _ _ _ _ c := (c, Ok ());
  cc_DeleteModel _ c := (c, Ok ());
  cc_MGetModel ks c := (c, (λ _, Err ErrNotFound) <$> ks);
  cc_GetQueryIDs _ c := (c, Err ErrNotFound);
  cc_SetQueryIDs _ _ _ c := (c, Ok ());
  cc_DeleteQueryIDs _ c := (c, Ok ());
  cc_AcquireLock _ _ c := (c, Ok true);
  cc_ReleaseLock _ c := (c, Ok ());
  cc_Wait c := (c, None)
|}.

#[export] Instance null_laws : CacheLaws unit.
Proof. refine {| live _ _ := False |}; naive_solver. Defined.

Definition any_cache (c : unit) : Prop := True.

Lemma null_caches_rows rows : caches_rows user_info zero_user 0 rows any_cache.
Proof.
  split; [|done..]. intros c ids _. split; [done|]. simpl. apply Forall2_fmap_r, Forall2_fmap_r, Forall_Forall2_diag.
  by apply Forall_true.
Qed.

(** ** The database *)

Record rdb := MkRdb { r_rows : gmap Z gostruct; r_joined : Z → list Z }.

Definition age_in (args : list (option goval)) (m : gostruct) : bool :=
  existsb (λ a, fk_matches "Age" a m) args.

#[export] Instance rdb_adapter : DBAdapter rdb := {|
  db_dialect := SQLiteDialector;
  db_SelectIDs q args d := (d, Ok (filter (λ id, match r_rows d !! id with Some m => age_in args m | None => false end = true)
                                    (elements (dom (r_rows d)))));
  db_SelectModels q args d := (d, Ok (omap (λ id, r_rows d !! id) (arg_ids args)));
  db_GetModel q args d :=
    (d, match omap (λ id, r_rows d !! id) (arg_ids args) with r :: _ => Ok r | [] => Err ErrNotFound end);
  db_GetCount t q args d := (d, Ok (Z.of_nat (size (r_rows d))));
  db_Exec q args d := (d, Err (ErrMsg "attempt to write a readonly database"));
  db_Begin d := (d, Ok ());
  db_Commit d := (d, Ok ());
  db_Rollback d := (d, Ok ())
|}.

#[export] Instance rdb_relations : RelationEnv rdb := {|
  sha256_hex s := s;
  db_QueryIDs q args d := (d, RowsIDs match args with [Some (VInt W64 z)] => r_joined d z | _ => [] end)
|}.

Definition guests (band : Z) : list Z := if (band =? 1)%Z then [7%Z; 2%Z] else [].
Definition rdb1 : rdb := MkRdb three_users guests.
Definition r_ok (d : rdb) : Prop := d = rdb1.

Lemma rdb_answers : table_answers user_info three_users r_ok.
Proof.
  intros d batch -> _. simpl. split; [done|]. eexists. split; [done|]. intros r.
  by rewrite list_elem_of_omap, arg_ids_batch.
Qed.

(** ** The owners *)

Definition user_struct : gotype := TOpaque OStruct "User".
Definition band_info : ModelInfo :=
  MkInfo "bands" "id" ["id"; "leader_id"; "age"] ["ID"; "LeaderID"; "Age"] ∅
    (<["id" := "ID"]> (<["leader_id" := "LeaderID"]> (<["age" := "Age"]> ∅))) [] [] [] false false.
Definition band_fields : gmap string (gotype * string) :=
  <["Leader" := (TPtr user_struct, "belongsTo;fk:leader_id")]>
  (<["Members" := (TSlice user_struct, "hasMany;fk:age;localKey:age")]>
  (<["Guests" := (TSlice (TPtr user_struct), "manyToMany;joinTable:guests;joinLocalKey:band_id;joinRelatedKey:user_id")]> ∅)).
Definition band (id leader age : Z) : loaded :=
  MkLoaded [FVal "ID" (VInt W64 id); FVal "LeaderID" (VInt W64 leader); FVal "Age" (VInt WInt age)] ∅.
Definition bands : list loaded := [band 1 7 30; band 2 9 18].
Definition related_user (t : gotype) : related_model :=
  if bool_decide (t = user_struct) then MkRelated (Ok user_info) zero_user else MkRelated (Err ErrNotFound) [].

Definition band_world : world unit rdb := MkWorld () NewCacheIndex rdb1.
Lemma band_world_ok : world_ok r_ok any_cache band_world.
Proof. done. Qed.

Definition tag_of (name : string) : RelationshipOpts :=
  match parseThingTag (default (TBool, "") (band_fields !! name)).2 with Ok o => o | _ => MkRel "" "" "" "" "" "" "" end.

(** ** The three relations *)

Definition leaders (r : world unit rdb * list loaded * result unit) : list (option relation_value) :=
  (λ o, l_rels o !! "Leader") <$> r.1.2.

Lemma preloadBelongsTo_correct_witness :
  leaders (preloadBelongsTo band_info band_fields related_user 0 "Leader" (TPtr user_struct) (tag_of "Leader") bands band_world) =
  [Some (RelPtr (user 7 false "ann" 20)); None].
Proof.
  destruct (preloadBelongsTo_correct band_info band_fields related_user 0 user_struct user_info zero_user three_users
    r_ok any_cache eq_refl (null_caches_rows _) rdb_answers three_keyed "Leader" (TPtr user_struct) (tag_of "Leader")
    "LeaderID" bands band_world) as (w'&owners'&Heq&_&Hall); [apply band_world_ok|reflexivity..|].
  rewrite Heq. unfold leaders. cbn [fst snd].
  inversion Hall as [|o1 o1' ? l1 [_ H1] Hall1]; subst. inversion Hall1 as [|o2 o2' ? l2 [_ H2] Hall2]; subst.
  inversion Hall2; subst. cbn [fmap list_fmap]. rewrite H1, H2. vm_compute. reflexivity.
Defined.

Lemma row_of_three id : row_of three_users id = three_users !! id.
Proof.
  unfold row_of, three_users. rewrite !lookup_insert. by repeat case_decide.
Qed.

Lemma select_by_age args :
  ids_right three_users "Age" args
    (filter (λ id, match three_users !! id with Some m => age_in args m | None => false end = true)
       (elements (dom three_users))).
Proof.
  intros id. rewrite list_elem_of_filter, elem_of_elements, elem_of_dom, row_of_three. unfold age_in. split.
  - intros [Hm [m Em]]. rewrite Em in Hm. apply existsb_exists in Hm as (k&Hk%list_elem_of_In&Hf). by exists m, k.
  - intros (m&k&Em&Hk&Hf). rewrite Em. split; [|by eexists]. apply existsb_exists. exists k. split; [by apply list_elem_of_In|done].
Qed.

Lemma null_caches_related params :
  caches_related 0 user_info three_users r_ok any_cache "Age" params.
Proof. split; [done..|]. intros d ->. split; [done|]. eexists. split; [done|]. apply select_by_age. Qed.

Lemma three_ages_hashable id m v :
  row_of three_users id = Some m → FieldByName m "Age" = Some v → hashable (value_Interface v) = true.
Proof.
  rewrite row_of_three. unfold three_users. rewrite !lookup_insert.
  repeat case_decide; try (rewrite lookup_empty; done); intros [= <-]; vm_compute; intros [= <-]; reflexivity.
Qed.

Lemma preloadHasMany_correct_witness :
  ∃ w' o1 o2 ms, preloadHasMany band_info related_user 0 "Members" (TSlice user_struct) (tag_of "Members") bands band_world =
    (w', [o1; o2], Ok ()) ∧ l_rels o1 !! "Members" = Some (RelSlice ms) ∧ ms ≡ₚ [user 1 false "bob" 30].
Proof.
  destruct (preloadHasMany_correct band_info related_user 0 user_struct user_info zero_user three_users
    r_ok any_cache eq_refl (null_caches_rows _) rdb_answers three_keyed "Members" (TSlice user_struct) (tag_of "Members")
    "Age" "Age" bands band_world) as (w'&owners'&Heq&_&Hall);
    [apply band_world_ok|reflexivity..|apply three_ages_hashable|apply null_caches_related|].
  inversion Hall as [|o1 o1' ? l1 [_ (ms&Hms&Hp)] Hall1]; subst. inversion Hall1 as [|o2 o2' ? l2 _ Hall2]; subst.
  inversion Hall2; subst. exists w', o1', o2', ms. split; [exact Heq|]. split; [exact Hms|].
  assert (records_of three_users "Age" (Some (VInt WInt 30)) = [user 1 false "bob" 30]) as <- by (vm_compute; reflexivity).
  exact Hp.
Defined.

Lemma null_joins_ok opts : joins_ok r_ok any_cache opts (λ k, match k with Some (VInt W64 z) => guests z | _ => [] end).
Proof. split; [|done..]. by intros d k ->. Qed.


(** ** A second load *)

Definition guests_texts : gmap string payload :=
  <["guests:band_id:1" := PString "[7,2]"]> (<["guests:band_id:2" := PString "null"]> ∅).
Definition warm_cache (c : local_client) : Prop := store (lc c) = guests_texts ∧ expiryStore (lc c) = ∅.
Definition warm_bands : world local_client rdb :=
  MkWorld (MkClient (MkLocal guests_texts ∅ ∅ ∅ false) wit_env 0) NewCacheIndex rdb1.

Lemma warm_Get c key text :
  warm_cache c → guests_texts !! key = Some (PString text) →
  warm_cache (cc_Get key c).1 ∧ (cc_Get key c).2 = Ok text.
Proof.
  intros [Hs He] Hk. unfold warm_cache. cbn [cc_Get local_CacheClient]. rewrite !local_op_1, local_op_2.
  unfold Get, isExpired, incrCounter. cbn [store expiryStore]. rewrite Hs, Hk, He, lookup_empty. done.
Qed.

Lemma warm_guests :
  warm warm_cache (tag_of "Guests") (field_keys "ID" bands) (λ k, match k with Some (VInt W64 z) => guests z | _ => [] end).
Proof.
  intros c k Hc Hk.
  assert (Hkeys : k = Some (VInt W64 1) ∨ k = Some (VInt W64 2)).
  { assert (field_keys "ID" bands = [Some (VInt W64 1); Some (VInt W64 2)]) as E by (vm_compute; reflexivity).
    rewrite E in Hk. set_solver. }
  assert (H1 : join_key (tag_of "Guests") (Some (VInt W64 1)) = "guests:band_id:1") by (vm_compute; reflexivity).
  assert (H2 : join_key (tag_of "Guests") (Some (VInt W64 2)) = "guests:band_id:2") by (vm_compute; reflexivity).
  destruct Hkeys as [-> | ->].
  - rewrite H1. destruct (warm_Get c "guests:band_id:1" "[7,2]" Hc) as [Hw Hg]; [reflexivity|].
    split; [done|]. exists "[7,2]". split; [done|vm_compute; reflexivity].
  - rewrite H2. destruct (warm_Get c "guests:band_id:2" "null" Hc) as [Hw Hg]; [reflexivity|].
    split; [done|]. exists "null". split; [done|vm_compute; reflexivity].
Qed.

Lemma preloadManyToMany_warm_witness :
  ∃ w' o1 o2, preloadManyToMany band_info related_user 0 "Guests" (TSlice (TPtr user_struct)) (tag_of "Guests") bands warm_bands =
    (w', [o1; o2], Ok ()) ∧ l_rels o1 !! "Guests" = Some (RelSlice []).
Proof.
  destruct (preloadManyToMany_warm band_info related_user 0 user_struct user_info zero_user warm_cache eq_refl
    (tag_of "Guests") "Guests" (TSlice (TPtr user_struct)) "ID" bands
    (λ k, match k with Some (VInt W64 z) => guests z | _ => [] end) warm_bands) as (w'&owners'&Heq&Hall);
    [apply warm_guests|split; reflexivity|discriminate|split_and!; discriminate|reflexivity..|].
  inversion Hall as [|o1 o1' ? l1 H1 Hall1]; subst. inversion Hall1 as [|o2 o2' ? l2 H2 Hall2]; subst.
  inversion Hall2; subst. exists w', o1', o2'. split; [exact Heq|]. apply H1. vm_compute. eauto.
Defined.

(** The same band loaded twice through the local cache. *)
Definition cold_band_world : world local_client rdb := MkWorld (MkClient new_localCache wit_env 0) NewCacheIndex rdb1.

Example guests_lost_on_second_load :
  let '(w, o, r) := Load band_info band_fields related_user 0 (band 1 7 30) ["Guests"] cold_band_world in
  let '(_, o', r') := Load band_info band_fields related_user 0 (band 1 7 30) ["Guests"] w in
  r = Ok () ∧ l_rels o !! "Guests" = Some (RelSlice [user 7 false "ann" 20; user 2 false "eve" 40]) ∧
  r' = Ok () ∧ l_rels o' !! "Guests" = Some (RelSlice []).
Proof. vm_compute. done. Qed.

(** Leader and members are loaded together. *)
Example leader_and_members :
  let '(_, o, r) := Load band_info band_fields related_user 0 (band 1 7 30) ["Leader"; "Members"] cold_band_world in
  r = Ok () ∧ l_rels o !! "Leader" = Some (RelPtr (user 7 false "ann" 20)) ∧
  l_rels o !! "Members" = Some (RelSlice [user 1 false "bob" 30]).
Proof. vm_compute. done. Qed.

Lemma UnmarshalIDs_MarshalIDs_witness : UnmarshalIDs (MarshalIDs [7%Z; (-2)%Z; 0%Z]) = Some [7%Z; (-2)%Z; 0%Z].
Proof. apply UnmarshalIDs_MarshalIDs. repeat constructor. Defined.
