(* ===== verification/SelectorExamples.v ===== *)
(** * JSON field selection on concrete values *)

From S2P Require Import Prelude GoStrings GoStringsFacts GoValues Metadata FieldSelector FieldSelectorFacts.

Open Scope string_scope.

Definition jf (name tag : string) : jfield := MkJF name tag false.

(** A user with an embedded base, a profile, two books and a virtual field. *)
Definition book (id : Z) (title : string) : rvalue :=
  RPtr (RStruct [(jf "ID" "id", RPlain (VInt W64 id)); (jf "Title" "title", RPlain (VString title))] []).
Definition json_user : rvalue :=
  RPtr (RStruct
    [(MkJF "BaseModel" "" true, RStruct [(jf "ID" "id", RPlain (VInt W64 1)); (jf "isNew" "", RPlain (VBool false))] []);
     (jf "Name" "name", RPlain (VString "ann"));
     (jf "UserName" "", RPlain (VString "ann1"));
     (jf "Password" "-", RPlain (VString "secret"));
     (jf "Books" "books,omitempty", RList [book 3 "Go"; book 4 "Rocq"])]
    [("FullName", VString "Ann A.")]).

Definition fields_spec : list spec :=
  [Spec false "name" None; Spec false "books" (Some [Spec false "title" None; Spec true "id" None]); Spec true "id" None].

Example fields_text_is : print_specs fields_spec = "name,books{title,-id},-id".
Proof. reflexivity. Qed.

Lemma ParseFieldsDSL_print_witness :
  ParseFieldsDSL 30 "name,books{title,-id},-id" 1 =
  Some (Ok (MkOptions 1 [("name", None); ("books", Some (MkOptions 2 [("title", None)] ["id"] []))] ["id"]
              [("books", MkOptions 2 [("title", None)] ["id"] [])], 3%nat)).
Proof. apply (ParseFieldsDSL_print fields_spec 1 30); [reflexivity|vm_compute; lia]. Defined.

(** ["name}"] keeps the parser busy for ever. *)
Lemma ParseFieldsDSL_stray_brace_witness : ParseFieldsDSL 1000 "name}" 1 = None.
Proof. apply (ParseFieldsDSL_stray_brace [Spec false "name" None] "" 1 1000). reflexivity. Defined.

Definition output (o : option (result jtree)) : option jtree := match o with Some (Ok t) => Some t | _ => None end.

Example selected_fields :
  output (ToJSON (Some json_user) [WithFields 100 "name,books{title},full_name,nothing"]) =
  Some (JObject [("name", JPlain (VString "ann"));
                 ("books", JList [JObject [("title", JPlain (VString "Go"))]; JObject [("title", JPlain (VString "Rocq"))]]);
                 ("full_name", JPlain (VString "Ann A.")); ("nothing", JNil)]).
Proof. vm_compute. reflexivity. Qed.

(** Without options every visible field is written. *)
Example all_fields :
  output (ToJSON (Some json_user) [Exclude 100 ["books"]]) =
  Some (JObject [("id", JPlain (VInt W64 1)); ("is_new", JNil); ("name", JPlain (VString "ann")); ("user_name", JPlain (VString "ann1"))]).
Proof. vm_compute. reflexivity. Qed.

Lemma serializeValue_keys_witness :
  ∃ fields st', serializeValue 10 (newJSONOptions 1) (RStruct [(jf "Name" "name", RPlain (VString "ann"))] []) ∅ =
    Some (JObject fields, st') ∧ fields.*1 = ["name"].
Proof.
  destruct (serializeValue_keys 10 (newJSONOptions 1) [(jf "Name" "name", RPlain (VString "ann"))] [] ∅) as (fields&st'&Hs&Hk&_).
  { vm_compute. lia. }
  exists fields, st'. split; [exact Hs|]. rewrite Hk. vm_compute. reflexivity.
Defined.

Lemma ToJSON_returns_witness : is_Some (ToJSON (Some json_user) [WithFields 100 "name"]).
Proof. eapply ToJSON_returns. vm_compute. reflexivity. Defined.

(** Excluding a field without a json tag by the key it is written under has no effect. *)
Theorem untagged_field_not_excluded :
  output (ToJSON (Some (RStruct [(jf "UserName" "", RPlain (VString "ann1"))] [])) [Exclude 100 ["user_name"]]) =
  Some (JObject [("user_name", JPlain (VString "ann1"))]).
Proof. vm_compute. reflexivity. Qed.
