(* ===== verification/RedisExamples.v ===== *)
(** * A Redis server in memory

    A server that satisfies the laws the Redis client is proved against: keys
    with a value and a deadline, a clock that the delays move, one page per
    [SCAN].  Gob encodes maps of [int64] and string fields, and lists of ids.
    The witnesses of the Redis theorems run on it, and so does the schedule in
    which a late release breaks the lock. *)

From S2P Require Import Prelude GoStrings GoStringsFacts GoValues Predicate CacheIndex LocalCache CacheClient RedisCache RedisFacts Witnesses.

Open Scope string_scope.
Open Scope Z_scope.

(** ** The server *)

Record server := MkServer { sv_keys : gmap string (string * option Z); sv_clock : Z }.

Definition sv_val (r : server) (k : string) : option string :=
  '(v, o) ← sv_keys r !! k;
  match o with
  | Some t => if sv_clock r <? t then Some v else None
  | None => Some v
  end.
Definition sv_deadline (r : server) (k : string) : option Z := sv_keys r !! k ≫= snd.

Definition sv_write (k v : string) (ttl : Z) (r : server) : server :=
  MkServer (<[k := (v, if 0 <? ttl then Some (sv_clock r + ttl) else None)]> (sv_keys r)) (sv_clock r).

(** Patterns with stars, question marks and escapes (classes are not needed
    here). *)
Fixpoint glob (p s : string) {struct p} : bool :=
  match p with
  | "" => (s =? "")%string
  | String a p =>
      if ascii_eq a "*" then
        (fix star s := glob p s || match s with "" => false | String _ s => star s end) s
      else match s with
      | "" => false
      | String b s => (ascii_eq a "?" || ascii_eq a b) && glob p s
      end
  end.

Definition sv_scan (pat : string) (r : server) : list string :=
  filter (λ k, is_Some (sv_val r k) ∧ glob pat k = true) (map_to_list (sv_keys r)).*1.

#[export] Instance server_Redis : RedisServer server := {
  r_NewClient _ := MkServer ∅ 0;
  r_Ping r := (r, None);
  r_Close r := (r, None);
  r_Get k r := (r, match sv_val r k with Some v => ROk v | None => RNil end);
  r_MGet ks r := (r, inl ((λ k, match sv_val r k with Some v => MString v | None => MNil end) <$> ks));
  r_Set k v ttl r := (sv_write k v ttl r, None);
  r_SetNX k v ttl r :=
    match sv_val r k with Some _ => (r, inl false) | None => (sv_write k v ttl r, inl true) end;
  r_Del ks r := (MkServer (foldr delete (sv_keys r) ks) (sv_clock r), ROk (Z.of_nat (length ks)));
  r_Incr k r :=
    match ParseInt (default "0" (sv_val r k)) with
    | Some z => (MkServer (<[k := (FormatInt (z + 1), sv_deadline r k)]> (sv_keys r)) (sv_clock r), inl (z + 1))
    | None => (r, inr (ErrMsg "ERR value is not an integer"))
    end;
  r_Expire k ttl r :=
    match sv_val r k with Some v => (sv_write k v ttl r, inl true) | None => (r, inl false) end;
  r_Scan _ pat _ r := (r, inl (sv_scan pat r, 0));
  r_Wait r := (MkServer (sv_keys r) (sv_clock r + 50000000), None)
}.

Definition sv_aged := aged sv_val sv_deadline sv_clock.

Lemma sv_aged_same r r' k :
  sv_keys r' !! k = sv_keys r !! k → sv_clock r' = sv_clock r → sv_aged r r' k.
Proof. intros Hk Hc. left. unfold sv_val, sv_deadline. by rewrite Hk, Hc. Qed.

Lemma sv_aged_clock r r' k :
  sv_keys r' = sv_keys r → sv_clock r ≤ sv_clock r' → sv_aged r r' k.
Proof.
  intros Hk Hc. unfold sv_aged, aged, expired_by, sv_val, sv_deadline. rewrite Hk.
  destruct (sv_keys r !! k) as [[v [t|]]|]; simpl; [|by left..].
  destruct (Z.ltb_spec (sv_clock r') t), (Z.ltb_spec (sv_clock r) t);
    [by left|lia|right; split; [done|]; by exists t|by left].
Qed.

Lemma sv_write_ne k v ttl r k' : k' ≠ k → sv_aged r (sv_write k v ttl r) k'.
Proof. intros Hne. apply sv_aged_same; [|done]. simpl. by rewrite lookup_insert_ne. Qed.

Lemma sv_written k v ttl r : written sv_val sv_deadline sv_clock r (sv_write k v ttl r) k v ttl.
Proof.
  unfold written, sv_val, sv_deadline, sv_write. simpl. rewrite lookup_insert_eq. simpl.
  destruct (Z.ltb_spec 0 ttl); [|done].
  destruct (Z.ltb_spec (sv_clock r) (sv_clock r + ttl)); [|lia]. split; [done|]. eexists. split; [done|]. lia.
Qed.

Lemma lookup_foldr_delete {A} (ks : list string) (m : gmap string A) k :
  foldr delete m ks !! k = if decide (k ∈ ks) then None else m !! k.
Proof.
  induction ks as [|k0 ks IH]; cbn [foldr].
  { case_decide as Hin; [by apply not_elem_of_nil in Hin|done]. }
  rewrite lookup_delete. repeat case_decide; set_solver.
Qed.

#[export] Instance server_laws : RedisLaws server.
Proof.
  refine {| rd_val := sv_val; rd_deadline := sv_deadline; rd_clock := sv_clock |}; simpl.
  - intros r k t [v Hv] Hd. unfold sv_val, sv_deadline in *. destruct (sv_keys r !! k) as [[v0 o]|]; [|done].
    simpl in *. subst o. revert Hv. by destruct (Z.ltb_spec (sv_clock r) t).
  - intros r k. split; [done|]. split; [intros; by apply sv_aged_same|]. by destruct (sv_val r k).
  - intros r ks. split; [done|]. split; [intros; by apply sv_aged_same|].
    apply Forall2_fmap_r, Forall_Forall2_diag, Forall_forall. intros k _. simpl. destruct (sv_val r k) eqn:E; by rewrite ?E.
  - intros r k v ttl. split; [done|]. split; [intros; by apply sv_write_ne|apply sv_written].
  - intros r k v ttl. destruct (sv_val r k) eqn:E.
    + split; [done|]. split; [intros; by apply sv_aged_same|]. rewrite E. split; [by eexists|by apply sv_aged_same].
    + split; [done|]. split; [intros; by apply sv_write_ne|]. split; [by left|apply sv_written].
  - intros r ks. split; [done|]. split.
    + intros k Hk. apply sv_aged_same; [|done]. simpl. by rewrite lookup_foldr_delete, decide_False.
    + intros k Hk. unfold sv_val. simpl. by rewrite lookup_foldr_delete, decide_True.
  - intros r. split; [lia|]. intros k. apply sv_aged_clock; simpl; [done|lia].
Defined.

Lemma glob_star s : glob "*" s = true.
Proof. induction s as [|b s IH]; [done|]. simpl in *. by destruct (s =? "")%string. Qed.

Lemma glob_prefix p k :
  str_all (λ a, negb (glob_special a)) p = true → glob (p +:+ "*") k = HasPrefix k p.
Proof.
  revert k. induction p as [|a p IH]; intros k Hp.
  { change (glob "*" k = HasPrefix k ""). rewrite glob_star. by destruct k. }
  cbn [str_all] in Hp. apply andb_prop in Hp as [Ha Hp].
  change (String a p +:+ "*") with (String a (p +:+ "*")). cbn [glob].
  assert (Hs : ascii_eq a "*" = false ∧ ascii_eq a "?" = false).
  { unfold ascii_eq. split; destruct (Ascii.eqb_spec a "*"), (Ascii.eqb_spec a "?"); subst; done. }
  destruct Hs as [-> ->]. destruct k as [|b k]; [done|]. rewrite IH by done. simpl. unfold ascii_eq.
  unfold HasPrefix. simpl. destruct (Ascii.eqb_spec a b), (ascii_dec a b); congruence || done.
Qed.

#[export] Instance server_scan : RedisScanLaws server.
Proof.
  refine {| rd_glob := glob |}; [apply glob_prefix|].
  intros r pat. exists (sv_scan pat r), r, None. split; [by constructor|].
  split; [intros; by apply sv_aged_same|]. unfold sv_scan. split.
  - intros k [[_ ?] _]%list_elem_of_filter. done.
  - intros _ k Hk Hg. apply list_elem_of_filter. split; [done|]. change (is_Some (sv_val r k)) in Hk.
    destruct Hk as [v Hv]. unfold sv_val in Hv. destruct (sv_keys r !! k) as [x|] eqn:E; [|done].
    apply list_elem_of_fmap. exists (k, x). split; [done|]. by apply elem_of_map_to_list.
Defined.

(** ** Gob *)

Fixpoint bits_of (p : positive) : string :=
  match p with xH => "" | xO p => String "0" (bits_of p) | xI p => String "1" (bits_of p) end.
Fixpoint of_bits (s : string) : positive :=
  match s with "" => xH | String a s => if ascii_eq a "0" then xO (of_bits s) else xI (of_bits s) end.

Lemma of_bits_of p : of_bits (bits_of p) = p.
Proof. induction p as [p IH|p IH|]; simpl; by rewrite ?IH. Qed.

(** The field values it encodes. *)
Definition simple (v : option goval) : option (Z + string) :=
  match v with
  | Some (VInt W64 z) => Some (inl z)
  | Some (VString s) => Some (inr s)
  | _ => None
  end.
Definition of_simple (x : Z + string) : option goval :=
  Some (match x with inl z => VInt W64 z | inr s => VString s end).

Definition rx_enc_map (m : gmap string (option goval)) : option string :=
  if forallb (λ kv, bool_decide (is_Some (simple kv.2))) (map_to_list m)
  then Some (String "M" (bits_of (encode (omap simple m))))
  else None.

Definition rx_dec_map (s : string) : option (gmap string (option goval)) :=
  match s with
  | String a s =>
      if ascii_eq a "M"
      then option_map (fmap of_simple) (decode (of_bits s) : option (gmap string (Z + string)))
      else None
  | "" => None
  end.
Definition rx_dec_ids (s : string) : option (option (list Z)) :=
  match s with
  | String a s =>
      if ascii_eq a "L"
      then option_map (λ ids, match ids with [] => None | _ => Some ids end)
             (decode (of_bits s) : option (list Z))
      else None
  | "" => None
  end.

#[export] Instance rx_codec : GobCodec := {
  enc_map := rx_enc_map;
  enc_ids ids := String "L" (bits_of (encode ids));
  dec_map := rx_dec_map;
  dec_ids := rx_dec_ids;
  dec_struct _ _ := None
}.

Lemma rx_simple m k v : is_Some (rx_enc_map m) → m !! k = Some v → v = (simple v ≫= of_simple) ∧ is_Some (simple v).
Proof.
  unfold rx_enc_map. destruct (forallb _ _) eqn:E; [|by intros ?%is_Some_None].
  intros _ Hk%elem_of_map_to_list. rewrite forallb_forall in E.
  apply list_elem_of_In, E in Hk. bools. simpl in Hk. split; [|done].
  destruct Hk as [x Hx]. unfold simple in *. break; done.
Qed.

#[export] Instance rx_codec_laws `{Gob} : GobCodecLaws.
Proof.
  constructor; simpl.
  - intros m b Hb. assert (Hs : is_Some (rx_enc_map m)) by eauto. pose proof (rx_simple m) as Hm.
    unfold rx_enc_map in Hb. destruct (forallb _ _); [|done]. injection Hb as <-.
    unfold rx_dec_map. rewrite of_bits_of, decode_encode. simpl.
    assert (Hg : gob_map m = Some (of_simple <$> omap simple m)).
    { unfold gob_map. assert (forallb _ (map_to_list m) = true) as ->.
      { apply forallb_forall. intros [k v] Hkv%list_elem_of_In%elem_of_map_to_list. simpl.
        apply Hm in Hkv as [Hv [x Hx]]; [|done]. rewrite Hx in Hv. subst v. by destruct x. }
      f_equal. apply map_eq. intros k. rewrite !lookup_fmap, lookup_omap.
      destruct (m !! k) as [v|] eqn:Hk; [|done]. simpl. apply Hm in Hk as [Hv [x Hx]]; [|done].
      rewrite Hx in *. simpl in *. subst v. by destruct x. }
    rewrite Hg. split; [done|by eexists].
  - intros ids. unfold rx_dec_ids. by rewrite of_bits_of, decode_encode.
  - done.
  - done.
  - intros m b. unfold rx_enc_map. destruct (forallb _ _); [|done]. by intros [= <-].
Defined.

(** ** Witnesses *)

Definition rx_at (t : Z) : redis_client server := MkRedis (MkServer ∅ t) ∅ false.
Definition rx_user : gostruct := [FVal "ID" (VInt W64 7); FVal "Name" (VString "ann")].
Definition rx_dest : gostruct := [FVal "ID" (VInt W64 0); FVal "Name" (VString "")].

Definition later (d : Z) (c : redis_client server) : redis_client server :=
  MkRedis (MkServer (sv_keys (redisClient c)) (sv_clock (redisClient c) + d)) (redis_counters c)
    (createdInternally c).

Lemma later_aged d c k : 0 ≤ d → sv_aged (redisClient c) (redisClient (later d c)) k.
Proof. intros Hd. apply sv_aged_clock; simpl; [done|lia]. Qed.

Example rx_read_back :
  (redis_GetModel "users:7" rx_dest (later 59 (redis_SetModel "users:7" rx_user ["ID"; "Name"] 60 (rx_at 0)).1)).2
    = Ok rx_user ∧
  (redis_GetModel "users:7" rx_dest (later 60 (redis_SetModel "users:7" rx_user ["ID"; "Name"] 60 (rx_at 0)).1)).2
    = Err ErrNotFound.
Proof. split; vm_compute; reflexivity. Qed.

Lemma redis_model_roundtrip_witness :
  let c1 := (redis_SetModel "users:7" rx_user ["ID"; "Name"] 60 (rx_at 0)).1 in
  let '(c3, o) := redis_GetModel "users:7" rx_dest (later 5 c1) in
  ∃ data, gob_map (model_data rx_user ["ID"; "Name"]) = Some data ∧
  (o = populate (map_to_list data) rx_dest ∨
   (o = Err ErrNotFound ∧ 0 < 60 ∧ rd_clock (redisClient (rx_at 0)) + 60 ≤ rd_clock (redisClient c3)) ∨
   ∃ msg e, o = Err (ErrWrap msg e) ∧ no_sentinel e).
Proof.
  intros c1.
  pose proof (redis_model_roundtrip "users:7" rx_user ["ID"; "Name"] 60 (rx_at 0) c1 (later 5 c1) rx_dest) as T.
  refine (T _ _ _); clear T.
  - vm_compute. reflexivity.
  - apply later_aged. lia.
  - vm_compute. discriminate.
Defined.

(** One thread inside. *)
Definition rx_in : redis_client server := (redis_AcquireLock "lock:a" 5 (rx_at 0)).1.

Lemma redis_mutual_exclusion_witness :
  (1%nat, "lock:a", 5) ∈ rs_inside (MkRSys rx_in ({[(1%nat, "lock:a", 5)]} ∪ ∅)) ∧ 1%nat = 1%nat.
Proof.
  assert (Hin : (1%nat, "lock:a", 5) ∈ rs_inside (MkRSys rx_in ({[(1%nat, "lock:a", 5)]} ∪ ∅))) by set_solver.
  split; [exact Hin|].
  eapply (redis_mutual_exclusion (rx_at 0) _ 1 1 "lock:a" 5 5); [|exact Hin|reflexivity|exact Hin|reflexivity].
  eapply rtc_l; [|apply rtc_refl].
  refine (rl_enter false 1 "lock:a" 5 (rx_at 0) rx_in ∅ _ _); [lia|reflexivity].
Defined.

Lemma redis_lock_expires_witness : (redis_AcquireLock "lock:a" 5 (later 5 rx_in)).2 ≠ Ok false.
Proof.
  apply (redis_lock_expires "lock:a" 5 5 (rx_at 0) rx_in);
    [lia|reflexivity|apply later_aged; lia|vm_compute; discriminate].
Defined.

Definition rx_two : redis_client server :=
  (redis_Set "users:7" "x" 0 (redis_Set "users:8" "y" 0 (redis_Set "books:1" "z" 0 (rx_at 0)).1).1).1.

Lemma redis_DeleteByPrefix_spec_witness :
  ∃ n, ∀ fuel, (n ≤ fuel)%nat →
  ∃ c' o, redis_DeleteByPrefix fuel "users:" rx_two = (c', Some o) ∧
  (∀ k, rlive c' k → rlive rx_two k) ∧
  (∀ k, HasPrefix k "users:" = false →
     ∃ r, aged rd_val rd_deadline rd_clock (redisClient rx_two) r k ∧
          aged rd_val rd_deadline rd_clock r (redisClient c') k) ∧
  (o = Ok () → ∀ k, HasPrefix k "users:" = true → ¬ rlive c' k).
Proof. apply (redis_DeleteByPrefix_spec "users:" rx_two). reflexivity. Defined.

(** A prefix with a star of its own deletes keys that do not have it. *)
Example rx_prefix_not_escaped :
  HasPrefix "users:7" "us*" = false ∧
  (redis_Get "users:7" (redis_DeleteByPrefix 1 "us*" rx_two).1).2 = Err ErrNotFound.
Proof. split; vm_compute; reflexivity. Qed.

(** ** A late release *)

(** Thread 1 outlives its lease, thread 2 takes the lock, the release of thread
    1 deletes it, thread 3 takes it too. *)
Definition rx_b : redis_client server := (redis_AcquireLock "lock:a" 5 (later 6 rx_in)).1.
Definition rx_late : redis_client server := (redis_ReleaseLock "lock:a" rx_b).1.
Definition rx_c : redis_client server := (redis_AcquireLock "lock:a" 5 rx_late).1.

(** Without that restriction mutual exclusion fails: a thread that releases after its lease
    has ended deletes the lock of the next holder, and two threads hold unexpired leases of one
    lock. *)
Theorem redis_late_release :
  ∃ s, rtc (redis_lock_step true) (MkRSys (rx_at 0) ∅) s ∧
  (2%nat, "lock:a", 11) ∈ rs_inside s ∧ (3%nat, "lock:a", 11) ∈ rs_inside s ∧
  rd_clock (redisClient (rs_client s)) < 11.
Proof.
  exists (MkRSys rx_c ({[(3%nat, "lock:a", 11)]} ∪
    (({[(2%nat, "lock:a", 11)]} ∪ ({[(1%nat, "lock:a", 5)]} ∪ ∅)) ∖ {[(1%nat, "lock:a", 5)]}))).
  split; [|split; [|split]]; [|set_solver|set_solver|reflexivity].
  eapply rtc_l. { refine (rl_enter true 1 "lock:a" 5 (rx_at 0) rx_in ∅ _ _); [lia|reflexivity]. }
  eapply rtc_l. { apply (rl_other true rx_in (later 6 rx_in)); [vm_compute; discriminate|]. intros. apply later_aged. lia. }
  eapply rtc_l. { refine (rl_enter true 2 "lock:a" 5 (later 6 rx_in) rx_b _ _ _); [lia|reflexivity]. }
  eapply rtc_l. { apply (rl_leave true 1 "lock:a" 5 rx_b rx_late (Ok ())); [set_solver|reflexivity|by left]. }
  eapply rtc_l; [|apply rtc_refl].
  refine (rl_enter true 3 "lock:a" 5 rx_late rx_c _ _ _); [lia|reflexivity].
Qed.
