(* ===== verification/SchemaExamples.v ===== *)
(** * A migration

    A [users] table that lacks columns of the model, has a column and an index
    too many and one of the wrong type; the statements that migrate it; the
    witnesses of the theorems on migrations. *)

From S2P Require Import Prelude GoStrings GoStringsFacts GoValues Metadata Predicate CacheIndex LocalCache CacheClient SqlBuilder Crud Schema SchemaFacts Witnesses.

Open Scope string_scope.

Definition sx_range : nat → ∀ A, gmap string A → list (string * A) := λ _ A m, map_to_list m.
Lemma sx_range_ok : range_ok sx_range.
Proof. by intros n A m. Qed.

Definition sx_table : TableInfo :=
  MkTable "users"
    [MkColumn "id" "INTEGER" false true false None; MkColumn "name" "INTEGER" true false false None;
     MkColumn "nick" "TEXT" true false false None]
    [MkIndexInfo "idx_users_nick" ["nick"] false ""] "id".

Definition sx_plan : list ddl :=
  Eval vm_compute in match alter_plan sx_range user_info sx_table "sqlite" with Ok p => p | _ => [] end.

Lemma sx_plan_ok : alter_plan sx_range user_info sx_table "sqlite" = Ok sx_plan.
Proof. vm_compute. reflexivity. Qed.

(** The table afterwards. *)
Definition sx_migrated : TableInfo :=
  MkTable "users"
    [MkColumn "id" "INTEGER" false true false None; MkColumn "name" "TEXT" true false false None;
     MkColumn "created_at" "DATETIME" true false false None; MkColumn "updated_at" "DATETIME" true false false None;
     MkColumn "deleted" "BOOLEAN" true false false None; MkColumn "age" "INTEGER" true false false None]
    [MkIndexInfo "idx_users_name" ["name"] false ""] "id".

Example sx_statements :
  ddl_sql "sqlite" <$> filter (λ d, is_Some (index_of d)) sx_plan =
  ["CREATE INDEX IF NOT EXISTS `idx_users_name` ON `users` (`name`);"; "DROP INDEX IF EXISTS `idx_users_nick`;"].
Proof. vm_compute. reflexivity. Qed.

Lemma sx_model_ok : model_ok user_info "sqlite".
Proof.
  intros m Hm. vm_compute in Hm. injection Hm as <-. intros n i Hn.
  apply (elem_of_map_to_list) in Hn. vm_compute in Hn.
  apply list_elem_of_singleton in Hn. injection Hn as -> ->. split; [done|]. split; [done|].
  intros c ->%list_elem_of_singleton. vm_compute. by eexists.
Qed.

(** A table SQLite can migrate: a column and an index too many, none of the
    wrong type. *)
Definition sx_old : TableInfo :=
  MkTable "users"
    [MkColumn "id" "INTEGER" false true false None; MkColumn "name" "TEXT" true false false None;
     MkColumn "nick" "TEXT" true false false None]
    [MkIndexInfo "idx_users_pair" ["name"; "id"] false ""] "id".
Definition sx_old_plan : list ddl :=
  Eval vm_compute in match alter_plan sx_range user_info sx_old "sqlite" with Ok p => p | _ => [] end.

Lemma migration_converges_witness :
  ∃ plan', alter_plan sx_range user_info sx_migrated "sqlite" = Ok plan' ∧
           Forall (settled id (list_to_map sqlite_types) user_info) plan'.
Proof.
  apply (migration_converges id sx_range sx_range "sqlite" (list_to_map sqlite_types) user_info sx_old (state_of sx_old)
    sx_old_plan (state_of sx_migrated) sx_migrated).
  - exact sx_range_ok.
  - exact sx_range_ok.
  - exact sx_model_ok.
  - reflexivity.
  - apply reports_shows, reports_state_of.
  - vm_compute. reflexivity.
  - vm_compute. reflexivity.
  - apply reports_shows, reports_state_of.
Defined.

(** SQLite refuses the plan of a table with a column of the wrong type. *)
Example sx_plan_refused : exec_plan "sqlite" (state_of sx_table) sx_plan = None.
Proof. vm_compute. reflexivity. Qed.

Definition sx_env : migrate_env (D:=unit) := MkMigrate (Some "sqlite") ∅ false.

Lemma migration_keeps_columns_witness :
  ∃ plan kept, alter_plan sx_range user_info sx_table "sqlite" = Ok plan ∧
    executed sx_env (ddl_sql "sqlite" <$> sx_plan) = ddl_sql "sqlite" <$> kept ∧ kept `sublist_of` plan ∧
    (∀ d, d ∈ kept ↔ d ∈ plan ∧ isDropColumnSQL (ddl_sql "sqlite" d) = false) ∧
    (∀ c, is_Some (t_cols (state_of sx_table) !! c) → is_Some (t_cols (foldl apply_ddl (state_of sx_table) kept) !! c)).
Proof.
  apply (migration_keeps_columns sx_range sx_env "sqlite" user_info sx_table (state_of sx_table)
           (ddl_sql "sqlite" <$> sx_plan)); [|reflexivity].
  unfold GenerateAlterTableSQL. rewrite sx_plan_ok. reflexivity.
Defined.

Lemma formatDefault_literal_witness :
  ∃ lit, formatDefaultValueForSQL "it's" KString "sqlite" = Ok lit ∧ read_literal (lit +:+ " NOT NULL") = Some ("it's", " NOT NULL").
Proof. apply (formatDefault_literal "it's" "sqlite" " NOT NULL"). reflexivity. Defined.

Lemma byte_slice_column_witness :
  sql_type (list_to_map sqlite_types) (TSlice (TUint W8)) = "TEXT" ∧
  ∃ t, (list_to_map sqlite_types : gmap string string) !! "[]byte" = Some t ∧ t ≠ "TEXT".
Proof. apply (byte_slice_column "sqlite" (list_to_map sqlite_types)). reflexivity. Defined.

(** A default value that mentions the words is taken for a dropped column. *)
Example sx_skipped_default :
  executed sx_env [ddl_sql "sqlite" (AddColumn "t" "hint" "TEXT" ["DEFAULT 'use drop column'"])] = [].
Proof. vm_compute. reflexivity. Qed.

(** PostgreSQL reports [bigint] for what was written as [BIGINT]: the migration
    of an up-to-date table changes the type again. *)
Example sx_postgres_type :
  change_column (list_to_map postgres_types) user_info
    {["id" := MkColumn "id" "bigint" false true false None]}
    ("id", MkCF "ID" "id" [0%nat] (TInt W64) true false None) =
  [ModifyType "users" "id" "BIGINT"].
Proof. vm_compute. reflexivity. Qed.
