(* ===== verification/DriversExamples.v ===== *)
(** * A scripted database

    Connections that answer from a script: the rows of the next query, the row
    of the next single-row query.  The witnesses of the theorems on row scanning
    and on the drivers run on it. *)

From S2P Require Import Prelude GoStrings GoValues Metadata Predicate QueryMatch CacheIndex LocalCache CacheClient Invalidate InvalidateFacts MetadataFacts SqlBuilder Crud Drivers DriversFacts Witnesses.

Open Scope string_scope.

Record script := MkScript { sc_rows : list (query_rows goval); sc_row : list (row_reply goval); sc_log : list string }.

#[export] Instance script_conn : SqlConn script goval := {
  q_Open _ _ := inl (MkScript [] [] []);
  q_Ping q := (q, None);
  q_Close q := (q, None);
  q_Query query _ q :=
    let log := (sc_log q ++ [query])%list in
    match sc_rows q with
    | r :: rs => (MkScript rs (sc_row q) log, inl r)
    | [] => (MkScript [] (sc_row q) log, inr (ErrMsg "no answer"))
    end;
  q_QueryRow query _ q :=
    let log := (sc_log q ++ [query])%list in
    match sc_row q with
    | r :: rs => (MkScript (sc_rows q) rs log, r)
    | [] => (MkScript (sc_rows q) [] log, NoRows)
    end;
  q_Exec query _ q := (MkScript (sc_rows q) (sc_row q) (sc_log q ++ [query])%list, inl (MkExec (Ok 1%Z) 1%Z));
  q_Begin q := (q, None);
  q_Commit q := (q, None);
  q_Rollback q := (q, Some sql_ErrTxDone);
  q_Assign v t := if bool_decide (typeof v = t) then Some v else None;
  q_IsNull v := match v with VPtr _ None => true | _ => false end
}.

Definition idle (q : script) : adapter script := MkAdapter q false false.

(** ** Scanning *)

Definition dx_type : list sfield :=
  [SEmbed "BaseModel" "BaseModel" base_type;
   SField "Name" TString "name,index" ""; SField "Age" (TInt WInt) "age" ""].
Definition dx_info : ModelInfo :=
  Eval vm_compute in
    match GetCachedModelInfo "User" user_methods dx_type with
    | Ok i => i | _ => MkInfo "" "" [] [] ∅ ∅ [] [] [] false false end.
Lemma dx_info_ok : GetCachedModelInfo "User" user_methods dx_type = Ok dx_info.
Proof. vm_compute. reflexivity. Qed.

Definition dx_row : list goval :=
  [VInt W64 7; VTime 1 0; VTime 2 0; VBool false; VString "ann"; VInt WInt 30].


Lemma untagged_field_not_scanned_witness :
  Columns (match GetCachedModelInfo "T" user_methods [SField "UserName" TString "" ""] with
           | Ok i => i | _ => dx_info end) = ["user_name"] ∧
  (scan_model [SField "UserName" TString "" ""] [FVal "UserName" (VString "")]
     (Columns (match GetCachedModelInfo "T" user_methods [SField "UserName" TString "" ""] with
               | Ok i => i | _ => dx_info end)) [VString "ann"] = Ok [FVal "UserName" (VString "")] ∨
   scan_model [SField "UserName" TString "" ""] [FVal "UserName" (VString "")]
     (Columns (match GetCachedModelInfo "T" user_methods [SField "UserName" TString "" ""] with
               | Ok i => i | _ => dx_info end)) [VString "ann"] = Err scan_error).
Proof.
  apply (untagged_field_not_scanned "T" user_methods "UserName" TString); [reflexivity| |reflexivity].
  vm_compute. discriminate.
Defined.

(** ** The drivers *)

Example dx_get :
  (sqlite_Get dx_type (user 0 false "" 0) "q" []
     (idle (MkScript [MkRows (Ok ["id"; "name"]) [[VInt W64 7; VString "ann"]] None] [] []))).2 = Ok (user 7 false "ann" 0) ∧
  (sqlite_Get dx_type (user 0 false "" 0) "q" [] (idle (MkScript [MkRows (Ok ["id"]) [] None] [] []))).2 = Err ErrNotFound ∧
  is_Ok (sqlite_Get dx_type (user 0 false "" 0) "q" []
     (idle (MkScript [MkRows (Ok ["id"]) [[VInt W64 7]; [VInt W64 8]] None] [] []))).2 = false.
Proof. split_and!; vm_compute; reflexivity. Qed.

Lemma sqlite_closed_stays_closed_witness :
  let a' := (sqlite_Close (idle (MkScript [] [] []))).1 in
  run_ops [OpExec "DELETE FROM users" []; OpBegin] a' = a' ∧
  ∀ o, (run_op o (run_ops [OpExec "DELETE FROM users" []; OpBegin] a')).2 = true → o = OpClose.
Proof. apply (sqlite_closed_stays_closed (idle (MkScript [] [] [])) _ (Ok ())). reflexivity. Defined.

Lemma pg_insert_id_witness :
  let sql := @BuildInsertSQL PostgresDialector "users" ["name"] in
  let a := idle (MkScript [] [RowVals [VInt W64 12]] []) in
  ∃ q row id, q_QueryRow (pg_Rebind sql +:+ " RETURNING id") [] (a_db a) = (q, RowVals row) ∧ scan_int64 row = Ok id ∧
    (pg_Exec sql [] a).1 = MkAdapter q (a_closed a) (a_tx a) ∧
    LastInsertId (MkExec (Ok 12%Z) 1%Z) = Ok id ∧ RowsAffected (MkExec (Ok 12%Z) 1%Z) = 1%Z.
Proof.
  intros sql a. apply (pg_insert_id "users" ["name"] [] a).
  - vm_compute. discriminate.
  - vm_compute. reflexivity.
  - vm_compute. reflexivity.
Defined.
