(* ===== verification/LockerExamples.v ===== *)
(** * Two invalidations at the same time

    Two writers delete keys of the local cache; two of the keys share a mutex.
    A short configuration run. *)

From S2P Require Import Prelude GoStrings GoValues Predicate QueryMatch CacheIndex Metadata LocalCache CacheClient.
From S2P Require Import Invalidate InvalidateFacts Freshness Witnesses Locker LockerFacts Logging Config.

Open Scope string_scope.

(** ** Writers *)

Definition lk_keys : list (list string) := [["list:v1:users:b"; adults_key]; ["count:v1:users:488"; adults_key]].
Definition lk_start : system := start (cached_list [7%Z]) lk_keys.

(** The count key and the list key share a mutex. *)
Example lk_shared : shard adults_key = shard "count:v1:users:488".
Proof. vm_compute. reflexivity. Qed.

(** The first writer is at the list key while the second holds its mutex. *)
Definition lk_middle : list nat := [1; 0; 1; 0; 0].
Example lk_waits :
  (λ s, (λ w, writer_step (s_locks s) (s_cache s) w) <$> s_writers s !! 0) <$> run_schedule lk_middle lk_start
  = Some (Some (Ok None)).
Proof. vm_compute. reflexivity. Qed.

Definition lk_sched : list nat := lk_middle ++ [1; 0; 0; 0; 1; 1; 1].
Definition lk_end : system := default lk_start (run_schedule lk_sched lk_start).

Lemma lk_runs : nsteps step 12 (start (cached_list [7%Z]) lk_keys) lk_end.
Proof. apply (run_schedule_nsteps lk_sched). vm_compute. reflexivity. Qed.

Lemma lk_finished : Forall (λ w, finished w = true) (s_writers lk_end).
Proof. vm_compute. repeat constructor. Qed.

Lemma lk_stuck s' : ¬ step lk_end s'.
Proof.
  pose proof lk_finished as Hf. intros Hs. destruct Hs as [s i w m c w' Hw Hs].
  rewrite Forall_lookup in Hf. specialize (Hf i w Hw). destruct w as [[|] []]; done.
Qed.

Lemma concurrent_writers_finish_witness :
  (12 ≤ 4 * sum_list (length <$> lk_keys))%nat ∧ s_locks lk_end = NewCacheKeyLockManagerInternal ∧
  live (cached_list [7%Z]) adults_key ∧ ¬ live (s_cache lk_end) adults_key.
Proof.
  destruct (concurrent_writers_finish (cached_list [7%Z]) lk_keys 12 lk_end lk_runs) as (Hn&_&[[s' Hs]|(_&Hl&Hd)]).
  - by destruct (lk_stuck s').
  - split; [exact Hn|]. split; [exact Hl|]. split; [vm_compute; eauto|].
    apply (Hd local_deletes_reliably). apply list_elem_of_In. vm_compute. auto.
Defined.

Lemma shard_bounds_witness :
  (shard adults_key < 256)%nat ∧ ∃ o, Lock NewCacheKeyLockManagerInternal adults_key = Ok o.
Proof.
  destruct (shard_bounds adults_key NewCacheKeyLockManagerInternal) as (_&Hs&(o&Ho&_)&_); [reflexivity|].
  split; [exact Hs|by exists o].
Defined.

Lemma run_writer_sequential_witness :
  (run_writer 8 NewCacheKeyLockManagerInternal (cached_list [7%Z]) (MkWriter ["list:v1:users:b"; adults_key] Outside)).1.2
  = foldl write_one (cached_list [7%Z]) ["list:v1:users:b"; adults_key].
Proof. rewrite (run_writer_sequential (cached_list [7%Z]) ["list:v1:users:b"; adults_key] 8); [reflexivity|simpl; lia]. Defined.

(** ** Configuration *)

Definition cf_run : globals (D := nat) (C := nat) :=
  (Configure 0 1700000000 [any_db 1; any_client 2; any_ttl (-5)] initial_globals).1.
Definition cf_later : globals (D := nat) (C := nat) :=
  (ConfigureWithConfig 0 1800000000 (MkConfig (Some 3) (Some 4) 60000000000 None Warn) cf_run initial).1.1.

Lemma reachable_globals_witness :
  ((0 < getGlobalCacheTTL cf_run)%Z ∧ read_cacheVersion cf_later = 1700000000%Z) ∧
  ∃ t, Use 0 (X := unit) () "User" user_methods user_type cf_run = Ok t ∧ t_info t = user_info.
Proof.
  destruct (reachable_globals 0 (X := unit) () cf_run cf_later) as (H1&H2&_&H4).
  - apply rtc_once, step_Configure.
  - apply rtc_once, step_ConfigureWithConfig.
  - split; [split; [by apply H1|by apply H2]|].
    destruct (H4 "User" user_methods user_type user_info eq_refl user_info_ok) as (t&?&?&_); [done|].
    exists t. by split.
Defined.
