(* ===== verification/IntrospectExamples.v ===== *)
(** * A catalogue

    A connection that answers the queries of the introspectors from a fixed
    catalogue: a table of users with a unique and a partial index. *)

From S2P Require Import Prelude GoStrings GoValues Metadata Predicate CacheIndex LocalCache CacheClient SqlBuilder Crud.
From S2P Require Import Schema SchemaFacts Drivers Introspect IntrospectFacts.

Open Scope string_scope.

Record catalogue := MkCatalogue { ct_rows : list (string * list (list goval)); ct_row : list (string * list goval) }.

Definition answer {A} (l : list (string * A)) (k : string) : option A := snd <$> List.find (λ p, p.1 =? k) l.

#[export] Instance catalogue_conn : SqlConn catalogue goval := {
  q_Open _ _ := inl (MkCatalogue [] []);
  q_Ping q := (q, None);
  q_Close q := (q, None);
  q_Query query _ q :=
    (q, match answer (ct_rows q) query with
        | Some rows => inl (MkRows (Ok []) rows None)
        | None => inr (ErrMsg "no such table")
        end);
  q_QueryRow query args q :=
    (q, match args with
        | [Some (VString name)] => match answer (ct_row q) name with Some row => RowVals row | None => NoRows end
        | _ => NoRows
        end);
  q_Exec _ _ q := (q, inr (ErrMsg "read only"));
  q_Begin q := (q, None);
  q_Commit q := (q, None);
  q_Rollback q := (q, None);
  q_Assign v t := if bool_decide (typeof v = t) then Some v else None;
  q_IsNull v := match v with VPtr _ None => true | _ => false end
}.

Definition vint (z : Z) : goval := VInt WInt z.
Definition vstr (x : string) : goval := VString x.
Definition vnull : goval := VPtr TString None.

(** ** SQLite *)

Definition ix_cols : list ColumnInfo :=
  [MkColumn "id" "INTEGER" true true false None; MkColumn "email" "TEXT" false false false None;
   MkColumn "age" "INTEGER" false false false (Some "18")].
Definition ix_email : IndexInfo := MkIndexInfo "uniq_users_email" ["email"] true "".
Definition ix_age : IndexInfo := MkIndexInfo "idx_adults" ["age"; "email"] false "age > 18".

Definition ix_db : catalogue := MkCatalogue
  [("PRAGMA table_info(users)",
    [[vint 0; vstr "id"; vstr "INTEGER"; vint 0; vnull; vint 1]; [vint 1; vstr "email"; vstr "TEXT"; vint 1; vnull; vint 0];
     [vint 2; vstr "age"; vstr "INTEGER"; vint 1; vstr "18"; vint 0]]);
   ("PRAGMA index_list(users)",
    [[vint 0; vstr "uniq_users_email"; vint 1; vstr "c"; vint 0]; [vint 1; vstr "idx_adults"; vint 0; vstr "c"; vint 1]]);
   ("PRAGMA index_info(uniq_users_email)", [[vint 0; vint 1; vstr "email"]]);
   ("PRAGMA index_info(idx_adults)", [[vint 0; vint 2; vstr "age"]; [vint 1; vint 1; vstr "email"]])]
  [("idx_adults", [vstr "CREATE INDEX `idx_adults` ON `users` (`age`, `email`) WHERE age > 18"])].

Ltac catalogue_rows :=
  repeat (apply Forall2_cons; split; [econstructor; try reflexivity; by split|]); apply Forall2_nil; exact I.

Lemma ix_catalogue : sqlite_catalogue "users" ix_cols [ix_email; ix_age] ix_db.
Proof.
  split.
  - do 2 eexists. split; [reflexivity|]. catalogue_rows.
  - do 2 eexists. split; [reflexivity|]. catalogue_rows.
  - intros j Hj. rewrite !elem_of_cons in Hj. destruct Hj as [->|[->|Hj]]; [| |by apply elem_of_nil in Hj].
    + do 3 eexists. split; [reflexivity|]. catalogue_rows.
    + do 3 eexists. split; [reflexivity|]. catalogue_rows.
  - intros j Hj Hw. rewrite !elem_of_cons in Hj. destruct Hj as [->|[->|Hj]]; [done| |by apply elem_of_nil in Hj].
    do 2 eexists. split_and!; [reflexivity|by split|]. exists "CREATE INDEX ", "". split; [reflexivity|by left].
Qed.

Lemma sqlite_introspection_witness :
  ∃ info, sqlite_GetTableInfo "users" ix_db = (ix_db, Ok (Some info)) ∧
    TabIndexes info = [ix_email; ix_age] ∧ PrimaryKey info = "id".
Proof.
  destruct (sqlite_introspection "users" ix_cols [ix_email; ix_age] ix_db) as (info&Hg&_&Hi&Hp&_).
  - exact ix_catalogue.
  - reflexivity.
  - done.
  - apply Forall_cons; split; [|apply Forall_cons; split; [|by apply Forall_nil]].
    + split_and!; [reflexivity..|done|by left].
    + split_and!; [reflexivity..|done|right]. split_and!; [done|reflexivity..].
  - exists info. split_and!; [exact Hg|exact Hi|exact Hp].
Defined.

(** ** Definitions of PostgreSQL indexes *)

Example ix_pg_columns :
  parsePgIndexColumns "CREATE UNIQUE INDEX uniq_users ON public.users USING btree (email, age) WHERE (age > 18)"
  = ["email"; "age"].
Proof. reflexivity. Qed.

(** The first closing parenthesis ends the list, also inside an expression. *)
Example ix_pg_expression :
  parsePgIndexColumns "CREATE INDEX i ON public.users USING btree (lower(email), age)" = ["lower(email"].
Proof. reflexivity. Qed.

(** The predicate is cut at its own last [WHERE]. *)
Example ix_inner_where :
  extractTrailingWhere "CREATE INDEX i ON t (a) WHERE note <> 'see where it is'" = "it is'".
Proof. reflexivity. Qed.
