(* ===== verification/GobExamples.v ===== *)
(** * Concrete types: graphs for the registration with gob, models with methods *)

From S2P Require Import Prelude GoStrings GoValues GobRegistry GobFacts Metadata ModelTypes.

Open Scope string_scope.
Open Scope nat_scope.

Section users.

(** A model with a defined string type, a slice of structs, a map, a pointer
    to its own type and a time. *)
#[local] Instance user_types : TypeGraph := (list_to_map [
  (1%positive, TypeDecl "app" "User" (LStruct [
     RLit (LBasic KInt "int64"); RNamed 2; RLit (LSlice (RNamed 3));
     RLit (LMap (RNamed 2) (RLit (LPtr (RNamed 1)))); RNamed 4; RNamed 5]));
  (2%positive, TypeDecl "app" "Role" (LBasic KString "string"));
  (3%positive, TypeDecl "app" "Address" (LStruct [RNamed 6]));
  (4%positive, TypeDecl "time" "Time" (LStruct [RLit (LBasic KUint "uint64"); RNamed 7]));
  (5%positive, TypeDecl "app" "Notifier" (LBasic KInterface "interface"));
  (6%positive, TypeDecl "app" "Country" (LBasic KString "string"));
  (7%positive, TypeDecl "time" "Location" (LStruct []))] : gmap positive typedecl).

Lemma user_types_ok : graph_ok.
Proof. apply graph_check_ok. by vm_compute. Qed.

Lemma user_types_flat d f : f ∈ struct_fields (RNamed d) → nests 3 f = true.
Proof.
  unfold struct_fields, underlying. destruct (decls !! d) as [td|] eqn:E; [|by intros ?%elem_of_nil].
  apply elem_of_list_to_map_2 in E.
  repeat (apply elem_of_cons in E as [E|E]; [injection E as -> ->; simpl; intros F; repeat
    (apply elem_of_cons in F as [->|F]; [by vm_compute|]); by apply elem_of_nil in F|]).
  by apply elem_of_nil in E.
Qed.

Definition gob_run : option gob_state :=
  RegisterTypeRecursive 40 (GobState ∅ []) (Some (RLit (LPtr (RNamed 1)))).


(** What the run passes to gob, in order: the interface type only as a pointer,
    [time.Time] without its fields. *)
Example gob_run_calls : gob_calls <$> gob_run = Some
  ([Some (RNamed 1); Some (RLit (LPtr (RNamed 1)));
    Some (RNamed 2); Some (RLit (LPtr (RNamed 2)));
    Some (RNamed 3); Some (RLit (LPtr (RNamed 3))); Some (RNamed 3); Some (RLit (LPtr (RNamed 3)));
    Some (RNamed 6); Some (RLit (LPtr (RNamed 6)));
    Some (RNamed 1); Some (RLit (LPtr (RNamed 1)));
    Some (RNamed 4); Some (RLit (LPtr (RNamed 4)));
    None; Some (RLit (LPtr (RNamed 5)))])%list.
Proof. by vm_compute. Qed.
End users.

Section trees.

(** [type Tree map[string]Tree] as a field of a model, and a struct of the
    application called [Time]. *)
#[local] Instance tree_types : TypeGraph := (list_to_map [
  (1%positive, TypeDecl "app" "Page" (LStruct [RLit (LBasic KInt "int64"); RNamed 2]));
  (2%positive, TypeDecl "app" "Tree" (LMap (RLit (LBasic KString "string")) (RNamed 2)));
  (3%positive, TypeDecl "app" "Slot" (LStruct [RNamed 4]));
  (4%positive, TypeDecl "app" "Time" (LStruct [RNamed 5]));
  (5%positive, TypeDecl "app" "Zone" (LBasic KString "string"))] : gmap positive typedecl).

Lemma gob_registration_diverges_witness :
  RegisterTypeRecursive 1000 (GobState ∅ []) (Some (RLit (LPtr (RNamed 1)))) = None.
Proof.
  apply (gob_registration_diverges (RNamed 2) _ _ (struct_fields (RNamed 1)) (RNamed 2)).
  - apply graph_check_ok. by vm_compute.
  - apply tc_once. by eapply inner_elem.
  - reflexivity.
  - apply list_elem_of_In. vm_compute. auto.
  - by eexists.
  - reflexivity.
  - set_solver.
Defined.

(** The fields of an application struct called [Time] are not registered. *)
Example time_struct_not_entered :
  (gob_calls <$> RegisterTypeRecursive 40 (GobState ∅ []) (Some (RLit (LPtr (RNamed 3))))) =
  Some ([Some (RNamed 3); Some (RLit (LPtr (RNamed 3)));
         Some (RNamed 4); Some (RLit (LPtr (RNamed 4)))])%list.
Proof. by vm_compute. Qed.
End trees.

Section methods.

(** A model that declares [KeepItem] on its pointer and [KeepItemFields] on its
    values, with one declared index; a second model embeds the first. *)
Definition note_declares (name : string) : option (receiver * string) :=
  if (name =? "KeepItem")%string then Some (OnPointer, "note.go")
  else if (name =? "KeepItemFields")%string then Some (OnValue, "note.go") else None.
Definition note_promotes (name : string) : option bool :=
  if (name =? "GetID")%string then Some false else None.
Definition memo_promotes (name : string) : option bool :=
  if (name =? "KeepItem")%string then Some false else Some true.

Definition note_index : index_value := IVPtr (Some (IVStruct
  [FVal "Name" (VString "by_body"); FVal "Columns" (VSlice TString (Some [VString "body"; VString "id"]));
   FVal "Unique" (VBool true); FVal "Where" (VString "")])).
Definition note_fields : list sfield :=
  [SEmbed "BaseModel" "BaseModel" [SField "ID" (TInt W64) "id,pk" ""]; SField "Body" TString "body" ""].

#[local] Instance note_types : ModelTypes := λ d,
  if (d =? 1)%positive
  then MkStructType "Note" note_fields None (Some (true, [note_index])) (compiled_methods note_declares note_promotes)
  else MkStructType "Memo" [SEmbed "Note" "Note" note_fields] None None
         (compiled_methods (λ _, None) memo_promotes).

Definition note_info : ModelInfo :=
  Eval vm_compute in
    match compute_info (struct_types 1) with Ok i => i | _ => MkInfo "" "" [] [] ∅ ∅ [] [] [] false false end.


(** The [KeepItem] of an embedded model is promoted, and not seen as custom. *)
Example promoted_KeepItem_missed :
  Metadata.HasCustomKeepItem <$> (load_info ∅ (MTStruct 2)).2 = Ok false.
Proof. vm_compute. reflexivity. Qed.
End methods.
