(* ===== verification/CoherenceExamples.v ===== *)
(** * A table behind a cache

    A table of users that executes the statements of the ORM, with the query of
    the adults, oldest first; a run of reads and writes over it. *)

From S2P Require Import Prelude GoStrings GoStringsFacts GoValues GoValuesFacts Predicate QueryMatch QueryMatchFacts.
From S2P Require Import CacheIndex CacheIndexFacts Metadata LocalCache CacheClient LocalCacheFacts Invalidate InvalidateFacts.
From S2P Require Import MetadataFacts Freshness SqlBuilder Hooks Crud CrudFacts WriteFacts Query QueryFacts LocalQuery.
From S2P Require Import Coherence CoherenceFacts CoherenceRuns Overlap Witnesses Examples CrudExamples QueryExamples.

From stdpp Require Import sorting.
Open Scope string_scope.

(** ** The query *)

Definition age_of (r : gostruct) : Z := match FieldByName r "Age" with Some (VInt _ a) => a | _ => 0 end.
Definition is_adult (r : gostruct) : bool :=
  match checks user_info by_age r with Ok b => b && KeepItem r | _ => false end.

(** The ids of the adults, by age from the highest, then by id. *)
Definition ranked (rows : gmap Z gostruct) : gset (Z * Z) :=
  list_to_set ((λ ir : Z * gostruct, (- age_of ir.2, ir.1)%Z) <$> filter (λ ir : Z * gostruct, is_adult ir.2 = true) (map_to_list rows)).
Definition rank_le (x y : Z * Z) : Prop := (x.1 < y.1 ∨ x.1 = y.1 ∧ x.2 ≤ y.2)%Z.
#[export] Instance rank_le_dec x y : Decision (rank_le x y).
Proof. unfold rank_le. apply _. Defined.
Definition adults_of (rows : gmap Z gostruct) : list Z := (merge_sort rank_le (elements (ranked rows))).*2.

(** ** The table *)

Record sdb := MkSdb { s_table : tdb }.
Definition s_rows (d : sdb) : gmap Z gostruct := t_rows (s_table d).

(** The statement that changes an age, and what it does to a row. *)
Definition update_age_text : string :=
  "UPDATE " +:+ dquote "users" +:+ " SET updated_at = ?, age = ? WHERE " +:+ dquote "id" +:+ " = ?".
Definition set_age (updated age : goval) (r : gostruct) : gostruct :=
  set_field (set_field r "UpdatedAt" updated) "Age" age.

Definition s_exec (q : string) (args : list (option goval)) (d : sdb) : sdb * result exec_result :=
  match args with
  | [Some updated; Some age; Some (VInt W64 id)] =>
      if (q =? update_age_text)%string
      then (MkSdb (MkTdb (alter (set_age updated age) id (s_rows d)) None (t_next (s_table d))),
            Ok (MkExec (Ok 0%Z) (if s_rows d !! id then 1 else 0)%Z))
      else (d, Err (ErrMsg "unsupported statement"))
  | _ => let '(t, r) := t_exec q args (s_table d) in (MkSdb t, r)
  end.

#[export] Instance sdb_adapter : DBAdapter sdb := {|
  db_dialect := SQLiteDialector;
  db_SelectIDs q args d := (d, Ok (page_of q (adults_of (s_rows d))));
  db_SelectModels q args d := (d, Ok (omap (λ id, s_rows d !! id) (arg_ids args)));
  db_GetModel q args d :=
    (d, match omap (λ id, s_rows d !! id) (arg_ids args) with r :: _ => Ok r | [] => Err ErrNotFound end);
  db_GetCount t q args d := (d, Ok (Z.of_nat (length (adults_of (s_rows d)))));
  db_Exec := s_exec;
  db_Begin d := (d, Ok ());
  db_Commit d := (d, Ok ());
  db_Rollback d := (d, Ok ())
|}.

(** A state of the database that holds the rows; few enough for a page number. *)
Definition s_ok (rows : gmap Z gostruct) (d : sdb) : Prop :=
  s_rows d = rows ∧ (Z.of_nat (length (adults_of rows)) <= max_int64)%Z.

Definition family (p : QueryParams) : Prop := p = by_age.
Definition family_answer (p : QueryParams) (rows : gmap Z gostruct) : list Z := adults_of rows.

(** ** The model and the query fit *)

Lemma user_model_ok : model_ok "User" user_methods user_type user_info.
Proof.
  split; try done.
  - apply (bool_decide_unpack (NoDup (all_names user_type))). vm_compute. done.
  - apply (bool_decide_unpack (NoDup (Columns user_info))). vm_compute. done.
Qed.

(** The shape of a user. *)
Definition user_row (id : Z) (c u : Z * Z) (deleted new : bool) (name : string) (age : Z) : gostruct :=
  [FEmbed "BaseModel" [FVal "ID" (VInt W64 id); FVal "CreatedAt" (VTime c.1 c.2); FVal "UpdatedAt" (VTime u.1 u.2);
                       FVal "Deleted" (VBool deleted); FVal "isNewRecord" (VBool new)];
   FVal "Name" (VString name); FVal "Age" (VInt WInt age)].

Lemma field_inv f n t db diff : field_typed f (SField n t db diff) → ∃ v, f = FVal n v ∧ typeof v = t.
Proof. inversion 1; eauto. Qed.
Lemma embed_inv f n tn sfs : field_typed f (SEmbed n tn sfs) → ∃ fs, f = FEmbed n fs ∧ has_type fs sfs.
Proof. inversion 1; eauto. Qed.
Lemma type_int v w : typeof v = TInt w → ∃ z, v = VInt w z.
Proof. destruct v; try done. intros [= ->]. eauto. Qed.
Lemma type_time v : typeof v = TTime → ∃ s n, v = VTime s n.
Proof. destruct v; try done. eauto. Qed.
Lemma type_bool v : typeof v = TBool → ∃ b, v = VBool b.
Proof. destruct v; try done. eauto. Qed.
Lemma type_string v : typeof v = TString → ∃ s, v = VString s.
Proof. destruct v; try done. eauto. Qed.

Ltac fields := repeat match goal with
  | H : has_type ?x _ |- _ => unfold has_type in H
  | H : Forall2 field_typed _ (_ :: _) |- _ => apply Forall2_cons_inv_r in H as (?&?&?&?&->)
  | H : Forall2 field_typed _ [] |- _ => apply Forall2_nil_inv_r in H as ->
  | H : field_typed _ (SField _ _ _ _) |- _ => apply field_inv in H as (?&->&?)
  | H : field_typed _ (SEmbed _ _ _) |- _ => apply embed_inv in H as (?&->&?)
  | H : typeof _ = TInt _ |- _ => apply type_int in H as [? ->]
  | H : typeof _ = TTime |- _ => apply type_time in H as (?&?&->)
  | H : typeof _ = TBool |- _ => apply type_bool in H as [? ->]
  | H : typeof _ = TString |- _ => apply type_string in H as [? ->]
  end.

Lemma user_shape r : has_type r user_type → ∃ id c u deleted new name age, r = user_row id c u deleted new name age.
Proof.
  intros Hr. unfold user_type, base_type in Hr. fields.
  eexists _, (_, _), (_, _), _, _, _, _. unfold user_row. simpl. reflexivity.
Qed.

Lemma adult_check id c u deleted new name age :
  checks user_info by_age (user_row id c u deleted new name age) = Ok (18 <? age)%Z.
Proof. vm_compute. reflexivity. Qed.

Lemma family_ok : queries_ok user_type user_info family.
Proof.
  split; unfold family.
  - by eexists.
  - by intros p ->.
  - by intros p p' -> ->.
  - by intros p p' -> ->.
  - intros p ->. split; [split; [done|]|].
    + intros q Hq. assert (pred_of by_age = Some adults_predicate) as Hp by (vm_compute; reflexivity).
      rewrite Hp in Hq. injection Hq as <-. apply (bool_decide_unpack (predicate_Fields adults_predicate ⊆ columns_of user_info)).
      vm_compute. done.
    + apply (bool_decide_unpack (order_columns user_info by_age ⊆ columns_of user_info)). vm_compute. done.
  - intros p r -> (id&c&u&del&new&name&age&->)%user_shape. by rewrite adult_check.
Qed.

(** ** The table answers *)

Lemma elem_ranked rows a id :
  (a, id) ∈ ranked rows ↔ ∃ r, rows !! id = Some r ∧ is_adult r = true ∧ a = (- age_of r)%Z.
Proof.
  unfold ranked. rewrite elem_of_list_to_set, list_elem_of_fmap. split.
  - intros ([i r]&[= -> ->]&[Hr Hi]%list_elem_of_filter). apply elem_of_map_to_list in Hi. eauto.
  - intros (r&Hr&Ha&->). exists (id, r). split; [done|]. apply list_elem_of_filter. by rewrite elem_of_map_to_list.
Qed.

Lemma elem_sorted x X : x ∈ merge_sort rank_le (elements (X : gset (Z * Z))) ↔ x ∈ X.
Proof. by rewrite merge_sort_Permutation, elem_of_elements. Qed.

Lemma elem_adults rows id : id ∈ adults_of rows ↔ selected user_info by_age rows id.
Proof.
  unfold adults_of, selected. rewrite list_elem_of_fmap. setoid_rewrite elem_sorted. split.
  - intros ([a i]&->&(r&Hr&Ha&_)%elem_ranked). exists r. unfold is_adult in Ha. split; [done|].
    destruct (checks user_info by_age r) as [b| |]; [|done..]. by apply andb_true_iff in Ha as [-> ->].
  - intros (r&Hr&Hc&Hk). exists (- age_of r, id)%Z. split; [done|]. apply elem_ranked. exists r.
    unfold is_adult. by rewrite Hc, Hk.
Qed.

Lemma nodup_adults rows : NoDup (adults_of rows).
Proof.
  unfold adults_of. apply NoDup_fmap_2_strong.
  - intros [a i] [b j]. rewrite !elem_sorted. simpl.
    intros (r&Hr&_&->)%elem_ranked (r'&Hr'&_&->)%elem_ranked ->. congruence.
  - rewrite merge_sort_Permutation. apply NoDup_elements.
Qed.

Lemma same_age r r' : has_type r user_type → has_type r' user_type → same_order user_info by_age r r' → age_of r = age_of r'.
Proof.
  intros (id&c&u&del&new&name&age&->)%user_shape (id'&c'&u'&del'&new'&name'&age'&->)%user_shape [->|Hs]; [done|].
  assert ("age" ∈ order_columns user_info by_age) as Hage.
  { apply (bool_decide_unpack ("age" ∈ order_columns user_info by_age)). vm_compute. done. }
  specialize (Hs "age" Hage). change (deep_equal (VInt WInt age) (VInt WInt age') = true) in Hs. by apply Z.eqb_eq in Hs as ->.
Qed.

Lemma ranked_order rows rows' :
  rows_ok user_type user_info zero_user rows → rows_ok user_type user_info zero_user rows' →
  (∀ id, selected user_info by_age rows id ↔ selected user_info by_age rows' id) →
  (∀ id r r', rows !! id = Some r → rows' !! id = Some r' → selected user_info by_age rows id → same_order user_info by_age r r') →
  ranked rows ⊆ ranked rows'.
Proof.
  intros Hr Hr' Hsel Hord [a id] Ha. pose proof Ha as (r&Hid&Had&->)%elem_ranked. apply elem_ranked.
  assert (selected user_info by_age rows id) as Hs.
  { apply elem_adults. unfold adults_of. apply list_elem_of_fmap. exists (- age_of r, id)%Z. split; [done|].
    by apply elem_sorted. }
  pose proof (proj1 (Hsel id) Hs) as (r'&Hid'&Hc'&Hk'). exists r'. split; [done|]. split; [unfold is_adult; by rewrite Hc', Hk'|].
  f_equal. eapply same_age; [by eapply Hr|by eapply Hr'|by eapply Hord].
Qed.

Lemma page_of_adults rows off lim : (Z.of_nat (length (adults_of rows)) <= max_int64)%Z →
  page_of (ids_query user_info by_age (Z.of_nat off) (Z.of_nat lim)).1 (adults_of rows) = take lim (drop off (adults_of rows)).
Proof.
  intros Hlen. generalize dependent (adults_of rows). intros ids Hlen.
  assert (Hbig : ∀ n, int64_range (Z.of_nat n) = false → (length ids ≤ n)%nat).
  { intros n. unfold int64_range, min_int64, max_int64 in *. lia. }
  assert (Hq : (ids_query user_info by_age (Z.of_nat off) (Z.of_nat lim)).1 =
    (by_age_text +:+ " LIMIT ") +:+ (FormatInt (Z.of_nat lim) +:+ String " " ("OFFSET " +:+ FormatInt (Z.of_nat off)))) by reflexivity.
  rewrite Hq. unfold page_of. rewrite drop_str_app, FormatInt_until, drop_str_app, !ParseInt_FormatInt.
  destruct (int64_range (Z.of_nat off)) eqn:Eo, (int64_range (Z.of_nat lim)) eqn:El; rewrite ?Nat2Z.id; [done| | |].
  - apply Hbig in El. symmetry. apply take_ge. rewrite length_drop. lia.
  - apply Hbig in Eo. by rewrite (drop_ge ids off), !take_nil.
  - apply Hbig in Eo. by rewrite (drop_ge ids off), take_nil.
Qed.

Lemma sdb_ok : database_ok user_type user_info zero_user family s_ok family_answer.
Proof.
  split; unfold family, family_answer.
  - intros rows p -> Hrows. split; [|apply Hrows| |].
    + intros d batch [Hd Hn] _. simpl. split; [done|]. eexists. split; [done|]. intros r. rewrite Hd.
      by rewrite list_elem_of_omap, arg_ids_batch.
    + intros d off lim [Hd Hn]. split; [done|]. cbn [snd db_SelectIDs sdb_adapter]. f_equal. rewrite Hd. by apply page_of_adults.
    + intros d [Hd Hn]. split; [done|]. cbn [snd db_GetCount sdb_adapter]. by rewrite Hd.
  - intros rows p id -> _. apply elem_adults.
  - intros rows p -> _. apply nodup_adults.
  - intros rows rows' p -> Hr Hr' Hsel Hord. unfold adults_of. do 3 f_equal. apply set_eq. intros x. split; apply ranked_order; try done.
    intros id r r' Hid Hid' Hs. destruct (Hord id r' r) as [?|Hc]; [done|done|by apply Hsel|by left|right].
    intros c Hin. apply same_column_sym, Hc, Hin.
Qed.

(** ** A run

    The list is read; an older user is added; the list is read again; ann is made
    a minor; eve is deleted; the cleanup goroutine runs. *)

Lemma reread_ok r : has_type r user_type → setNewRecordFlagIfBaseModel false r = r → reread r = Ok r →
  row_ok user_type user_info zero_user r.
Proof.
  intros Ht Hf. unfold reread. rewrite Hf. destruct (gob_map _) as [d|] eqn:Hd; [|done]. intros Hm.
  split; [done|]. split; [done|]. by exists d, r.
Qed.

Definition start : world local_client sdb := MkWorld empty_client NewCacheIndex (MkSdb tdb1).
Notation urun := (cstep user_type user_info zero_user 0 no_listeners family s_ok).

Lemma start_started : started user_type user_info zero_user s_ok three_users start.
Proof.
  split; try done.
  - split; [|apply three_keyed]. intros id r. unfold three_users. rewrite !lookup_insert.
    repeat case_decide; try (rewrite lookup_empty; done); intros [= <-]; subst;
      (apply reread_ok; [apply has_type_user|done|vm_compute; reflexivity]).
Qed.

(** The worlds of the run. *)
Definition w_read := (Fetch user_info zero_user 0 (Query by_age) 0 3 start).1.1.
Definition zoe := user 0 false "zoe" 50.
Definition w_zoe := (Save user_info zero_user 0 no_listeners (clock 0) zoe w_read).1.1.
Definition w_warm := (Fetch user_info zero_user 0 (Query by_age) 0 4 w_zoe).1.1.
Definition young_ann := user 7 false "ann" 10.
Definition w_ann := (Save user_info zero_user 0 no_listeners (clock 1) young_ann w_warm).1.1.
Definition w_eve := (Delete_ user_info no_listeners (user 2 false "eve" 40) w_ann).1.1.
Definition w_end := tick 1000 w_eve.

Definition saved_zoe := user_at 100 8 "zoe" 50.
Definition saved_ann := user_row 7 (0, 0)%Z (101, 0)%Z false false "ann" 10.
Definition rows_zoe := <[8%Z := saved_zoe]> three_users.
Definition rows_ann := <[7%Z := saved_ann]> rows_zoe.
Definition rows_end := delete 2%Z rows_ann.

Lemma step_save now value rows w model new :
  let x := saveWithExecutor user_info zero_user 0 no_listeners now value false w in
  (x.2, mu_applied x.1.2, mu_isNew x.1.2, mu_value x.1.2, s_rows (w_db x.1.1)) =
    (Ok (), true, new, model, <[GetID model := model]> rows) →
  row_ok user_type user_info zero_user model → (0 < GetID model)%Z →
  (if new then rows !! GetID model = None
   else GetID model = GetID value ∧ ∃ r, rows !! GetID value = Some r ∧ KeepItem r = true) →
  (Z.of_nat (length (adults_of (<[GetID model := model]> rows))) <= max_int64)%Z →
  urun (rows, w) (<[GetID model := model]> rows, (Save user_info zero_user 0 no_listeners now value w).1.1).
Proof.
  intros x Hx Hrow Hid Hnew Hlen. apply cs_save. destruct x as [[w1 mu] r] eqn:Ex. subst x. simpl in Hx.
  injection Hx as -> Ha Hn <- Hd. apply (sav_done _ _ _ _ _ _ _ _ _ _ w1 mu Ex); try done; [lia|by intros E; rewrite E in Hn; subst|].
  intros E. rewrite E in Hn. subst new. destruct Hnew as [Hsame Hr]. split; [congruence|done].
Qed.

Lemma step_zoe : urun (three_users, w_read) (rows_zoe, w_zoe).
Proof.
  apply (step_save (clock 0) zoe three_users w_read saved_zoe true); [vm_compute; reflexivity| |done|done|vm_compute; done].
  apply reread_ok; [repeat (constructor || apply ft_embed)|done|vm_compute; reflexivity].
Qed.

Lemma step_ann : urun (rows_zoe, w_warm) (rows_ann, w_ann).
Proof.
  apply (step_save (clock 1) young_ann rows_zoe w_warm saved_ann false); [vm_compute; reflexivity| |done| |vm_compute; done].
  - apply reread_ok; [repeat (constructor || apply ft_embed)|done|vm_compute; reflexivity].
  - split; [done|]. by exists (user 7 false "ann" 20).
Qed.

Lemma step_eve : urun (rows_ann, w_ann) (rows_end, w_eve).
Proof.
  apply cs_delete. change rows_end with (delete (GetID (user 2 false "eve" 40)) rows_ann).
  apply (del_done _ _ _ _ _ _ _ _ (user 2 false "eve" 40) (user 2 false "eve" 40)); [done|done|apply has_type_user|done|done| |].
  - vm_compute. reflexivity.
  - split; vm_compute; done.
Qed.

Lemma the_run : rtc urun (three_users, start) (rows_end, w_end).
Proof.
  eapply rtc_l; [by apply (cs_fetch _ _ _ _ _ _ _ by_age 0 3)|]. eapply rtc_l; [apply step_zoe|].
  eapply rtc_l; [by apply (cs_fetch _ _ _ _ _ _ _ by_age 0 4)|]. eapply rtc_l; [apply step_ann|]. eapply rtc_l; [apply step_eve|]. apply rtc_once, cs_tick.
Qed.


(** The lists of the run are served by the cache between the writes. *)
Example run_hits :
  is_Some (store (lc (w_cache w_read)) !! list_key user_info by_age) ∧
  store (lc (w_cache w_zoe)) !! list_key user_info by_age = None ∧
  is_Some (store (lc (w_cache w_warm)) !! list_key user_info by_age) ∧
  store (lc (w_cache w_ann)) !! list_key user_info by_age = None.
Proof. split_and!; vm_compute; [eauto|done|eauto|done]. Qed.

(** ** A write while the list is being read *)

Definition w_sel := (list_select user_info zero_user 0 by_age start).1.
Definition w_race := (Save user_info zero_user 0 no_listeners (clock 0) zoe w_sel).1.1.
Definition w_stale := list_store user_info 0 by_age [2%Z; 1%Z; 7%Z] w_race.

Lemma step_race : urun (three_users, w_sel) (rows_zoe, w_race).
Proof.
  apply (step_save (clock 0) zoe three_users w_sel saved_zoe true); [vm_compute; reflexivity| |done|done|vm_compute; done].
  apply reread_ok; [repeat (constructor || apply ft_embed)|done|vm_compute; reflexivity].
Qed.

