(* ===== verification/PreloadExamples.v ===== *)
(** * Pages with relations on a small database

    The adults of QueryExamples.v, oldest first, each with the record its id
    names in the same table, through the local cache. *)

From S2P Require Import Prelude GoStrings GoStringsFacts GoValues Predicate QueryMatch CacheIndex Metadata LocalCache.
From S2P Require Import CacheClient LocalCacheFacts Invalidate InvalidateFacts Freshness SqlBuilder Hooks Crud CrudFacts.
From S2P Require Import Query QueryFacts LocalQuery Relations RelationsFacts QueryPreload Witnesses Examples CrudExamples.
From S2P Require Import QueryExamples.

Open Scope string_scope.

#[export] Instance pdb_relations : RelationEnv pdb := {|
  sha256_hex s := s;
  db_QueryIDs q args d := (d, RowsIDs [])
|}.

Definition self_type : gotype := TOpaque OStruct "User".
Definition self_fields : gmap string (gotype * string) := <["Self" := (TPtr self_type, "belongsTo;fk:id")]> ∅.
Definition self_opts : RelationshipOpts :=
  match parseThingTag "belongsTo;fk:id" with Ok o => o | _ => MkRel "" "" "" "" "" "" "" end.
Definition self_related (t : gotype) : related_model := MkRelated (Ok user_info) zero_user.
Definition with_self : QueryParams := MkQueryParams "age > ?" [Some (VInt WInt 18)] "age DESC" ["Self"] false.

Lemma self_answers : db_answers user_info three_users p_ok with_self adult_ids.
Proof. destruct pdb_answers as [H1 H2 H3 H4]. split; [exact H1|exact H2|exact H3|exact H4]. Qed.
Lemma self_default : default_query user_info three_users with_self adult_ids.
Proof. destruct by_age_default as [H1 H2 H3]. split; [exact H1|exact H2|exact H3]. Qed.

Notation self_cache := (local_caches_query user_info zero_user 0 three_users with_self adult_ids users_plain_keys users_survive).

Lemma Fetch_belongsTo_witness :
  ∃ w' cr' o1 o2,
    Fetch_loaded user_info self_fields self_related zero_user 0 (Query with_self) 1 2 page_world = (w', cr', Some (Ok [o1; o2])) ∧
    l_model o1 = user 1 false "bob" 30 ∧ l_rels o1 !! "Self" = Some (RelPtr (user 1 false "bob" 30)) ∧
    l_model o2 = user 7 false "ann" 20 ∧ l_rels o2 !! "Self" = Some (RelPtr (user 7 false "ann" 20)).
Proof.
  destruct (Fetch_belongsTo user_info self_fields self_related zero_user 0 three_users p_ok
    (local_ok user_info three_users with_self adult_ids) with_self adult_ids self_answers self_cache self_default
    self_type user_info zero_user three_users eq_refl (cq_rows _ _ _ _ _ _ _ self_cache) (da_rows _ _ _ _ _ pdb_answers) three_keyed
    "Self" (TPtr self_type) "belongsTo;fk:id" "ID" self_opts eq_refl eq_refl eq_refl eq_refl eq_refl eq_refl eq_refl
    ltac:(vm_compute; reflexivity) (Query with_self) 1 2 page_world) as (w'&cr'&os&Hf&_&Hm&Hb&_);
    [split; [reflexivity|apply local_ok_empty]|apply Query_ok|].
  assert (page three_users (take 2 (drop 1 adult_ids)) = [user 1 false "bob" 30; user 7 false "ann" 20]) as Hp
    by (vm_compute; reflexivity). rewrite Hp in Hm.
  destruct os as [|o1 [|o2 [|]]]; try discriminate Hm. injection Hm as Hm1 Hm2.
  inversion Hb as [|? ? Hb1 Hb']; subst. inversion Hb' as [|? ? Hb2 _]; subst. unfold belongs, owner_row in Hb1, Hb2.
  exists w', cr', o1, o2. split; [exact Hf|]. rewrite Hb1, Hb2, Hm1, Hm2. vm_compute. auto.
Defined.

Lemma Fetch_loaded_plain_witness :
  (Fetch_loaded user_info self_fields self_related zero_user 0 (Query by_age) 1 2 page_world).2 =
  Some (Ok [bare (user 1 false "bob" 30); bare (user 7 false "ann" 20)]).
Proof.
  rewrite (Fetch_loaded_plain user_info self_fields self_related zero_user 0 (Query by_age) 1 2 page_world eq_refl).
  vm_compute. reflexivity.
Defined.
