(* ===== verification/RaceExamples.v ===== *)
(** * Two saves of one user that overlap *)

From S2P Require Import Prelude GoStrings GoStringsFacts GoValues GoValuesFacts Predicate QueryMatch QueryMatchFacts.
From S2P Require Import CacheIndex CacheIndexFacts Metadata LocalCache CacheClient LocalCacheFacts Invalidate InvalidateFacts.
From S2P Require Import MetadataFacts Freshness SqlBuilder Hooks Crud CrudFacts WriteFacts Query QueryFacts LocalQuery.
From S2P Require Import Coherence CoherenceFacts CoherenceRuns SaveRaces FetchFacts.
From S2P Require Import Witnesses Examples CrudExamples QueryExamples CoherenceExamples.

Open Scope string_scope.

(** One goroutine makes ann a minor, another makes her thirty: the statements are
    executed in this order, the saves are finalized in the other. *)
Definition save_minor := saveWithExecutor user_info zero_user 0 no_listeners (clock 1) (user 7 false "ann" 10) false w_read.
Definition save_thirty := saveWithExecutor user_info zero_user 0 no_listeners (clock 2) (user 7 false "ann" 30) false save_minor.1.1.
Definition thirty_final := finalizeSave user_info 0 no_listeners save_thirty.1.2 save_thirty.1.1.
Definition minor_final := finalizeSave user_info 0 no_listeners save_minor.1.2 thirty_final.1.1.

(** The table has ann at thirty; reads return the minor. *)
Example minor_is_read :
  age_of <$> (s_rows (w_db minor_final.1.1) !! 7%Z) = Some 30%Z ∧
  age_of <$> (ByID user_info zero_user 0 7 minor_final.1.1).2 = Ok 10%Z.
Proof. split; vm_compute; reflexivity. Qed.

Lemma race_unlocked : unlocked (w_cache save_thirty.1.1).
Proof.
  assert (He : lc_env (w_cache save_thirty.1.1) = wit_env) by (vm_compute; reflexivity).
  assert (Hl : lockPool (lc (w_cache save_thirty.1.1)) = ∅) by (vm_compute; reflexivity).
  split; [|rewrite He; discriminate..]. intros k. unfold held. by rewrite Hl, lookup_empty.
Qed.

Lemma minor_cacheable : cacheable (Fields_ user_info) (mu_value save_minor.1.2) zero_user.
Proof.
  assert (mu_value save_minor.1.2 = saved_ann) as -> by (vm_compute; reflexivity).
  intros f [->|[->|[->|[->|[->| ->]]]]]%user_fields; (split; [done|]); eexists _, _, _;
    (split; [reflexivity|]); (split; [|split; reflexivity]); (split; [reflexivity|]); (split; [intros ?; discriminate|]);
    (split; reflexivity).
Qed.


(** ** A list that shows no hidden record *)

Lemma Fetch_visible_witness :
  (length [user 2 false "eve" 40; user 1 false "bob" 30; user 7 false "ann" 20] <= 3)%nat ∧
  Forall (may_show by_age) [user 2 false "eve" 40; user 1 false "bob" 30; user 7 false "ann" 20].
Proof.
  destruct (Fetch_visible user_info zero_user 0 (Query by_age) 0 3 start) as [Hf _].
  destruct (Hf [user 2 false "eve" 40; user 1 false "bob" 30; user 7 false "ann" 20]) as [_ Hall]; [vm_compute; reflexivity|].
  split; [simpl; lia|exact Hall].
Defined.
