(* ===== verification/AdapterExamples.v ===== *)
(** * A migration through an adapter

    A connection to an empty database that records the statements it executes. *)

From S2P Require Import Prelude GoStrings GoValues Metadata Predicate CacheIndex LocalCache CacheClient SqlBuilder Crud.
From S2P Require Import Schema Drivers Introspect Adapters Witnesses.

Open Scope string_scope.

Record recorder := MkRecorder { rc_executed : list string }.

#[export] Instance recorder_conn : SqlConn recorder goval := {
  q_Open _ _ := inl (MkRecorder []);
  q_Ping q := (q, None);
  q_Close q := (q, None);
  q_Query _ _ q := (q, inl (MkRows (Ok []) [] None));
  q_QueryRow _ _ q := (q, NoRows);
  q_Exec query _ q := (MkRecorder (rc_executed q ++ [query]), inl (MkExec (Ok 0%Z) 0));
  q_Begin q := (q, None);
  q_Commit q := (q, None);
  q_Rollback q := (q, None);
  q_Assign v t := if bool_decide (typeof v = t) then Some v else None;
  q_IsNull v := false
}.

Definition in_order (n : nat) (A : Type) (m : gmap string A) : list (string * A) := map_to_list m.
Definition empty_db : adapter recorder := MkAdapter (MkRecorder []) false false.
Definition create_users : string :=
  Eval vm_compute in match GenerateCreateTableSQL user_info "sqlite" with Ok sql => sql | _ => "" end.

(** The packages of two drivers are loaded, an SQLite adapter is configured: the
    table is created on it. *)
Lemma drivers_registered_witness :
  let a := AutoMigrate (H := sqlite_DBAdapter user_type (user 0 false "" 0)) in_order
             (loaded in_order [PostgreSQL; SQLite] false (Some SQLite)) [Ok user_info] empty_db in
  a.2 = Ok () ∧ rc_executed (a_db a.1) = [create_users].
Proof.
  destruct (drivers_registered (DBAdapter0 := sqlite_DBAdapter user_type (user 0 false "" 0)) in_order [PostgreSQL; SQLite] false
    SQLite user_info empty_db) as [Hd _].
  destruct Hd as (_&_&Hm); [by right; left|].
  destruct (Hm empty_db create_users) as [H1 H2]; [vm_compute; reflexivity|vm_compute; reflexivity|].
  split; [apply H2; vm_compute; reflexivity|]. rewrite H1. vm_compute. reflexivity.
Defined.

(** Without the package of the configured driver there is no introspector. *)
Example driver_not_loaded :
  (AutoMigrate (H := sqlite_DBAdapter user_type (user 0 false "" 0)) in_order
     (loaded in_order [MySQL] false (Some SQLite)) [Ok user_info] empty_db).2 =
  Err (ErrWrap "AutoMigrate: failed to introspect table" (ErrMsg "no introspector registered for dialect")).
Proof. vm_compute. reflexivity. Qed.
