(* ===== verification/DemoExamples.v ===== *)
(** * The example programs on concrete databases

    A table of records with two fields that executes the statements of the ORM,
    for the users of [01_basic_crud] and of [04_hooks], and a database of four
    tables for [05_relationships]. *)

From S2P Require Import Prelude GoStrings GoStringsFacts GoValues GoValuesFacts Predicate QueryMatch QueryMatchFacts.
From S2P Require Import CacheIndex CacheIndexFacts Metadata LocalCache CacheClient LocalCacheFacts Invalidate InvalidateFacts.
From S2P Require Import MetadataFacts Freshness SqlBuilder Hooks Crud CrudFacts WriteFacts Query QueryFacts LocalQuery.
From S2P Require Import Coherence CoherenceFacts CoherenceRuns Config Schema TableOps Demos DemoFacts.
From S2P Require Import Witnesses Examples CrudExamples QueryExamples CoherenceExamples.

From stdpp Require Import sorting.
Open Scope string_scope.

(** ** A table of records with two fields *)

Record edb := MkEdb { e_rows : gmap Z gostruct; e_next : Z }.

(** The ids of the visible rows, in order. *)
Definition visible_ids (rows : gmap Z gostruct) : list Z :=
  merge_sort Z.le (elements (dom (filter (λ ir : Z * gostruct, KeepItem ir.2 = true) rows))).

Definition number (s : string) : nat := Z.to_nat (default 0%Z (parse_digits s)).
Definition e_page (prefix q : string) (ids : list Z) : list Z :=
  match until " " (drop_str (String.length (prefix +:+ " LIMIT ")) q) with
  | Some (limit, rest) => take (number limit) (drop (number (drop_str (String.length "OFFSET ") rest)) ids)
  | None => []
  end.

(** The first and the second field, and the UPDATE that writes the second. *)
Record two_columns := MkTwo { tc_first : string; tc_second : string; tc_select : string; tc_update : string }.

Definition e_inserted (tc : two_columns) (id : Z) (args : list (option goval)) : option gostruct :=
  match args with
  | [Some c; Some u; Some d; Some x; Some y] =>
      Some [FEmbed "BaseModel" [FVal "ID" (VInt W64 id); FVal "CreatedAt" c; FVal "UpdatedAt" u;
                                FVal "Deleted" d; FVal "isNewRecord" (VBool false)];
            FVal (tc_first tc) x; FVal (tc_second tc) y]
  | _ => None
  end.

Definition e_exec (tc : two_columns) (q : string) (args : list (option goval)) (d : edb) : edb * result exec_result :=
  match args with
  | [Some u; Some y; Some (VInt W64 id)] =>
      if (q =? tc_update tc)%string
      then (MkEdb (alter (λ r, set_field (set_field r "UpdatedAt" u) (tc_second tc) y) id (e_rows d)) (e_next d),
            Ok (MkExec (Ok 0%Z) (if e_rows d !! id then 1 else 0)%Z))
      else (d, Err (ErrMsg "unsupported statement"))
  | [Some (VInt W64 id)] =>
      (MkEdb (delete id (e_rows d)) (e_next d), Ok (MkExec (Ok 0%Z) (if e_rows d !! id then 1 else 0)%Z))
  | _ =>
      match e_inserted tc (e_next d) args with
      | Some row => (MkEdb (<[e_next d := row]> (e_rows d)) (e_next d + 1), Ok (MkExec (Ok (e_next d)) 1))
      | None => (d, Ok (MkExec (Ok 0%Z) 0))
      end
  end.

Definition edb_adapter (tc : two_columns) : DBAdapter edb := {|
  db_dialect := SQLiteDialector;
  db_SelectIDs q args d := (d, Ok (e_page (tc_select tc) q (visible_ids (e_rows d))));
  db_SelectModels q args d := (d, Ok (omap (λ id, e_rows d !! id) (arg_ids args)));
  db_GetModel q args d :=
    (d, match omap (λ id, e_rows d !! id) (arg_ids args) with r :: _ => Ok r | [] => Err ErrNotFound end);
  db_GetCount t q args d := (d, Ok (Z.of_nat (length (visible_ids (e_rows d)))));
  db_Exec := e_exec tc;
  db_Begin d := (d, Ok ());
  db_Commit d := (d, Ok ());
  db_Rollback d := (d, Ok ())
|}.

Definition e_ok (rows : gmap Z gostruct) (d : edb) : Prop :=
  e_rows d = rows ∧ (0 < e_next d)%Z ∧ ∀ id r, rows !! id = Some r → (id < e_next d)%Z.

Definition all_family (p : QueryParams) : Prop := p = all_params.
Definition all_answer (p : QueryParams) (rows : gmap Z gostruct) : list Z := visible_ids rows.

Lemma number_FormatInt n : number (FormatInt (Z.of_nat n)) = n.
Proof.
  assert (FormatInt (Z.of_nat n) = FormatUint (N.of_nat n)) as -> by by destruct n.
  unfold number. rewrite parse_FormatUint. simpl. lia.
Qed.

Lemma e_page_text prefix off lim ids :
  e_page prefix (prefix +:+ " LIMIT " +:+ FormatInt (Z.of_nat lim) +:+ " OFFSET " +:+ FormatInt (Z.of_nat off)) ids
  = take lim (drop off ids).
Proof.
  unfold e_page. rewrite <-string_app_assoc, drop_str_app.
  change (" OFFSET " +:+ FormatInt (Z.of_nat off)) with (String " " ("OFFSET " +:+ FormatInt (Z.of_nat off))).
  by rewrite FormatInt_until, drop_str_app, !number_FormatInt.
Qed.

Lemma elem_visible rows id : id ∈ visible_ids rows ↔ ∃ r, rows !! id = Some r ∧ KeepItem r = true.
Proof.
  unfold visible_ids. rewrite merge_sort_Permutation, elem_of_elements, elem_of_dom. unfold is_Some.
  setoid_rewrite map_lookup_filter_Some. done.
Qed.

Lemma nodup_visible rows : NoDup (visible_ids rows).
Proof. unfold visible_ids. rewrite merge_sort_Permutation. apply NoDup_elements. Qed.

Lemma visible_same rows rows' :
  (∀ id, id ∈ visible_ids rows ↔ id ∈ visible_ids rows') → visible_ids rows = visible_ids rows'.
Proof.
  intros Hs. unfold visible_ids. do 2 f_equal. apply set_eq. intros id. specialize (Hs id). rewrite !elem_visible in Hs.
  rewrite !elem_of_dom. unfold is_Some. setoid_rewrite map_lookup_filter_Some. done.
Qed.

(** ** What both models share *)

Section table.
Context (typeName : string) (fs : list sfield) (info : ModelInfo) (zero : gostruct) (tc : two_columns).
#[local] Instance tc_adapter : DBAdapter edb := edb_adapter tc.

Hypothesis Hchecks : ∀ r, checks info all_params r = Ok true.
Hypothesis Hselect : ∀ off lim, (ids_query info all_params off lim).1 =
  tc_select tc +:+ " LIMIT " +:+ FormatInt lim +:+ " OFFSET " +:+ FormatInt off.

Lemma selected_visible rows id : selected info all_params rows id ↔ id ∈ visible_ids rows.
Proof. unfold selected. rewrite elem_visible. setoid_rewrite Hchecks. naive_solver. Qed.

Lemma edb_ok : database_ok fs info zero all_family e_ok all_answer.
Proof.
  split; unfold all_family, all_answer.
  - intros rows p -> [_ Hk]. split; [|done| |].
    + intros d batch Hd _. simpl. split; [done|]. eexists. split; [done|]. intros r. rewrite (proj1 Hd).
      by rewrite list_elem_of_omap, arg_ids_batch.
    + intros d off lim Hd. split; [done|]. cbn [snd db_SelectIDs tc_adapter edb_adapter]. f_equal.
      rewrite Hselect, (proj1 Hd). apply e_page_text.
    + intros d Hd. split; [done|]. cbn [snd db_GetCount tc_adapter edb_adapter]. by rewrite (proj1 Hd).
  - intros rows p id -> _. by rewrite selected_visible.
  - intros rows p -> _. apply nodup_visible.
  - intros rows rows' p -> _ _ Hsel _. apply visible_same. intros id. by rewrite <-!selected_visible.
Qed.

Lemma e_deletes rows d id r : rows !! id = Some r → e_ok rows d →
  ∃ x n d', e_exec tc (BuildDeleteSQL (TableName info) (PkName info)) [Some (VInt W64 id)] d = (d', Ok (MkExec x n)) ∧
    n ≠ 0%Z ∧ e_ok (delete id rows) d'.
Proof.
  intros Hr (Hrows&Hn&Hlt). eexists _, _, _. split; [reflexivity|]. rewrite Hrows, Hr. split; [done|]. split_and!; [done|done|].
  intros i x [_ Hx]%lookup_delete_Some. by eapply Hlt.
Qed.

Lemma e_inserts rows d row : e_ok rows d →
  let id := e_next d in
  (0 < id)%Z ∧ rows !! id = None ∧ e_ok (<[id := row]> rows) (MkEdb (<[id := row]> (e_rows d)) (id + 1)).
Proof.
  intros (Hrows&Hn&Hlt). cbv zeta. split; [done|]. split.
  - apply eq_None_not_Some. intros [r Hr]. specialize (Hlt _ _ Hr). lia.
  - split; [by rewrite <-Hrows|]. simpl. split; [lia|]. intros i x [[<- _]|[_ Hx]]%lookup_insert_Some; [lia|].
    specialize (Hlt _ _ Hx). lia.
Qed.

Lemma e_alters rows d id f r : rows !! id = Some r → e_ok rows d →
  e_ok (<[id := f r]> rows) (MkEdb (alter f id (e_rows d)) (e_next d)).
Proof.
  intros Hr (Hrows&Hn&Hlt). split_and!; simpl; [|done|].
  - rewrite Hrows. apply map_eq. intros i. destruct (decide (i = id)) as [->|Hne].
    + by rewrite lookup_alter_eq, lookup_insert_eq, Hr.
    + by rewrite lookup_alter_ne, lookup_insert_ne.
  - intros i x [[<- _]|[_ Hx]]%lookup_insert_Some; eauto.
Qed.

Lemma column_written cols m r : writes_columns info cols m r → ∀ c,
  bool_decide (c ∈ Columns info) && negb (c =? PkName info) = true →
  match (list_to_map cols : gmap string (option goval)) !! c with
  | Some v => value_Interface <$> column_value m (ColumnToFieldMap info) c = Some v
  | None => column_value m (ColumnToFieldMap info) c = column_value r (ColumnToFieldMap info) c
  end.
Proof. intros Hw c [Hc%bool_decide_eq_true_1 Hn%negb_true_iff%String.eqb_neq]%andb_true_iff. by apply Hw. Qed.
End table.
Arguments column_written {info cols m r} _ c _.

(** ** 01_basic_crud *)

Definition basic_columns : two_columns := MkTwo "Name" "Age"
  (BuildSelectIDsSQL (H := SQLiteDialector) "users" "id" (visible_where all_params) [] "").1
  ("UPDATE " +:+ dquote "users" +:+ " SET updated_at = ?, age = ? WHERE " +:+ dquote "id" +:+ " = ?").
#[local] Instance basic_adapter : DBAdapter edb := edb_adapter basic_columns.

Lemma basic_model_ok : model_ok "User" no_methods basic_User_type basic_info.
Proof.
  split; try done.
  - apply (bool_decide_unpack (NoDup (all_names basic_User_type))). vm_compute. done.
  - apply (bool_decide_unpack (NoDup (Columns basic_info))). vm_compute. done.
Qed.

Lemma basic_checks r : checks basic_info all_params r = Ok true.
Proof. reflexivity. Qed.

Lemma basic_queries_ok : queries_ok basic_User_type basic_info all_family.
Proof.
  split; unfold all_family.
  - by eexists.
  - by intros p ->.
  - by intros p p' -> ->.
  - by intros p p' -> ->.
  - intros p ->. split; [split; [done|]|].
    + intros q [= <-]. apply (bool_decide_unpack (_ ⊆ columns_of basic_info)). vm_compute. done.
    + apply (bool_decide_unpack (order_columns basic_info all_params ⊆ columns_of basic_info)). vm_compute. done.
  - by intros p r ->.
Qed.

(** A record of the table: [BaseModel] with any times and flags, and two fields. *)
Definition any_row (id : Z) (c u : Z * Z) (del new : bool) (n1 : string) (x : goval) (n2 : string) (y : goval) : gostruct :=
  [FEmbed "BaseModel" [FVal "ID" (VInt W64 id); FVal "CreatedAt" (VTime c.1 c.2); FVal "UpdatedAt" (VTime u.1 u.2);
                       FVal "Deleted" (VBool del); FVal "isNewRecord" (VBool new)];
   FVal n1 x; FVal n2 y].

Lemma basic_shape m : has_type m basic_User_type → ∃ id c u del new name age,
  m = any_row id c u del new "Name" (VString name) "Age" (VInt WInt age).
Proof.
  intros Hm. unfold basic_User_type, model_type, BaseModel_fields in Hm. fields.
  eexists _, (_, _), (_, _), _, _, _, _. reflexivity.
Qed.

(** The columns of an update, read off [writes_columns], make the altered row the
    stored one. *)
Ltac read_columns first second Hw :=
  let W1 := fresh in let W2 := fresh in let W3 := fresh in let W4 := fresh in let W5 := fresh in
  pose proof (column_written Hw "created_at" eq_refl) as W1; pose proof (column_written Hw "deleted" eq_refl) as W2;
  pose proof (column_written Hw first eq_refl) as W3; pose proof (column_written Hw "updated_at" eq_refl) as W4;
  pose proof (column_written Hw second eq_refl) as W5; vm_compute in W1, W2, W3, W4, W5.

Lemma basic_writes_ok : writes_ok basic_User_type basic_info basic_zero e_ok [age_update].
Proof.
  split.
  - intros now m rows d _ Hd (id&c&u&del&new&name&age&->)%basic_shape.
    eexists _, _, _. split; [reflexivity|]. by apply e_inserts.
  - intros m r cols rows d [Hr Hk] Hd Hm Hrow Hcols Hw. apply list_elem_of_singleton in Hcols.
    destruct cols as [|[c x] [|[c' y] []]]; try done. simpl in Hcols. injection Hcols as -> ->.
    pose proof (Hr _ _ Hrow) as (Htr&Hflag&_). destruct (Hk _ _ Hrow) as [Hid _].
    apply basic_shape in Hm as (id&[c1 c2]&[u1 u2]&del&new&name&age&->).
    apply basic_shape in Htr as (id'&[c1' c2']&u'&del'&new'&name'&age'&->).
    read_columns "name" "age" Hw. vm_compute in Hid, Hflag. simplify_eq. eexists _, _. split; [reflexivity|].
    exact (e_alters rows d id (λ r, set_field (set_field r "UpdatedAt" (VTime u1 u2)) "Age" (VInt WInt age)) _ Hrow Hd).
  - intros id r rows d _ Hd Hr. by eapply e_deletes.
Qed.

Lemma basic_row_ok id a b name age :
  row_ok basic_User_type basic_info basic_zero (any_row id (a, 0)%Z (b, 0)%Z false false "Name" (VString name) "Age" (VInt WInt age)).
Proof.
  split; [repeat (constructor || apply ft_embed)|]. split; [done|].
  eexists _, (any_row id (a, 0)%Z (b, 0)%Z false false "Name" (VString name) "Age" (VInt WInt age)).
  split; [vm_compute; reflexivity|]. split; [vm_compute; reflexivity|done].
Qed.

(** One user is stored, the cache is empty, the package is configured. *)
Definition stored_bob : gostruct := any_row 1 (90, 0)%Z (90, 0)%Z false false "Name" (VString "Bob") "Age" (VInt WInt 40).
Definition one_user : gmap Z gostruct := {[1%Z := stored_bob]}.
Definition basic_start : world local_client edb := MkWorld empty_client NewCacheIndex (MkEdb one_user 2).
Definition configured : @globals unit unit := (Configure () 7 [any_db ()] initial_globals).1.

Lemma one_user_Some id r : one_user !! id = Some r → id = 1%Z ∧ r = stored_bob.
Proof. unfold one_user. by intros [<- <-]%lookup_singleton_Some. Qed.

Lemma basic_started : coherent basic_User_type basic_info basic_zero all_family e_ok all_answer one_user basic_start.
Proof.
  apply started_coherent. split; try done.
  - split.
    + intros id r [-> ->]%one_user_Some. apply basic_row_ok.
    + intros id r [-> ->]%one_user_Some. done.
  - split_and!; [done|done|]. intros id r [-> ->]%one_user_Some. done.
Qed.

Lemma basic_crud_correct_witness :
  ∃ id w', coherent basic_User_type basic_info basic_zero all_family e_ok all_answer one_user w' ∧
    (basic_crud_body () () ∅ clock (MkPackage configured basic_start)).1.1 = MkPackage configured w' ∧
    last (basic_crud_body () () ∅ clock (MkPackage configured basic_start)).1.2 = Some (Text "Deleted user.") ∧ (0 < id)%Z.
Proof.
  destruct (basic_crud_correct () () clock 100 0 101 0 all_family e_ok all_answer one_user
    (MkPackage configured basic_start)) as (id&w'&Hid&_&Hc&Hrun);
    [apply basic_model_ok|apply basic_queries_ok|apply edb_ok; [apply basic_checks|reflexivity]|apply basic_writes_ok|reflexivity|reflexivity
    |intros id _; split; [apply (basic_row_ok id 100 100)|apply (basic_row_ok id 100 101)]|reflexivity|intros id p -> _; reflexivity|apply globals_ok_Configure, globals_ok_initial|reflexivity|apply basic_started|].
  exists id, w'. cbv zeta in Hrun. rewrite Hrun. split_and!; [exact Hc|reflexivity|reflexivity|exact Hid].
Defined.

(** The lines of the run. *)
Example basic_crud_lines :
  (basic_crud_body () () ∅ clock (MkPackage configured basic_start)).1.2 =
    [Shown "Created:" [basic_row 2 (clock 0) (clock 0) 30]; Shown "ByID:" [basic_row 2 (clock 0) (clock 0) 30];
     Shown "Updated:" [basic_row 2 (clock 0) (clock 1) 31];
     Shown "All users:" [stored_bob; basic_row 2 (clock 0) (clock 1) 31]; Text "Deleted user."].
Proof. vm_compute. reflexivity. Qed.

(** One user is added, and the stored one deleted with a copy of another age. *)
Definition aged_bob : gostruct := any_row 1 (90, 0)%Z (90, 0)%Z false false "Name" (VString "Bob") "Age" (VInt WInt 41).


Lemma FindChangedFields_exact_witness :
  ∃ changed, FindChangedFieldsSimple (PkName basic_info) (CompareFields basic_info) stored_bob aged_bob = Ok changed ∧
    ∀ c, is_Some (changed !! c) → c ∈ columns_of basic_info ∧ c ≠ PkName basic_info.
Proof.
  destruct (FindChangedFields_exact "User" no_methods basic_User_type basic_info stored_bob aged_bob) as (changed&Hc&_&Hd);
    [reflexivity|apply (mo_names _ _ _ _ basic_model_ok)|reflexivity|apply (mo_columns _ _ _ _ basic_model_ok)
    |repeat (constructor || apply ft_embed)..|].
  exists changed. split; [exact Hc|exact Hd].
Defined.

(** The changed column of the two. *)
Example aged_bob_changes :
  FindChangedFieldsSimple (PkName basic_info) (CompareFields basic_info) stored_bob aged_bob = Ok {["age" := Some (VInt WInt 41)]}.
Proof. vm_compute. reflexivity. Qed.

(** ** 04_hooks *)

Definition hooks_columns : two_columns := MkTwo "Name" "Email" (tc_select basic_columns)
  ("UPDATE " +:+ dquote "users" +:+ " SET updated_at = ?, email = ? WHERE " +:+ dquote "id" +:+ " = ?").
#[local] Instance hooks_adapter : DBAdapter edb := edb_adapter hooks_columns.

Lemma hooks_model_ok : model_ok "User" no_methods hooks_User_type hooks_info.
Proof.
  split; try done.
  - apply (bool_decide_unpack (NoDup (all_names hooks_User_type))). vm_compute. done.
  - apply (bool_decide_unpack (NoDup (Columns hooks_info))). vm_compute. done.
Qed.

Lemma hooks_queries_ok : queries_ok hooks_User_type hooks_info all_family.
Proof.
  split; unfold all_family.
  - by eexists.
  - by intros p ->.
  - by intros p p' -> ->.
  - by intros p p' -> ->.
  - intros p ->. split; [split; [done|]|].
    + intros q [= <-]. apply (bool_decide_unpack (_ ⊆ columns_of hooks_info)). vm_compute. done.
    + apply (bool_decide_unpack (order_columns hooks_info all_params ⊆ columns_of hooks_info)). vm_compute. done.
  - by intros p r ->.
Qed.

Lemma hooks_shape m : has_type m hooks_User_type → ∃ id c u del new name email,
  m = any_row id c u del new "Name" (VString name) "Email" (VString email).
Proof.
  intros Hm. unfold hooks_User_type, model_type, BaseModel_fields in Hm. fields.
  eexists _, (_, _), (_, _), _, _, _, _. reflexivity.
Qed.

Lemma hooks_writes_ok : writes_ok hooks_User_type hooks_info hooks_zero e_ok [email_update].
Proof.
  split.
  - intros now m rows d _ Hd (id&c&u&del&new&name&email&->)%hooks_shape.
    eexists _, _, _. split; [reflexivity|]. by apply e_inserts.
  - intros m r cols rows d [Hr Hk] Hd Hm Hrow Hcols Hw. apply list_elem_of_singleton in Hcols.
    destruct cols as [|[c x] [|[c' y] []]]; try done. simpl in Hcols. injection Hcols as -> ->.
    pose proof (Hr _ _ Hrow) as (Htr&Hflag&_). destruct (Hk _ _ Hrow) as [Hid _].
    apply hooks_shape in Hm as (id&[c1 c2]&[u1 u2]&del&new&name&email&->).
    apply hooks_shape in Htr as (id'&[c1' c2']&u'&del'&new'&name'&email'&->).
    read_columns "name" "email" Hw. vm_compute in Hid, Hflag. simplify_eq. eexists _, _. split; [reflexivity|].
    exact (e_alters rows d id (λ r, set_field (set_field r "UpdatedAt" (VTime u1 u2)) "Email" (VString email)) _ Hrow Hd).
  - intros id r rows d _ Hd Hr. by eapply e_deletes.
Qed.

Lemma hooks_row_ok id a b name email :
  row_ok hooks_User_type hooks_info hooks_zero (any_row id (a, 0)%Z (b, 0)%Z false false "Name" (VString name) "Email" (VString email)).
Proof.
  split; [repeat (constructor || apply ft_embed)|]. split; [done|].
  eexists _, (any_row id (a, 0)%Z (b, 0)%Z false false "Name" (VString name) "Email" (VString email)).
  split; [vm_compute; reflexivity|]. split; [vm_compute; reflexivity|done].
Qed.

Definition hooks_start : world local_client edb := MkWorld empty_client NewCacheIndex (MkEdb ∅ 1).

Lemma hooks_started : coherent hooks_User_type hooks_info hooks_zero all_family e_ok all_answer ∅ hooks_start.
Proof. apply started_coherent. split; done. Qed.

Lemma hooks_demo_correct_witness :
  ∃ a w', coherent hooks_User_type hooks_info hooks_zero all_family e_ok all_answer
    (<[a := hooks_row a (clock 0) (clock 3) false "Alice" "alice_updated@example.com"]> ∅) w' ∧
    (hooks_demo (DH := unit) (CH := unit) clock hooks_info (MkHooked (register_listeners ∅) hooks_start)).1.1 =
      MkHooked (register_listeners ∅) w'.
Proof.
  destruct (hooks_demo_correct (DH := unit) (CH := unit) clock (λ n, (100 + Z.of_nat n, 0)%Z) ltac:(reflexivity) all_family e_ok all_answer
    hooks_model_ok hooks_queries_ok (edb_ok hooks_User_type hooks_info hooks_zero hooks_columns ltac:(reflexivity) ltac:(reflexivity))
    hooks_writes_ok ltac:(intros id c t name email _; apply (hooks_row_ok id (100 + Z.of_nat c) (100 + Z.of_nat t))) ∅ hooks_start hooks_started)
    as (a&b&w'&_&_&_&_&_&Hc&Hrun).
  exists a, w'. rewrite Hrun. split; [exact Hc|reflexivity].
Defined.

(** The lines of the whole program, and the rows it leaves. *)
Example hooks_lines :
  let '(s, out, e) := hooks_main () () clock (Ok ()) (Ok ()) (Ok ()) (MkHooked ∅ hooks_start) in
  out =
    [Shown "Alice saved successfully." [hooks_row 1 (clock 0) (clock 0) false "Alice" "alice@example.com"];
     Shown "Bob saved successfully." [hooks_row 2 (clock 1) (clock 1) false "Bob" "valid_hook@example.com"];
     Failed "Expected error saving AbortMe" abort_error;
     Shown "Alice updated successfully." [hooks_row 1 (clock 0) (clock 3) false "Alice" "alice_updated@example.com"];
     Text "Bob deleted successfully."; Text "--- Hooks Example Finished ---"] ∧
  map_to_list (e_rows (w_db (hk_world s))) = [(1%Z, hooks_row 1 (clock 0) (clock 3) false "Alice" "alice_updated@example.com")] ∧
  e = Going ().
Proof. vm_compute. done. Qed.

(** Bob's address is corrected. *)
Lemma hooks_listeners_witness :
  Save hooks_info hooks_zero 0 (register_listeners ∅) (clock 0) (hooks_row 0 zero_time zero_time false "Bob" "invalid@example.com") hooks_start =
  Save hooks_info hooks_zero 0 ∅ (clock 0) (hooks_row 0 zero_time zero_time false "Bob" "valid_hook@example.com") hooks_start.
Proof.
  destruct (hooks_listeners hooks_info hooks_zero 0 (clock 0) 0 zero_time zero_time false "Bob" "invalid@example.com" hooks_start)
    as (_&Hn&_). apply Hn. discriminate.
Defined.

(** ** 05_relationships *)

Record rdb := MkRdb { r_tables : gmap string (gmap Z gostruct); r_next : Z }.

Definition table_of (q : string) : string :=
  default "" (head (filter (λ t, Contains q (dquote t) = true) ["users"; "books"; "roles"; "user_roles"])).
Definition r_rows (d : rdb) (t : string) : gmap Z gostruct := default ∅ (r_tables d !! t).

(** The row of an INSERT: the columns come in the order of the fields. *)
Definition r_inserted (zero : gostruct) (id : Z) (args : list (option goval)) : gostruct :=
  let names := (["CreatedAt"; "UpdatedAt"; "Deleted"] ++ omap (λ f, match f with FVal n _ => Some n | _ => None end) zero)%list in
  foldl (λ m na, match na.2 with Some v => set_field m na.1 v | None => m end) (SetID id zero) (zip names args).

Definition r_ids (args : list (option goval)) : list Z :=
  arg_ids (args ≫= λ a, match a with Some (VSlice _ (Some l)) => Some <$> l | a => [a] end).
Definition r_selected (t : string) (args : list (option goval)) (r : gostruct) : bool :=
  if (t =? "roles")%string then bool_decide (GetID r ∈ r_ids args)
  else match FieldByName r "UserID" with Some (VInt _ u) => bool_decide ([u] = r_ids args) | _ => false end.
Definition r_select (t : string) (args : list (option goval)) (d : rdb) : list Z :=
  merge_sort Z.le (elements (dom (filter (λ ir : Z * gostruct, r_selected t args ir.2 = true) (r_rows d t)))).

Definition r_exec (zero : gostruct) (q : string) (args : list (option goval)) (d : rdb) : rdb * result exec_result :=
  if HasPrefix q "INSERT"
  then (MkRdb (<[table_of q := <[r_next d := r_inserted zero (r_next d) args]> (r_rows d (table_of q))]> (r_tables d)) (r_next d + 1),
        Ok (MkExec (Ok (r_next d)) 1))
  else (d, Ok (MkExec (Ok 0%Z) 0)).

Definition rdb_adapter (fs : list sfield) (zero : gostruct) : DBAdapter rdb := {|
  db_dialect := SQLiteDialector;
  db_SelectIDs q args d := (d, Ok (r_select (table_of q) args d));
  db_SelectModels q args d := (d, Ok (omap (λ id, r_rows d (table_of q) !! id) (arg_ids args)));
  db_GetModel q args d := (d, Err ErrNotFound);
  db_GetCount t q args d := (d, Ok (Z.of_nat (length (r_select t args d))));
  db_Exec := r_exec zero;
  db_Begin d := (d, Ok ());
  db_Commit d := (d, Ok ());
  db_Rollback d := (d, Ok ())
|}.

Definition rel_start : world local_client rdb := MkWorld empty_client NewCacheIndex (MkRdb ∅ 1).

(** A record that was created at a time and not changed. *)
Definition at_time (t : nat) (id : Z) (m : gostruct) : gostruct :=
  setNewRecordFlagIfBaseModel false (SetID id (setUpdatedAtTimestamp (clock t) (setCreatedAtTimestamp (clock t) m))).

(** The program prints the books and the roles of Alice, through one list for each and the
    records of the cache: the four tables share it. *)
Example relationships_lines :
  let '(_, out, e) := relationships_main rdb_adapter () () clock ∅ (Ok ()) rel_start in
  out =
    [Shown "User's books:" [at_time 1 2 (rel_Book "Go 101" 1); at_time 2 3 (rel_Book "Advanced Go" 1)];
     Shown "User's roles:" [at_time 5 6 (rel_UserRole 1 4); at_time 6 7 (rel_UserRole 1 5)];
     Shown "Roles:" [at_time 3 4 (rel_Role "Admin"); at_time 4 5 (rel_Role "Editor")];
     Shown "User JSON:" [at_time 0 1 (rel_User "Alice")]] ∧ e = Going ().
Proof. vm_compute. done. Qed.
